(* ===== verification/_CoqProject ===== *)
-Q . S2P
Prelude.v
Keyed.v
Cstr.v
Calendar.v
Sockets.v
Json.v
Random.v
Arr.v
Wire.v
Proto.v
SsText.v
Fs.v
Log.v
SsState.v
SsSession.v
SsTables.v
SsServer.v
SsConcurrent.v
SsStart.v
SsTypes.v
SsRestart.v
NmState.v
NmPersist.v
NmServer.v
NmFrame.v
NmRequests.v
NmReplica.v
NmSystem.v
NmThreads.v
NmInterleave.v
NmConcurrent.v
NmStart.v
NmRpc.v
CliInput.v
CliScreen.v
CliState.v
CliListing.v
CliCommand.v
CliMain.v
CliRequests.v
CliViews.v
EndToEnd.v
EndToEndWrite.v
EndToEndStart.v
