(* ===== verification/Prelude.v ===== *)
(** * CoWrite: a verification library for the collaborative document store

    ** The program

    CoWrite is three C programs.  The _name manager_ ([nm/]) knows which documents exist, who
    may use them and which storage servers hold them.  A _storage server_ ([ss/]) keeps the
    documents on disk and serves reading, streaming and writing.  The _client_ ([client/]) is
    a command line.  They exchange flat JSON objects in length-prefixed frames ([common/]).
    A request goes from the client to the name manager; for reading and writing, the name
    manager announces a one-time ticket to the primary server of the document and sends the
    client there with it.  A writer locks one sentence, edits its words and commits; the
    commit merges the sentence into the document as it is by then.  Every document has a
    backup server, to which the name manager has the primary's content copied, and to which
    it turns when the primary is gone.

    ** Files

    - [Prelude]: tactics, the hint database and the generic lemmas.  [Keyed]: an array of
      entries with a key as a finite map, used for every table that is such an array.
    - [Cstr]: C strings and the functions of the C library the programs use.  [Calendar]:
      the dates [gmtime_r] gives.
    - [Json]: [common/json_util.c], escaping and the field scanners; [render_obj] is the
      object with given fields, and the scanners are look-ups on it.
    - [Arr]: [common/array.c].  [Wire]: [common/net_proto.c], frames over a byte stream;
      [Sockets]: its other half, opening and closing sockets.  [Random]: [common/randutil.c].
      [Log]: [common/log.c] and the log functions of the servers.
    - [Proto]: [common/error.c] and the replies ([send_ok], [send_error_response],
      [parse_status]) of the three main files.
    - [Fs]: files, failing system calls and [load_text], [store_text_atomic],
      [valid_filename] of [ss/ss_main.c].
    - [SsText], [SsSession], [SsTables], [SsServer]: [ss/ss_main.c], namely splitting and
      joining text, write sessions and the commit, tickets and sentence locks, and the
      request handlers of both connections with checkpoints, undo and replication.
      [SsState]: [ss/ss_state.c], the sorted table of documents with its metadata files.
      [SsConcurrent]: the threads of the data connections and the commands of the name
      manager as a step relation.  [SsStart]: start-up, registration and main loop.
      [SsTypes]: what the arrays of the tables hold.  [SsRestart]: the tables after a restart.
    - [NmState], [NmPersist]: [nm/nm_state.c], the tables with their hash chains and cache,
      and the state file.
    - [NmServer]: the client requests of [nm/nm_main.c]; [NmFrame]: what requests leave alone;
      [NmRequests]: what they may do.
      [NmReplica]: replication, registration and fail-over.  [NmSystem]: connections and
      threads as a machine whose steps are the handlers.  [NmThreads]: the handlers as
      programs of critical sections and unlocked accesses; [NmInterleave]: what a request may do
      when others run between its steps; [NmConcurrent]: all threads with the state lock, step by
      step.  [NmStart]: start-up, the accept loop and shutdown around the machine of [NmSystem].  [NmRpc]: [forward_command] against
      the thread that receives the answers, critical section by critical section.
    - [CliInput]: [client/cli_input.c], the line editor; [CliScreen]: the same with the modes of
      the terminal and the screen.  [CliState], [CliListing],
      [CliCommand], [CliMain]: [client/cli_main.c], in a state monad: the building blocks,
      the listings, the commands and sessions, and parsing, main loop and handshake.
      [CliRequests]: what is sent for a typed command, and that the loops end.
    - [CliViews]: client and name manager together; [EndToEnd], [EndToEndWrite]: a read and
      a write through the three programs; [EndToEndStart]: a storage server registers.

    A definition carries the name of the C function it models; a part of a long function,
    such as the body of a loop, has a name of its own.  A structure is a record with the
    fields of the source.

    ** What the theorems show

    - Documents: a commit leaves the document a specification allows ([commits]: the edited
      sentence replaced where it is found, the conflict reported where it is not), with the
      text before it in the undo file, or leaves the document alone
      ([write_session_commit_refines]); words are inserted where they are asked for
      ([write_session_insert_words]); writers of different sentences keep each other's
      edits, as long as they keep their delimiters ([disjoint_commits]); replacing a file is atomic under failures and crashes
      ([store_text_atomic_atomic]); undo and checkpoints restore ([undo_restores],
      [checkpoint_revert_restores]).
    - Locks and tickets: at most one writer per sentence in every reachable state
      ([sentence_mutual_exclusion]), invariants kept by every request
      ([requests_keep_invariant]), every array holds what fits it ([storage_server_typed]), no
      data without a ticket ([no_ticket_no_access]), each ticket used once
      ([ticket_single_use]).
    - Start and end: a storage server serves only after its registration, and cleans up
      ([storage_server_life]); after a restart its table is the one it had
      ([restart_restores]); the name manager takes and gives back its locks, slots and
      descriptors when it ends ([nm_lifecycle]); the two agree on what was registered
      ([registration_agreed]); opening a connection loses no descriptor
      ([sockets_balanced]).
    - Name manager: its tables are finite maps ([nm_table_refines_map], [nm_access_spec]);
      requests change only what the user's rights permit ([nm_requests_authorised]), also when
      others run between their steps ([interleaved_requests_authorised]); the programs of steps,
      run alone, are the handlers (the lemma [threads_refine_handlers]); the lock keeps the
      threads apart and names of sessions are unique at every moment, in runs without
      the accesses that no lock guards meeting others ([threads_sessions_exclusive]); the state survives a restart ([nm_state_save_load]); fail-over, replication and its end
      ([nm_failover], [nm_replication_round], [nm_replication_terminates]); answers on a
      control connection with one caller at a time ([rpc_own_answers]).
    - Client: every command can be typed ([command_line_parses]), what is typed is what is
      asked ([typed_requests_read]), what is shown is what the tables hold
      ([requests_shown], [files_listed]), and the loops end ([client_loops_end], and
      [readline_terminates] for the line editor); what stays on the screen is the line that is
      handed over, on a row that is wide enough ([readline_on_screen]).
    - The three programs together: a reader is shown the text the server's file holds
      ([reader_gets_text]), and the edits a writer types are the edits the server commits
      ([typed_edits_committed]).
    - Foundations: frames and fields round trip ([net_frames_roundtrip], [json_get_field],
      [error_reply_roundtrip]), no event is lost from a log ([log_keeps_events]), buffers are
      not overrun ([json_get_string_alloc_safe]),
      the array is a list ([array_refines_list]), the sorted table a map
      ([ss_state_refines_map], [ss_state_load_restores]), splitting and joining normalise
      ([splitting_normalises]).
    - Where the code does not do what it means to: [failed_read_loses_document],
      [finished_writer_unlocks_document], [interleaved_commits_lose_update],
      [rpc_answers_mixed], and lemmas next to the definitions
      ([recv_overflow_iff], [store_text_destroys_tmp_document], [concurrent_senders_corrupt],
      [close_retry_closes_other], [locks_initialised_twice], [failed_start_closes_stdin],
      [late_reset_drops_connection], [late_reset_ends_session], [surplus_unlock_admits],
      [silent_connection_keeps_running], [long_line_stays], [dropped_delimiter_order], [deleted_without_right], [command_lost_while_registering], [long_storage_directory],
      [reconnected_server_marked_down], [stale_task_hides_new], [blank_in_name_changes_owner],
      [brace_hides_document], [write_index_wraps] and others).

    ** Conventions, bounds and fuel

    - A string is a list of characters without its NUL.  A call of [snprintf] into a buffer
      is [snprintf_s] where the result is cut off and [fit] where the code checks it.
      Integers are [Z] with the wrap-around of [int] and [size_t] written out ([to_int],
      [SIZE_MOD]) where a value can leave its range.
    - Loops over text take fuel: the length of the text, or one more, since a round consumes
      a character at least.  The loops of the client over the keyboard and over arriving messages are
      given one round more than there are characters or messages, and [client_loops_end]
      shows that further rounds change nothing.  Loops over the slots of a table are
      structural or take the number of slots; a hash chain is followed for one
      step more than there are documents, enough because [nm_ok] says chains do not repeat.  The
      retries of [obtain_ticket_for_file] are two, as in the code.  The replication worker
      has no bound of its own: [nm_replication_terminates] bounds the rounds until the queue
      is empty or a copy fails to be assigned, after which the code queues it again.
    - The clock is an argument, read once per request.  Random tokens, the answers of the
      other side, and the outcomes of system calls are lists in the state, consumed in the
      order of the calls; where such a list is used up, calls succeed.
    - An uninitialised variable is an argument: [last_user] of a file update, and the flag that
      [write_session_commit] reads after the jump over its initialisation ([merged_init]); when that
      flag is not 0 the commit frees an array that was never set up, and has no outcome.  The
      requests of [SsServer] are stated for the flag 0.
    - The operation of a shell command, of another storage server's data port, and of
      [strerror] are parameters of the definitions that use them.

    ** Not modelled

    - Failing [malloc] outside [Arr] and [Wire], and failing mutex operations.
    - What happens after a race: in [NmConcurrent] an access to the tables may leave anything when
      another thread has been in them at the same time, and a slot that is cleared under a new
      connection is not followed further.  Its theorem is about orderly runs, without the one and
      the other.  In [NmSystem] and [NmStart] handlers run as a whole, and a connection is closed
      and its slot cleared in one step.
      The control connection itself is modelled apart, in [NmRpc].  The storage server's
      interleavings are those of [SsConcurrent].
    - Sends of a storage server fail only for texts that do not fit their buffer.
    - Usage and error messages of the [main] functions, and the names of the local interfaces
      ([socket_local_ip]).
    - NUL characters typed at the keyboard.  What a terminal does beyond its right margin is
      not specified; [screen] is one terminal that wraps.

    ** Extending it

    The parts that would come next are the handlers of the storage server as programs of
    steps, like those of the name manager, connections that fail while a storage server
    answers, and streaming and the checkpoint commands through the three programs. *)

From Stdlib Require Export ZArith Ascii.
From stdpp Require Export base numbers option gmap strings list.
From stdpp Require Import options.

#[global] Unset Default Proof Using.

Declare Scope cowrite_scope.
Delimit Scope cowrite_scope with cw.

(** The lemmas that automate the common cases of the development. *)
Create HintDb cowrite.

(** ** Tactics *)

(** Case analysis on the scrutinee of every [match]/[if] in sight. *)
Ltac break :=
  repeat match goal with
  | H : context [match ?x with _ => _ end] |- _ =>
      lazymatch x with context [match _ with _ => _ end] => fail | _ => destruct x eqn:? end
  | |- context [match ?x with _ => _ end] =>
      lazymatch x with context [match _ with _ => _ end] => fail | _ => destruct x eqn:? end
  end.

(** One case analysis in the goal only. *)
Ltac break_goal :=
  match goal with
  | |- context [match ?x with _ => _ end] =>
      lazymatch x with context [match _ with _ => _ end] => fail | _ => destruct x eqn:? end
  end.

(** Boolean tests of the code as propositions. *)
Ltac bool_to_prop :=
  repeat match goal with
  | H : (_ && _)%bool = true |- _ => apply andb_true_iff in H; destruct H
  | H : (_ || _)%bool = false |- _ => apply orb_false_iff in H; destruct H
  | H : (_ || _)%bool = true |- _ => apply orb_true_iff in H
  | H : (_ && _)%bool = false |- _ => apply andb_false_iff in H
  | H : negb _ = true |- _ => apply negb_true_iff in H
  | H : negb _ = false |- _ => apply negb_false_iff in H
  | H : (_ <? _)%Z = true |- _ => apply Z.ltb_lt in H
  | H : (_ <? _)%Z = false |- _ => apply Z.ltb_ge in H
  | H : (_ <=? _)%Z = true |- _ => apply Z.leb_le in H
  | H : (_ <=? _)%Z = false |- _ => apply Z.leb_gt in H
  | H : (_ =? _)%Z = true |- _ => apply Z.eqb_eq in H
  | H : (_ =? _)%Z = false |- _ => apply Z.eqb_neq in H
  | H : (_ <? _) = true |- _ => apply Nat.ltb_lt in H
  | H : (_ <? _) = false |- _ => apply Nat.ltb_ge in H
  | H : (_ <=? _) = true |- _ => apply Nat.leb_le in H
  | H : (_ <=? _) = false |- _ => apply Nat.leb_gt in H
  | H : (_ =? _) = true |- _ => apply Nat.eqb_eq in H
  | H : (_ =? _) = false |- _ => apply Nat.eqb_neq in H
  | H : bool_decide _ = true |- _ => apply bool_decide_eq_true in H
  | H : bool_decide _ = false |- _ => apply bool_decide_eq_false in H
  end.

(** Solve a goal by case analysis, simplification and arithmetic. *)
Ltac crush :=
  intros; simplify_eq/=; break; bool_to_prop; simplify_eq/=;
  try done; try lia; auto with cowrite; try congruence.

(** ** Machine integers *)

Definition INT_MAX : Z := 2147483647.
Definition INT_MIN : Z := -2147483648.
Definition LONG_MAX : Z := 9223372036854775807.
Definition LONG_MIN : Z := -9223372036854775808.
Definition SIZE_MOD : Z := 18446744073709551616.

(** Conversion to [int], [uint32_t] and [size_t], modulo the width. *)
Definition to_int (z : Z) : Z := (z + 2147483648) `mod` 4294967296 - 2147483648.
Definition to_u32 (z : Z) : Z := z `mod` 4294967296.
Definition to_size (z : Z) : Z := z `mod` SIZE_MOD.

Lemma to_int_range z : (INT_MIN <= to_int z <= INT_MAX)%Z.
Proof. unfold to_int, INT_MIN, INT_MAX. pose proof (Z.mod_pos_bound (z + 2147483648) 4294967296). lia. Qed.

Lemma to_int_id z : (INT_MIN <= z <= INT_MAX)%Z -> to_int z = z.
Proof. unfold to_int, INT_MIN, INT_MAX. intros. rewrite Z.mod_small; lia. Qed.

Lemma to_u32_id z : (0 <= z < 4294967296)%Z -> to_u32 z = z.
Proof. intros. unfold to_u32. by rewrite Z.mod_small. Qed.

Lemma to_size_id z : (0 <= z < SIZE_MOD)%Z -> to_size z = z.
Proof. intros. unfold to_size. by rewrite Z.mod_small. Qed.

(** ** Lists *)

Section Lists.
Context {A : Type}.
Implicit Types (l k : list A).

(** The element a C loop [for (i = 0; i < len; ++i)] stops at: the first
    position whose element satisfies [p], with the element. *)
Fixpoint find_first (p : A -> bool) l : option (nat * A) :=
  match l with
  | [] => None
  | x :: l' => if p x then Some (0, x) else prod_map S id <$> find_first p l'
  end.

Lemma find_first_Some p l i x :
  find_first p l = Some (i, x) <->
  l !! i = Some x /\ p x = true /\ (forall j y, j < i -> l !! j = Some y -> p y = false).
Proof.
  revert i. induction l as [|a l IH]; intros i; simpl.
  { split; [done|]. intros (H & _). by rewrite lookup_nil in H. }
  destruct (p a) eqn:Ha.
  - split.
    + intros [= <- <-]. split_and!; [done|done|lia].
    + intros (Hl & Hp & Hlt). destruct i as [|i]; [by simplify_eq/=|].
      specialize (Hlt 0 a ltac:(lia) eq_refl). congruence.
  - split.
    + intros ([j y] & Hf & Heq)%fmap_Some; simplify_eq/=.
      apply IH in Hf as (Hl & Hp & Hlt). split_and!; [done|done|].
      intros [|j'] y' Hj Hy; simplify_eq/=; [done|]. apply (Hlt j'); [lia|done].
    + intros (Hl & Hp & Hlt). destruct i as [|i]; simplify_eq/=; [congruence|].
      apply fmap_Some. exists (i, x). split; [|done]. apply IH. split_and!; [done|done|].
      intros j y Hj Hy. apply (Hlt (S j)); [lia|done].
Qed.

Lemma find_first_None p l :
  find_first p l = None <-> Forall (fun x => p x = false) l.
Proof.
  induction l as [|a l IH]; simpl; [by split|].
  rewrite Forall_cons. destruct (p a) eqn:Ha.
  - split; [done|]. by intros [? _].
  - rewrite fmap_None, IH. naive_solver.
Qed.

Lemma find_first_app p l k :
  find_first p (l ++ k) =
  match find_first p l with
  | Some r => Some r
  | None => prod_map (Nat.add (length l)) id <$> find_first p k
  end.
Proof.
  induction l as [|a l IH]; simpl.
  { destruct (find_first p k) as [[i x]|]; done. }
  destruct (p a); [done|]. rewrite IH.
  destruct (find_first p l) as [[? ?]|]; simpl; [done|].
  destruct (find_first p k) as [[? ?]|]; done.
Qed.

(** [array_remove] and friends: the list without position [i]. *)
Definition remove_at (i : nat) l : list A := take i l ++ drop (S i) l.

Lemma length_remove_at i l : i < length l -> length (remove_at i l) = length l - 1.
Proof. intros. unfold remove_at. rewrite length_app, length_take, length_drop. lia. Qed.

Lemma remove_at_delete i l : remove_at i l = delete i l.
Proof. unfold remove_at. by rewrite delete_take_drop. Qed.

(** Insertion before position [i]. *)
Definition insert_at (i : nat) (x : A) l : list A := take i l ++ x :: drop i l.

Lemma length_insert_at i x l : i <= length l -> length (insert_at i x l) = S (length l).
Proof. intros. unfold insert_at. rewrite length_app, length_take. simpl. rewrite length_drop. lia. Qed.

Lemma elem_of_insert_at i x y l : y ∈ insert_at i x l <-> y = x \/ y ∈ l.
Proof.
  unfold insert_at. rewrite elem_of_app, elem_of_cons.
  rewrite <- (take_drop i l) at 3. rewrite elem_of_app. tauto.
Qed.

Lemma remove_at_insert_at i x l : i <= length l -> remove_at i (insert_at i x l) = l.
Proof.
  intros. unfold remove_at, insert_at.
  rewrite take_app_le by (rewrite length_take; lia).
  rewrite take_take, Nat.min_id.
  rewrite drop_app_ge by (rewrite length_take; lia).
  rewrite length_take, Nat.min_l by lia.
  replace (S i - i) with 1 by lia. simpl. by rewrite drop_0, take_drop.
Qed.

Lemma lookup_insert_at i x l : i <= length l -> insert_at i x l !! i = Some x.
Proof.
  intros. unfold insert_at. rewrite lookup_app_r by (rewrite length_take; lia).
  rewrite length_take, Nat.min_l, Nat.sub_diag by lia. done.
Qed.

Lemma insert_at_perm i x l : insert_at i x l ≡ₚ x :: l.
Proof. unfold insert_at. rewrite <- Permutation_middle. by rewrite take_drop. Qed.

Lemma elem_of_remove_at i x l : x ∈ remove_at i l -> x ∈ l.
Proof.
  unfold remove_at. rewrite elem_of_app. rewrite <- (take_drop i l) at 3. rewrite elem_of_app.
  intros [?|H]; [by left|]. right. replace (S i) with (i + 1) in H by lia.
  rewrite <- drop_drop in H. destruct (drop i l); [done|]. by right.
Qed.
End Lists.

#[export] Hint Rewrite @length_remove_at @length_insert_at using lia : cowrite.
#[export] Hint Resolve elem_of_remove_at to_int_range : cowrite.
