(* ===== verification/Keyed.v ===== *)
(** * Arrays of entries with a key field

    The tables of the program are arrays with a count: an entry is found by a linear
    search for its key, changed in its slot, appended, or removed by moving the last
    entry into its slot.  When the keys are unique the array is a finite map, and each
    of these is the corresponding operation on the map. *)

From S2P Require Import Prelude.

(** The last entry moves to the freed slot. *)
Definition swap_remove {A} (i : nat) (l : list A) : list A :=
  match last l with
  | Some x => take (length l - 1) (<[i := x]> l)
  | None => l
  end.

Section SwapRemove.
Context {A : Type}.
Implicit Types (l : list A).

Lemma swap_remove_perm i x l : l !! i = Some x -> l ≡ₚ x :: swap_remove i l.
Proof.
  intros Hi. unfold swap_remove. destruct l as [|y l _] using rev_ind; [done|].
  rewrite last_snoc, length_app. cbn [length]. replace (length l + 1 - 1) with (length l) by lia.
  apply lookup_snoc_Some in Hi as [[Hlt Hi]|[-> ->]].
  - rewrite insert_app_l, take_app_le by (rewrite ?length_insert; lia). rewrite take_ge by (rewrite length_insert; lia).
    rewrite <- Permutation_cons_append, (insert_take_drop l i y Hlt), <- Permutation_middle.
    etransitivity; [apply Permutation_skip, (delete_Permutation l i x Hi)|]. rewrite delete_take_drop. apply Permutation_swap.
  - rewrite insert_app_r_alt, Nat.sub_diag, take_app_length by lia. symmetry. apply Permutation_cons_append.
Qed.

Lemma length_swap_remove i l : i < length l -> length (swap_remove i l) = length l - 1.
Proof.
  intros Hi. unfold swap_remove. destruct (last l) as [x|] eqn:E; [rewrite length_take, length_insert; lia|].
  apply last_None in E as ->. simpl in Hi. lia.
Qed.

Lemma delete_alter (f : A -> A) i l : delete i (alter f i l) = delete i l.
Proof. revert i. induction l as [|x l IH]; intros [|i]; simpl; [done..|]. f_equal. apply IH. Qed.

Lemma delete_insert i x l : delete i (<[i := x]> l) = delete i l.
Proof. revert i. induction l as [|y l IH]; intros [|i]; simpl; [done..|]. f_equal. apply IH. Qed.
End SwapRemove.

Section Keyed.
Context {A V : Type} {K : Type} `{Countable K} (key : A -> K) (val : A -> V).
Implicit Types (l : list A).

Definition key_is (k : K) (x : A) : bool := bool_decide (key x = k).
Definition keyed l : gmap K V := list_to_map ((fun x => (key x, val x)) <$> l).

Lemma keyed_cons x l : keyed (x :: l) = <[key x := val x]> (keyed l).
Proof. done. Qed.

(** The linear search is the look-up. *)
Lemma find_first_keyed k l : (fun r => val (snd r)) <$> find_first (key_is k) l = keyed l !! k.
Proof.
  induction l as [|x l IH]; [done|]. rewrite keyed_cons. cbn [find_first].
  unfold key_is at 1. destruct (bool_decide_reflect (key x = k)) as [->|Hne].
  - by rewrite lookup_insert_eq.
  - rewrite lookup_insert_ne, <- IH by done. by destruct (find_first (key_is k) l) as [[i y]|].
Qed.

Lemma find_first_key k l i x : find_first (key_is k) l = Some (i, x) -> l !! i = Some x /\ key x = k.
Proof. intros (Hi & Hk & _)%find_first_Some. unfold key_is in Hk. by apply bool_decide_eq_true in Hk. Qed.

Lemma find_first_key_None k l : find_first (key_is k) l = None <-> k ∉ key <$> l.
Proof.
  rewrite find_first_None, Forall_forall, list_elem_of_fmap. unfold key_is. split.
  - intros Hf (x & -> & Hx). specialize (Hf x Hx). by apply bool_decide_eq_false in Hf.
  - intros Hn x Hx. apply bool_decide_eq_false. intros <-. apply Hn. by exists x.
Qed.

Lemma keyed_None k l : k ∉ key <$> l <-> keyed l !! k = None.
Proof. rewrite <- find_first_keyed, <- find_first_key_None, fmap_None. done. Qed.

Lemma keyed_perm l l' : NoDup (key <$> l) -> l ≡ₚ l' -> keyed l = keyed l'.
Proof. intros Hnd Hp. apply list_to_map_proper; [by rewrite <- list_fmap_compose|by rewrite Hp]. Qed.

Lemma keyed_size l : NoDup (key <$> l) -> size (keyed l) = length l.
Proof.
  intros Hnd. unfold keyed. rewrite map_size_list_to_map by (by rewrite <- list_fmap_compose). by rewrite length_fmap.
Qed.

Lemma keyed_update i x y l :
  NoDup (key <$> l) -> l !! i = Some x -> key y = key x ->
  NoDup (key <$> <[i := y]> l) /\ keyed (<[i := y]> l) = <[key x := val y]> (keyed l).
Proof.
  intros Hnd Hi Hk. pose proof (delete_Permutation l i x Hi) as P.
  assert (<[i := y]> l ≡ₚ y :: delete i l) as P'.
  { rewrite (delete_Permutation (<[i := y]> l) i y), delete_insert; [done|].
    apply list_lookup_insert_eq. by eapply lookup_lt_Some. }
  assert (NoDup (key <$> <[i := y]> l)) as Hnd'.
  { rewrite P'. cbn. rewrite Hk. change (NoDup (key <$> x :: delete i l)). by rewrite <- P. }
  split; [done|]. rewrite (keyed_perm _ _ Hnd P), (keyed_perm _ _ Hnd' P'), !keyed_cons, Hk.
  by rewrite insert_insert_eq.
Qed.

(** Changing neither key nor value. *)
Lemma keyed_touch i x y l : l !! i = Some x -> key y = key x -> val y = val x ->
  key <$> <[i := y]> l = key <$> l /\ keyed (<[i := y]> l) = keyed l.
Proof.
  intros Hi Hk Hv. unfold keyed. rewrite !list_fmap_insert, Hk, Hv.
  by rewrite !list_insert_id by (by rewrite list_lookup_fmap, Hi).
Qed.

Lemma keyed_snoc x l :
  NoDup (key <$> l) -> key x ∉ key <$> l ->
  NoDup (key <$> (l ++ [x])) /\ keyed (l ++ [x]) = <[key x := val x]> (keyed l).
Proof.
  intros Hnd Hx. assert (l ++ [x] ≡ₚ x :: l) as P by (symmetry; apply Permutation_cons_append).
  assert (NoDup (key <$> (l ++ [x]))) as Hnd' by (rewrite P; by constructor).
  split; [done|]. by rewrite (keyed_perm _ _ Hnd' P).
Qed.

Lemma keyed_swap_remove i x l :
  NoDup (key <$> l) -> l !! i = Some x ->
  NoDup (key <$> swap_remove i l) /\ keyed (swap_remove i l) = delete (key x) (keyed l).
Proof.
  intros Hnd Hi. pose proof (swap_remove_perm i x l Hi) as P. pose proof Hnd as Hnd'. rewrite P in Hnd'.
  apply NoDup_cons in Hnd' as [Hx Hnd']. split; [done|].
  rewrite (keyed_perm _ _ Hnd P), keyed_cons. rewrite delete_insert_id; [done|]. by apply keyed_None.
Qed.
End Keyed.

#[export] Hint Rewrite @length_swap_remove using done : cowrite.
