(* ===== verification/Cstr.v ===== *)
(** * C strings and the C library routines the sources call

    A C string is the list of its characters before the terminating NUL.  This
    file models what the programs use of [<string.h>], [<stdlib.h>], [<ctype.h>]
    and [<stdio.h>]: [strcmp], [strstr], [strchr], [isspace], [strtol] and its
    relatives, and the [%s], [%d], [%ld] and [%zu] conversions with the
    truncation [snprintf] performs. *)

From S2P Require Import Prelude.

Notation cstr := (list ascii).

(** ** Literals *)

Definition cs (s : String.string) : cstr := String.list_ascii_of_string s.
Arguments cs s%_string_scope.

Definition dquote : ascii := "034"%char.
Definition bslash : ascii := "092"%char.
Definition newline : ascii := "010"%char.
Definition creturn : ascii := "013"%char.
Definition tab : ascii := "009"%char.

(** [js] is [cs] with every quote ['] standing for a double quote, so that the
    JSON templates of the sources read as they do there. *)
Definition js (s : String.string) : cstr :=
  map (fun c => if ascii_dec c "'"%char then dquote else c) (cs s).
Arguments js s%_string_scope.

(** Equality of texts assembled from literals and variables. *)
Ltac solve_text := repeat progress (cbn; rewrite <- ?app_assoc); reflexivity.

(** ** Characters *)

(** The value of a character as an [unsigned char]. *)
Definition code (c : ascii) : Z := Z.of_N (N_of_ascii c).

Definition is_space (c : ascii) : bool :=
  ((code c =? 32) || ((9 <=? code c) && (code c <=? 13)))%Z.
Definition is_digit (c : ascii) : bool := ((48 <=? code c) && (code c <=? 57))%Z.
Definition digit_val (c : ascii) : Z := (code c - 48)%Z.
Definition digit_char (d : Z) : ascii := ascii_of_N (Z.to_N (d + 48)).

Lemma code_inj c d : code c = code d -> c = d.
Proof.
  unfold code. intros H%N2Z.inj. rewrite <- (ascii_N_embedding c), <- (ascii_N_embedding d).
  by rewrite H.
Qed.

Lemma code_range c : (0 <= code c < 256)%Z.
Proof. unfold code. pose proof (N_ascii_bounded c). lia. Qed.

Lemma code_digit_char d : (0 <= d <= 9)%Z -> code (digit_char d) = (d + 48)%Z.
Proof. intros. unfold code, digit_char. rewrite N_ascii_embedding; lia. Qed.

Lemma is_digit_char d : (0 <= d <= 9)%Z -> is_digit (digit_char d) = true.
Proof. intros. unfold is_digit. rewrite code_digit_char by lia. lia. Qed.

Lemma digit_val_char d : (0 <= d <= 9)%Z -> digit_val (digit_char d) = d.
Proof. intros. unfold digit_val. rewrite code_digit_char; lia. Qed.

Lemma is_digit_not_space c : is_digit c = true -> is_space c = false.
Proof. unfold is_digit, is_space. lia. Qed.

(** ** Scanning *)

Section Scan.
Context {A : Type}.
Implicit Types (p : A -> bool) (l : list A).

Fixpoint take_while p l : list A :=
  match l with [] => [] | x :: l' => if p x then x :: take_while p l' else [] end.
Fixpoint drop_while p l : list A :=
  match l with [] => [] | x :: l' => if p x then drop_while p l' else l end.

Lemma take_drop_while p l : take_while p l ++ drop_while p l = l.
Proof. induction l as [|x l IH]; simpl; [done|]. destruct (p x); simpl; congruence. Qed.

Lemma take_while_all p l : Forall (fun x => p x = true) (take_while p l).
Proof. induction l as [|x l IH]; simpl; [done|]. destruct (p x) eqn:?; auto. Qed.

Lemma drop_while_head p l x l' : drop_while p l = x :: l' -> p x = false.
Proof. induction l as [|y l IH]; simpl; [done|]. destruct (p y) eqn:?; naive_solver. Qed.

Lemma take_while_app_stop p l k :
  Forall (fun x => p x = true) l -> (forall x k', k = x :: k' -> p x = false) ->
  take_while p (l ++ k) = l.
Proof.
  induction 1 as [|x l Hx Hl IH]; simpl; intros Hk.
  - destruct k as [|y k]; simpl; [done|]. by rewrite (Hk y k).
  - rewrite Hx. by rewrite IH.
Qed.

Lemma drop_while_app_stop p l k :
  Forall (fun x => p x = true) l -> (forall x k', k = x :: k' -> p x = false) ->
  drop_while p (l ++ k) = k.
Proof.
  induction 1 as [|x l Hx Hl IH]; simpl; intros Hk.
  - destruct k as [|y k]; simpl; [done|]. by rewrite (Hk y k).
  - rewrite Hx. by apply IH.
Qed.

Lemma length_drop_while p l : length (drop_while p l) <= length l.
Proof. induction l as [|x l IH]; simpl; [done|]. destruct (p x); simpl; lia. Qed.
End Scan.

(** The part of a buffer before its first NUL: what [strlen] and [%s] see. *)
Definition c_str (l : list ascii) : cstr := take_while (fun c => negb (bool_decide (c = "000"%char))) l.

Definition no_nul (s : cstr) : Prop := Forall (fun c => c <> "000"%char) s.

Lemma c_str_id s : no_nul s -> c_str s = s.
Proof.
  intros H. rewrite <- (app_nil_r s) at 1. apply take_while_app_stop; [|done].
  eapply Forall_impl; [exact H|]. intros c Hc. simpl. by rewrite bool_decide_false.
Qed.

Lemma no_nul_c_str s : no_nul (c_str s).
Proof.
  eapply Forall_impl; [apply take_while_all|]. intros c. simpl. rewrite negb_true_iff.
  by intros ?%bool_decide_eq_false.
Qed.

(** [snprintf(buf, size, "%s", s)]: at most [size - 1] characters are kept. *)
Definition snprintf_s (size : nat) (s : cstr) : cstr := take (size - 1) s.

Lemma snprintf_s_id size s : length s < size -> snprintf_s size s = s.
Proof. intros. unfold snprintf_s. apply take_ge. lia. Qed.

Lemma length_snprintf_s size s : length (snprintf_s size s) <= size - 1.
Proof. unfold snprintf_s. rewrite length_take. lia. Qed.

(** ** Comparison *)

Fixpoint strcmp (a b : cstr) : comparison :=
  match a, b with
  | [], [] => Eq
  | [], _ :: _ => Lt
  | _ :: _, [] => Gt
  | x :: a', y :: b' =>
      match (code x ?= code y)%Z with Eq => strcmp a' b' | c => c end
  end.

(** [strcmp(a, b) == 0] *)
Definition streq (a b : cstr) : bool := bool_decide (a = b).

Lemma strcmp_eq a b : strcmp a b = Eq <-> a = b.
Proof.
  revert b. induction a as [|x a IH]; intros [|y b]; simpl; try done.
  destruct (Z.compare_spec (code x) (code y)) as [E|E|E].
  - apply code_inj in E as ->. rewrite IH. naive_solver.
  - split; [done|]. intros [= -> ->]. lia.
  - split; [done|]. intros [= -> ->]. lia.
Qed.

Lemma strcmp_refl a : strcmp a a = Eq.
Proof. by apply strcmp_eq. Qed.

Lemma strcmp_opp a b : strcmp b a = CompOpp (strcmp a b).
Proof.
  revert b. induction a as [|x a IH]; intros [|y b]; simpl; try done.
  rewrite (Z.compare_antisym (code x)). destruct (code x ?= code y)%Z; simpl; auto.
Qed.

Lemma strcmp_lt_trans a b c : strcmp a b = Lt -> strcmp b c = Lt -> strcmp a c = Lt.
Proof.
  revert b c. induction a as [|x a IH]; intros [|y b] [|z c]; simpl; try done.
  destruct (Z.compare_spec (code x) (code y)) as [E1|E1|E1];
  destruct (Z.compare_spec (code y) (code z)) as [E2|E2|E2];
  destruct (Z.compare_spec (code x) (code z)) as [E3|E3|E3]; try done; try lia; eauto.
Qed.

(** ** Searching *)

Fixpoint starts_with (pat s : cstr) : bool :=
  match pat, s with
  | [], _ => true
  | p :: pat', c :: s' => bool_decide (p = c) && starts_with pat' s'
  | _ :: _, [] => false
  end.

(** [strstr]: the suffix that starts at the first occurrence. *)
Fixpoint strstr (s pat : cstr) : option cstr :=
  if starts_with pat s then Some s
  else match s with [] => None | _ :: s' => strstr s' pat end.

(** [strchr]: the suffix that starts at the first occurrence of [c]. *)
Definition strchr (s : cstr) (c : ascii) : option cstr :=
  match drop_while (fun x => negb (bool_decide (x = c))) s with [] => None | s' => Some s' end.

Definition has_char (x : ascii) (s : cstr) : bool := match strchr s x with Some _ => true | None => false end.

Lemma starts_with_spec pat s : starts_with pat s = true <-> exists s', s = pat ++ s'.
Proof.
  revert s. induction pat as [|p pat IH]; intros [|c s]; simpl.
  - naive_solver.
  - naive_solver.
  - naive_solver.
  - rewrite andb_true_iff, bool_decide_eq_true, IH. naive_solver.
Qed.

Lemma starts_with_app pat s : starts_with pat (pat ++ s) = true.
Proof. apply starts_with_spec. eauto. Qed.

Lemma strstr_here s pat : starts_with pat s = true -> strstr s pat = Some s.
Proof. intros H. destruct s; simpl in *; by rewrite H. Qed.

(** Skipping a segment in which no occurrence starts. *)
Lemma strstr_skip seg rest pat :
  (forall i, i < length seg -> starts_with pat (drop i seg ++ rest) = false) ->
  strstr (seg ++ rest) pat = strstr rest pat.
Proof.
  induction seg as [|c seg IH]; intros H; simpl; [done|].
  pose proof (H 0 ltac:(simpl; lia)) as H0. simpl in H0. rewrite H0.
  apply IH. intros i Hi. apply (H (S i)). simpl. lia.
Qed.

Lemma strstr_None_iff s pat :
  strstr s pat = None <-> forall i, i <= length s -> starts_with pat (drop i s) = false.
Proof.
  induction s as [|c s IH]; simpl.
  - split.
    + intros H i Hi. assert (i = 0) as -> by lia. simpl. by destruct (starts_with pat []).
    + intros H. pose proof (H 0 ltac:(lia)) as H0. simpl in H0. by rewrite H0.
  - split.
    + intros H [|i] Hi; simpl; destruct (starts_with pat (c :: s)) eqn:E; try done.
      apply IH; [done|lia].
    + intros H. pose proof (H 0 ltac:(lia)) as H0. simpl in H0. rewrite H0.
      apply IH. intros i Hi. apply (H (S i)). lia.
Qed.

(** ** Letter case *)

Definition to_lower (x : ascii) : ascii :=
  if ((65 <=? code x) && (code x <=? 90))%Z then ascii_of_N (N_of_ascii x + 32) else x.
Definition to_upper (x : ascii) : ascii :=
  if ((97 <=? code x) && (code x <=? 122))%Z then ascii_of_N (N_of_ascii x - 32) else x.

(** [strcasecmp(a, b) == 0] *)
Definition streq_nocase (a b : cstr) : bool := streq (to_lower <$> a) (to_lower <$> b).

(** ** Decimal conversions *)

Fixpoint dec_loop (fuel : nat) (n : Z) (acc : cstr) : cstr :=
  match fuel with
  | O => acc
  | S f =>
      let acc' := digit_char (n `mod` 10) :: acc in
      if (n <? 10)%Z then acc' else dec_loop f (n `div` 10) acc'
  end.

(** [%zu] of a nonnegative number; a number has fewer digits than bits. *)
Definition show_nonneg (n : Z) : cstr := dec_loop (S (Z.to_nat (Z.log2 n))) n [].
(** [%d] and [%ld]. *)
Definition show_Z (z : Z) : cstr :=
  if (z <? 0)%Z then "-"%char :: show_nonneg (- z) else show_nonneg z.

Definition digits_val (ds : cstr) : Z := foldl (fun acc c => acc * 10 + digit_val c)%Z 0%Z ds.

Definition clamp (lo hi z : Z) : Z := Z.max lo (Z.min hi z).

(** Sign and digits after the leading white space; [None] when there are no digits. *)
Definition scan_number (s : cstr) : option (bool * Z * cstr) :=
  let s1 := drop_while is_space s in
  let '(neg, s2) :=
    match s1 with
    | c :: t => if bool_decide (c = "-"%char) then (true, t)
                else if bool_decide (c = "+"%char) then (false, t) else (false, s1)
    | [] => (false, s1)
    end in
  match take_while is_digit s2 with
  | [] => None
  | ds => Some (neg, digits_val ds, drop_while is_digit s2)
  end.

(** [strtol(s, &end, 10)]: the value, saturated, and [end]. *)
Definition strtol (s : cstr) : Z * cstr :=
  match scan_number s with
  | None => (0%Z, s)
  | Some (neg, v, rest) => (clamp LONG_MIN LONG_MAX (if neg then - v else v)%Z, rest)
  end.

Definition atol (s : cstr) : Z := fst (strtol s).
Definition atoi (s : cstr) : Z := to_int (fst (strtol s)).

(** [(size_t)strtoull(s, NULL, 10)] *)
Definition strtoull (s : cstr) : Z :=
  match scan_number s with
  | None => 0%Z
  | Some (neg, v, _) =>
      if (SIZE_MOD <=? v)%Z then (SIZE_MOD - 1)%Z else to_size (if neg then - v else v)
  end.

(** [strtol] sets [errno] to [ERANGE]. *)
Definition strtol_erange (s : cstr) : bool :=
  match scan_number s with
  | None => false
  | Some (neg, v, _) => let z := (if neg then - v else v)%Z in (z <? LONG_MIN)%Z || (LONG_MAX <? z)%Z
  end.

Lemma digits_val_app a b :
  digits_val (a ++ b) = (digits_val a * 10 ^ Z.of_nat (length b) + digits_val b)%Z.
Proof.
  unfold digits_val. revert a. induction b as [|c b IH] using rev_ind; intros a.
  - rewrite app_nil_r. simpl. lia.
  - rewrite app_assoc, (foldl_snoc _ _ (a ++ b)), (foldl_snoc _ _ b), IH, length_app. simpl.
    rewrite Nat2Z.inj_add, Z.pow_add_r by lia. lia.
Qed.

Lemma dec_loop_spec fuel n acc :
  (0 <= n < 10 ^ Z.of_nat fuel)%Z -> fuel <> 0 ->
  exists ds, dec_loop fuel n acc = ds ++ acc /\ digits_val ds = n /\
    ds <> [] /\ Forall (fun c => is_digit c = true) ds /\ length ds <= fuel.
Proof.
  revert n acc. induction fuel as [|f IH]; intros n acc Hn Hf; [done|].
  assert (0 <= n `mod` 10 <= 9)%Z as Hm by (pose proof (Z.mod_pos_bound n 10); lia).
  cbn [dec_loop]. destruct (Z.ltb_spec n 10).
  - exists [digit_char (n `mod` 10)]. split_and!; [done| |done| |simpl; lia].
    + unfold digits_val. simpl. rewrite digit_val_char by lia. rewrite Z.mod_small; lia.
    + apply Forall_singleton. by apply is_digit_char.
  - assert (f <> 0) by (intros ->; simpl in Hn; lia).
    destruct (IH (n `div` 10)%Z (digit_char (n `mod` 10) :: acc)) as (ds & E & Hv & Hne & Hd & Hl).
    { split; [apply Z.div_pos; lia|]. apply Z.div_lt_upper_bound; [lia|].
      rewrite Nat2Z.inj_succ, Z.pow_succ_r in Hn by lia. lia. }
    { done. }
    exists (ds ++ [digit_char (n `mod` 10)]). split_and!.
    + rewrite E. by rewrite <- app_assoc.
    + rewrite digits_val_app, Hv. unfold digits_val at 1. simpl length. simpl foldl.
      rewrite digit_val_char by lia. pose proof (Z.div_mod n 10). lia.
    + by destruct ds.
    + apply Forall_app. split; [done|]. apply Forall_singleton. by apply is_digit_char.
    + rewrite length_app. simpl. lia.
Qed.

Lemma log2_fuel n : (0 <= n)%Z -> (n < 10 ^ Z.of_nat (S (Z.to_nat (Z.log2 n))))%Z.
Proof.
  intros Hn. destruct (Z.eq_dec n 0%Z) as [->|]; [done|].
  pose proof (Z.log2_spec n ltac:(lia)). pose proof (Z.log2_nonneg n).
  rewrite Nat2Z.inj_succ, Z2Nat.id by lia.
  eapply Z.lt_le_trans; [apply H|]. apply Z.pow_le_mono_l. lia.
Qed.

Lemma show_nonneg_spec n : (0 <= n)%Z ->
  digits_val (show_nonneg n) = n /\ show_nonneg n <> [] /\
  Forall (fun c => is_digit c = true) (show_nonneg n).
Proof.
  intros Hn. unfold show_nonneg.
  destruct (dec_loop_spec (S (Z.to_nat (Z.log2 n))) n []) as (ds & E & Hv & Hne & Hd & _).
  { split; [done|]. by apply log2_fuel. }
  { done. }
  rewrite E, app_nil_r. done.
Qed.

Lemma show_nonneg_length n : (0 <= n < SIZE_MOD)%Z -> length (show_nonneg n) <= 64.
Proof.
  intros Hn. unfold show_nonneg.
  destruct (dec_loop_spec (S (Z.to_nat (Z.log2 n))) n []) as (ds & E & _ & _ & _ & Hl).
  { split; [lia|]. apply log2_fuel; lia. }
  { done. }
  rewrite E, app_nil_r. etrans; [exact Hl|].
  pose proof (Z.log2_le_mono n (SIZE_MOD - 1) ltac:(lia)) as H. change (Z.log2 (SIZE_MOD - 1)) with 63%Z in H. lia.
Qed.

Lemma show_Z_length z : (LONG_MIN <= z <= LONG_MAX)%Z -> length (show_Z z) <= 65.
Proof.
  intros. unfold show_Z, LONG_MIN, LONG_MAX in *. destruct (Z.ltb_spec z 0); simpl.
  - pose proof (show_nonneg_length (- z) ltac:(unfold SIZE_MOD; lia)). lia.
  - pose proof (show_nonneg_length z ltac:(unfold SIZE_MOD; lia)). lia.
Qed.

(** Text without line ends. *)
Definition plain (s : cstr) : Prop := Forall (fun c => c <> newline /\ c <> "000"%char) s.

Lemma plain_digits s : Forall (fun c => is_digit c = true) s -> plain s.
Proof. intros H. eapply Forall_impl; [exact H|]. intros c Hc. simpl in Hc. split; intros ->; done. Qed.

Lemma plain_show_nonneg n : (0 <= n)%Z -> plain (show_nonneg n).
Proof. intros. by apply plain_digits, show_nonneg_spec. Qed.

Lemma plain_show_Z z : plain (show_Z z).
Proof.
  unfold show_Z. destruct (Z.ltb_spec z 0).
  - constructor; [done|]. apply plain_show_nonneg. lia.
  - by apply plain_show_nonneg.
Qed.

Lemma plain_no_nul s : plain s -> no_nul s.
Proof. intros H. eapply Forall_impl; [exact H|]. by intros c []. Qed.
#[export] Hint Resolve plain_show_nonneg plain_show_Z plain_no_nul : cowrite.

Lemma scan_number_digits ds rest :
  ds <> [] -> Forall (fun c => is_digit c = true) ds ->
  (forall x k, rest = x :: k -> is_digit x = false) ->
  scan_number (ds ++ rest) = Some (false, digits_val ds, rest).
Proof.
  intros Hne Hd Hr. destruct ds as [|d ds]; [done|].
  pose proof (Forall_inv Hd) as Hd1. simpl in Hd1.
  unfold scan_number. cbn [app drop_while]. rewrite (is_digit_not_space d Hd1).
  rewrite bool_decide_false by (intros ->; done).
  rewrite bool_decide_false by (intros ->; done).
  change (d :: ds ++ rest) with ((d :: ds) ++ rest).
  rewrite take_while_app_stop, drop_while_app_stop by done. done.
Qed.

Lemma scan_number_neg ds rest :
  ds <> [] -> Forall (fun c => is_digit c = true) ds ->
  (forall x k, rest = x :: k -> is_digit x = false) ->
  scan_number ("-"%char :: ds ++ rest) = Some (true, digits_val ds, rest).
Proof.
  intros Hne Hd Hr. unfold scan_number. cbn [drop_while].
  change (is_space "-"%char) with false. cbn iota.
  rewrite bool_decide_true by done.
  rewrite take_while_app_stop, drop_while_app_stop by done. by destruct ds.
Qed.

(** Printing then scanning a [long] gives it back. *)
Lemma strtol_show_Z z rest :
  (LONG_MIN <= z <= LONG_MAX)%Z -> (forall x k, rest = x :: k -> is_digit x = false) ->
  strtol (show_Z z ++ rest) = (z, rest).
Proof.
  intros Hz Hr. unfold strtol, show_Z. destruct (Z.ltb_spec z 0).
  - destruct (show_nonneg_spec (- z)) as (Hv & Hne & Hd); [lia|].
    cbn [app]. rewrite scan_number_neg by done. rewrite Hv. unfold clamp. f_equal. lia.
  - destruct (show_nonneg_spec z) as (Hv & Hne & Hd); [lia|].
    rewrite scan_number_digits by done. rewrite Hv. unfold clamp. f_equal. lia.
Qed.

Lemma strtoull_show n :
  (0 <= n < SIZE_MOD)%Z -> strtoull (show_nonneg n) = n.
Proof.
  intros Hn. destruct (show_nonneg_spec n) as (Hv & Hne & Hd); [lia|].
  unfold strtoull. rewrite <- (app_nil_r (show_nonneg n)).
  rewrite scan_number_digits by done. rewrite Hv, to_size_id by lia.
  destruct (Z.leb_spec SIZE_MOD n); lia.
Qed.

Lemma atol_show_Z z : (LONG_MIN <= z <= LONG_MAX)%Z -> atol (show_Z z) = z.
Proof. intros. unfold atol. rewrite <- (app_nil_r (show_Z z)). by rewrite strtol_show_Z. Qed.

Lemma atoi_show_Z z : (INT_MIN <= z <= INT_MAX)%Z -> atoi (show_Z z) = z.
Proof.
  intros. unfold atoi. rewrite <- (app_nil_r (show_Z z)).
  rewrite strtol_show_Z; [by apply to_int_id| |done].
  unfold INT_MIN, INT_MAX, LONG_MIN, LONG_MAX in *. lia.
Qed.

(** ** Lines *)

(** [fgets(line, size, fp)]: up to [size - 1] characters, a newline ends the line
    and is kept. *)
Fixpoint fgets_line (n : nat) (s : cstr) : cstr * cstr :=
  match n, s with
  | S n', c :: s' =>
      if bool_decide (c = newline) then ([c], s')
      else let '(l, r) := fgets_line n' s' in (c :: l, r)
  | _, _ => ([], s)
  end.

(** The text before a character and, if it occurs, the text after it. *)
Definition cut (s : cstr) (c : ascii) : cstr * option cstr :=
  let p := fun x => negb (bool_decide (x = c)) in
  (take_while p s, match drop_while p s with [] => None | _ :: r => Some r end).

(** [strtok_r]: the token and what [save_ptr] is left at. *)
Definition strtok_r (delim : cstr) (s : cstr) : option cstr * cstr :=
  let is_delim := fun x => bool_decide (x ∈ delim) in
  match drop_while is_delim s with
  | [] => (None, [])
  | s => (Some (take_while (fun x => negb (is_delim x)) s), drop 1 (drop_while (fun x => negb (is_delim x)) s))
  end.

Lemma fgets_line_length n s : length (snd (fgets_line n s)) <= length s.
Proof.
  revert s. induction n as [|n IH]; intros [|c s]; simpl; try lia.
  destruct (bool_decide _); simpl; [lia|]. specialize (IH s). destruct (fgets_line n s). simpl in *. lia.
Qed.

Lemma fgets_line_shrinks n c s : length (snd (fgets_line (S n) (c :: s))) <= length s.
Proof.
  cbn [fgets_line]. destruct (bool_decide _); [done|].
  pose proof (fgets_line_length n s). by destruct (fgets_line n s).
Qed.

Lemma fgets_line_plain n l rest :
  plain l -> length l < n -> fgets_line n (l ++ newline :: rest) = (l ++ [newline], rest).
Proof.
  revert n. induction l as [|c l IH]; intros [|n] Hl Hn; simpl in Hn; try lia; cbn [app fgets_line].
  - by rewrite bool_decide_true.
  - apply Forall_cons in Hl as [[Hc _] Hl]. rewrite bool_decide_false by done.
    rewrite IH by (done || lia). done.
Qed.

Lemma cut_at (s r : cstr) c : Forall (fun x => x <> c) s -> cut (s ++ c :: r) c = (s, Some r).
Proof.
  intros H. unfold cut.
  assert (Forall (fun x => negb (bool_decide (x = c)) = true) s).
  { eapply Forall_impl; [exact H|]. intros x Hx. simpl in Hx. by rewrite bool_decide_false. }
  assert (forall x k, c :: r = x :: k -> negb (bool_decide (x = c)) = false).
  { intros x k [= <- _]. by rewrite bool_decide_true. }
  by rewrite take_while_app_stop, drop_while_app_stop.
Qed.

#[export] Hint Resolve no_nul_c_str starts_with_app strcmp_refl : cowrite.
