(* ===== verification/Calendar.v ===== *)
(** * Dates

    What [gmtime_r] makes of a time, for the client's listings and the log files: years and
    then months are counted off, as far as a non-negative time needs. *)

From S2P Require Import Prelude Cstr.

Local Open Scope Z_scope.

Definition leap_year (y : Z) : bool :=
  ((y `mod` 4 =? 0) && (negb (y `mod` 100 =? 0) || (y `mod` 400 =? 0))).
Definition year_days (y : Z) : Z := if leap_year y then 366 else 365.
Definition month_days (y : Z) : list Z := [31; if leap_year y then 29 else 28; 31; 30; 31; 30; 31; 31; 30; 31; 30; 31].

(** A year has at least a day. *)
Fixpoint year_loop (fuel : nat) (y days : Z) : Z * Z :=
  match fuel with
  | O => (y, days)
  | S fuel => if days <? year_days y then (y, days) else year_loop fuel (y + 1) (days - year_days y)
  end.
Fixpoint month_loop (ms : list Z) (m days : Z) : Z * Z :=
  match ms with
  | [] => (m, days)
  | n :: ms => if days <? n then (m, days) else month_loop ms (m + 1) (days - n)
  end.
(** Year, month and day of the month, from 1. *)
Definition civil_date (days : Z) : Z * Z * Z :=
  let '(y, days) := year_loop (S (Z.to_nat days)) 1970 days in
  let '(m, d) := month_loop (month_days y) 1 days in
  (y, m, d + 1).

(** [%02d] and [%04d] of a small number *)
Definition pad_zero (width : nat) (z : Z) : cstr :=
  let s := show_Z z in replicate (width - length s) "0"%char ++ s.

Definition IST_OFFSET_SECONDS : Z := 5 * 3600 + 30 * 60.

(** ** The date is the one of the day *)

Definition sum (l : list Z) : Z := foldr Z.add 0 l.

(** The days before a year, and before a month of it. *)
Fixpoint days_before_year (n : nat) : Z :=
  match n with O => 0 | S n => days_before_year n + year_days (1970 + Z.of_nat n) end.
Definition days_before (y m : Z) : Z :=
  days_before_year (Z.to_nat (y - 1970)) + sum (take (Z.to_nat (m - 1)) (month_days y)).

Lemma year_days_pos y : 365 <= year_days y <= 366.
Proof. unfold year_days. by destruct (leap_year y). Qed.

Lemma year_loop_spec fuel n days :
  0 <= days -> (Z.to_nat days < fuel)%nat ->
  let '(y, r) := year_loop fuel (1970 + Z.of_nat n) days in
  1970 <= y /\ 0 <= r < year_days y /\ days_before_year n + days = days_before_year (Z.to_nat (y - 1970)) + r.
Proof.
  revert n days. induction fuel as [|fuel IH]; intros n days Hd Hf; [lia|]. cbn [year_loop].
  pose proof (year_days_pos (1970 + Z.of_nat n)) as Hy.
  destruct (Z.ltb_spec days (year_days (1970 + Z.of_nat n))).
  - split; [lia|]. split; [lia|]. do 2 f_equal. lia.
  - specialize (IH (S n) (days - year_days (1970 + Z.of_nat n)) ltac:(lia) ltac:(lia)).
    replace (1970 + Z.of_nat (S n)) with (1970 + Z.of_nat n + 1) in IH by lia.
    destruct (year_loop fuel _ _) as [y r]. destruct IH as (H1 & H2 & H3). split_and!; [lia..|]. cbn [days_before_year] in H3. lia.
Qed.

Lemma month_loop_spec ms m days :
  0 <= days < sum ms -> Forall (fun n => 0 <= n) ms ->
  let '(m', d) := month_loop ms m days in
  exists k n, m' = m + Z.of_nat k /\ ms !! k = Some n /\ 0 <= d < n /\ days = sum (take k ms) + d.
Proof.
  intros Hd Hms. revert m days Hd. induction Hms as [|n ms Hn Hms IH]; intros m days Hd; cbn [sum foldr] in Hd; [lia|]. cbn [month_loop].
  destruct (Z.ltb_spec days n).
  - exists O, n. split_and!; [lia|done|lia..|]. cbn. lia.
  - fold (sum ms) in Hd. specialize (IH (m + 1) (days - n) ltac:(lia)). destruct (month_loop ms (m + 1) (days - n)) as [m' d].
    destruct IH as (k & n' & -> & Hk & Hd' & E). exists (S k), n'. split_and!; [lia|done|lia..|]. cbn [take sum foldr]. unfold sum in E. lia.
Qed.

Lemma sum_months y : sum (month_days y) = year_days y.
Proof. unfold month_days, year_days. by destruct (leap_year y). Qed.

(** The date of a day: a day of the calendar, and the day again when the days before it are
    counted. *)
Theorem civil_date_counts days :
  0 <= days ->
  let '(y, m, d) := civil_date days in
  1970 <= y /\ 1 <= m <= 12 /\ (exists n, month_days y !! Z.to_nat (m - 1) = Some n /\ 1 <= d <= n) /\
  days = days_before y m + (d - 1).
Proof.
  intros Hd. unfold civil_date. pose proof (year_loop_spec (S (Z.to_nat days)) 0 days Hd ltac:(lia)) as Hy.
  change (1970 + Z.of_nat 0) with 1970 in Hy. destruct (year_loop _ _ _) as [y r]. destruct Hy as (H1 & H2 & H3).
  pose proof (month_loop_spec (month_days y) 1 r) as Hm. rewrite sum_months in Hm. specialize (Hm H2).
  destruct (month_loop _ _ _) as [m d]. destruct Hm as (k & n & -> & Hk & Hdn & E).
  { unfold month_days. destruct (leap_year y); repeat constructor; lia. }
  pose proof (lookup_lt_Some _ _ _ Hk) as Hlt. cbn [month_days length] in Hlt.
  unfold days_before. replace (Z.to_nat (1 + Z.of_nat k - 1)) with k by lia.
  split_and!; [lia..| |cbn [days_before_year] in H3; lia]. exists n. split; [done|lia].
Qed.
