(* ===== verification/Sockets.v ===== *)
(** * [common/net_proto.c]: opening and closing sockets

    The descriptors of the process are a map from numbers to their owners, the calling thread
    or another one; a new descriptor gets the lowest free number.  The addresses a name stands
    for and the outcomes of the calls on each of them are part of the environment. *)

From S2P Require Import Prelude.

Inductive owner := Mine | Other.

(** How [close] ends: normally, or interrupted by a signal; in the second case another thread
    may have been given the number by the time the call returns. *)
Inductive closing := Closed | Interrupted (taken : bool).

Record sockets := mk_sockets {
  fds : gmap nat owner;
  (** whether the calls to come succeed; they do when nothing is said *)
  calls : list bool;
  closings : list closing;
}.

Definition call (s : sockets) : bool * sockets :=
  match calls s with
  | [] => (true, s)
  | b :: l => (b, mk_sockets (fds s) l (closings s))
  end.

(** The lowest number that is free. *)
Definition lowest_free (m : gmap nat owner) : nat :=
  default 0 (fst <$> find_first (fun i => match m !! i with None => true | Some _ => false end) (seq 0 (S (size m)))).

(** [socket]: [None] for -1. *)
Definition socket (s : sockets) : option nat * sockets :=
  let '(ok, s) := call s in
  if ok then let fd := lowest_free (fds s) in (Some fd, mk_sockets (<[fd := Mine]> (fds s)) (calls s) (closings s))
  else (None, s).

Section Sockets.
(** Whether an interrupted [close] has released the descriptor: POSIX leaves it open, on
    Linux it has. *)
Context (released : bool).

Definition close_once (fd : nat) (s : sockets) : Z * bool * sockets :=
  match fds s !! fd with
  | None => ((-1)%Z, false, s)
  | Some _ =>
      match closings s with
      | Interrupted taken :: l =>
          let m := if released then if taken : bool then <[fd := Other]> (fds s) else delete fd (fds s) else fds s in
          ((-1)%Z, true, mk_sockets m (calls s) l)
      | Closed :: l => (0%Z, false, mk_sockets (delete fd (fds s)) (calls s) l)
      | [] => (0%Z, false, mk_sockets (delete fd (fds s)) (calls s) [])
      end
  end.

(** The loop of [net_close]: an interruption uses up one of [closings]. *)
Fixpoint close_loop (fuel : nat) (fd : nat) (s : sockets) : Z * sockets :=
  match fuel with
  | O => ((-1)%Z, s)
  | S fuel =>
      match close_once fd s with
      | (ret, true, s) => close_loop fuel fd s
      | (ret, false, s) => (ret, s)
      end
  end.
Definition net_close (fd : nat) (s : sockets) : Z * sockets := close_loop (S (length (closings s))) fd s.

(** The loop of [net_listen] over the addresses that are left: the descriptor, [None] for
    -1. *)
Fixpoint listen_loop (addresses : nat) (s : sockets) : option nat * sockets :=
  match addresses with
  | O => (None, s)
  | S addresses =>
      match socket s with
      | (None, s) => listen_loop addresses s
      | (Some fd, s) =>
          let '(bound, s) := call s in
          let '(listening, s) := if bound then call s else (false, s) in
          if listening then (Some fd, s) else listen_loop addresses (snd (net_close fd s))
      end
  end.
(** [addresses] is what [getaddrinfo] finds, [None] when it fails. *)
Definition net_listen (addresses : option nat) (s : sockets) : option nat * sockets :=
  match addresses with None => (None, s) | Some n => listen_loop n s end.

Fixpoint connect_loop (addresses : nat) (s : sockets) : option nat * sockets :=
  match addresses with
  | O => (None, s)
  | S addresses =>
      match socket s with
      | (None, s) => connect_loop addresses s
      | (Some fd, s) =>
          let '(connected, s) := call s in
          if connected then (Some fd, s) else connect_loop addresses (snd (net_close fd s))
      end
  end.
Definition net_connect (addresses : option nat) (s : sockets) : option nat * sockets :=
  match addresses with None => (None, s) | Some n => connect_loop n s end.

(** ** No descriptor is lost *)

Lemma call_fds s : fds (snd (call s)) = fds s /\ closings (snd (call s)) = closings s.
Proof using. unfold call. by destruct (calls s). Qed.

Lemma lowest_free_spec m : m !! lowest_free m = None /\ forall i, i < lowest_free m -> is_Some (m !! i).
Proof using.
  unfold lowest_free. set (p := fun i => match m !! i with None => true | Some _ => false end).
  destruct (find_first p (seq 0 (S (size m)))) as [[j i]|] eqn:E; cbn [fmap option_fmap option_map default from_option id fst].
  - apply find_first_Some in E as (Hi & Hp & Hlt). apply lookup_seq in Hi as [-> Hb]. cbn. unfold p in Hp. cbn in Hp. split; [by destruct (m !! j)|].
    intros k Hk. assert (p k = false) as H by (apply (Hlt k); [done|]; apply lookup_seq; split; [done|lia]).
    unfold p in H. by destruct (m !! k).
  - exfalso. apply find_first_None in E. rewrite Forall_forall in E.
    assert (list_to_set (seq 0 (S (size m))) ⊆ dom m) as Hs.
    { intros i Hi%elem_of_list_to_set. apply elem_of_dom. specialize (E i Hi). unfold p in E. destruct (m !! i); [by eexists|done]. }
    apply subseteq_size in Hs. rewrite size_list_to_set, size_dom, length_seq in Hs by apply NoDup_seq. lia.
Qed.

Lemma socket_spec s :
  match socket s with
  | (Some fd, s') => fds s !! fd = None /\ fds s' = <[fd := Mine]> (fds s) /\ closings s' = closings s
  | (None, s') => fds s' = fds s /\ closings s' = closings s
  end.
Proof using.
  unfold socket. pose proof (call_fds s) as [H1 H2]. destruct (call s) as [[] s1]; cbn [snd] in *; [|done].
  rewrite H1. split_and!; [apply lowest_free_spec|done|done].
Qed.

(** No other thread opens a descriptor while a [close] is interrupted. *)
Definition undisturbed (s : sockets) : Prop := Forall (fun c => c <> Interrupted true) (closings s).

Lemma close_loop_spec fuel fd s :
  undisturbed s -> length (closings s) < fuel ->
  fds (snd (close_loop fuel fd s)) = delete fd (fds s) /\ undisturbed (snd (close_loop fuel fd s)).
Proof using.
  revert s. induction fuel as [|fuel IH]; intros s Hu Hf; [lia|]. cbn [close_loop]. unfold close_once.
  destruct (fds s !! fd) as [o|] eqn:E; [|split; [by rewrite delete_id|done]].
  unfold undisturbed in *. destruct (closings s) as [|[|taken] l] eqn:Ec; cbn [snd fds closings]; [done|split; [done|by inversion Hu]|].
  inversion Hu as [|? ? Ht Hl]; subst. destruct taken; [done|]. cbn [length] in Hf.
  match goal with |- context [close_loop fuel fd ?s'] => destruct (IH s') as [I1 I2]; [done|cbn; lia|rewrite I1; split; [|done]] end.
  cbn [fds]. destruct released; [by rewrite delete_delete_eq|done].
Qed.

Lemma net_close_spec fd s : undisturbed s -> fds (snd (net_close fd s)) = delete fd (fds s) /\ undisturbed (snd (net_close fd s)).
Proof using. intros H. by apply close_loop_spec; [|lia]. Qed.

(** What opening a connection makes of the descriptors. *)
Definition opened_one (s : sockets) (r : option nat * sockets) : Prop :=
  fds (snd r) = match fst r with Some fd => <[fd := Mine]> (fds s) | None => fds s end /\
  match fst r with Some fd => fds s !! fd = None | None => True end /\ undisturbed (snd r).

Lemma opened_one_retry s s' r : fds s' = fds s -> opened_one s' r -> opened_one s r.
Proof using. unfold opened_one. by intros ->. Qed.

Lemma reopen fd s s1 s2 : fds s !! fd = None -> fds s1 = <[fd := Mine]> (fds s) -> fds s2 = delete fd (fds s1) -> fds s2 = fds s.
Proof using. intros H -> ->. by rewrite delete_insert_eq, delete_id. Qed.

Lemma listen_loop_spec n s : undisturbed s -> opened_one s (listen_loop n s).
Proof using.
  revert s. induction n as [|n IH]; intros s Hu; cbn [listen_loop]; [done|].
  pose proof (socket_spec s) as H. destruct (socket s) as [[fd|] s1].
  - destruct H as (Hfree & E1 & C1). pose proof (call_fds s1) as [E2 C2]. destruct (call s1) as [bound s2]. cbn [snd] in *.
    assert (let '(_, s3) := if bound then call s2 else (false, s2) in fds s3 = fds s2 /\ closings s3 = closings s2) as H3
      by (destruct bound; [by pose proof (call_fds s2); destruct (call s2)|done]).
    destruct (if bound then call s2 else (false, s2)) as [listening s3]. destruct H3 as [E3 C3].
    assert (undisturbed s3) as Hu3 by (unfold undisturbed; by rewrite C3, C2, C1).
    destruct listening; [split_and!; cbn; [congruence|done|done]|].
    destruct (net_close_spec fd s3 Hu3) as [E4 Hu4]. apply (opened_one_retry s (snd (net_close fd s3))); [|by apply IH].
    eapply (reopen fd s s3); [done|congruence|done].
  - destruct H as [E C]. apply (opened_one_retry s s1); [done|]. apply IH. unfold undisturbed. by rewrite C.
Qed.

Lemma connect_loop_spec n s : undisturbed s -> opened_one s (connect_loop n s).
Proof using.
  revert s. induction n as [|n IH]; intros s Hu; cbn [connect_loop]; [done|].
  pose proof (socket_spec s) as H. destruct (socket s) as [[fd|] s1].
  - destruct H as (Hfree & E1 & C1). pose proof (call_fds s1) as [E2 C2]. destruct (call s1) as [connected s2]. cbn [snd] in *.
    assert (undisturbed s2) as Hu2 by (unfold undisturbed; by rewrite C2, C1).
    destruct connected; [split_and!; cbn; [congruence|done|done]|].
    destruct (net_close_spec fd s2 Hu2) as [E4 Hu4]. apply (opened_one_retry s (snd (net_close fd s2))); [|by apply IH].
    eapply (reopen fd s s2); [done|congruence|done].
  - destruct H as [E C]. apply (opened_one_retry s s1); [done|]. apply IH. unfold undisturbed. by rewrite C.
Qed.

(** C33: Opening a connection loses no descriptor, as long as no other thread is given the number of a
    descriptor whose [close] has just been interrupted (the repeated [close] would take that
    thread's descriptor away, see [close_retry_closes_other]).  Whatever addresses a name stands
    for, whichever of the calls on them fail and whichever of the [close] are interrupted,
    [net_listen] and [net_connect] then leave the process with the descriptors it had and the
    one they return, which is new; and [net_close] takes exactly its descriptor away. *)
Theorem sockets_balanced addresses fd s (Hu : undisturbed s) :
  opened_one s (net_listen addresses s) /\ opened_one s (net_connect addresses s) /\
  fds (snd (net_close fd s)) = delete fd (fds s).
Proof using.
  split_and!; [destruct addresses; [by apply listen_loop_spec|done]|destruct addresses; [by apply connect_loop_spec|done]|].
  by apply net_close_spec.
Qed.
End Sockets.

(** Two addresses; on the first one the socket can be made but not bound, and its [close] is
    interrupted. *)
Definition demo_sockets : sockets := mk_sockets (<[0 := Mine]> (<[1 := Other]> ∅)) [true; false] [Interrupted false].

Lemma sockets_balanced_witness :
  undisturbed demo_sockets /\
  fst (net_listen false (Some 2) demo_sockets) = Some 2 /\
  fds (snd (net_listen false (Some 2) demo_sockets)) = <[2 := Mine]> (fds demo_sockets).
Proof.
  assert (undisturbed demo_sockets) as Hu by (repeat constructor; done). split; [exact Hu|].
  destruct (sockets_balanced false (Some 2) 0 demo_sockets Hu) as ((H1 & _) & _).
  assert (fst (net_listen false (Some 2) demo_sockets) = Some 2) as E by (vm_compute; reflexivity).
  rewrite E in H1. exact (conj E H1).
Defined.

(** Where an interrupted [close] has released the descriptor, repeating it closes what another
    thread has opened in the meantime. *)
Lemma close_retry_closes_other :
  let s := mk_sockets (<[5 := Mine]> ∅) [] [Interrupted true] in
  (exists s1, close_once true 5 s = ((-1)%Z, true, s1) /\ fds s1 !! 5 = Some Other) /\ fds (snd (net_close true 5 s)) !! 5 = None.
Proof. split; [eexists; split; reflexivity|reflexivity]. Qed.
