(* ===== verification/Json.v ===== *)
(** * [common/json_util.c]: escaping and field extraction

    The programs exchange flat JSON objects and read them with a scanner that
    looks for the quoted key followed by a colon rather than with a parser.  This file models
    the scanner and the escaping routines loop by loop, and proves that on every
    object built with escaped values the scanner is a field lookup: no value can
    forge a field. *)

From S2P Require Import Prelude Cstr.

(** ** Operations *)

(** The [switch] of [escape_value]. *)
Definition esc_replacement (c : ascii) : option cstr :=
  if decide (c = dquote) then Some [bslash; dquote]
  else if decide (c = bslash) then Some [bslash; bslash]
  else if decide (c = newline) then Some [bslash; "n"%char]
  else if decide (c = creturn) then Some [bslash; "r"%char]
  else if decide (c = tab) then Some [bslash; "t"%char]
  else None.

(** [dst] is what has been written so far, [pos] its length. *)
Fixpoint escape_loop (dst_size : nat) (src dst : cstr) : option cstr :=
  match src with
  | [] => if dst_size <=? length dst then None else Some dst
  | c :: src' =>
      match esc_replacement c with
      | Some r =>
          if dst_size <=? length dst + length r then None
          else escape_loop dst_size src' (dst ++ r)
      | None =>
          if dst_size <=? length dst + 1 then None
          else escape_loop dst_size src' (dst ++ [c])
      end
  end.

Definition escape_value (dst_size : nat) (src : cstr) : option cstr := escape_loop dst_size src [].

Definition json_escape_string (buf_size : nat) (value : cstr) : option cstr :=
  escape_value buf_size value.

Fixpoint escape_length (src : cstr) : nat :=
  match src with
  | [] => 0
  | c :: src' =>
      (if bool_decide (c = dquote) || bool_decide (c = bslash) || bool_decide (c = newline) ||
          bool_decide (c = creturn) || bool_decide (c = tab) then 2 else 1) + escape_length src'
  end.

Definition json_escape_dup (value : cstr) : option cstr :=
  escape_value (escape_length value + 1) value.

Definition json_format_string (buf_size : nat) (key value : cstr) : option cstr :=
  key_escaped ← escape_value 128 key;
  value_escaped ← escape_value 1024 value;
  let written := js "{'" ++ key_escaped ++ js "':'" ++ value_escaped ++ js "'}" in
  if buf_size <=? length written then None else Some written.

(** The [switch] on the character after a backslash. *)
Definition unescape (next : ascii) : ascii :=
  if decide (next = "n"%char) then newline
  else if decide (next = "r"%char) then creturn
  else if decide (next = "t"%char) then tab
  else next.

Definition string_pattern (key : cstr) : cstr := dquote :: key ++ js "':'".
Definition int_pattern (key : cstr) : cstr := dquote :: key ++ js "':".

(** [snprintf(pattern, 128, ...)] followed by [strstr]: the text after the match. *)
Definition find_pattern (json pattern : cstr) : option cstr :=
  if 128 <=? length pattern then None
  else drop (length pattern) <$> strstr json pattern.

Fixpoint get_string_loop (out_size : nat) (p out : cstr) : option cstr :=
  match p with
  | [] => None
  | c :: p' =>
      if decide (c = bslash) then
        match p' with
        | [] => None
        | next :: p'' =>
            if out_size <=? length out + 1 then None
            else get_string_loop out_size p'' (out ++ [unescape next])
        end
      else if decide (c = dquote) then
        if out_size <=? length out then None else Some out
      else if out_size <=? length out + 1 then None
      else get_string_loop out_size p' (out ++ [c])
  end.

Definition json_get_string (json key : cstr) (out_size : nat) : option cstr :=
  if out_size =? 0 then None
  else p ← find_pattern json (string_pattern key); get_string_loop out_size p [].

(** What [json_get_string] leaves in a zeroed buffer, also when it fails half way. *)
Fixpoint get_string_written (out_size : nat) (p out : cstr) : cstr :=
  match p with
  | [] => out
  | c :: p' =>
      if decide (c = bslash) then
        match p' with
        | [] => out
        | next :: p'' =>
            if out_size <=? length out + 1 then out else get_string_written out_size p'' (out ++ [unescape next])
        end
      else if decide (c = dquote) then out
      else if out_size <=? length out + 1 then out
      else get_string_written out_size p' (out ++ [c])
  end.
Definition json_string_written (json key : cstr) (out_size : nat) : cstr :=
  match find_pattern json (string_pattern key) with
  | None => []
  | Some p => get_string_written out_size p []
  end.
(** The same for a buffer that held [init] and zeros. *)
Definition json_get_string_into (json key : cstr) (out_size : nat) (init : cstr) : cstr :=
  match json_get_string json key out_size with
  | Some s => s
  | None => let s := json_string_written json key out_size in s ++ drop (length s) init
  end.

(** First pass of [json_get_string_alloc]: the number of characters before the
    closing quote; [None] when there is no closing quote. *)
Fixpoint scan_length (scan : cstr) (len : nat) : option nat :=
  match scan with
  | [] => None
  | c :: scan' =>
      if decide (c = bslash) then
        match scan' with [] => None | _ :: scan'' => scan_length scan'' (S len) end
      else if decide (c = dquote) then Some len
      else scan_length scan' (S len)
  end.

(** Second pass: the copy into a buffer of [cap] bytes.  The code has no bound
    check here; [CopyOverflow] is the write past the end of the buffer. *)
Inductive copy_result :=
  | CopyOk (s : cstr)
  | CopyFail
  | CopyOverflow.

Fixpoint copy_loop (cap : nat) (p buf : cstr) : copy_result :=
  match p with
  | [] => CopyFail
  | c :: p' =>
      if decide (c = bslash) then
        match p' with
        | [] => CopyFail
        | next :: p'' =>
            if cap <=? length buf then CopyOverflow
            else copy_loop cap p'' (buf ++ [unescape next])
        end
      else if cap <=? length buf then CopyOverflow
      else if decide (c = dquote) then CopyOk buf
      else copy_loop cap p' (buf ++ [c])
  end.

Definition json_get_string_alloc_raw (json key : cstr) : copy_result :=
  match find_pattern json (string_pattern key) with
  | None => CopyFail
  | Some p =>
      match scan_length p 0 with
      | None => CopyFail
      | Some len => copy_loop (len + 1) p []
      end
  end.

Definition json_get_string_alloc (json key : cstr) : option cstr :=
  match json_get_string_alloc_raw json key with CopyOk s => Some s | _ => None end.

Definition json_get_int (json key : cstr) : option Z :=
  start ← find_pattern json (int_pattern key);
  let start := drop_while is_space start in
  let '(val, stop) := strtol start in
  if bool_decide (stop = start) then None else Some (to_int val).

(** ** Escaping *)

(** Reference definition of the escaped text. *)
Definition esc1 (c : ascii) : cstr := default [c] (esc_replacement c).
Definition escape (s : cstr) : cstr := concat (map esc1 s).

Lemma escape_cons c s : escape (c :: s) = esc1 c ++ escape s.
Proof. done. Qed.

Lemma escape_app a b : escape (a ++ b) = escape a ++ escape b.
Proof. unfold escape. by rewrite map_app, concat_app. Qed.

Lemma length_esc1 c : 1 <= length (esc1 c) <= 2.
Proof. unfold esc1, esc_replacement. repeat case_decide; simpl; lia. Qed.

Lemma length_escape_ge s : length s <= length (escape s).
Proof.
  induction s as [|c s IH]; simpl; [lia|]. rewrite escape_cons, length_app.
  pose proof (length_esc1 c). lia.
Qed.

Lemma escape_length_spec s : escape_length s = length (escape s).
Proof.
  induction s as [|c s IH]; [done|]. rewrite escape_cons, length_app. simpl. rewrite IH. f_equal.
  unfold esc1, esc_replacement.
  repeat (case_decide; [by subst|rewrite bool_decide_false by done; simpl]). done.
Qed.

Lemma escape_loop_spec n src dst :
  length dst < n \/ src <> [] ->
  escape_loop n src dst =
  if length (dst ++ escape src) <? n then Some (dst ++ escape src) else None.
Proof.
  revert dst. induction src as [|c src IH]; intros dst Hd; simpl.
  { rewrite app_nil_r. destruct Hd; [|done].
    destruct (Nat.leb_spec n (length dst)), (Nat.ltb_spec (length dst) n); try lia; done. }
  rewrite escape_cons. rewrite !length_app.
  assert (forall r, esc1 c = r ->
    (if n <=? length dst + length r then None else escape_loop n src (dst ++ r)) =
    if length dst + (length r + length (escape src)) <? n
    then Some (dst ++ r ++ escape src) else None) as Hstep.
  { intros r Hr. destruct (Nat.leb_spec n (length dst + length r)).
    - destruct (Nat.ltb_spec (length dst + (length r + length (escape src))) n); [lia|done].
    - rewrite IH by (left; rewrite length_app; lia).
      rewrite <- app_assoc, !length_app. done. }
  destruct (esc_replacement c) as [r|] eqn:E.
  all: unfold esc1 in *; rewrite E in *; exact (Hstep _ eq_refl).
Qed.

Lemma escape_value_spec n s :
  escape_value n s = if length (escape s) <? n then Some (escape s) else None.
Proof.
  unfold escape_value. destruct s as [|c s].
  - simpl. by destruct n.
  - rewrite escape_loop_spec by (right; done). done.
Qed.

Lemma json_escape_dup_spec s : json_escape_dup s = Some (escape s).
Proof.
  unfold json_escape_dup. rewrite escape_value_spec, escape_length_spec.
  by destruct (Nat.ltb_spec (length (escape s)) (length (escape s) + 1)); [|lia].
Qed.

Lemma unescape_esc1 c :
  (esc_replacement c = None /\ c <> bslash /\ c <> dquote) \/
  (exists d, esc_replacement c = Some [bslash; d] /\ unescape d = c).
Proof.
  unfold esc_replacement. repeat case_decide; subst; try (right; by eexists).
  by left.
Qed.

(** Reading an escaped value back, up to the closing quote. *)
Lemma get_string_loop_escape n v rest out :
  length out < n ->
  get_string_loop n (escape v ++ dquote :: rest) out =
  if length out + length v <? n then Some (out ++ v) else None.
Proof.
  revert out. induction v as [|c v IH]; intros out Hn.
  - cbn -[Nat.ltb Nat.leb decide]. rewrite app_nil_r, Nat.add_0_r.
    destruct (decide (dquote = bslash)); [done|]. destruct (decide (dquote = dquote)); [|done].
    destruct (Nat.leb_spec n (length out)), (Nat.ltb_spec (length out) n); try lia; done.
  - rewrite escape_cons. unfold esc1.
    destruct (unescape_esc1 c) as [(E & Hb & Hq)|(d & E & Hd)]; rewrite E; cbn -[Nat.ltb Nat.leb decide].
    + destruct (decide (c = bslash)); [done|]. destruct (decide (c = dquote)); [done|].
      destruct (Nat.leb_spec n (length out + 1)).
      * destruct (Nat.ltb_spec (length out + S (length v)) n); [lia|done].
      * rewrite IH by (rewrite length_app; simpl; lia). rewrite length_app, <- app_assoc. simpl.
        by replace (length out + 1 + length v) with (length out + S (length v)) by lia.
    + destruct (decide (bslash = bslash)); [|done]. rewrite Hd.
      destruct (Nat.leb_spec n (length out + 1)).
      * destruct (Nat.ltb_spec (length out + S (length v)) n); [lia|done].
      * rewrite IH by (rewrite length_app; simpl; lia). rewrite length_app, <- app_assoc. simpl.
        by replace (length out + 1 + length v) with (length out + S (length v)) by lia.
Qed.

(** ** Messages as field lists *)

(** A value of the flat objects the programs exchange. *)
Inductive jval :=
  | JStr (v : cstr)
  | JInt (z : Z).

Definition render_val (v : jval) : cstr :=
  match v with
  | JStr s => dquote :: escape s ++ [dquote]
  | JInt z => show_Z z
  end.

Definition render_field (f : cstr * jval) : cstr := int_pattern (fst f) ++ render_val (snd f).

Fixpoint render_fields (fs : list (cstr * jval)) : cstr :=
  match fs with
  | [] => []
  | [f] => render_field f
  | f :: fs' => render_field f ++ ","%char :: render_fields fs'
  end.

Definition render_obj (fs : list (cstr * jval)) : cstr := "{"%char :: render_fields fs ++ ["}"%char].

(** Keys are nonempty and alphabetic. *)
Definition is_alpha (c : ascii) : bool :=
  (((65 <=? code c) && (code c <=? 90)) || ((97 <=? code c) && (code c <=? 122)))%Z.
Definition good_key (k : cstr) : bool := negb (bool_decide (k = [])) && forallb is_alpha k.

(** What the scanner is meant to compute: the first field of that name. *)
Fixpoint field_str (fs : list (cstr * jval)) (key : cstr) : option cstr :=
  match fs with
  | [] => None
  | (k, JStr v) :: fs' => if bool_decide (k = key) then Some v else field_str fs' key
  | (_, JInt _) :: fs' => field_str fs' key
  end.

Fixpoint field_int (fs : list (cstr * jval)) (key : cstr) : option Z :=
  match fs with
  | [] => None
  | (k, v) :: fs' =>
      if bool_decide (k = key) then match v with JInt z => Some z | JStr _ => None end
      else field_int fs' key
  end.

Definition long_fields (fs : list (cstr * jval)) : bool :=
  forallb (fun f => match snd f with JInt z => (LONG_MIN <=? z) && (z <=? LONG_MAX) | _ => true end)%Z fs.

(** ** The scanner finds exactly the structural occurrences of a key *)

Section Scanner.
(** The pattern searched for: a quoted key, a colon, then [tail]. *)
Context (key tail : cstr) (Hkey : good_key key = true).
Let pat := dquote :: key ++ dquote :: ":"%char :: tail.

Lemma key_cons : exists a k, key = a :: k /\ is_alpha a = true.
Proof using Hkey.
  clear pat. unfold good_key in Hkey. apply andb_true_iff in Hkey as [Hne Hal].
  destruct key as [|a k]; [done|]. simpl in Hal. apply andb_true_iff in Hal as [Ha _]. eauto.
Qed.

Lemma key_alpha : Forall (fun c => is_alpha c = true) key.
Proof using Hkey.
  clear pat. unfold good_key in Hkey. apply andb_true_iff in Hkey as [_ Hal].
  apply Forall_forall. intros c Hc. rewrite forallb_forall in Hal.
  apply Hal. by apply list_elem_of_In.
Qed.

Lemma alpha_not_special c :
  is_alpha c = true -> c <> dquote /\ c <> bslash /\ c <> ":"%char /\ c <> ","%char /\ c <> "}"%char.
Proof using. intros H. split_and!; intros ->; done. Qed.

Lemma strstr_plain seg rest :
  Forall (fun c => c <> dquote) seg -> strstr (seg ++ rest) pat = strstr rest pat.
Proof using.
  induction 1 as [|c seg Hc Hseg IH]; [done|]. cbn [app strstr]. unfold pat at 1. cbn [starts_with].
  rewrite bool_decide_false by congruence. done.
Qed.

Lemma strstr_skip1 c s : c <> dquote -> strstr (c :: s) pat = strstr s pat.
Proof using. intros. apply (strstr_plain [c]). by apply Forall_singleton. Qed.

Lemma strstr_quote s :
  starts_with (key ++ dquote :: ":"%char :: tail) s = false ->
  strstr (dquote :: s) pat = strstr s pat.
Proof using.
  intros H. cbn [strstr]. unfold pat at 1. cbn [starts_with].
  rewrite bool_decide_true by done. by rewrite H.
Qed.

(** After a quote, the text of the pattern's key cannot be followed by a quote
    inside an escaped value. *)
Lemma no_key_in_escape k v c rest :
  Forall (fun c => is_alpha c = true) k -> c <> ":"%char ->
  starts_with (k ++ dquote :: ":"%char :: tail) (escape v ++ dquote :: c :: rest) = false.
Proof using.
  revert k. induction v as [|x v IH]; intros k Hk Hc.
  - destruct k as [|a k]; cbn.
    + rewrite (bool_decide_false (_ = c)) by congruence. by rewrite andb_false_r.
    + apply Forall_cons in Hk as [Ha _]. pose proof (alpha_not_special a Ha) as (? & _).
      by rewrite bool_decide_false.
  - rewrite escape_cons. unfold esc1.
    destruct (unescape_esc1 x) as [(E & Hb & Hq)|(d & E & _)]; rewrite E; cbn.
    + destruct k as [|a k]; cbn.
      * by rewrite bool_decide_false.
      * apply Forall_cons in Hk as [_ Hk]. rewrite (IH k) by done. apply andb_false_r.
    + destruct k as [|a k]; cbn; [done|].
      apply Forall_cons in Hk as [Ha _]. pose proof (alpha_not_special a Ha) as (_ & ? & _).
      by rewrite bool_decide_false.
Qed.

Lemma key_not_after c rest :
  is_alpha c = false -> starts_with (key ++ dquote :: ":"%char :: tail) (c :: rest) = false.
Proof using Hkey.
  intros Hc. destruct key_cons as (a & k & -> & Ha). cbn.
  rewrite bool_decide_false by congruence. done.
Qed.

Lemma strstr_escape v c rest :
  c <> ":"%char -> is_alpha c = false ->
  strstr (escape v ++ dquote :: c :: rest) pat = strstr (c :: rest) pat.
Proof using Hkey.
  intros Hc Ha. induction v as [|x v IH].
  - cbn [escape map concat app]. apply strstr_quote. by apply key_not_after.
  - rewrite escape_cons. unfold esc1.
    destruct (unescape_esc1 x) as [(E & Hb & Hq)|(d & E & _)]; rewrite E; cbn [default from_option id app].
    + rewrite strstr_skip1 by done. apply IH.
    + rewrite strstr_skip1 by done.
      destruct (decide (d = dquote)) as [->|].
      * rewrite strstr_quote; [apply IH|].
        apply no_key_in_escape; [apply key_alpha|done].
      * rewrite strstr_skip1 by done. apply IH.
Qed.

Lemma keys_differ k rest rest' :
  good_key k = true -> starts_with (key ++ dquote :: rest) (k ++ dquote :: rest') = true -> key = k.
Proof using Hkey.
  intros Hk. unfold good_key in Hk. apply andb_true_iff in Hk as [_ Hk].
  pose proof key_alpha as Hal. clear Hkey pat. revert k Hk.
  induction Hal as [|a kk Ha Hal IH]; intros [|b k] Hk; cbn.
  - done.
  - simpl in Hk. apply andb_true_iff in Hk as [Hb _].
    pose proof (alpha_not_special b Hb) as (? & _). by rewrite bool_decide_false.
  - pose proof (alpha_not_special a Ha) as (? & _). by rewrite bool_decide_false.
  - simpl in Hk. apply andb_true_iff in Hk as [Hb Hk]. rewrite andb_true_iff, bool_decide_eq_true.
    intros [-> H]. f_equal. by apply IH.
Qed.

Lemma good_key_plain k : good_key k = true -> Forall (fun c => c <> dquote) k.
Proof using.
  unfold good_key. rewrite andb_true_iff, forallb_forall. intros [_ H].
  apply Forall_forall. intros c Hc%list_elem_of_In%H. by apply alpha_not_special in Hc as (? & _).
Qed.

Lemma show_Z_plain z : Forall (fun c => c <> dquote) (show_Z z).
Proof using.
  assert (forall n, (0 <= n)%Z -> Forall (fun c => c <> dquote) (show_nonneg n)) as Hn.
  { intros n Hn. destruct (show_nonneg_spec n Hn) as (_ & _ & Hd).
    eapply Forall_impl; [exact Hd|]. intros c H ->. done. }
  unfold show_Z. case_match; [|apply Hn; bool_to_prop; lia].
  constructor; [done|]. apply Hn. bool_to_prop. lia.
Qed.

(** The quote that closes a key is followed by a colon, so no key starts there. *)
Lemma strstr_key k rest :
  good_key k = true -> starts_with pat (int_pattern k ++ rest) = false ->
  strstr (int_pattern k ++ rest) pat = strstr rest pat.
Proof using Hkey.
  intros Hk Hno. unfold int_pattern in *. cbn [app] in *. rewrite <- app_assoc in *.
  change (js "':" ++ rest) with (dquote :: ":"%char :: rest) in *.
  rewrite strstr_quote.
  2: { unfold pat in Hno. cbn [starts_with] in Hno. by rewrite bool_decide_true in Hno. }
  rewrite strstr_plain by (by apply good_key_plain).
  rewrite strstr_quote by (by apply key_not_after).
  by rewrite strstr_skip1 by done.
Qed.

Lemma strstr_field f c rest :
  good_key (fst f) = true -> c <> ":"%char -> is_alpha c = false ->
  starts_with pat (render_field f ++ c :: rest) = false ->
  strstr (render_field f ++ c :: rest) pat = strstr (c :: rest) pat.
Proof using Hkey.
  destruct f as [k v]. unfold render_field. cbn [fst snd]. intros Hk Hc Ha. rewrite <- app_assoc.
  intros Hno. rewrite strstr_key by done. destruct v as [v|z]; cbn [render_val].
  - cbn [app]. rewrite <- app_assoc. rewrite strstr_quote; [by apply strstr_escape|].
    apply no_key_in_escape; [apply key_alpha|done].
  - apply strstr_plain, show_Z_plain.
Qed.

Lemma strstr_stop : strstr ["}"%char] pat = None.
Proof using. done. Qed.
End Scanner.

(** The rendered object from the first field the pattern matches. *)
Fixpoint first_match (pat : cstr) (fs : list (cstr * jval)) : option cstr :=
  match fs with
  | [] => None
  | f :: fs' =>
      let s := render_fields (f :: fs') ++ ["}"%char] in
      if starts_with pat s then Some s else first_match pat fs'
  end.

(** The occurrences of a pattern in a rendered object are its fields. *)
Lemma strstr_render fs key tail :
  good_key key = true -> Forall (fun f => good_key (fst f) = true) fs ->
  strstr (render_obj fs) (dquote :: key ++ dquote :: ":"%char :: tail) =
  first_match (dquote :: key ++ dquote :: ":"%char :: tail) fs.
Proof.
  intros Hkey Hfs. unfold render_obj.
  rewrite (strstr_skip1 key tail) by done.
  induction Hfs as [|f fs Hf Hfs IH]; [done|].
  set (pat := dquote :: _) in *. cbn [first_match]. cbn zeta.
  destruct (starts_with pat (render_fields (f :: fs) ++ ["}"%char])) eqn:E.
  { by apply strstr_here. }
  destruct fs as [|g fs].
  - cbn [render_fields] in *. unfold pat in *. by rewrite strstr_field by done.
  - change (render_fields (f :: g :: fs)) with (render_field f ++ ","%char :: render_fields (g :: fs)) in *.
    rewrite <- app_assoc in *. cbn [app] in *. unfold pat in *.
    rewrite strstr_field by done.
    rewrite (strstr_skip1 key tail) by done. exact IH.
Qed.

(** The text after a field, up to the end of the object. *)
Definition after_field (fs : list (cstr * jval)) : cstr :=
  match fs with [] => ["}"%char] | _ => ","%char :: render_fields fs ++ ["}"%char] end.

Lemma render_fields_cons f fs :
  render_fields (f :: fs) ++ ["}"%char] = render_field f ++ after_field fs.
Proof. destruct fs; simpl; [done|]. by rewrite <- app_assoc. Qed.

Lemma render_field_string k v rest :
  render_field (k, JStr v) ++ rest = string_pattern k ++ escape v ++ dquote :: rest.
Proof.
  unfold render_field, int_pattern, string_pattern. cbn [fst snd render_val].
  change (js "':'") with (js "':" ++ [dquote]). cbn [app]. rewrite <- !app_assoc. cbn [app].
  by rewrite <- app_assoc.
Qed.

Lemma string_pattern_eq k : string_pattern k = dquote :: k ++ dquote :: ":"%char :: [dquote].
Proof. done. Qed.

Lemma int_pattern_eq k : int_pattern k = dquote :: k ++ dquote :: ":"%char :: [].
Proof. done. Qed.

Lemma starts_with_other key k v rest tail :
  good_key key = true -> good_key k = true -> k <> key ->
  starts_with (dquote :: key ++ dquote :: ":"%char :: tail) (render_field (k, v) ++ rest) = false.
Proof.
  intros Hkey Hk Hne. apply not_true_iff_false. unfold render_field, int_pattern. cbn [fst snd app].
  cbn [starts_with]. rewrite andb_true_iff. intros [_ H].
  rewrite <- !app_assoc in H. change (js "':") with (dquote :: [":"%char]) in H. cbn [app] in H.
  apply keys_differ in H; congruence.
Qed.

Lemma show_Z_head z : exists c s, show_Z z = c :: s /\ c <> dquote /\ is_space c = false.
Proof.
  unfold show_Z. case_match.
  - by exists "-"%char, (show_nonneg (- z)).
  - bool_to_prop. destruct (show_nonneg_spec z) as (_ & Hne & Hd); [lia|].
    destruct (show_nonneg z) as [|c s]; [done|]. apply Forall_cons in Hd as [Hd _].
    exists c, s. split_and!; [done|by intros ->|by apply is_digit_not_space].
Qed.

(** A string pattern does not match an integer field. *)
Lemma string_pattern_int key z rest :
  starts_with (string_pattern key) (render_field (key, JInt z) ++ rest) = false.
Proof.
  apply not_true_iff_false. intros (s' & H)%starts_with_spec.
  unfold render_field in H. cbn [fst snd render_val] in H.
  change (string_pattern key) with (dquote :: key ++ js "':" ++ [dquote]) in H.
  unfold int_pattern in H. rewrite <- !app_assoc in H. cbn [app] in H. injection H as H.
  rewrite <- !app_assoc in H. apply app_inv_head in H.
  change (js "':") with [dquote; ":"%char] in H. cbn [app] in H.
  destruct (show_Z_head z) as (c & s & E & Hc & _). rewrite E in H. by simplify_eq/=.
Qed.

Lemma length_string_pattern key : length (string_pattern key) = length key + 4.
Proof. unfold string_pattern. simpl. rewrite length_app. simpl. lia. Qed.

Lemma length_int_pattern key : length (int_pattern key) = length key + 3.
Proof. unfold int_pattern. simpl. rewrite length_app. simpl. lia. Qed.

(** Where a string pattern matches in a rendered object. *)
Lemma first_match_string key fs :
  good_key key = true -> Forall (fun f => good_key (fst f) = true) fs ->
  match field_str fs key with
  | None => first_match (string_pattern key) fs = None
  | Some v => exists rest,
      first_match (string_pattern key) fs = Some (string_pattern key ++ escape v ++ dquote :: rest)
  end.
Proof.
  intros Hkey. induction 1 as [|[k v] fs Hk Hfs IH]; [done|].
  cbn [first_match field_str]. cbn zeta. rewrite render_fields_cons.
  destruct (decide (k = key)) as [->|Hne].
  - destruct v as [v|z].
    + rewrite bool_decide_true by done. rewrite render_field_string, starts_with_app. eauto.
    + rewrite string_pattern_int. exact IH.
  - rewrite string_pattern_eq in *. rewrite starts_with_other by done.
    rewrite bool_decide_false by done. by destruct v.
Qed.

Lemma first_match_int key fs :
  good_key key = true -> Forall (fun f => good_key (fst f) = true) fs ->
  match field_int fs key with
  | Some z => exists fs',
      first_match (int_pattern key) fs = Some (int_pattern key ++ show_Z z ++ after_field fs')
  | None => first_match (int_pattern key) fs = None \/
      exists s, first_match (int_pattern key) fs = Some (int_pattern key ++ dquote :: s)
  end.
Proof.
  intros Hkey. induction 1 as [|[k v] fs Hk Hfs IH]; [by left|].
  cbn [first_match field_int]. cbn zeta. rewrite render_fields_cons.
  destruct (decide (k = key)) as [->|Hne].
  - rewrite bool_decide_true by done. unfold render_field. cbn [fst snd].
    rewrite <- app_assoc, starts_with_app.
    destruct v as [v|z]; [right|]; eexists; cbn [render_val app]; reflexivity.
  - rewrite int_pattern_eq in *. rewrite starts_with_other by done.
    by rewrite bool_decide_false by done.
Qed.

Lemma find_pattern_string key fs :
  good_key key = true -> Forall (fun f => good_key (fst f) = true) fs -> length key + 4 < 128 ->
  match field_str fs key with
  | None => find_pattern (render_obj fs) (string_pattern key) = None
  | Some v => exists rest,
      find_pattern (render_obj fs) (string_pattern key) = Some (escape v ++ dquote :: rest)
  end.
Proof.
  intros Hkey Hfs Hlen. unfold find_pattern. rewrite length_string_pattern.
  destruct (Nat.leb_spec 128 (length key + 4)); [lia|].
  rewrite string_pattern_eq, strstr_render, <- string_pattern_eq by done.
  pose proof (first_match_string key fs Hkey Hfs) as Hf. destruct (field_str fs key) as [v|].
  - destruct Hf as (rest & ->). exists rest. cbn [fmap option_fmap option_map].
    by rewrite <- length_string_pattern, drop_app_length.
  - by rewrite Hf.
Qed.

Lemma after_field_not_digit fs x k : after_field fs = x :: k -> is_digit x = false.
Proof. destruct fs; intros [= <- <-]; done. Qed.

Lemma find_pattern_int key fs :
  good_key key = true -> Forall (fun f => good_key (fst f) = true) fs -> length key + 3 < 128 ->
  match field_int fs key with
  | Some z => exists fs',
      find_pattern (render_obj fs) (int_pattern key) = Some (show_Z z ++ after_field fs')
  | None => find_pattern (render_obj fs) (int_pattern key) = None \/
      exists s, find_pattern (render_obj fs) (int_pattern key) = Some (dquote :: s)
  end.
Proof.
  intros Hkey Hfs Hlen. unfold find_pattern. rewrite length_int_pattern.
  destruct (Nat.leb_spec 128 (length key + 3)); [lia|].
  rewrite int_pattern_eq, strstr_render, <- int_pattern_eq by done.
  pose proof (first_match_int key fs Hkey Hfs) as Hf. destruct (field_int fs key) as [z|].
  - destruct Hf as (fs' & ->). exists fs'. cbn [fmap option_fmap option_map].
    by rewrite <- length_int_pattern, drop_app_length.
  - destruct Hf as [->|(s & ->)]; [by left|right]. exists s. cbn [fmap option_fmap option_map].
    by rewrite <- length_int_pattern, drop_app_length.
Qed.

Lemma scan_length_escape v rest len :
  scan_length (escape v ++ dquote :: rest) len = Some (len + length v).
Proof.
  revert len. induction v as [|c v IH]; intros len.
  - cbn. by rewrite Nat.add_0_r.
  - rewrite escape_cons. unfold esc1.
    destruct (unescape_esc1 c) as [(E & Hb & Hq)|(d & E & _)]; rewrite E; cbn -[decide].
    + destruct (decide (c = bslash)); [done|]. destruct (decide (c = dquote)); [done|].
      rewrite IH. f_equal. lia.
    + destruct (decide (bslash = bslash)); [|done]. rewrite IH. f_equal. lia.
Qed.

Lemma scan_length_ge p len0 len : scan_length p len0 = Some len -> len0 <= len.
Proof.
  remember (length p) as n eqn:Hn. revert p Hn len0.
  induction (lt_wf n) as [n _ IH]. intros p -> len0. destruct p as [|c p]; [done|].
  cbn [scan_length]. repeat case_decide.
  - destruct p as [|d p]; [done|]. intros Hs. apply (IH (length p)) in Hs; [lia|simpl; lia|done].
  - by intros [= <-].
  - intros Hs. apply (IH (length p)) in Hs; [lia|simpl; lia|done].
Qed.

(** The scanned length is always enough room for the copy: on every input the
    second pass neither overflows the buffer nor fails. *)
Lemma copy_loop_scanned cap p buf len :
  scan_length p (length buf) = Some len -> len < cap ->
  exists s, copy_loop cap p buf = CopyOk s /\ length s = len.
Proof.
  remember (length p) as n eqn:Hn. revert p buf Hn.
  induction (lt_wf n) as [n _ IH]. intros p buf -> Hs Hc.
  destruct p as [|c p]; [done|]. cbn [scan_length copy_loop] in *.
  pose proof (fun p len0 => scan_length_ge p len0 len) as Hle.
  destruct (decide (c = bslash)).
  - destruct p as [|next p]; [done|]. pose proof (Hle _ _ Hs).
    destruct (Nat.leb_spec cap (length buf)); [lia|].
    apply (IH (length p)); [simpl; lia|done|by rewrite length_app, Nat.add_1_r|done].
  - destruct (decide (c = dquote)).
    + simplify_eq. destruct (Nat.leb_spec cap (length buf)); [lia|]. eauto.
    + pose proof (Hle _ _ Hs). destruct (Nat.leb_spec cap (length buf)); [lia|].
      apply (IH (length p)); [simpl; lia|done|by rewrite length_app, Nat.add_1_r|done].
Qed.

Lemma copy_loop_escape cap v rest buf :
  length buf + length v < cap ->
  copy_loop cap (escape v ++ dquote :: rest) buf = CopyOk (buf ++ v).
Proof.
  revert buf. induction v as [|c v IH]; intros buf Hc.
  - cbn -[decide]. destruct (decide (dquote = bslash)); [done|]. simpl in Hc.
    destruct (Nat.leb_spec cap (length buf)); [lia|].
    destruct (decide (dquote = dquote)); [|done]. by rewrite app_nil_r.
  - rewrite escape_cons. unfold esc1. simpl in Hc.
    destruct (unescape_esc1 c) as [(E & Hb & Hq)|(d & E & Hd)]; rewrite E; cbn -[decide].
    + destruct (decide (c = bslash)); [done|]. destruct (Nat.leb_spec cap (length buf)); [lia|].
      destruct (decide (c = dquote)); [done|].
      rewrite IH by (rewrite length_app; simpl; lia). by rewrite <- app_assoc.
    + destruct (decide (bslash = bslash)); [|done].
      destruct (Nat.leb_spec cap (length buf)); [lia|].
      rewrite IH by (rewrite length_app; simpl; lia). rewrite Hd. by rewrite <- app_assoc.
Qed.

(** The copied text does not depend on the capacity. *)
Lemma copy_loop_cap cap1 cap2 p buf s1 s2 :
  copy_loop cap1 p buf = CopyOk s1 -> copy_loop cap2 p buf = CopyOk s2 -> s2 = s1.
Proof.
  remember (length p) as k eqn:Hk. revert p Hk buf.
  induction (lt_wf k) as [k _ IH]. intros p -> buf. destruct p as [|c p]; [done|].
  cbn [copy_loop]. repeat case_decide; try destruct p as [|e p]; try done;
    repeat case_match; try done; try congruence; eapply IH; try reflexivity; simpl; lia.
Qed.

(** The bounded loop, the counting pass and the copying pass run in step. *)
Lemma loops_agree n p out :
  length out < n ->
  match scan_length p (length out) with
  | None => get_string_loop n p out = None
  | Some len => exists s, length s = len /\
      (forall cap, len < cap -> copy_loop cap p out = CopyOk s) /\
      get_string_loop n p out = if len <? n then Some s else None
  end.
Proof.
  remember (length p) as m eqn:Hm. revert p Hm out.
  induction (lt_wf m) as [m _ IH]. intros p -> out Hn.
  assert (forall p' d, length p' < length p ->
    match scan_length p' (S (length out)) with
    | None => (if n <=? length out + 1 then None else get_string_loop n p' (out ++ [d])) = None
    | Some len => exists s, length s = len /\
        (forall cap, len < cap ->
          (if cap <=? length out then CopyOverflow else copy_loop cap p' (out ++ [d])) = CopyOk s) /\
        (if n <=? length out + 1 then None else get_string_loop n p' (out ++ [d])) =
          if len <? n then Some s else None
    end) as Hstep.
  { intros p' d Hp. destruct (Nat.leb_spec n (length out + 1)).
    - destruct (scan_length p' (S (length out))) as [len|] eqn:E; [|done].
      pose proof (scan_length_ge _ _ _ E).
      edestruct (copy_loop_scanned (S len) p' (out ++ [d]) len) as (s & Hs & Hl);
        [by rewrite length_app, Nat.add_1_r|lia|].
      exists s. split_and!; [done| |destruct (Nat.ltb_spec len n); [lia|done]].
      intros cap Hcap. destruct (Nat.leb_spec cap (length out)); [lia|].
      edestruct (copy_loop_scanned cap p' (out ++ [d]) len) as (s' & Hs' & Hl');
        [by rewrite length_app, Nat.add_1_r|lia|].
      rewrite Hs'. f_equal. by eapply copy_loop_cap.
    - specialize (IH (length p') Hp p' eq_refl (out ++ [d])).
      rewrite length_app in IH. simpl in IH. rewrite Nat.add_1_r in IH. specialize (IH ltac:(lia)).
      destruct (scan_length p' (S (length out))) as [len|] eqn:E; [|done].
      pose proof (scan_length_ge _ _ _ E). destruct IH as (s & Hl & Hc & Hg).
      exists s. split_and!; [done| |done]. intros cap Hcap.
      destruct (Nat.leb_spec cap (length out)); [lia|]. by apply Hc. }
  destruct p as [|c p]; [done|]. cbn [scan_length get_string_loop copy_loop].
  destruct (decide (c = bslash)).
  - destruct p as [|next p]; [done|]. apply (Hstep p (unescape next)). simpl. lia.
  - destruct (decide (c = dquote)).
    + exists out. split_and!; [done| |].
      * intros cap Hcap. destruct (Nat.leb_spec cap (length out)); [lia|done].
      * destruct (Nat.leb_spec n (length out)), (Nat.ltb_spec (length out) n); lia || done.
    + apply (Hstep p c). simpl. lia.
Qed.

(** The scanner is a field lookup. *)
(** What is read fits its buffer with the terminating NUL. *)
Lemma json_get_string_length json key n s : json_get_string json key n = Some s -> length s < n.
Proof.
  unfold json_get_string. destruct (Nat.eqb_spec n 0); [done|].
  destruct (find_pattern json (string_pattern key)) as [p|]; [|done]. cbn [mbind option_bind].
  pose proof (loops_agree n p [] ltac:(simpl; lia)) as H. simpl length in H.
  destruct (scan_length p 0) as [len|]; [|congruence].
  destruct H as (s' & <- & _ & ->). destruct (Nat.ltb_spec (length s') n); [|done]. by intros [= <-].
Qed.

Lemma json_get_string_lookup fs key n :
  good_key key = true -> Forall (fun f => good_key (fst f) = true) fs -> length key + 4 < 128 ->
  json_get_string (render_obj fs) key n =
  match field_str fs key with
  | Some v => if length v <? n then Some v else None
  | None => None
  end.
Proof.
  intros Hkey Hfs Hlen. unfold json_get_string. destruct (Nat.eqb_spec n 0) as [->|Hn].
  { by destruct (field_str fs key). }
  pose proof (find_pattern_string key fs Hkey Hfs Hlen) as Hf.
  destruct (field_str fs key) as [v|]; [|by rewrite Hf].
  destruct Hf as (rest & ->). cbn [mbind option_bind].
  rewrite get_string_loop_escape by (simpl; lia). done.
Qed.

Lemma json_get_string_alloc_lookup fs key :
  good_key key = true -> Forall (fun f => good_key (fst f) = true) fs -> length key + 4 < 128 ->
  json_get_string_alloc (render_obj fs) key = field_str fs key.
Proof.
  intros Hkey Hfs Hlen. unfold json_get_string_alloc, json_get_string_alloc_raw.
  pose proof (find_pattern_string key fs Hkey Hfs Hlen) as Hf.
  destruct (field_str fs key) as [v|]; [|by rewrite Hf].
  destruct Hf as (rest & ->). rewrite scan_length_escape. simpl.
  by rewrite copy_loop_escape by (simpl; lia).
Qed.

(** ** Properties *)

(** On every message built from escaped values the scanner is a field
    lookup: both readers return the value of the first string field of that
    name, the bounded one when it fits the buffer, and fail when there is none,
    whatever the values contain; no value can forge a field. *)
Lemma json_get_string_field fs key n :
  good_key key = true -> Forall (fun f => good_key (fst f) = true) fs -> length key + 4 < 128 ->
  json_get_string_alloc (render_obj fs) key = field_str fs key /\
  json_get_string (render_obj fs) key n =
  match field_str fs key with
  | Some v => if length v <? n then Some v else None
  | None => None
  end.
Proof.
  intros. split; [by apply json_get_string_alloc_lookup|by apply json_get_string_lookup].
Qed.

(** [json_get_int] reads the first field of that name, narrowed to [int],
    on every message whose integers are [long]s. *)
Lemma json_get_int_field fs key :
  good_key key = true -> Forall (fun f => good_key (fst f) = true) fs -> length key + 3 < 128 ->
  long_fields fs = true ->
  json_get_int (render_obj fs) key = to_int <$> field_int fs key.
Proof.
  intros Hkey Hfs Hlen Hlong. unfold json_get_int.
  pose proof (find_pattern_int key fs Hkey Hfs Hlen) as Hf.
  destruct (field_int fs key) as [z|] eqn:Ez.
  - destruct Hf as (fs' & ->). cbn [mbind option_bind].
    assert (LONG_MIN <= z <= LONG_MAX)%Z as Hz.
    { clear Hfs. revert Ez Hlong. induction fs as [|[k v] fs IH]; [done|].
      cbn [field_int long_fields forallb snd]. rewrite andb_true_iff. intros Ez [Hv Hl].
      case_bool_decide; [|by apply IH]. destruct v; simplify_eq. bool_to_prop. done. }
    destruct (show_Z_head z) as (c & s & E & _ & Hsp).
    assert (drop_while is_space (show_Z z ++ after_field fs') = show_Z z ++ after_field fs') as ->.
    { rewrite E. cbn. by rewrite Hsp. }
    rewrite strtol_show_Z by (done || apply after_field_not_digit).
    rewrite bool_decide_false; [done|]. intros H%(f_equal length). rewrite length_app, E in H.
    simpl in H. lia.
  - destruct Hf as [->|(s & ->)]; [done|]. cbn [mbind option_bind].
    change (strtol (drop_while is_space (dquote :: s))) with (0%Z, dquote :: s).
    change (drop_while is_space (dquote :: s)) with (dquote :: s).
    cbn zeta iota. by rewrite bool_decide_true.
Qed.

(** C39: The two-pass reader is memory safe and agrees with the bounded one on
    every input, malformed ones included: the second pass never writes past
    the buffer sized by the first, and the bounded reader returns the same
    text exactly when it fits. *)
Theorem json_get_string_alloc_safe json key n :
  json_get_string_alloc_raw json key <> CopyOverflow /\
  json_get_string json key n =
  match json_get_string_alloc json key with
  | Some s => if length s <? n then Some s else None
  | None => None
  end.
Proof.
  unfold json_get_string, json_get_string_alloc, json_get_string_alloc_raw.
  destruct (find_pattern json (string_pattern key)) as [p|]; cbn [mbind option_bind].
  2: by destruct (n =? 0).
  split.
  - destruct (scan_length p 0) as [len|] eqn:E; [|done].
    edestruct (copy_loop_scanned (len + 1) p [] len) as (s & -> & _); [done|lia|done].
  - destruct (Nat.eqb_spec n 0) as [->|Hn].
    { destruct (scan_length p 0); [|done]. by destruct (copy_loop _ _ _). }
    pose proof (loops_agree n p [] ltac:(simpl; lia)) as H. simpl in H.
    destruct (scan_length p 0) as [len|]; [|done].
    destruct H as (s & <- & Hc & Hg). by rewrite (Hc (length s + 1)) by lia.
Qed.

(** Escaping is exact: the bounded escape succeeds exactly when the
    reference escaped text and its NUL fit, [escape_length] is its length, so
    [json_escape_dup] never fails and never overflows its buffer; and the
    escaped text reads back as the original. *)
Theorem json_escape_exact s n :
  json_escape_string n s = (if length (escape s) <? n then Some (escape s) else None) /\
  json_escape_dup s = Some (escape s) /\
  escape_length s = length (escape s) /\
  forall rest, get_string_loop (S (length s)) (escape s ++ dquote :: rest) [] = Some s.
Proof.
  split_and!.
  - apply escape_value_spec.
  - apply json_escape_dup_spec.
  - apply escape_length_spec.
  - intros rest. rewrite get_string_loop_escape by (simpl; lia). simpl.
    by destruct (Nat.ltb_spec (length s) (S (length s))); [|lia].
Qed.

(** C34: On every message built from escaped values the scanners are field look-ups: the string
    readers return the value of the first string field of that name, the bounded one when it
    fits the buffer, and fail when there is none, whatever the values contain, so that no
    value can forge a field; [json_get_int] reads the first integer field of that name,
    narrowed to [int]. *)
Theorem json_get_field fs key n :
  good_key key = true -> Forall (fun f => good_key (fst f) = true) fs -> length key + 4 < 128 ->
  json_get_string_alloc (render_obj fs) key = field_str fs key /\
  json_get_string (render_obj fs) key n =
    match field_str fs key with
    | Some v => if length v <? n then Some v else None
    | None => None
    end /\
  (long_fields fs = true -> json_get_int (render_obj fs) key = to_int <$> field_int fs key).
Proof.
  intros Hk Hf Hl. destruct (json_get_string_field fs key n Hk Hf Hl) as [H1 H2]. split; [done|]. split; [done|].
  intros Hlong. apply json_get_int_field; done || lia.
Qed.

Lemma json_get_field_witness :
  let m := [(cs "type", JStr (cs "READ")); (cs "file", JStr (js "a','index':9,'type':'X")); (cs "index", JInt 4294967297)] in
  json_get_string (render_obj m) (cs "file") 128 = Some (js "a','index':9,'type':'X") /\
  json_get_int (render_obj m) (cs "index") = Some 1%Z.
Proof.
  cbv zeta. split.
  - destruct (json_get_field [(cs "type", JStr (cs "READ")); (cs "file", JStr (js "a','index':9,'type':'X")); (cs "index", JInt 4294967297)]
                (cs "file") 128 ltac:(reflexivity) ltac:(repeat constructor) ltac:(simpl; lia)) as (_ & H & _). exact H.
  - destruct (json_get_field [(cs "type", JStr (cs "READ")); (cs "file", JStr (js "a','index':9,'type':'X")); (cs "index", JInt 4294967297)]
                (cs "index") 128 ltac:(reflexivity) ltac:(repeat constructor) ltac:(simpl; lia)) as (_ & _ & H). exact (H eq_refl).
Defined.
