(* ===== verification/Random.v ===== *)
(** * [common/randutil.c]: random tokens

    [rand] after [srand] is the library's generator: a stream of non-negative numbers for each
    seed.  The seed comes from [/dev/urandom] or, when that cannot be read, from the process
    and the clock. *)

From S2P Require Import Prelude Cstr Json.

Definition alphabet : cstr := cs "ABCDEFGHIJKLMNOPQRSTUVWXYZabcdefghijklmnopqrstuvwxyz0123456789".

(** What [randutil_seed] finds: the four bytes of [/dev/urandom], if it can be opened and
    read, the process and the time. *)
Record seed_source := mk_source { urandom : option (option Z); getpid : Z; seed_time : Z }.

(** [seeded] with the seed, and the number of values drawn since. *)
Record generator := mk_gen { g_seed : option Z; g_drawn : nat }.
Definition fresh_generator : generator := mk_gen None 0.

Definition seed_value (src : seed_source) : Z :=
  match urandom src with
  | Some (Some seed) => to_u32 seed
  | _ => Z.lxor (to_u32 (getpid src)) (to_u32 (seed_time src))
  end.

Definition randutil_seed (src : seed_source) (g : generator) : generator :=
  match g_seed g with
  | Some _ => g
  | None => mk_gen (Some (seed_value src)) 0
  end.

Section Random.
(** The numbers [rand] returns after [srand(seed)]. *)
Context (rand : Z -> nat -> Z).

Definition pick (r : Z) : ascii := default "A"%char (alphabet !! Z.to_nat (Z.rem r (Z.of_nat (length alphabet)))).

Definition draw (n : nat) (g : generator) : cstr * generator :=
  (map (fun i => pick (rand (default 0%Z (g_seed g)) (g_drawn g + i))) (seq 0 n), mk_gen (g_seed g) (g_drawn g + n)).

(** The text written to the buffer, [None] when nothing is. *)
Definition randutil_token (src : seed_source) (length : Z) (g : generator) : option cstr * generator :=
  if (length <=? 0)%Z then (None, g)
  else let '(token, g) := draw (Z.to_nat (length - 1)) (randutil_seed src g) in (Some token, g).

(** Tokens one after another. *)
Fixpoint tokens (src : nat -> seed_source) (length : Z) (n : nat) (g : generator) : list cstr * generator :=
  match n with
  | O => ([], g)
  | S n =>
      let '(token, g) := randutil_token (src n) length g in
      let '(ts, g) := tokens src length n g in (option_list token ++ ts, g)
  end.

Context (rand_nonneg : forall seed i, (0 <= rand seed i)%Z).

Lemma pick_alphabet r : (0 <= r)%Z -> pick r ∈ alphabet.
Proof using.
  intros Hr. unfold pick. destruct (alphabet !! _) as [x|] eqn:E; [by eapply list_elem_of_lookup_2|].
  exfalso. apply lookup_ge_None in E. pose proof (Z.rem_bound_pos r (Z.of_nat (length alphabet)) Hr ltac:(cbn; lia)). lia.
Qed.

Lemma alphabet_plain x : x ∈ alphabet -> esc_replacement x = None /\ x <> newline /\ x <> " "%char /\ x <> "000"%char.
Proof using.
  revert x. apply Forall_forall, (bool_decide_unpack (Forall _ alphabet)). by vm_compute.
Qed.

Lemma escape_id s : Forall (fun x => esc_replacement x = None) s -> escape s = s.
Proof using.
  induction 1 as [|x s Hx Hs IH]; [done|]. rewrite escape_cons, IH. unfold esc1. by rewrite Hx.
Qed.

(** A token has the characters its buffer holds, needs no escaping, and the next one is made
    of the numbers that follow. *)
Lemma randutil_token_spec src n g :
  (0 < n)%Z ->
  let '(r, g') := randutil_token src n g in
  exists t, r = Some t /\ length t = Z.to_nat (n - 1) /\ Forall (fun x => x ∈ alphabet) t /\ escape t = t /\
    g_seed g' = Some (default (seed_value src) (g_seed g)) /\
    g_drawn g' = (if g_seed g then g_drawn g else 0) + length t.
Proof using rand_nonneg.
  intros Hn. unfold randutil_token. destruct (Z.leb_spec n 0); [lia|]. cbv beta iota zeta delta [draw].
  set (t := map _ _). exists t.
  assert (Forall (fun x => x ∈ alphabet) t) as Ha by (apply Forall_fmap, Forall_true; intros i; by apply pick_alphabet).
  assert (length t = Z.to_nat (n - 1)) as Hl by (unfold t; by rewrite length_map, length_seq).
  split_and!; [done|done|done| | |].
  - apply escape_id. eapply Forall_impl; [exact Ha|]. intros x Hx. by apply alphabet_plain.
  - cbn [g_seed]. unfold randutil_seed. by destruct (g_seed g) eqn:E; rewrite ?E.
  - cbn [g_drawn]. rewrite Hl. unfold randutil_seed. by destruct (g_seed g).
Qed.

(** The tokens of tickets: 63 characters each, none to be escaped. *)
Lemma ticket_tokens src n g :
  Forall (fun t => length t = 63 /\ escape t = t) (fst (tokens src 64 n g)) /\ length (fst (tokens src 64 n g)) = n.
Proof using rand_nonneg.
  revert g. induction n as [|n IH]; intros g; [by split|]. cbn [tokens].
  pose proof (randutil_token_spec (src n) 64 g eq_refl) as H. destruct (randutil_token (src n) 64 g) as [r g1].
  destruct H as (t & -> & Hl & _ & He & _). specialize (IH g1). destruct (tokens src 64 n g1) as [ts g2]. cbn [fst] in *.
  destruct IH as [I1 I2]. split; [|cbn; by rewrite I2]. constructor; [by split|done].
Qed.
End Random.
