(* ===== verification/Arr.v ===== *)
(** * [common/array.c]: the growable array

    The buffer is a list of slots, [None] for memory that was allocated but not
    written.  Capacities are [size_t] values with their wrap-around; [realloc]
    may refuse any request.  Elements are moved slot-wise where the code moves
    [elem_size] bytes per element. *)

From S2P Require Import Prelude.

Section Arr.
Context {A : Type}.
(** The environment's answer to [realloc] of that many bytes. *)
Context (realloc_ok : Z -> bool).

Record array := mk_array {
  data : list (option A);
  len : nat;
  cap : Z;
  elem_size : Z;
}.

Definition array_init (elem_size : Z) : array :=
  {| data := []; len := 0; cap := 0; elem_size := elem_size |}.

Definition array_free (arr : array) : array :=
  {| data := []; len := 0; cap := 0; elem_size := elem_size arr |}.

(** [while (new_cap < min_capacity) new_cap *= 2;] with [size_t] wrap-around;
    [None] when the loop has not ended within [fuel] rounds. *)
Fixpoint grow_loop (fuel : nat) (new_cap min_capacity : Z) : option Z :=
  if (new_cap <? min_capacity)%Z then
    match fuel with
    | O => None
    | S f => grow_loop f (to_size (new_cap * 2)) min_capacity
    end
  else Some new_cap.

(** [realloc(data, new_cap * elem_size)]: the old slots are kept. *)
Definition resize (slots : nat) (d : list (option A)) : list (option A) :=
  take slots d ++ replicate (slots - length d) None.

(** Result of an operation: the [int] it returns is 0 ([true]) or -1 ([false]);
    [None] means that [array_grow]'s loop does not terminate. *)
Definition array_grow (arr : array) (min_capacity : Z) : option (bool * array) :=
  if (min_capacity <=? cap arr)%Z then Some (true, arr)
  else
    match grow_loop 64 (if (cap arr =? 0)%Z then 8 else to_size (cap arr * 2))%Z min_capacity with
    | None => None
    | Some new_cap =>
        let bytes := to_size (new_cap * elem_size arr) in
        if realloc_ok bytes then
          Some (true, {| data := resize (Z.to_nat (bytes `div` elem_size arr)) (data arr);
                         len := len arr; cap := new_cap; elem_size := elem_size arr |})
        else Some (false, arr)
    end.

Definition array_reserve := array_grow.

Definition array_get (arr : array) (index : nat) : option A :=
  if len arr <=? index then None else mjoin (data arr !! index).

Definition array_push (arr : array) (value : A) : option (bool * array) :=
  match array_grow arr (to_size (Z.of_nat (len arr) + 1)) with
  | Some (true, a) =>
      Some (true, {| data := <[len a := Some value]> (data a); len := S (len a);
                     cap := cap a; elem_size := elem_size a |})
  | r => r
  end.

(** [memmove] of [n] slots from [src] to [dst]. *)
Definition memmove_slots (dst src n : nat) (d : list (option A)) : list (option A) :=
  take dst d ++ take n (drop src d) ++ drop (dst + n) d.

Definition array_insert (arr : array) (index : nat) (value : A) : option (bool * array) :=
  if len arr <? index then Some (false, arr)
  else
    match array_grow arr (to_size (Z.of_nat (len arr) + 1)) with
    | Some (true, a) =>
        Some (true, {| data := <[index := Some value]>
                                 (memmove_slots (S index) index (len a - index) (data a));
                       len := S (len a); cap := cap a; elem_size := elem_size a |})
    | r => r
    end.

Definition array_remove (arr : array) (index : nat) : array :=
  if len arr <=? index then arr
  else {| data := memmove_slots index (S index) (len arr - index - 1) (data arr);
          len := len arr - 1; cap := cap arr; elem_size := elem_size arr |}.

(** ** Invariant and abstraction *)

Record wf (arr : array) : Prop := {
  wf_elem : (0 < elem_size arr)%Z;
  wf_cap : (0 <= cap arr)%Z;
  wf_slots : length (data arr) = Z.to_nat (cap arr);
  wf_len : len arr <= length (data arr);
  wf_init : forall i, i < len arr -> exists x, data arr !! i = Some (Some x);
}.

Definition arr_list (arr : array) : list A := omap id (take (len arr) (data arr)).

(** Room for one more element without [size_t] overflow, with the factor two
    of the growth policy. *)
Definition room (arr : array) : Prop :=
  ((2 * (Z.of_nat (len arr) + 8)) * elem_size arr < SIZE_MOD)%Z /\
  (2 * cap arr * elem_size arr < SIZE_MOD)%Z.

Lemma grow_loop_spec fuel c m :
  (0 < c)%Z -> (m <= c * 2 ^ Z.of_nat fuel)%Z -> (2 * m <= SIZE_MOD)%Z ->
  exists c', grow_loop fuel c m = Some c' /\ (m <= c')%Z /\ (c' = c \/ c' < 2 * m)%Z /\ (c <= c')%Z.
Proof.
  revert c. induction fuel as [|f IH]; intros c Hc Hm Hs; cbn [grow_loop].
  - destruct (Z.ltb_spec c m); [simpl in Hm; lia|]. exists c. split_and!; [done|done|by left|lia].
  - destruct (Z.ltb_spec c m); [|exists c; split_and!; [done|done|by left|lia]].
    rewrite to_size_id by lia.
    destruct (IH (c * 2)%Z) as (c' & E & H1 & H2 & H3); [lia| |done|].
    { rewrite Nat2Z.inj_succ, Z.pow_succ_r in Hm by lia. lia. }
    exists c'. split_and!; [done|done|right; lia|lia].
Qed.

Lemma lookup_resize n d i : i < length d -> length d <= n -> resize n d !! i = d !! i.
Proof.
  intros Hi Hn. unfold resize. rewrite take_ge by done. by rewrite lookup_app_l.
Qed.

Lemma array_grow_spec arr :
  wf arr -> room arr ->
  match array_grow arr (to_size (Z.of_nat (len arr) + 1)) with
  | Some (true, a) => wf a /\ len a = len arr /\ len a < length (data a) /\
      elem_size a = elem_size arr /\ take (len a) (data a) = take (len arr) (data arr)
  | Some (false, a) => a = arr
  | None => False
  end.
Proof.
  intros [He Hc Hs Hl Hi] [Hr1 Hr2].
  assert (2 * (Z.of_nat (len arr) + 8) < SIZE_MOD)%Z as Hr3 by nia.
  assert (2 * cap arr < SIZE_MOD)%Z as Hr4 by nia.
  rewrite to_size_id by lia. unfold array_grow.
  destruct (Z.leb_spec (Z.of_nat (len arr) + 1) (cap arr)) as [Hle|Hgt].
  { split_and!; try done; lia. }
  set (c0 := (if (cap arr =? 0)%Z then 8 else to_size (cap arr * 2))%Z).
  assert (0 < c0 /\ (c0 = 8 \/ c0 = 2 * cap arr) /\ (Z.of_nat (len arr) <= cap arr) /\ (2 * (Z.of_nat (len arr) + 1) <= SIZE_MOD))%Z
    as (Hc0 & Hc0' & Hlc & Hroom).
  { unfold c0. destruct (Z.eqb_spec (cap arr) 0); [split_and!; [done|by left|lia|lia]|].
    rewrite to_size_id by lia. split_and!; [lia|right; lia|lia|lia]. }
  assert (cap arr = Z.of_nat (len arr)) as Hcl by lia.
  destruct (grow_loop_spec 64 c0 (Z.of_nat (len arr) + 1)) as (c & -> & H1 & H2 & H3); [lia|change (2 ^ Z.of_nat 64)%Z with SIZE_MOD; nia|done|].
  assert (0 <= c * elem_size arr < SIZE_MOD)%Z by nia.
  rewrite to_size_id by done. destruct (realloc_ok (c * elem_size arr)); [|done].
  cbn [len data elem_size cap]. rewrite Z.div_mul by lia.
  assert (length (resize (Z.to_nat c) (data arr)) = Z.to_nat c) as Hlen.
  { unfold resize. rewrite length_app, length_take, length_replicate. lia. }
  split_and!.
  - constructor; cbn; [lia|lia|by rewrite Hlen|lia|].
    intros i Hi'. rewrite lookup_resize by lia. by apply Hi.
  - done.
  - lia.
  - done.
  - unfold resize. rewrite (take_ge (data arr)) by lia. by rewrite take_app_le by lia.
Qed.

Lemma omap_id_some (l : list A) : omap id (Some <$> l) = l.
Proof. induction l as [|x l IH]; [done|]. cbn. f_equal. exact IH. Qed.

Lemma wf_data arr : wf arr -> take (len arr) (data arr) = Some <$> arr_list arr.
Proof.
  intros [_ _ _ Hl Hi]. unfold arr_list.
  assert (forall i x, take (len arr) (data arr) !! i = Some x -> exists y, x = Some y) as H.
  { intros i x (Hx & Hlt)%lookup_take_Some. destruct (Hi i Hlt) as (y & Hy). naive_solver. }
  revert H. generalize (take (len arr) (data arr)). induction l as [|x l IH]; intros H; [done|].
  destruct (H 0 x eq_refl) as (y & ->). simpl. f_equal. apply IH. intros i z Hz. by apply (H (S i)).
Qed.

Lemma length_arr_list arr : wf arr -> length (arr_list arr) = len arr.
Proof.
  intros H. pose proof (wf_data arr H) as E%(f_equal length).
  rewrite length_fmap, length_take in E. destruct H. lia.
Qed.

(** An array whose live slots are those of a list. *)
Lemma wf_intro arr l :
  (0 < elem_size arr)%Z -> (0 <= cap arr)%Z -> length (data arr) = Z.to_nat (cap arr) ->
  len arr <= length (data arr) -> take (len arr) (data arr) = Some <$> l ->
  wf arr /\ arr_list arr = l.
Proof.
  intros He Hc Hs Hl Ht. split; [|unfold arr_list; by rewrite Ht, omap_id_some].
  constructor; try done. intros i Hi.
  assert (is_Some (take (len arr) (data arr) !! i)) as [x Hx].
  { apply lookup_lt_is_Some. rewrite length_take. lia. }
  pose proof Hx as Hx'. rewrite Ht, list_lookup_fmap in Hx'.
  apply lookup_take_Some in Hx as [Hx _].
  apply fmap_Some in Hx' as (y & _ & ->). eauto.
Qed.

Lemma grown_wf arr a :
  wf a -> len a = len arr -> take (len a) (data a) = take (len arr) (data arr) ->
  wf arr -> take (len arr) (data a) = Some <$> arr_list arr.
Proof. intros Ha Hl Ht H. rewrite <- Hl, Ht. by apply wf_data. Qed.

(** Shifting the tail right by one and writing the gap is list insertion. *)
Lemma memmove_insert (d : list (option A)) (l : list A) i x :
  length l < length d -> take (length l) d = Some <$> l -> i <= length l ->
  take (S (length l)) (<[i := Some x]> (memmove_slots (S i) i (length l - i) d)) =
  Some <$> insert_at i x l.
Proof.
  intros Hd Ht Hi. unfold memmove_slots, insert_at.
  assert (take i d = Some <$> take i l) as Hti.
  { rewrite fmap_take, <- Ht, take_take. f_equal. lia. }
  assert (take (length l - i) (drop i d) = Some <$> drop i l) as Hdi.
  { rewrite fmap_drop, <- Ht, skipn_firstn_comm. done. }
  rewrite fmap_app, fmap_cons, <- Hti, <- Hdi.
  assert (length (take i d) = i) as Hlt by (rewrite length_take; lia).
  destruct (lookup_lt_is_Some_2 d i ltac:(lia)) as [y Hy].
  rewrite (take_S_r d i y) by done. rewrite <- app_assoc. cbn [app].
  rewrite insert_app_r_alt by lia. rewrite Hlt, Nat.sub_diag. cbn [list_insert insert].
  rewrite take_app_ge by lia. f_equal. rewrite Hlt.
  replace (S (length l) - i) with (S (length l - i)) by lia. cbn [take]. f_equal.
  rewrite take_app_le by (rewrite length_take, length_drop; lia).
  rewrite take_take. f_equal. lia.
Qed.

(** Shifting the tail left by one is list removal. *)
Lemma memmove_remove (d : list (option A)) (l : list A) i :
  length l <= length d -> take (length l) d = Some <$> l -> i < length l ->
  take (length l - 1) (memmove_slots i (S i) (length l - i - 1) d) = Some <$> remove_at i l.
Proof.
  intros Hd Ht Hi. unfold memmove_slots, remove_at.
  assert (take i d = Some <$> take i l) as Hti.
  { rewrite fmap_take, <- Ht, take_take. f_equal. lia. }
  assert (take (length l - i - 1) (drop (S i) d) = Some <$> drop (S i) l) as Hdi.
  { rewrite fmap_drop, <- Ht, skipn_firstn_comm. f_equal. lia. }
  rewrite fmap_app, <- Hti, <- Hdi.
  assert (length (take i d) = i) as Hlt by (rewrite length_take; lia).
  assert (length (take (length l - i - 1) (drop (S i) d)) = length l - i - 1) as Hld
    by (rewrite length_take, length_drop; lia).
  rewrite take_app_ge by lia. f_equal. rewrite Hlt.
  rewrite take_app_le by lia. rewrite take_take. f_equal. lia.
Qed.

Lemma length_memmove dst src n (d : list (option A)) :
  dst + n <= length d -> src + n <= length d -> length (memmove_slots dst src n d) = length d.
Proof.
  intros. unfold memmove_slots. rewrite !length_app, !length_take, !length_drop. lia.
Qed.

Lemma array_insert_list arr i x :
  wf arr -> room arr -> i <= len arr ->
  match array_insert arr i x with
  | Some (true, a) => wf a /\ arr_list a = insert_at i x (arr_list arr)
  | Some (false, a) => a = arr
  | None => False
  end.
Proof.
  intros Hwf Hroom Hi. unfold array_insert. destruct (Nat.ltb_spec (len arr) i); [lia|].
  pose proof (array_grow_spec arr Hwf Hroom) as Hg.
  destruct (array_grow arr _) as [[[] a]|]; [|done|done].
  destruct Hg as (Ha & Hl & Hlt & _ & Ht). pose proof (length_arr_list arr Hwf) as Hll.
  pose proof (grown_wf arr a Ha Hl Ht Hwf) as Hd. destruct Ha as [He Hc Hs Hle Hin].
  apply wf_intro; cbn [data len cap elem_size]; [done|done| | |].
  - rewrite length_insert, length_memmove by lia. done.
  - rewrite length_insert, length_memmove by lia. lia.
  - rewrite Hl, <- Hll. apply memmove_insert; [lia| |lia]. by rewrite Hll.
Qed.

Lemma array_push_list arr x :
  wf arr -> room arr ->
  match array_push arr x with
  | Some (true, a) => wf a /\ arr_list a = arr_list arr ++ [x]
  | Some (false, a) => a = arr
  | None => False
  end.
Proof.
  intros Hwf Hroom. unfold array_push.
  pose proof (array_grow_spec arr Hwf Hroom) as Hg.
  destruct (array_grow arr _) as [[[] a]|]; [|done|done].
  destruct Hg as (Ha & Hl & Hlt & _ & Ht). pose proof (length_arr_list arr Hwf) as Hll.
  pose proof (grown_wf arr a Ha Hl Ht Hwf) as Hd. destruct Ha as [He Hc Hs Hle Hin].
  apply wf_intro; cbn [data len cap elem_size]; [done|done| | |].
  - by rewrite length_insert.
  - rewrite length_insert. lia.
  - erewrite take_S_r by (apply list_lookup_insert_eq; lia).
    rewrite take_insert_ge by lia. rewrite Hl, Hd. by rewrite fmap_app.
Qed.

Lemma array_remove_list arr i :
  wf arr -> wf (array_remove arr i) /\
  arr_list (array_remove arr i) =
    if len arr <=? i then arr_list arr else remove_at i (arr_list arr).
Proof.
  intros Hwf. unfold array_remove. destruct (Nat.leb_spec (len arr) i); [done|].
  pose proof (length_arr_list arr Hwf) as Hll. pose proof (wf_data arr Hwf) as Hd.
  destruct Hwf as [He Hc Hs Hle Hin].
  apply wf_intro; cbn [data len cap elem_size]; [done|done| | |].
  - rewrite length_memmove by lia. done.
  - rewrite length_memmove by lia. lia.
  - rewrite <- Hll. apply memmove_remove; [lia| |lia]. by rewrite Hll.
Qed.

Lemma array_get_list arr i : wf arr -> array_get arr i = arr_list arr !! i.
Proof.
  intros Hwf. unfold array_get. destruct (Nat.leb_spec (len arr) i) as [Hi|Hi].
  - symmetry. apply lookup_ge_None. by rewrite length_arr_list.
  - pose proof (wf_data arr Hwf) as Hd%(f_equal (lookup i)).
    rewrite lookup_take_lt, list_lookup_fmap in Hd by done. rewrite Hd.
    by destruct (arr_list arr !! i).
Qed.
End Arr.

Arguments array : clear implicits.

Arguments mk_array {A}.
Arguments data {A}.
Arguments len {A}.
Arguments cap {A}.
Arguments elem_size {A}.

(** ** Properties *)

(** The array refines a list: on a well-formed array with room for the
    growth policy, whatever [realloc] answers, push appends, insert inserts
    before the index (and refuses an index past the end), remove deletes, get
    reads the live elements only; a refused [realloc] leaves the array as it
    was, and the growth loop always terminates. *)
Theorem array_refines_list {A} (realloc_ok : Z -> bool) (arr : array A) (i : nat) (x : A) :
  wf arr -> room arr ->
  match array_push realloc_ok arr x with
  | Some (true, a) => wf a /\ arr_list a = arr_list arr ++ [x]
  | Some (false, a) => a = arr
  | None => False
  end /\
  match array_insert realloc_ok arr i x with
  | Some (true, a) => i <= length (arr_list arr) /\ wf a /\ arr_list a = insert_at i x (arr_list arr)
  | Some (false, a) => a = arr
  | None => False
  end /\
  wf (array_remove arr i) /\
  arr_list (array_remove arr i) =
    (if length (arr_list arr) <=? i then arr_list arr else remove_at i (arr_list arr)) /\
  array_get arr i = arr_list arr !! i.
Proof.
  intros Hwf Hroom. rewrite length_arr_list by done. split_and!.
  - by apply array_push_list.
  - destruct (le_lt_dec i (len arr)) as [Hi|Hi].
    + pose proof (array_insert_list realloc_ok arr i x Hwf Hroom Hi).
      destruct (array_insert _ _ _ _) as [[[] ?]|]; [|done|done]. done.
    + unfold array_insert. by destruct (Nat.ltb_spec (len arr) i); [|lia].
  - by apply array_remove_list.
  - by apply array_remove_list.
  - by apply array_get_list.
Qed.

Lemma array_refines_list_witness :
  array_get (mk_array [Some 4; Some 5; None] 2 3 8) 1 = arr_list (mk_array [Some 4; Some 5; None] 2 3 8) !! 1.
Proof.
  apply (array_refines_list (fun _ => true) (mk_array [Some 4; Some 5; None] 2 3 8) 1 9).
  - constructor; simpl; try lia. intros [|[|i]] Hi; simpl; eauto. lia.
  - split; reflexivity.
Defined.
