(* ===== verification/Wire.v ===== *)
(** * [common/net_proto.c]: length-prefixed framing over a byte stream

    [send] and [recv] are the environment: each call is an event that says how
    many bytes the kernel took or delivered, or how the call failed.  The
    receive side reads a byte stream in pieces of any size. *)

From S2P Require Import Prelude Cstr.

(** ** Byte order *)

(** [htonl] as the four bytes that go on the wire, and [ntohl] of them. *)
Definition byte_of (z : Z) : ascii := ascii_of_N (Z.to_N (z `mod` 256)).

Definition be32 (n : Z) : list ascii :=
  [byte_of (n `div` 16777216); byte_of (n `div` 65536); byte_of (n `div` 256); byte_of n].

Definition ntohl (bs : list ascii) : Z :=
  match bs with
  | [a; b; c; d] => (code a * 16777216 + code b * 65536 + code c * 256 + code d)%Z
  | _ => 0%Z
  end.

Lemma code_byte_of z : code (byte_of z) = (z `mod` 256)%Z.
Proof.
  unfold code, byte_of. pose proof (Z.mod_pos_bound z 256).
  rewrite N_ascii_embedding; lia.
Qed.

Lemma ntohl_be32 n : (0 <= n < 4294967296)%Z -> ntohl (be32 n) = n.
Proof.
  intros Hn. unfold ntohl, be32. rewrite !code_byte_of.
  pose proof (Z.div_mod n 256). pose proof (Z.div_mod (n `div` 256) 256).
  pose proof (Z.div_mod (n `div` 65536) 256).
  replace 65536%Z with (256 * 256)%Z in * by done. rewrite <- !Z.div_div in * by lia.
  replace 16777216%Z with (256 * 256 * 256)%Z in * by done. rewrite <- !Z.div_div in * by lia.
  rewrite (Z.mod_small (n `div` 256 `div` 256 `div` 256)); [lia|].
  split; [repeat apply Z.div_pos; lia|]. repeat apply Z.div_lt_upper_bound; lia.
Qed.

(** ** Sending *)

Inductive send_event :=
  | Sent (k : nat)   (** the kernel takes up to [k] bytes; 0 is the return value 0 *)
  | SendIntr         (** EINTR *)
  | SendErr.         (** any other error *)

(** The return code is 0 ([true]) or -1; with it the bytes put on the wire and
    the events left.  [None]: the events ran out, the call is still blocked. *)
Fixpoint send_all (evs : list send_event) (buf : list ascii) {struct evs}
  : option (bool * list ascii * list send_event) :=
  match buf with
  | [] => Some (true, [], evs)
  | _ =>
      match evs with
      | [] => None
      | SendIntr :: evs' => send_all evs' buf
      | SendErr :: evs' => Some (false, [], evs')
      | Sent 0 :: evs' => Some (false, [], evs')
      | Sent k :: evs' =>
          match send_all evs' (drop k buf) with
          | Some (rc, out, evs'') => Some (rc, take k buf ++ out, evs'')
          | None => None
          end
      end
  end.

(** [strlen] narrowed to [uint32_t], then the payload. *)
Definition net_send_json (evs : list send_event) (json : cstr)
  : option (bool * list ascii * list send_event) :=
  let n := to_u32 (Z.of_nat (length json)) in
  match send_all evs (be32 n) with
  | Some (true, out, evs') =>
      match send_all evs' (take (Z.to_nat n) json) with
      | Some (rc, out', evs'') => Some (rc, out ++ out', evs'')
      | None => None
      end
  | r => r
  end.

(** ** Receiving *)

Inductive recv_event :=
  | Recvd (k : nat)  (** up to [k] of the bytes available and asked for *)
  | RecvIntr
  | RecvErr.

Record conn := mk_conn { stream : list ascii; events : list recv_event }.

(** What was read into the buffer on success; [None] is -1 (an error, the end of
    the stream) and also a call still blocked when the events run out. *)
Fixpoint recv_loop (evs : list recv_event) (strm : list ascii) (n : nat) (acc : list ascii) {struct evs}
  : option (list ascii * conn) :=
  match n with
  | O => Some (acc, mk_conn strm evs)
  | _ =>
      match evs with
      | [] => None
      | RecvIntr :: evs' => recv_loop evs' strm n acc
      | RecvErr :: _ => None
      | Recvd k :: evs' =>
          let k' := Nat.min k (Nat.min n (length strm)) in
          if k' =? 0 then None
          else recv_loop evs' (drop k' strm) (n - k') (acc ++ take k' strm)
      end
  end.

Definition recv_all (c : conn) (n : nat) : option (list ascii * conn) :=
  recv_loop (events c) (stream c) n [].

Inductive recv_result :=
  | RecvOk (json : list ascii) (c : conn)
  | RecvFail
  | RecvOverflow.  (** the payload is larger than the buffer allocated for it *)

(** [malloc(len + 1)] is computed in [uint32_t]. *)
Definition recv_buffer_size (n : Z) : Z := to_u32 (n + 1).

Definition net_recv_json (c : conn) : recv_result :=
  match recv_all c 4 with
  | None => RecvFail
  | Some (hdr, c') =>
      let n := ntohl hdr in
      if (n + 1 <=? recv_buffer_size n)%Z then
        match recv_all c' (Z.to_nat n) with
        | Some (buf, c'') => RecvOk buf c''
        | None => RecvFail
        end
      else RecvOverflow
  end.

(** ** Lemmas *)

Definition frame (json : cstr) : list ascii := be32 (Z.of_nat (length json)) ++ json.

Definition fits (json : cstr) : Prop := (Z.of_nat (length json) < 4294967295)%Z.

Lemma send_all_spec evs buf rc out evs' :
  send_all evs buf = Some (rc, out, evs') ->
  (exists tl, buf = out ++ tl) /\ (rc = true -> out = buf).
Proof.
  revert buf out. induction evs as [|e evs IH]; intros buf out H; destruct buf as [|b buf]; simpl in H.
  - simplify_eq. eauto.
  - done.
  - simplify_eq. eauto.
  - destruct e as [[|k]| |].
    + simplify_eq. split; [by eexists|done].
    + destruct (send_all evs (drop (S k) (b :: buf))) as [[[rc' out'] evs'']|] eqn:E; [|done].
      simplify_eq.
      apply IH in E as [[tl Htl] Hrc]. split.
      * exists tl. rewrite <- app_assoc, <- Htl. by rewrite take_drop.
      * intros ->. rewrite (Hrc eq_refl). apply take_drop.
    + by apply IH.
    + simplify_eq. split; [by eexists|done].
Qed.

Definition recv_ok (e : recv_event) : bool :=
  match e with Recvd (S _) | RecvIntr => true | _ => false end.
Definition is_recvd (e : recv_event) : bool := match e with Recvd _ => true | _ => false end.

(** Calls that deliver at least [n] bytes in total, if the stream has them. *)
Definition delivers (n : nat) (evs : list recv_event) : Prop :=
  Forall (fun e => recv_ok e = true) evs /\ n <= length (List.filter is_recvd evs).

Lemma recv_loop_ok evs data rest acc m :
  delivers (length data + m) evs ->
  exists evs', recv_loop evs (data ++ rest) (length data) acc =
    Some (acc ++ data, mk_conn rest evs') /\ delivers m evs'.
Proof.
  revert data acc. induction evs as [|e evs IH]; intros data acc [Hok Hn].
  - simpl in Hn. destruct data; [|simpl in Hn; lia]. exists []. rewrite app_nil_r. split; [done|].
    split; [done|]. simpl in *. lia.
  - destruct data as [|d data].
    { exists (e :: evs). rewrite app_nil_r. split; [done|]. split; done. }
    apply Forall_cons in Hok as [He Hok]. destruct e as [[|k]| |]; try done.
    + cbn -[Nat.min]. simpl in Hn.
      set (k' := Nat.min (S k) (Nat.min (S (length data)) (S (length (data ++ rest))))).
      assert (0 < k' /\ k' <= S (length data)) as [Hk1 Hk2] by (unfold k'; rewrite length_app; lia).
      destruct (Nat.eqb_spec k' 0); [lia|].
      assert (k' <= length (d :: data)) as Hk3 by done.
      change (d :: data ++ rest) with ((d :: data) ++ rest).
      rewrite drop_app_le, take_app_le by done.
      replace (S (length data) - k') with (length (drop k' (d :: data))) by (rewrite length_drop; done).
      destruct (IH (drop k' (d :: data)) (acc ++ take k' (d :: data))) as (evs' & E & Hd).
      { split; [done|]. rewrite length_drop. simpl length. lia. }
      exists evs'. split; [|done]. rewrite E. by rewrite <- app_assoc, take_drop.
    + cbn. destruct (IH (d :: data) acc) as (evs' & E & Hd); [by split|]. by exists evs'.
Qed.

Lemma recv_frame json rest evs m :
  fits json -> delivers (4 + length json + m) evs ->
  exists evs', net_recv_json (mk_conn (frame json ++ rest) evs) = RecvOk json (mk_conn rest evs') /\
    delivers m evs'.
Proof.
  intros Hf Hd. unfold net_recv_json, recv_all, frame. cbn [stream events].
  rewrite <- app_assoc.
  destruct (recv_loop_ok evs (be32 (Z.of_nat (length json))) (json ++ rest) [] (length json + m))
    as (evs1 & E1 & Hd1). { by rewrite Nat.add_assoc. }
  change (length (be32 (Z.of_nat (length json)))) with 4 in E1. rewrite E1. cbn [app].
  unfold fits in Hf. rewrite ntohl_be32 by lia. unfold recv_buffer_size.
  rewrite to_u32_id by lia. rewrite Z.leb_refl. cbn [stream events]. rewrite Nat2Z.id.
  destruct (recv_loop_ok evs1 json rest [] m Hd1) as (evs2 & E2 & Hd2). rewrite E2. eauto.
Qed.

(** Receiving message after message from one stream. *)
Fixpoint recv_many (k : nat) (c : conn) : option (list (list ascii) * conn) :=
  match k with
  | O => Some ([], c)
  | S k' =>
      match net_recv_json c with
      | RecvOk j c' => match recv_many k' c' with Some (js, c'') => Some (j :: js, c'') | None => None end
      | _ => None
      end
  end.

(** ** Properties *)

(** C32: Framing round trip: whatever way the kernel splits the writes, a send
    that reports success has put exactly the frame on the wire; and whatever
    way it splits the reads, messages sent one after the other are received
    whole, in order and without residue. *)
Theorem net_frames_roundtrip msgs rest evs :
  Forall fits msgs ->
  delivers (foldr (fun m n => 4 + length m + n) 0 msgs) evs ->
  (forall sevs json out sevs',
     json ∈ msgs -> net_send_json sevs json = Some (true, out, sevs') -> out = frame json) /\
  exists c, recv_many (length msgs) (mk_conn (concat (frame <$> msgs) ++ rest) evs) = Some (msgs, c) /\
    stream c = rest.
Proof.
  intros Hf Hd. split.
  - intros sevs json out sevs' Hin Hs. unfold net_send_json in Hs.
    rewrite Forall_forall in Hf. apply Hf in Hin. unfold fits in Hin.
    rewrite to_u32_id in Hs by lia. rewrite Nat2Z.id, take_ge in Hs by lia.
    destruct (send_all sevs _) as [[[[] o1] e1]|] eqn:E1; [|done|done].
    destruct (send_all e1 json) as [[[rc o2] e2]|] eqn:E2; [|done]. simplify_eq.
    apply send_all_spec in E1 as [_ ->]; [|done]. apply send_all_spec in E2 as [_ ->]; done.
  - revert evs Hd. induction Hf as [|m msgs Hm Hf IH]; intros evs Hd.
    { by eexists. }
    cbn [length recv_many fmap list_fmap concat foldr] in *.
    rewrite <- app_assoc.
    destruct (recv_frame m (concat (frame <$> msgs) ++ rest) evs _ Hm Hd) as (evs' & -> & Hd').
    destruct (IH evs' Hd') as (c & -> & Hc). eauto.
Qed.

Lemma net_frames_roundtrip_witness :
  exists c, recv_many 2 (mk_conn (concat (frame <$> [cs "ab"; cs "c"]) ++ cs "z")
    (RecvIntr :: replicate 11 (Recvd 3))) = Some ([cs "ab"; cs "c"], c) /\ stream c = cs "z".
Proof.
  apply (net_frames_roundtrip [cs "ab"; cs "c"]).
  - repeat constructor.
  - split; [repeat constructor|simpl; lia].
Defined.

Lemma recv_loop_length evs strm n acc bs c :
  recv_loop evs strm n acc = Some (bs, c) -> length bs = length acc + n.
Proof.
  revert strm n acc. induction evs as [|e evs IH]; intros strm n acc H; destruct n as [|n]; cbn -[Nat.min] in H.
  1,3: simplify_eq; lia.
  - done.
  - destruct e as [k| |]; [|by apply IH in H|done].
    set (k' := Nat.min k (Nat.min (S n) (length strm))) in *.
    destruct (Nat.eqb_spec k' 0); [done|]. apply IH in H. rewrite length_app, length_take in H.
    unfold k' in *. lia.
Qed.

Lemma ntohl_range bs : length bs = 4 -> (0 <= ntohl bs < 4294967296)%Z.
Proof.
  intros H. destruct bs as [|a [|b [|c [|d [|]]]]]; simplify_eq/=.
  pose proof (code_range a). pose proof (code_range b). pose proof (code_range c). pose proof (code_range d). lia.
Qed.

(** The receive buffer is large enough for every announced length but the
    largest: exactly when the header announces 2^32 - 1 does [malloc(len + 1)],
    computed in [uint32_t], wrap to zero bytes that the payload then overruns. *)
Theorem recv_overflow_iff strm evs hdr c :
  recv_all (mk_conn strm evs) 4 = Some (hdr, c) ->
  net_recv_json (mk_conn strm evs) = RecvOverflow <-> ntohl hdr = 4294967295%Z.
Proof.
  intros E. unfold net_recv_json. rewrite E.
  assert (0 <= ntohl hdr < 4294967296)%Z as Hr.
  { apply ntohl_range. by apply recv_loop_length in E. }
  unfold recv_buffer_size. destruct (Z.eq_dec (ntohl hdr) 4294967295%Z) as [Hm|Hm].
  - rewrite Hm. done.
  - rewrite to_u32_id by lia. rewrite Z.leb_refl. by destruct (recv_all c _) as [[]|].
Qed.

Lemma recv_overflow_iff_witness :
  net_recv_json (mk_conn (replicate 4 "255"%char) [Recvd 4]) = RecvOverflow.
Proof.
  apply (recv_overflow_iff (replicate 4 "255"%char) [Recvd 4] (replicate 4 "255"%char) (mk_conn [] []));
    reflexivity.
Defined.

(** Two frames whose headers and payloads were written by two threads in turn:
    [net_send_json] makes two [send] calls per message and takes no lock. *)
Definition interleave_frames (a b : cstr) : list ascii :=
  be32 (Z.of_nat (length a)) ++ be32 (Z.of_nat (length b)) ++ a ++ b.

(** Without a lock around [net_send_json] the framing breaks: two messages
    sent concurrently on one connection, each by a sender whose every call
    succeeds, can reach the receiver as neither of the two. *)
Theorem concurrent_senders_corrupt :
  exists a b j c, fits a /\ fits b /\
    net_recv_json (mk_conn (interleave_frames a b) (replicate 8 (Recvd 64))) = RecvOk j c /\
    j <> a /\ j <> b.
Proof.
  exists (cs "{first}"), (cs "{second}"). eexists _, _. split_and!; [done|done|vm_compute; reflexivity| |];
    done.
Qed.
