(* ===== verification/Proto.v ===== *)
(** * [common/error.c] and the JSON replies of the two servers

    [send_ok] and [send_error_response] are the same functions in
    [nm/nm_main.c] and [ss/ss_main.c].  A handler's answer is a value of
    [reply]; [reply_json] is the text those functions put on the wire, [None]
    when it does not fit the 4096-byte buffer and nothing is sent. *)

From S2P Require Import Prelude Cstr Json.

Inductive error_code :=
  | ERR_OK | ERR_NOAUTH | ERR_NOTFOUND | ERR_LOCKED | ERR_BADREQ | ERR_CONFLICT
  | ERR_UNAVAILABLE | ERR_INTERNAL | ERR_EXISTS | ERR_PERM | ERR_TIMEOUT.

#[export] Instance error_code_eq_dec : EqDecision error_code.
Proof. solve_decision. Defined.

Definition error_code_name (c : error_code) : cstr :=
  cs match c with
  | ERR_OK => "OK"
  | ERR_NOAUTH => "ERR_NOAUTH"
  | ERR_NOTFOUND => "ERR_NOTFOUND"
  | ERR_LOCKED => "ERR_LOCKED"
  | ERR_BADREQ => "ERR_BADREQ"
  | ERR_CONFLICT => "ERR_CONFLICT"
  | ERR_UNAVAILABLE => "ERR_UNAVAILABLE"
  | ERR_INTERNAL => "ERR_INTERNAL"
  | ERR_EXISTS => "ERR_EXISTS"
  | ERR_PERM => "ERR_PERM"
  | ERR_TIMEOUT => "ERR_TIMEOUT"
  end.

Definition error_code_message (c : error_code) : cstr :=
  cs match c with
  | ERR_OK => "success"
  | ERR_NOAUTH => "authentication or authorization failure"
  | ERR_NOTFOUND => "resource not found"
  | ERR_LOCKED => "resource is locked"
  | ERR_BADREQ => "invalid request"
  | ERR_CONFLICT => "conflict"
  | ERR_UNAVAILABLE => "service unavailable"
  | ERR_INTERNAL => "internal error"
  | ERR_EXISTS => "resource already exists"
  | ERR_PERM => "operation not permitted"
  | ERR_TIMEOUT => "operation timed out"
  end.

Definition MAX_JSON : nat := 4096.

(** [snprintf] into a buffer of [size] bytes, refused when truncated. *)
Definition fit (size : nat) (s : cstr) : option cstr := if size <=? length s then None else Some s.

(** The text [send_ok(fd, extra)] sends. *)
Definition send_ok (extra : cstr) : option cstr :=
  match extra with
  | [] => fit MAX_JSON (js "{'status':'OK'}")
  | _ => fit MAX_JSON (js "{'status':'OK'," ++ extra ++ cs "}")
  end.

Definition send_error_response (code : error_code) (message : option cstr) : option cstr :=
  let msg := default (error_code_message code) message in
  fit MAX_JSON (js "{'status':'ERR','code':'" ++ error_code_name code ++ js "','message':'" ++ msg ++ js "'}").

Inductive reply :=
  | ROk (extra : cstr)
  | RErr (code : error_code) (message : cstr).

Definition reply_json (r : reply) : option cstr :=
  match r with
  | ROk extra => send_ok extra
  | RErr code msg => send_error_response code (Some msg)
  end.

(** [parse_status] of [nm_main.c] and [cli_main.c], with and without the
    message buffer: [None] is -1. *)
Definition parse_status (response : cstr) (status_len msg_len : nat) : option (cstr * cstr) :=
  status ← json_get_string response (cs "status") status_len;
  Some (status, if msg_len =? 0 then [] else default [] (json_get_string response (cs "message") msg_len)).

(** The test [json_get_string(response, "status", status, 16) == 0 && strcmp(status, "OK") == 0]. *)
Definition status_is_ok (response : cstr) : bool :=
  bool_decide (json_get_string response (cs "status") 16 = Some (cs "OK")).

(** The names of the codes tell them apart. *)
Lemma error_code_name_inj c d : error_code_name c = error_code_name d -> c = d.
Proof. destruct c, d; done. Qed.

(** The JSON texts of the replies are rendered objects. *)
Lemma send_error_render code msg s :
  Forall (fun c => esc_replacement c = None) msg ->
  send_error_response code (Some msg) = Some s ->
  s = render_obj [(cs "status", JStr (cs "ERR")); (cs "code", JStr (error_code_name code));
                  (cs "message", JStr msg)].
Proof.
  intros Hm. unfold send_error_response, fit. case_match; [done|]. intros [= <-].
  assert (escape msg = msg) as Hesc.
  { clear -Hm. induction Hm as [|c m Hc Hm IH]; [done|]. rewrite escape_cons. unfold esc1. by rewrite Hc, IH. }
  unfold render_obj. cbn [render_fields]. unfold render_field at 3. cbn [fst snd render_val].
  rewrite Hesc. cbn [default from_option id]. destruct code; solve_text.
Qed.

(** Error replies are faithful end to end: whatever the code and the
    (plain) message, the JSON text the server sends parses back at the receiver to
    status [ERR], that code's name and that message, and is never taken for a
    success. *)
Theorem error_reply_roundtrip code msg s :
  Forall (fun c => esc_replacement c = None) msg -> length msg < 256 ->
  reply_json (RErr code msg) = Some s ->
  parse_status s 16 256 = Some (cs "ERR", msg) /\
  json_get_string s (cs "code") 32 = Some (error_code_name code) /\
  status_is_ok s = false.
Proof.
  intros Hm Hl Hs. cbn in Hs. apply (send_error_render code msg s Hm) in Hs as ->.
  set (fs := [_; _; _]).
  assert (Forall (fun f => good_key (fst f) = true) fs) as Hfs by (repeat constructor).
  unfold parse_status, status_is_ok. split_and!.
  - do 2 (rewrite json_get_string_lookup by (done || simpl; lia)).
    change (field_str fs (cs "status")) with (Some (cs "ERR")).
    change (field_str fs (cs "message")) with (Some msg). cbn -[Nat.ltb cs].
    by destruct (Nat.ltb_spec (length msg) 256); [|lia].
  - rewrite json_get_string_lookup by (done || simpl; lia). by destruct code.
  - rewrite json_get_string_lookup by (done || simpl; lia). done.
Qed.

Lemma error_reply_roundtrip_witness :
  parse_status (default [] (reply_json (RErr ERR_LOCKED (cs "file locked for write")))) 16 256 =
  Some (cs "ERR", cs "file locked for write").
Proof.
  apply (error_reply_roundtrip ERR_LOCKED (cs "file locked for write")); [|simpl; lia|reflexivity].
  repeat constructor.
Defined.
