(* ===== verification/SsText.v ===== *)
(** * [ss/ss_main.c]: words and sentences

    The storage server edits a document as a list of sentences and a sentence as
    a list of words.  This file models the splitting and joining routines and
    the word counters of [ss_main.c] and [ss_state.c], with the lemmas that say
    when splitting and joining undo each other. *)

From S2P Require Import Prelude Cstr.

(** ** Operations *)

(** [(unsigned char)c <= ' '] *)
Definition blank (c : ascii) : bool := (code c <=? 32)%Z.
Definition nonblank (c : ascii) : bool := negb (blank c).

(** [is_sentence_delim_char] *)
Definition is_sentence_delim_char (c : ascii) : bool :=
  bool_decide (c = "."%char) || bool_decide (c = "!"%char) || bool_decide (c = "?"%char).

Definition trim_spaces (s : cstr) : cstr :=
  let s := rev (drop_while blank (rev s)) in
  drop_while blank s.

(** Until the end of the text: skip blanks, stop at the end, take the word.  Each
    round consumes a character, so the length of the text is enough fuel. *)
Fixpoint split_words_loop (fuel : nat) (p : cstr) : list cstr :=
  match fuel with
  | O => []
  | S f =>
      match drop_while blank p with
      | [] => []
      | p' => take_while nonblank p' :: split_words_loop f (drop_while nonblank p')
      end
  end.

Definition split_words (sentence : cstr) : list cstr := split_words_loop (length sentence) sentence.

(** Line ends become spaces. *)
Definition unline (c : ascii) : ascii :=
  if decide (c = newline \/ c = creturn) then " "%char else c.

(** Push the trimmed buffer unless it is empty. *)
Definition push_sentence (out : list cstr) (buffer : cstr) : list cstr :=
  match trim_spaces buffer with [] => out | b => out ++ [b] end.

Fixpoint split_sentences_loop (p buffer : cstr) (out : list cstr) : list cstr :=
  match p with
  | [] => match buffer with [] => out | _ => push_sentence out buffer end
  | c :: p' =>
      let c := unline c in
      let buffer := buffer ++ [c] in
      if is_sentence_delim_char c then split_sentences_loop p' [] (push_sentence out buffer)
      else split_sentences_loop p' buffer out
  end.

Definition split_sentences (text : cstr) : list cstr := split_sentences_loop text [] [].

(** The second loop of [join_words] and [join_sentences]. *)
Fixpoint join_with (sep : ascii) (ws : list cstr) : cstr :=
  match ws with
  | [] => []
  | [w] => w
  | w :: ws' => w ++ sep :: join_with sep ws'
  end.

Definition join_words (words : list cstr) : cstr := join_with " "%char words.
Definition join_sentences (sentences : list cstr) : cstr := join_with newline sentences.

(** The first loop of [join_words]: the buffer size, less the NUL. *)
Fixpoint join_total (ws : list cstr) : nat :=
  match ws with
  | [] => 0
  | [w] => length w
  | w :: ws' => length w + 1 + join_total ws'
  end.

Fixpoint count_words_loop (p : cstr) (in_word : bool) (count : nat) : nat :=
  match p with
  | [] => count
  | c :: p' =>
      if blank c then count_words_loop p' false count
      else if in_word then count_words_loop p' true count
      else count_words_loop p' true (S count)
  end.

Definition count_words_in_text (text : cstr) : nat := count_words_loop text false 0.

(** ** Words *)

Definition word (w : cstr) : Prop := w <> [] /\ Forall (fun c => nonblank c = true) w.

(** Empty, or starting with a blank. *)
Definition word_end (s : cstr) : Prop := match s with [] => True | c :: _ => blank c = true end.

Lemma nonblank_true c : nonblank c = true <-> blank c = false.
Proof. unfold nonblank. by rewrite negb_true_iff. Qed.

Lemma drop_while_blank_word w s :
  word w -> drop_while blank (w ++ s) = w ++ s.
Proof.
  intros [Hne Hw]. destruct w as [|c w]; [done|]. apply Forall_cons in Hw as [Hc _].
  apply nonblank_true in Hc. cbn. by rewrite Hc.
Qed.

Lemma word_end_stop s x k : word_end s -> s = x :: k -> nonblank x = false.
Proof. intros H ->. simpl in H. unfold nonblank. by rewrite H. Qed.

Lemma split_words_loop_fuel f1 f2 p :
  length p <= f1 -> length p <= f2 -> split_words_loop f1 p = split_words_loop f2 p.
Proof.
  revert f2 p. induction f1 as [|f1 IH]; intros [|f2] p H1 H2; cbn [split_words_loop].
  - done.
  - assert (p = []) as -> by (destruct p; simpl in *; [done|lia]). done.
  - assert (p = []) as -> by (destruct p; simpl in *; [done|lia]). done.
  - destruct (drop_while blank p) as [|c p'] eqn:E; [done|].
    pose proof (length_drop_while blank p) as Hl. rewrite E in Hl. simpl in Hl.
    assert (length (drop_while nonblank (c :: p')) < S (length p')) as Hl'.
    { cbn. pose proof (drop_while_head blank p c p' E) as Hc. unfold nonblank at 1. rewrite Hc. simpl.
      pose proof (length_drop_while nonblank p'). lia. }
    f_equal. apply IH; lia.
Qed.

Lemma split_words_nil : split_words [] = [].
Proof. done. Qed.

(** One round of the loop. *)
Lemma split_words_unfold p :
  split_words p =
  match drop_while blank p with
  | [] => []
  | p' => take_while nonblank p' :: split_words (drop_while nonblank p')
  end.
Proof.
  unfold split_words. destruct p as [|d p]; [done|]. cbn [length split_words_loop].
  pose proof (length_drop_while blank (d :: p)) as Hl.
  destruct (drop_while blank (d :: p)) as [|e s'] eqn:E; [done|]. simpl in Hl. f_equal.
  apply split_words_loop_fuel; [|done].
  pose proof (drop_while_head blank _ _ _ E) as He. cbn [drop_while].
  unfold nonblank at 1. rewrite He. cbn [negb]. pose proof (length_drop_while nonblank s'). lia.
Qed.

Lemma split_words_blank c s : blank c = true -> split_words (c :: s) = split_words s.
Proof. intros Hc. rewrite (split_words_unfold (c :: s)), (split_words_unfold s). simpl. by rewrite Hc. Qed.

Lemma split_words_word w s : word w -> word_end s -> split_words (w ++ s) = w :: split_words s.
Proof.
  intros Hw Hs. rewrite split_words_unfold, drop_while_blank_word by done. destruct Hw as [Hne Hw].
  destruct (w ++ s) as [|c ws] eqn:E. { by destruct w. }
  rewrite <- E. cbv zeta. rewrite take_while_app_stop, drop_while_app_stop; try done;
    intros x k; by apply word_end_stop.
Qed.

(** Every text is blanks, or starts (after blanks) with a word: induction by words. *)
Lemma words_ind (P : cstr -> Prop) :
  P [] -> (forall c s, blank c = true -> P s -> P (c :: s)) ->
  (forall w s, word w -> word_end s -> P s -> P (w ++ s)) -> forall s, P s.
Proof.
  intros Hnil Hblank Hword s. remember (length s) as n eqn:Hn. revert s Hn.
  induction (lt_wf n) as [n _ IH]. intros s ->. destruct s as [|c s]; [done|].
  destruct (blank c) eqn:Hc.
  - apply Hblank; [done|]. eapply IH; [|done]. simpl. lia.
  - rewrite <- (take_drop_while nonblank (c :: s)).
    assert (nonblank c = true) as Hc' by (by apply nonblank_true).
    apply Hword.
    + split; [cbn; by rewrite Hc'|apply take_while_all].
    + destruct (drop_while nonblank (c :: s)) as [|d s'] eqn:E; [done|].
      apply drop_while_head in E. unfold nonblank in E. simpl. by destruct (blank d).
    + eapply IH; [|done]. cbn. rewrite Hc'. simpl. pose proof (length_drop_while nonblank s). lia.
Qed.

Lemma split_words_words s : Forall word (split_words s).
Proof.
  induction s as [|c s Hc IH|w s Hw Hs IH] using words_ind.
  - done.
  - by rewrite split_words_blank.
  - rewrite split_words_word by done. by constructor.
Qed.

Lemma filter_nonblank_word w : word w -> List.filter nonblank w = w.
Proof.
  intros [_ Hw]. induction Hw as [|c w Hc Hw IH]; [done|]. simpl. by rewrite Hc, IH.
Qed.

Lemma concat_split_words s : concat (split_words s) = List.filter nonblank s.
Proof.
  induction s as [|c s Hc IH|w s Hw Hs IH] using words_ind.
  - done.
  - rewrite split_words_blank by done. simpl. unfold nonblank at 1. by rewrite Hc.
  - rewrite split_words_word by done. rewrite List.filter_app, filter_nonblank_word by done.
    simpl. by rewrite IH.
Qed.

Lemma join_with_cons sep w ws : ws <> [] -> join_with sep (w :: ws) = w ++ sep :: join_with sep ws.
Proof. by destruct ws. Qed.

Lemma join_total_spec sep ws : length (join_with sep ws) = join_total ws.
Proof.
  induction ws as [|w [|v ws] IH]; [done|done|].
  rewrite join_with_cons by done. rewrite length_app. cbn [length]. rewrite IH. cbn [join_total]. lia.
Qed.

Lemma split_join_words sep ws :
  blank sep = true -> Forall word ws -> split_words (join_with sep ws) = ws.
Proof.
  intros Hsep. induction 1 as [|w ws Hw Hws IH]; [done|].
  destruct ws as [|v ws].
  - simpl. rewrite <- (app_nil_r w) at 1. by rewrite split_words_word.
  - rewrite join_with_cons by done. rewrite split_words_word by done.
    rewrite split_words_blank by done. by rewrite IH.
Qed.

Lemma count_words_loop_spec p b n :
  count_words_loop p b n =
  n + length (split_words (if b then drop_while nonblank p else p)).
Proof.
  revert b n. induction p as [|c p IH]; intros b n; cbn [count_words_loop].
  { destruct b; simpl; lia. }
  destruct (blank c) eqn:Hc.
  - rewrite IH. destruct b; cbn [drop_while]; unfold nonblank; rewrite ?Hc; simpl negb; cbn iota;
      by rewrite split_words_blank.
  - destruct b.
    + rewrite IH. cbn [drop_while]. unfold nonblank at 2. by rewrite Hc.
    + rewrite IH. rewrite <- (take_drop_while nonblank (c :: p)) at 1.
      rewrite split_words_word.
      * cbn [drop_while length]. unfold nonblank at 2. rewrite Hc. simpl. lia.
      * split; [cbn; unfold nonblank; by rewrite Hc|apply take_while_all].
      * destruct (drop_while nonblank (c :: p)) as [|d s'] eqn:E; [done|].
        apply drop_while_head in E. unfold nonblank in E. simpl. by destruct (blank d).
Qed.

Lemma count_words_spec t : count_words_in_text t = length (split_words t).
Proof. unfold count_words_in_text. by rewrite count_words_loop_spec. Qed.

(** ** Sentences *)

Definition trimmed (s : cstr) : Prop :=
  (forall c, head s = Some c -> nonblank c = true) /\ (forall c, last s = Some c -> nonblank c = true).

(** A character a sentence may hold before its end. *)
Definition body_char (c : ascii) : Prop := is_sentence_delim_char c = false /\ unline c = c.

Definition unterminated (s : cstr) : Prop := s <> [] /\ Forall body_char s /\ trimmed s.
Definition terminated (s : cstr) : Prop :=
  exists body d, s = body ++ [d] /\ Forall body_char body /\ is_sentence_delim_char d = true /\ trimmed s.

(** Only the last sentence of a document may lack its delimiter. *)
Inductive wf_doc : list cstr -> Prop :=
| wf_nil : wf_doc []
| wf_last s : unterminated s -> wf_doc [s]
| wf_cons s ss : terminated s -> wf_doc ss -> wf_doc (s :: ss).
#[export] Hint Constructors wf_doc : cowrite.

Notation blanks := (Forall (fun c => blank c = true)).

Lemma drop_while_blanks a s : blanks a -> drop_while blank (a ++ s) = drop_while blank s.
Proof. induction 1 as [|c a Hc Ha IH]; simpl; [done|]. by rewrite Hc. Qed.

Lemma drop_while_trimmed s : (forall c, head s = Some c -> nonblank c = true) -> drop_while blank s = s.
Proof.
  destruct s as [|c s]; [done|]. intros H. specialize (H c eq_refl). apply nonblank_true in H.
  simpl. by rewrite H.
Qed.

Lemma head_rev {A} (s : list A) : head (rev s) = last s.
Proof. rewrite <- (rev_involutive s) at 2. destruct (rev s) as [|c k]; [done|]. simpl. by rewrite last_snoc. Qed.

Lemma trimmed_rev m : trimmed m -> trimmed (rev m).
Proof.
  intros [Hh Hl]. split; intros c.
  - rewrite head_rev. apply Hl.
  - rewrite <- head_rev, rev_involutive. apply Hh.
Qed.

Lemma drop_blanks_trimmed a m b :
  blanks a -> trimmed m -> m <> [] -> drop_while blank (a ++ m ++ b) = m ++ b.
Proof.
  intros Ha [Hh _] Hne. rewrite drop_while_blanks by done. apply drop_while_trimmed.
  intros c Hc. apply Hh. by destruct m.
Qed.

Lemma trim_frame a m b : blanks a -> blanks b -> trimmed m -> trim_spaces (a ++ m ++ b) = m.
Proof.
  intros Ha Hb Ht. unfold trim_spaces. rewrite !rev_app_distr, <- app_assoc.
  apply List.Forall_rev in Hb. destruct (decide (m = [])) as [->|Hne].
  - simpl. rewrite drop_while_blanks by done.
    rewrite <- (app_nil_r (rev a)), drop_while_blanks by (by apply List.Forall_rev). done.
  - rewrite drop_blanks_trimmed; [|done|by apply trimmed_rev|].
    + rewrite rev_app_distr, !rev_involutive, <- (app_nil_r m).
      rewrite drop_blanks_trimmed by done. done.
    + intros E. apply (f_equal (@rev ascii)) in E. by rewrite rev_involutive in E.
Qed.

Lemma trim_split s : exists a b, s = a ++ trim_spaces s ++ b /\ blanks a /\ blanks b /\ trimmed (trim_spaces s).
Proof.
  set (u := rev (drop_while blank (rev s))).
  exists (take_while blank u), (rev (take_while blank (rev s))).
  assert (s = u ++ rev (take_while blank (rev s))) as Hs.
  { unfold u. by rewrite <- rev_app_distr, take_drop_while, rev_involutive. }
  unfold trim_spaces. fold u. split_and!.
  - rewrite app_assoc, take_drop_while. done.
  - apply take_while_all.
  - apply List.Forall_rev, take_while_all.
  - split.
    + intros c Hc. destruct (drop_while blank u) as [|x k] eqn:E; simplify_eq/=.
      apply drop_while_head in E. by apply nonblank_true.
    + intros c Hc. assert (last u = Some c) as Hu.
      { rewrite <- (take_drop_while blank u), last_app, Hc. done. }
      rewrite <- head_rev in Hu. unfold u in Hu. rewrite rev_involutive in Hu.
      destruct (drop_while blank (rev s)) as [|x k] eqn:E; simplify_eq/=.
      apply drop_while_head in E. by apply nonblank_true.
Qed.

Lemma push_sentence_out out buf : push_sentence out buf = out ++ push_sentence [] buf.
Proof. unfold push_sentence. destruct (trim_spaces buf); by rewrite ?app_nil_r. Qed.

Lemma split_loop_out p buf out :
  split_sentences_loop p buf out = out ++ split_sentences_loop p buf [].
Proof.
  revert buf out. induction p as [|c p IH]; intros buf out; cbn [split_sentences_loop]; cbv zeta.
  - destruct buf; [by rewrite app_nil_r|]. apply push_sentence_out.
  - break_goal; [|apply IH]. rewrite IH, (IH _ (push_sentence [] _)).
    rewrite (push_sentence_out out), app_assoc. done.
Qed.

Lemma unline_delim c : is_sentence_delim_char c = true -> unline c = c.
Proof.
  unfold is_sentence_delim_char, unline. intros H. rewrite decide_False; [done|].
  intros [-> | ->]; vm_compute in H; done.
Qed.

Lemma split_loop_body body rest buf :
  Forall body_char body ->
  split_sentences_loop (body ++ rest) buf [] = split_sentences_loop rest (buf ++ body) [].
Proof.
  intros Hb. revert buf. induction Hb as [|c body [Hc Hu] Hb IH]; intros buf.
  - by rewrite app_nil_r.
  - cbn [app split_sentences_loop]. cbv zeta. rewrite Hu, Hc, IH. by rewrite <- app_assoc.
Qed.

Lemma split_loop_delim d rest buf :
  is_sentence_delim_char d = true ->
  split_sentences_loop (d :: rest) buf [] = push_sentence [] (buf ++ [d]) ++ split_sentences rest.
Proof.
  intros Hd. cbn [split_sentences_loop]. cbv zeta. rewrite unline_delim, Hd by done. apply split_loop_out.
Qed.

Lemma split_loop_newline rest : split_sentences_loop (newline :: rest) [] [] = split_sentences_loop rest [" "%char] [].
Proof. done. Qed.

Lemma push_trimmed a m : blanks a -> trimmed m -> m <> [] -> push_sentence [] (a ++ m) = [m].
Proof.
  intros Ha Hm Hne. unfold push_sentence. rewrite <- (app_nil_r m) at 1.
  rewrite trim_frame by (done || constructor). by destruct m.
Qed.

Lemma split_join_loop ss buf :
  wf_doc ss -> blanks buf -> split_sentences_loop (join_sentences ss) buf [] = ss.
Proof.
  intros Hss. revert buf. induction Hss as [|s (Hne & Hs & Ht)|s ss (body & d & -> & Hb & Hd & Ht) Hss IH];
    intros buf Hbuf.
  - simpl. destruct buf as [|c buf]; [done|]. unfold push_sentence.
    assert (trim_spaces (c :: buf) = []) as ->; [|done].
    rewrite <- (app_nil_r (c :: buf)). by apply (trim_frame (c :: buf) [] []).
  - change (join_sentences [s]) with s. pose proof (split_loop_body s [] buf Hs) as E.
    rewrite app_nil_r in E. rewrite E. clear E.
    cbn [split_sentences_loop]. destruct (buf ++ s) eqn:E; [by destruct buf|]. rewrite <- E.
    by apply push_trimmed.
  - assert (push_sentence [] (buf ++ body ++ [d]) = [body ++ [d]]) as Hp.
    { apply push_trimmed; [done..|]. by destruct body. }
    destruct ss as [|s' ss].
    + change (join_sentences [body ++ [d]]) with (body ++ [d]).
      rewrite split_loop_body, split_loop_delim by done. rewrite <- app_assoc, Hp. done.
    + unfold join_sentences. rewrite join_with_cons by done. rewrite <- app_assoc. cbn [app].
      rewrite split_loop_body, split_loop_delim by done. rewrite <- app_assoc, Hp. cbn [app]. f_equal.
      unfold split_sentences. rewrite split_loop_newline. apply IH. by constructor.
Qed.

Lemma split_join_sentences ss : wf_doc ss -> split_sentences (join_sentences ss) = ss.
Proof. intros. by apply split_join_loop. Qed.

Lemma unline_idem c : unline (unline c) = unline c.
Proof. unfold unline. destruct (decide (c = newline \/ c = creturn)) as [H|H]; [done|]. by rewrite decide_False. Qed.

Lemma delim_nonblank d : is_sentence_delim_char d = true -> nonblank d = true.
Proof.
  unfold is_sentence_delim_char. intros H.
  repeat (apply orb_true_iff in H as [H|H]); apply bool_decide_eq_true in H; by subst d.
Qed.

Lemma trim_delim buf d :
  is_sentence_delim_char d = true -> trim_spaces (buf ++ [d]) = drop_while blank buf ++ [d].
Proof.
  intros Hd%delim_nonblank.
  assert (buf ++ [d] = take_while blank buf ++ (drop_while blank buf ++ [d]) ++ []) as ->.
  { by rewrite app_nil_r, app_assoc, take_drop_while. }
  apply trim_frame; [apply take_while_all|constructor|]. split; intros c.
  - destruct (drop_while blank buf) as [|x k] eqn:E; intros; simplify_eq/=; [done|].
    apply drop_while_head in E. by apply nonblank_true.
  - rewrite last_snoc. by intros [= <-].
Qed.

Lemma Forall_drop_while {A} (P : A -> Prop) f l : Forall P l -> Forall P (drop_while f l).
Proof. intros H. rewrite <- (take_drop_while f l) in H. by apply Forall_app in H as [_ ?]. Qed.

Lemma push_delim_wf buf d ss :
  Forall body_char buf -> is_sentence_delim_char d = true -> wf_doc ss ->
  wf_doc (push_sentence [] (buf ++ [d]) ++ ss).
Proof.
  intros Hb Hd Hss. unfold push_sentence. rewrite trim_delim by done.
  destruct (drop_while blank buf ++ [d]) as [|x k] eqn:E; [done|]. simpl. constructor; [|done].
  rewrite <- E. exists (drop_while blank buf), d. split_and!; [done|by apply Forall_drop_while|done|].
  rewrite <- trim_delim by done. by destruct (trim_split (buf ++ [d])) as (? & ? & _ & _ & _ & ?).
Qed.

Lemma push_last_wf buf : Forall body_char buf -> wf_doc (push_sentence [] buf).
Proof.
  intros Hb. unfold push_sentence. destruct (trim_split buf) as (a & b & E & _ & _ & Ht).
  destruct (trim_spaces buf) as [|c m]; [constructor|]. apply wf_last. split_and!; [done| |done].
  rewrite E in Hb. apply Forall_app in Hb as [_ Hb]. by apply Forall_app in Hb as [Hb _].
Qed.

Lemma split_loop_wf p buf : Forall body_char buf -> wf_doc (split_sentences_loop p buf []).
Proof.
  revert buf. induction p as [|c p IH]; intros buf Hb; cbn [split_sentences_loop]; cbv zeta.
  - destruct buf; [constructor|]. by apply push_last_wf.
  - destruct (is_sentence_delim_char (unline c)) eqn:Hd.
    + rewrite split_loop_out. apply push_delim_wf; [done..|]. apply IH. constructor.
    + apply IH. apply Forall_app. split; [done|]. constructor; [|constructor].
      split; [done|apply unline_idem].
Qed.

Lemma split_sentences_wf t : wf_doc (split_sentences t).
Proof. apply split_loop_wf. constructor. Qed.

Lemma filter_blanks a : blanks a -> List.filter nonblank a = [].
Proof. induction 1 as [|c a Hc Ha IH]; [done|]. simpl. unfold nonblank at 1. by rewrite Hc. Qed.

Lemma push_content buf : List.filter nonblank (concat (push_sentence [] buf)) = List.filter nonblank buf.
Proof.
  destruct (trim_split buf) as (a & b & E & Ha & Hb & _). rewrite E at 2.
  rewrite !List.filter_app, (filter_blanks a), (filter_blanks b), app_nil_r by done. unfold push_sentence.
  destruct (trim_spaces buf); [done|]. simpl. by rewrite app_nil_r.
Qed.

Lemma filter_unline c s : List.filter nonblank (unline c :: s) = List.filter nonblank (c :: s).
Proof. unfold unline. destruct (decide (c = newline \/ c = creturn)) as [[-> | ->]|]; done. Qed.

Lemma split_loop_content p buf :
  List.filter nonblank (concat (split_sentences_loop p buf [])) =
  List.filter nonblank buf ++ List.filter nonblank p.
Proof.
  revert buf. induction p as [|c p IH]; intros buf; cbn [split_sentences_loop]; cbv zeta.
  - simpl. rewrite app_nil_r. destruct buf; [done|]. apply push_content.
  - change (c :: p) with ([c] ++ p). rewrite (List.filter_app _ [c]), <- (filter_unline c []), app_assoc,
      <- List.filter_app.
    destruct (is_sentence_delim_char (unline c)).
    + rewrite split_loop_out, concat_app, List.filter_app, IH, push_content. done.
    + apply IH.
Qed.

(** ** Properties *)

(** Splitting into sentences normalises a document and loses nothing.  Only
    the last sentence may lack its delimiter, the non-blank characters of the text
    are exactly those of its sentences in order, and storing the sentences one per
    line and splitting again gives the same sentences. *)
Lemma split_sentences_normal t :
  wf_doc (split_sentences t) /\
  List.filter nonblank (concat (split_sentences t)) = List.filter nonblank t /\
  split_sentences (join_sentences (split_sentences t)) = split_sentences t.
Proof.
  split_and!; [apply split_sentences_wf|apply (split_loop_content t [])|].
  apply split_join_sentences, split_sentences_wf.
Qed.

(** Splitting into words gives blank-free words that carry every non-blank
    character of the sentence in order; joining them and splitting again gives the
    same words, the joined text has the length its buffer is allocated for, and the
    word counter counts exactly these words. *)
Lemma split_words_normal t :
  Forall word (split_words t) /\
  concat (split_words t) = List.filter nonblank t /\
  split_words (join_words (split_words t)) = split_words t /\
  length (join_words (split_words t)) = join_total (split_words t) /\
  count_words_in_text t = length (split_words t).
Proof.
  split_and!; [apply split_words_words|apply concat_split_words| |apply join_total_spec|apply count_words_spec].
  apply split_join_words; [done|apply split_words_words].
Qed.

(** C35: Splitting normalises a document and loses nothing.  Of the sentences of a text only the
    last may lack its delimiter, its non-blank characters are exactly theirs in order, and
    storing the sentences one per line and splitting again gives the same sentences.  The
    words of a sentence are blank-free and carry its non-blank characters in order; joining
    and splitting them again gives the same words, the joined text has the length its buffer
    is allocated for, and the word counter counts exactly these words. *)
Theorem splitting_normalises t :
  (wf_doc (split_sentences t) /\
   List.filter nonblank (concat (split_sentences t)) = List.filter nonblank t /\
   split_sentences (join_sentences (split_sentences t)) = split_sentences t) /\
  (Forall word (split_words t) /\
   concat (split_words t) = List.filter nonblank t /\
   split_words (join_words (split_words t)) = split_words t /\
   length (join_words (split_words t)) = join_total (split_words t) /\
   count_words_in_text t = length (split_words t)).
Proof. split; [apply split_sentences_normal|apply split_words_normal]. Qed.
