(* ===== verification/Fs.v ===== *)
(** * The file system as the storage server uses it

    Files are a map from paths to bytes.  Every system call consults an oracle
    that says whether it fails, and how many bytes of a write or a read went
    through; a finished oracle lets everything succeed.  [past] records every
    intermediate state of the files, so that a crash between two system calls is
    a member of that list.  [malloc] does not fail in this model. *)

From S2P Require Import Prelude Cstr.

(** The [errno] values the server sets or tests; [ESYS] is whatever else a failing
    system call, or an earlier one where a function fails without setting [errno],
    left there: one no handler tests. *)
Inductive errno := EINVAL | EAGAIN | EBUSY | ENOENT | EACCES | EEXIST | ENAMETOOLONG | ESYS.

#[global] Instance errno_eq_dec : EqDecision errno.
Proof. solve_decision. Defined.

(** A C function that returns 0 with a result, or -1 with [errno]. *)
Inductive res (A : Type) := Ok (a : A) | Err (e : errno).
Arguments Ok {A} a.
Arguments Err {A} e.

Definition is_ok {A} (r : res A) : bool := match r with Ok _ => true | Err _ => false end.

Notation tree := (gmap cstr (list ascii)).

Inductive fault := Fine | Fails (bytes : nat).

Record disk := mk_disk { files : tree; oracle : list fault; past : list tree }.

Definition next_fault (d : disk) : fault * disk :=
  match oracle d with
  | [] => (Fine, d)
  | f :: o => (f, mk_disk (files d) o (past d))
  end.

Definition set_files (t : tree) (d : disk) : disk := mk_disk t (oracle d) (files d :: past d).

(** [unlink] *)
Definition unlink (path : cstr) (d : disk) : bool * disk :=
  let '(f, d) := next_fault d in
  match f, files d !! path with
  | Fine, Some _ => (true, set_files (delete path (files d)) d)
  | _, _ => (false, d)
  end.

(** [rename] *)
Definition rename (from to : cstr) (d : disk) : bool * disk :=
  let '(f, d) := next_fault d in
  match f, files d !! from with
  | Fine, Some b => (true, set_files (<[to := b]> (delete from (files d))) d)
  | _, _ => (false, d)
  end.

(** [fopen(path, "wb")]: creates or truncates. *)
Definition fopen_w (path : cstr) (d : disk) : bool * disk :=
  let '(f, d) := next_fault d in
  match f with
  | Fine => (true, set_files (<[path := []]> (files d)) d)
  | Fails _ => (false, d)
  end.

(** [fwrite(content, 1, len, fp)] on a file just truncated; a failed write leaves
    the bytes written so far. *)
Definition fwrite (path content : cstr) (d : disk) : bool * disk :=
  let '(f, d) := next_fault d in
  match f with
  | Fine => (true, set_files (<[path := content]> (files d)) d)
  | Fails k => (false, set_files (<[path := take k content]> (files d)) d)
  end.

(** A call that only succeeds or fails: [fseek], [ftell], [fflush], [fsync]. *)
Definition plain_call (d : disk) : bool * disk :=
  let '(f, d) := next_fault d in (match f with Fine => true | Fails _ => false end, d).

(** [snprintf(tmp_path, 512, "%s.tmp", path)] *)
Definition tmp_path (path : cstr) : cstr := snprintf_s 512 (path ++ cs ".tmp").

(** The loop of [valid_filename]; [first] is [p == name]. *)
Fixpoint valid_filename_loop (first : bool) (p : cstr) : bool :=
  match p with
  | [] => true
  | c :: p' =>
      if bool_decide (c = "."%char) &&
         (first || match p' with c' :: _ => bool_decide (c' = "."%char) | [] => false end) then false
      else if bool_decide (c = "/"%char) || bool_decide (c = bslash) then false
      else if (code c <? 32)%Z || (126 <? code c)%Z then false
      else valid_filename_loop false p'
  end.

Definition valid_filename (name : cstr) : bool :=
  match name with [] => false | _ => valid_filename_loop true name end.

(** [store_text_atomic] *)
Definition store_text_atomic (path content : cstr) (d : disk) : bool * disk :=
  let tmp := tmp_path path in
  let '(opened, d) := fopen_w tmp d in
  if negb opened then (false, d)
  else
    let '(written, d) := fwrite tmp content d in
    if negb written then (false, snd (unlink tmp d))
    else
      let '(flushed, d) := plain_call d in
      if negb flushed then (false, snd (unlink tmp d))
      else
        let '(synced, d) := plain_call d in
        if negb synced then (false, snd (unlink tmp d))
        else
          let '(renamed, d) := rename tmp path d in
          if negb renamed then (false, snd (unlink tmp d)) else (true, d).

(** [load_text]: the text up to its first NUL, and the bytes read.  A short
    [fread] is not reported. *)
Definition load_text (path : cstr) (d : disk) : option (cstr * nat) * disk :=
  let '(opened, d) := plain_call d in
  match opened, files d !! path with
  | true, Some b =>
      let '(at_end, d) := plain_call d in
      if negb at_end then (None, d)
      else
        let '(told, d) := plain_call d in
        if negb told then (None, d)
        else
          let '(at_start, d) := plain_call d in
          if negb at_start then (None, d)
          else
            let '(f, d) := next_fault d in
            let b := match f with Fine => b | Fails k => take k b end in
            (Some (c_str b, length b), d)
  | _, _ => (None, d)
  end.

(** ** Lemmas *)

(** Every state the files went through since [d0], the current one included. *)
Definition since (d0 d : disk) (P : tree -> Prop) : Prop :=
  exists new, past d = new ++ past d0 /\ Forall P new /\ P (files d).

Lemma since_refl (d : disk) (P : tree -> Prop) : P (files d) -> since d d P.
Proof. intros. exists []. split_and!; [done|constructor|done]. Qed.

Lemma since_mono (d0 d : disk) (P Q : tree -> Prop) : (forall t, P t -> Q t) -> since d0 d P -> since d0 d Q.
Proof.
  intros H (new & E & Hn & Hd). exists new. split_and!; [done| |auto].
  eapply Forall_impl; [exact Hn|auto].
Qed.

Lemma since_trans (d0 d1 d2 : disk) (P : tree -> Prop) : since d0 d1 P -> since d1 d2 P -> since d0 d2 P.
Proof.
  intros (n1 & E1 & H1 & _) (n2 & E2 & H2 & Hd). exists (n2 ++ n1). split_and!; [|by apply Forall_app|done].
  by rewrite E2, E1, app_assoc.
Qed.

(** The oracle's step changes no file. *)
Lemma next_fault_files d : files (snd (next_fault d)) = files d /\ past (snd (next_fault d)) = past d.
Proof. unfold next_fault. by destruct (oracle d). Qed.

(** [same_files d d']: only the oracle moved. *)
Definition same_files (d d' : disk) : Prop := files d' = files d /\ past d' = past d.

Lemma same_refl d : same_files d d.
Proof. done. Qed.

Lemma same_trans d1 d2 d3 : same_files d1 d2 -> same_files d2 d3 -> same_files d1 d3.
Proof. unfold same_files. intros [] []. split; congruence. Qed.

Lemma next_fault_same d f d' : next_fault d = (f, d') -> same_files d d'.
Proof. intros E. pose proof (next_fault_files d) as H. by rewrite E in H. Qed.

Lemma plain_call_same d b d' : plain_call d = (b, d') -> same_files d d'.
Proof. unfold plain_call. destruct (next_fault d) eqn:E. intros [= _ <-]. by apply next_fault_same in E. Qed.
#[export] Hint Resolve same_refl next_fault_same plain_call_same : cowrite.

Lemma load_text_same path d r d' : load_text path d = (r, d') -> same_files d d'.
Proof.
  unfold load_text. intros H.
  repeat match type of H with
  | context [plain_call ?x] =>
      let E := fresh in destruct (plain_call x) as [? ?] eqn:E; apply plain_call_same in E
  | context [next_fault ?x] =>
      let E := fresh in destruct (next_fault x) as [? ?] eqn:E; apply next_fault_same in E
  end.
  break; simplify_eq; eauto using same_trans.
Qed.

(** What [load_text] returns is a prefix of the file. *)
Lemma load_text_prefix path d t n d' :
  load_text path d = (Some (t, n), d') -> exists b k, files d !! path = Some b /\ t = c_str (take k b).
Proof.
  unfold load_text. intros H. destruct (plain_call d) as [o d1] eqn:E1. apply plain_call_same in E1 as [E1 _].
  rewrite E1 in H. destruct o, (files d !! path) as [b|]; simplify_eq. exists b.
  break; simplify_eq; first [by eexists | (exists (length b); by rewrite take_ge)].
Qed.

Definition quiet (d : disk) : Prop := oracle d = [].

Lemma load_text_quiet path d :
  quiet d -> load_text path d = (option_map (fun b => (c_str b, length b)) (files d !! path), d).
Proof.
  intros Hq. unfold load_text, plain_call, next_fault. rewrite !Hq. by destruct (files d !! path).
Qed.

Lemma tmp_path_ne path : length path < 508 -> tmp_path path <> path.
Proof.
  intros Hl E. unfold tmp_path in E. rewrite snprintf_s_id in E by (rewrite length_app; simpl; lia).
  apply (f_equal length) in E. rewrite length_app in E. simpl in E. lia.
Qed.

(** What may happen to the files in one call of [store_text_atomic]: the
    temporary file alone changes, or the text is in place and the temporary
    file is gone. *)
Definition stored (path content : cstr) (t0 t : tree) : Prop :=
  delete (tmp_path path) t = delete (tmp_path path) t0 \/
  t = <[path := content]> (delete (tmp_path path) t0).

Lemma set_files_since d0 d P t : since d0 d P -> P t -> since d0 (set_files t d) P.
Proof.
  intros (new & E & Hn & Hd) Ht. exists (files d :: new). split_and!; [|by constructor|done].
  simpl. by rewrite E.
Qed.

Lemma same_since d0 d d' P : since d0 d P -> same_files d d' -> since d0 d' P.
Proof. intros (new & E & Hn & Hd) [E1 E2]. exists new. rewrite E1, E2. done. Qed.

Section Store.
Context (path content : cstr) (d0 : disk).
Notation tmp := (tmp_path path).
Notation untouched d := (since d0 d (fun t => delete tmp t = delete tmp (files d0))).

Lemma unlink_tmp_untouched d : untouched d -> untouched (snd (unlink tmp d)).
Proof using.
  intros H. unfold unlink. destruct (next_fault d) as [f d'] eqn:E. apply next_fault_same in E.
  pose proof (same_since _ _ _ _ H E) as H'.
  destruct f, (files d' !! tmp); simpl; try done. apply set_files_since; [done|].
  destruct H' as (_ & _ & _ & Hd). by rewrite delete_delete_eq.
Qed.

Lemma store_text_atomic_steps ok d :
  store_text_atomic path content d0 = (ok, d) ->
  if ok then files d = <[path := content]> (delete tmp (files d0)) /\
             since d0 d (stored path content (files d0))
  else untouched d.
Proof using.
  unfold store_text_atomic, fopen_w, fwrite, rename.
  destruct (next_fault d0) as [f1 d1] eqn:E1. apply next_fault_same in E1.
  assert (untouched d1) as U1 by (by eapply same_since; [apply since_refl|]).
  destruct f1; [|intros [= <- <-]; exact U1]. cbn [negb].
  set (d2 := set_files _ d1). assert (untouched d2) as U2.
  { apply set_files_since; [done|]. rewrite delete_insert_eq. by destruct U1 as (_ & _ & _ & ?). }
  destruct (next_fault d2) as [f2 d3] eqn:E3. apply next_fault_same in E3.
  pose proof (same_since _ _ _ _ U2 E3) as U3.
  assert (forall b, untouched (set_files (<[tmp := b]> (files d3)) d3)) as U4.
  { intros b. apply set_files_since; [done|]. rewrite delete_insert_eq. by destruct U3 as (_ & _ & _ & ?). }
  destruct f2; [|intros [= <- <-]; by apply unlink_tmp_untouched]. cbn [negb].
  set (d4 := set_files _ d3). specialize (U4 content). fold d4 in U4.
  destruct (plain_call d4) as [fl d5] eqn:E5. apply plain_call_same in E5.
  pose proof (same_since _ _ _ _ U4 E5) as U5.
  destruct fl; [|intros [= <- <-]; by apply unlink_tmp_untouched]. cbn [negb].
  destruct (plain_call d5) as [sy d6] eqn:E6. apply plain_call_same in E6.
  pose proof (same_since _ _ _ _ U5 E6) as U6.
  destruct sy; [|intros [= <- <-]; by apply unlink_tmp_untouched]. cbn [negb].
  destruct (next_fault d6) as [f7 d7] eqn:E7. apply next_fault_same in E7.
  pose proof (same_since _ _ _ _ U6 E7) as U7.
  assert (files d7 = <[tmp := content]> (files d3)) as F7.
  { destruct E7 as [-> _], E6 as [-> _], E5 as [-> _]. done. }
  rewrite F7, lookup_insert_eq. destruct f7; [|intros [= <- <-]; by apply unlink_tmp_untouched].
  intros [= <- <-].
  assert (files (set_files (<[path:=content]> (delete tmp (<[tmp:=content]> (files d3)))) d7) =
          <[path := content]> (delete tmp (files d0))) as F.
  { simpl. rewrite delete_insert_eq. f_equal. by destruct U3 as (_ & _ & _ & ?). }
  split; [done|]. apply set_files_since; [|right; exact F].
  eapply since_mono; [|exact U7]. intros t Ht. by left.
Qed.
End Store.

Lemma stored_lookup path content t0 t p :
  stored path content t0 t -> p <> tmp_path path ->
  t !! p = t0 !! p \/ (p = path /\ t !! p = Some content).
Proof.
  intros [E | ->] Hp.
  - left. rewrite <- (lookup_delete_ne t (tmp_path path) p), E by done. by rewrite lookup_delete_ne.
  - destruct (decide (p = path)) as [->|Hne].
    + right. by rewrite lookup_insert_eq.
    + left. by rewrite lookup_insert_ne, lookup_delete_ne.
Qed.

(** With the one-line summary the clients use. *)
Lemma store_text_atomic_stored path content d0 ok d :
  store_text_atomic path content d0 = (ok, d) ->
  since d0 d (stored path content (files d0)) /\
  (ok = true -> files d = <[path := content]> (delete (tmp_path path) (files d0))) /\
  (ok = false -> since d0 d (fun t => delete (tmp_path path) t = delete (tmp_path path) (files d0))).
Proof.
  intros H%store_text_atomic_steps. destruct ok.
  - destruct H. by split_and!.
  - split_and!; [|done|done]. eapply since_mono; [|exact H]. intros t Ht. by left.
Qed.

Lemma valid_filename_loop_tmp b s :
  s <> [] -> last s <> Some "."%char -> valid_filename_loop b s = true ->
  valid_filename_loop b (s ++ cs ".tmp") = true.
Proof.
  revert b. induction s as [|c s IH]; intros b Hne Hl H; [done|].
  destruct s as [|c' s].
  - cbn [app valid_filename_loop] in *. simpl in Hl.
    rewrite (bool_decide_false (c = "."%char)) in * by congruence. cbn [andb] in *.
    destruct (_ || _); [done|]. destruct (_ || _)%bool; [done|]. reflexivity.
  - change ((c :: c' :: s) ++ cs ".tmp") with (c :: (c' :: s) ++ cs ".tmp").
    cbn [valid_filename_loop] in H |- *. cbn [app] in *.
    destruct (bool_decide (c = "."%char) && _); [done|].
    destruct (_ || _); [done|]. destruct (_ || _)%bool; [done|]. by apply IH.
Qed.

(** ** Properties *)

(** C19: the replacement of a file is atomic under every schedule of system call
    failures.  In every state the files pass through, hence after a crash at any
    point, the document holds the old or the new content; a reported failure leaves
    the old content and a reported success the new one; and no file other than the
    document and its temporary file is ever touched. *)
Theorem store_text_atomic_atomic path content d0 ok d :
  length path < 508 ->
  store_text_atomic path content d0 = (ok, d) ->
  since d0 d (fun t =>
    (t !! path = files d0 !! path \/ t !! path = Some content) /\
    forall p, p <> path -> p <> tmp_path path -> t !! p = files d0 !! p) /\
  files d !! path = (if ok then Some content else files d0 !! path).
Proof.
  intros Hl H. apply store_text_atomic_stored in H as (Hs & Hok & Hf).
  pose proof (tmp_path_ne path Hl) as Hne. split.
  - eapply since_mono; [|exact Hs]. intros t Ht. split.
    + destruct (stored_lookup _ _ _ _ path Ht) as [?|[_ ?]]; auto.
    + intros p Hp Ht'. destruct (stored_lookup _ _ _ _ p Ht Ht') as [?|[? _]]; done.
  - destruct ok.
    + rewrite Hok by done. by rewrite lookup_insert_eq.
    + destruct (Hf eq_refl) as (_ & _ & _ & E).
      rewrite <- (lookup_delete_ne (files d) (tmp_path path)), E by done. by rewrite lookup_delete_ne.
Qed.

Definition demo_disk (o : list fault) : disk :=
  mk_disk (<[cs "s/files/a" := cs "old"]> ∅) o [].

Lemma store_text_atomic_atomic_witness :
  length (cs "s/files/a") < 508 /\
  (let d := snd (store_text_atomic (cs "s/files/a") (cs "new") (demo_disk [Fine; Fails 1])) in
   files d !! cs "s/files/a" = files (demo_disk []) !! cs "s/files/a").
Proof.
  split; [vm_compute; lia|]. cbv zeta.
  apply (store_text_atomic_atomic (cs "s/files/a") (cs "new") (demo_disk [Fine; Fails 1]) false).
  - vm_compute; lia.
  - vm_compute. reflexivity.
Defined.

(** The temporary file shares the name space of the documents: for every valid
    document name [n] that does not end in a dot, [n.tmp] is a valid document name
    too, and storing [n] successfully destroys the document [n.tmp] of the same
    directory. *)
Theorem store_text_destroys_tmp_document dir name content d0 d :
  valid_filename name = true -> last name <> Some "."%char ->
  length (dir ++ "/"%char :: name) < 508 ->
  store_text_atomic (dir ++ "/"%char :: name) content d0 = (true, d) ->
  valid_filename (name ++ cs ".tmp") = true /\ files d !! (dir ++ "/"%char :: name ++ cs ".tmp") = None.
Proof.
  intros Hv Hd Hl H. split.
  { unfold valid_filename in *. destruct name as [|c name]; [done|]. cbn [app].
    by apply (valid_filename_loop_tmp true (c :: name)). }
  apply store_text_atomic_stored in H as (_ & Hok & _). rewrite Hok by done.
  pose proof (tmp_path_ne _ Hl) as Hne. unfold tmp_path in *.
  rewrite snprintf_s_id in * by (rewrite length_app; simpl in *; lia).
  rewrite <- app_assoc in *. cbn [app] in *.
  rewrite lookup_insert_ne by done. by rewrite lookup_delete_eq.
Qed.

Lemma store_text_destroys_tmp_document_witness :
  let d0 := mk_disk (<[cs "f/a.tmp" := cs "document"]> ∅) [] [] in
  files d0 !! cs "f/a.tmp" = Some (cs "document") /\
  files (snd (store_text_atomic (cs "f/a") (cs "x") d0)) !! cs "f/a.tmp" = None.
Proof.
  intros d0. split; [reflexivity|].
  apply (store_text_destroys_tmp_document (cs "f") (cs "a") (cs "x") d0).
  - reflexivity.
  - discriminate.
  - vm_compute; lia.
  - vm_compute. reflexivity.
Defined.
