(* ===== verification/Log.v ===== *)
(** * [common/log.c] and the log calls of the two servers

    A log file only grows.  The calls on its stream may fail, a failed write after some bytes
    have gone through; a finished list of outcomes lets everything succeed. *)

From S2P Require Import Prelude Cstr Calendar Fs.

(** What is in the file, whether a stream is open on it, and the outcomes to come. *)
Record log_writer := mk_log { l_open : bool; l_text : cstr; l_path : cstr; l_calls : list fault }.

Definition log_fault (w : log_writer) : fault * log_writer :=
  match l_calls w with
  | [] => (Fine, w)
  | f :: fs => (f, mk_log (l_open w) (l_text w) (l_path w) fs)
  end.

(** [fprintf], [vfprintf] and [fputc] on the stream. *)
Definition log_write (s : cstr) (w : log_writer) : bool * log_writer :=
  let '(f, w) := log_fault w in
  match f with
  | Fine => (true, mk_log (l_open w) (l_text w ++ s) (l_path w) (l_calls w))
  | Fails k => (false, mk_log (l_open w) (l_text w ++ take k s) (l_path w) (l_calls w))
  end.

(** [iso_timestamp]: the seconds and nanoseconds of the clock. *)
Definition iso_timestamp (buf_size : nat) (sec nsec : Z) : cstr :=
  let adjusted := (sec + IST_OFFSET_SECONDS)%Z in
  let '(y, m, d) := civil_date (adjusted `div` 86400) in
  let s := (adjusted `mod` 86400)%Z in
  snprintf_s buf_size
    (pad_zero 4 y ++ "-"%char :: pad_zero 2 m ++ "-"%char :: pad_zero 2 d ++ "T"%char :: pad_zero 2 (s `div` 3600) ++ ":"%char ::
     pad_zero 2 (s `div` 60 `mod` 60) ++ ":"%char :: pad_zero 2 (s `mod` 60) ++ "."%char :: pad_zero 3 (nsec `div` 1000000) ++ cs "+05:30").

(** [fopen(path, "a")] keeps what the file holds; [w] is the file before. *)
Definition log_open (path : cstr) (w : log_writer) : Z * log_writer :=
  let '(f, w) := log_fault w in
  match f with
  | Fine => (0%Z, mk_log true (l_text w) (take 255 path) (l_calls w))
  | Fails _ => ((-1)%Z, mk_log false (l_text w) [] (l_calls w))
  end.

Definition log_close (w : log_writer) : log_writer := mk_log false (l_text w) (l_path w) (l_calls w).

Definition log_appendf (now : Z * Z) (message : cstr) (w : log_writer) : Z * log_writer :=
  if negb (l_open w) then ((-1)%Z, w)
  else
    let ts := iso_timestamp 64 (fst now) (snd now) in
    let '(ok, w) := log_write (cs "[" ++ ts ++ cs "] ") w in
    if negb ok then ((-1)%Z, w)
    else
      let '(ok, w) := log_write message w in
      if negb ok then ((-1)%Z, w)
      else
        let '(ok, w) := log_write [newline] w in
        if negb ok then ((-1)%Z, w) else (0%Z, w).

(** [log_event] and [log_request] of both servers: the message is cut to its buffer. *)
Definition log_event (now : Z * Z) (message : cstr) (w : log_writer) : log_writer :=
  if negb (l_open w) then w else snd (log_appendf now (snprintf_s 1024 message) w).

(** ** The log only grows, by whole lines *)

Definition log_line (now : Z * Z) (message : cstr) : cstr :=
  cs "[" ++ iso_timestamp 64 (fst now) (snd now) ++ cs "] " ++ message ++ [newline].

Lemma log_write_spec s w :
  let '(ok, w') := log_write s w in
  l_open w' = l_open w /\ exists t, l_text w' = l_text w ++ t /\ (if ok then t = s else exists k, t = take k s) /\
  (l_calls w = [] -> ok = true /\ l_calls w' = []).
Proof.
  unfold log_write, log_fault. destruct (l_calls w) as [|[|k] fs] eqn:E; (split; [done|]); eexists; (split; [reflexivity|]); split; eauto; done.
Qed.

(** An entry is a whole line, or the beginning of it when a call failed. *)
Lemma log_appendf_spec now message w :
  l_open w = true ->
  let '(rc, w') := log_appendf now message w in
  l_open w' = true /\ exists t, l_text w' = l_text w ++ t /\ t `prefix_of` log_line now message /\
  (rc = 0%Z -> t = log_line now message) /\ (l_calls w = [] -> rc = 0%Z /\ l_calls w' = []).
Proof.
  intros Ho. unfold log_appendf, log_line. rewrite Ho. cbn [negb]. set (ts := iso_timestamp _ _ _).
  pose proof (log_write_spec (cs "[" ++ ts ++ cs "] ") w) as H1. destruct (log_write _ w) as [ok1 w1]. destruct H1 as (O1 & t1 & T1 & P1 & C1).
  destruct ok1; cbn [negb]; [subst t1|].
  2: { split; [congruence|]. destruct P1 as [k ->]. eexists. split; [done|]. split; [|split; [done|intros H; by destruct (C1 H)]].
       etrans; [apply prefix_take|]. exists (message ++ [newline]). by rewrite <- !app_assoc. }
  pose proof (log_write_spec message w1) as H2. destruct (log_write message w1) as [ok2 w2]. destruct H2 as (O2 & t2 & T2 & P2 & C2).
  destruct ok2; cbn [negb]; [subst t2|].
  2: { split; [congruence|]. destruct P2 as [k ->]. exists ((cs "[" ++ ts ++ cs "] ") ++ take k message). rewrite T2, T1, <- app_assoc.
       split; [done|]. split; [|split; [done|intros H; destruct (C1 H) as [_ H']; by destruct (C2 H')]].
       rewrite <- !app_assoc. do 3 apply prefix_app. exists (drop k message ++ [newline]).
       by rewrite app_assoc, take_drop. }
  pose proof (log_write_spec [newline] w2) as H3. destruct (log_write [newline] w2) as [ok3 w3]. destruct H3 as (O3 & t3 & T3 & P3 & C3).
  assert (l_text w3 = l_text w ++ cs "[" ++ ts ++ cs "] " ++ message ++ t3) as E by (by rewrite T3, T2, T1, <- !app_assoc).
  destruct ok3; cbn [negb]; (split; [congruence|]); eexists; (split; [exact E|]).
  - subst t3. split; [done|]. split; [done|]. intros H. destruct (C1 H) as [_ H']. destruct (C2 H') as [_ H'']. by destruct (C3 H'').
  - split; [|split; [done|intros H; destruct (C1 H) as [_ H']; destruct (C2 H') as [_ H'']; by destruct (C3 H'')]].
    destruct P3 as [k ->]. do 4 apply prefix_app. apply prefix_take.
Qed.

(** A run of a server: its file keeps what it held and has one line for each event, in order. *)
Theorem log_keeps_events path events w :
  l_calls w = [] ->
  l_text (foldl (fun w '(now, m) => log_event now m w) (snd (log_open path w)) events) =
    l_text w ++ concat (map (fun '(now, m) => log_line now (snprintf_s 1024 m)) events).
Proof.
  intros Hc. unfold log_open, log_fault. rewrite Hc. cbn [snd]. set (w0 := mk_log true (l_text w) _ (l_calls w)).
  change (l_text w) with (l_text w0). assert (l_open w0 = true) as Ho by done. assert (l_calls w0 = []) as Hc0 by done. clearbody w0. clear Hc.
  revert w0 Ho Hc0. induction events as [|[now m] events IH]; intros w0 Ho Hc; cbn [foldl map concat]; [by rewrite app_nil_r|].
  unfold log_event at 2. rewrite Ho. cbn [negb]. pose proof (log_appendf_spec now (snprintf_s 1024 m) w0 Ho) as H.
  destruct (log_appendf _ _ _) as [rc w1]. destruct H as (O1 & t & T1 & _ & R1 & C1). destruct (C1 Hc) as [-> C2]. cbn [snd].
  rewrite IH, T1 by done. rewrite (R1 eq_refl). by rewrite <- app_assoc.
Qed.

Example log_line_of_2025 :
  log_line (1767225599, 5000000)%Z (cs "up") = cs "[2026-01-01T05:29:59.005+05:30] up" ++ [newline].
Proof. by vm_compute. Qed.
