(* ===== verification/SsState.v ===== *)
(** * [ss/ss_state.c]: the storage server's table of documents

    The table is an array sorted by name; look-ups and insertions use binary
    search.  Every document has a metadata file of [key:value] lines from which
    the table is rebuilt at start-up.  The abstract view of the table is a finite
    map from names to records. *)

From Stdlib Require Import Sorted.
From S2P Require Import Prelude Cstr SsText Fs.
From stdpp Require Import sorting.

(** ** Data *)

Definition SS_NAME_MAX : nat := 128.
Definition SS_USER_MAX : nat := 64.

Record ss_file := mk_ss_file {
  name : cstr;
  owner : cstr;
  data_path : cstr;
  meta_path : cstr;
  undo_path : cstr;
  created : Z;
  modified : Z;
  last_access : Z;
  last_access_user : cstr;
  word_count : Z;
  char_count : Z;
  lock_active : bool;
  lock_user : cstr;
  lock_sentence : Z;
}.

(** [memset(&file, 0, sizeof(file))] *)
Definition zero_file : ss_file := mk_ss_file [] [] [] [] [] 0 0 0 [] 0 0 false [] 0.

Definition with_names (n o : cstr) (f : ss_file) : ss_file :=
  mk_ss_file n o (data_path f) (meta_path f) (undo_path f) (created f) (modified f) (last_access f)
    (last_access_user f) (word_count f) (char_count f) (lock_active f) (lock_user f) (lock_sentence f).
Definition with_times (c m a : Z) (u : cstr) (f : ss_file) : ss_file :=
  mk_ss_file (name f) (owner f) (data_path f) (meta_path f) (undo_path f) c m a u
    (word_count f) (char_count f) (lock_active f) (lock_user f) (lock_sentence f).
Definition with_counts (w c : Z) (f : ss_file) : ss_file :=
  mk_ss_file (name f) (owner f) (data_path f) (meta_path f) (undo_path f) (created f) (modified f)
    (last_access f) (last_access_user f) w c (lock_active f) (lock_user f) (lock_sentence f).
Definition with_lock (a : bool) (u : cstr) (s : Z) (f : ss_file) : ss_file :=
  mk_ss_file (name f) (owner f) (data_path f) (meta_path f) (undo_path f) (created f) (modified f)
    (last_access f) (last_access_user f) (word_count f) (char_count f) a u s.

Record ss_state := mk_ss_state {
  storage_dir : cstr;
  files_dir : cstr;
  meta_dir : cstr;
  undo_dir : cstr;
  checkpoints_dir : cstr;
  docs : list ss_file;
}.

Definition set_docs (fs : list ss_file) (st : ss_state) : ss_state :=
  mk_ss_state (storage_dir st) (files_dir st) (meta_dir st) (undo_dir st) (checkpoints_dir st) fs.

(** ** Operations *)

(** The directories [ss_state_init] derives, the table still empty. *)
Definition ss_state_dirs (dir : cstr) : ss_state :=
  mk_ss_state (snprintf_s 256 dir) (snprintf_s 256 (dir ++ cs "/files"))
    (snprintf_s 256 (dir ++ cs "/meta")) (snprintf_s 256 (dir ++ cs "/undo"))
    (snprintf_s 256 (dir ++ cs "/checkpoints")) [].

(** The loop of [insert_sorted]: [hi - lo] shrinks at every round. *)
Fixpoint lower_bound (fuel : nat) (fs : list ss_file) (key : cstr) (lo hi : nat) : nat :=
  match fuel with
  | O => lo
  | S f =>
      if lo <? hi then
        let mid := lo + (hi - lo) / 2 in
        match fs !! mid with
        | None => lo
        | Some candidate =>
            match strcmp (name candidate) key with
            | Lt => lower_bound f fs key (mid + 1) hi
            | _ => lower_bound f fs key lo mid
            end
        end
      else lo
  end.

Definition insert_sorted (fs : list ss_file) (file : ss_file) : list ss_file :=
  insert_at (lower_bound (length fs) fs (name file) 0 (length fs)) file fs.

Definition fill_paths (st : ss_state) (n : cstr) (f : ss_file) : ss_file :=
  mk_ss_file (name f) (owner f)
    (snprintf_s 512 (files_dir st ++ "/"%char :: n))
    (snprintf_s 512 (meta_dir st ++ "/"%char :: n ++ cs ".meta"))
    (snprintf_s 512 (undo_dir st ++ "/"%char :: n ++ cs ".undo"))
    (created f) (modified f) (last_access f) (last_access_user f)
    (word_count f) (char_count f) (lock_active f) (lock_user f) (lock_sentence f).

(** The loop of [ss_state_find]; [inr lo] is the insertion point. *)
Fixpoint find_loop (fuel : nat) (fs : list ss_file) (key : cstr) (lo hi : nat) : (nat * ss_file) + nat :=
  match fuel with
  | O => inr lo
  | S f =>
      if lo <? hi then
        let mid := lo + (hi - lo) / 2 in
        match fs !! mid with
        | None => inr lo
        | Some candidate =>
            match strcmp (name candidate) key with
            | Eq => inl (mid, candidate)
            | Lt => find_loop f fs key (mid + 1) hi
            | Gt => find_loop f fs key lo mid
            end
        end
      else inr lo
  end.

Definition find_index (st : ss_state) (n : cstr) : (nat * ss_file) + nat :=
  find_loop (length (docs st)) (docs st) n 0 (length (docs st)).

(** The record found and [*index_out]. *)
Definition ss_state_find (st : ss_state) (n : cstr) : option ss_file * nat :=
  match find_index st n with inl (i, f) => (Some f, i) | inr i => (None, i) end.

(** What [write_meta_file] prints. *)
Definition meta_text (f : ss_file) : cstr :=
  cs "owner:" ++ owner f ++ [newline] ++
  cs "created:" ++ show_Z (created f) ++ [newline] ++
  cs "modified:" ++ show_Z (modified f) ++ [newline] ++
  cs "last_access:" ++ show_Z (last_access f) ++ [newline] ++
  cs "last_access_user:" ++ last_access_user f ++ [newline] ++
  cs "word_count:" ++ show_nonneg (word_count f) ++ [newline] ++
  cs "char_count:" ++ show_nonneg (char_count f) ++ [newline].

(** The writes are not checked; they reach the file together. *)
Definition write_meta_file (f : ss_file) (d : disk) : bool * disk :=
  let '(opened, d) := fopen_w (meta_path f) d in
  if opened then (true, snd (fwrite (meta_path f) (meta_text f) d)) else (false, d).

Definition ss_state_save_meta := write_meta_file.

(** The record [ss_state_add] builds. *)
Definition new_file (st : ss_state) (n o : cstr) (now : Z) : ss_file :=
  let file := with_names (snprintf_s SS_NAME_MAX n) (snprintf_s SS_USER_MAX o) zero_file in
  let file := fill_paths st n file in
  let file := with_times now now now (snprintf_s SS_USER_MAX o) file in
  with_lock false [] (-1) (with_counts 0 0 file).

Definition ss_state_add (st : ss_state) (n o : cstr) (now : Z) (d : disk) : res unit * ss_state * disk :=
  match ss_state_find st n with
  | (Some _, _) => (Err EEXIST, st, d)
  | (None, idx) =>
      let file := new_file st n o now in
      let st1 := set_docs (insert_sorted (docs st) file) st in
      let '(opened, d) := fopen_w (data_path file) d in
      if negb opened then (Err ESYS, set_docs (remove_at idx (docs st1)) st1, d)
      else
        match docs st1 !! idx with
        | None => (Err ESYS, st1, d)
        | Some at_idx =>
            let '(saved, d) := write_meta_file at_idx d in
            if saved then (Ok tt, st1, d)
            else (Err ESYS, set_docs (remove_at idx (docs st1)) st1, snd (unlink (data_path file) d))
        end
  end.

Definition ss_state_remove (st : ss_state) (n : cstr) (d : disk) : res unit * ss_state * disk :=
  match ss_state_find st n with
  | (None, _) => (Err ENOENT, st, d)
  | (Some file, idx) =>
      let d := snd (unlink (data_path file) d) in
      let d := snd (unlink (meta_path file) d) in
      let d := snd (unlink (undo_path file) d) in
      (Ok tt, set_docs (remove_at idx (docs st)) st, d)
  end.

(** One [key:value] line of the metadata file. *)
Definition load_meta_field (key value : cstr) (f : ss_file) : ss_file :=
  if streq key (cs "owner") then with_names (name f) (snprintf_s SS_USER_MAX value) f
  else if streq key (cs "created") then with_times (atol value) (modified f) (last_access f) (last_access_user f) f
  else if streq key (cs "modified") then with_times (created f) (atol value) (last_access f) (last_access_user f) f
  else if streq key (cs "last_access") then with_times (created f) (modified f) (atol value) (last_access_user f) f
  else if streq key (cs "last_access_user") then
    with_times (created f) (modified f) (last_access f) (snprintf_s SS_USER_MAX value) f
  else if streq key (cs "word_count") then with_counts (strtoull value) (char_count f) f
  else if streq key (cs "char_count") then with_counts (word_count f) (strtoull value) f
  else f.

Definition load_meta_line (line : cstr) (f : ss_file) : ss_file :=
  match cut (fst (cut (c_str line) newline)) ":"%char with
  | (_, None) => f
  | (key, Some value) => load_meta_field key value f
  end.

(** The [fgets] loop; each round consumes a character. *)
Fixpoint load_meta_lines (fuel : nat) (s : cstr) (f : ss_file) : ss_file :=
  match fuel, s with
  | S n, _ :: _ => let '(line, rest) := fgets_line 255 s in load_meta_lines n rest (load_meta_line line f)
  | _, _ => f
  end.

Definition load_meta_file (f : ss_file) (d : disk) : option ss_file * disk :=
  let '(opened, d) := plain_call d in
  match opened, files d !! meta_path f with
  | true, Some b => (Some (load_meta_lines (length b) b f), d)
  | _, _ => (None, d)
  end.

(** [strrchr(s, '.')]: the text before the last dot and the suffix from it. *)
Definition last_dot (s : cstr) : option (cstr * cstr) :=
  let p := fun x => negb (bool_decide (x = "."%char)) in
  match drop_while p (rev s) with
  | [] => None
  | _ :: r => Some (rev r, "."%char :: rev (take_while p (rev s)))
  end.

(** Counters that are zero are recomputed from the document.  The results of [fseek] are not looked
    at: when one fails, nothing is read.  [ftell] cannot fail on an open file of this size. *)
Definition recount (f : ss_file) (d : disk) : ss_file * disk :=
  if (word_count f =? 0)%Z || (char_count f =? 0)%Z then
    let '(opened, d) := plain_call d in
    match opened, files d !! data_path f with
    | true, Some b =>
        let '(at_end, d) := plain_call d in
        let '(at_start, d) := plain_call d in
        let '(r, d) := next_fault d in
        let b := if at_end && at_start then match r with Fine => b | Fails k => take k b end else [] in
        (with_counts (Z.of_nat (count_words_in_text (c_str b))) (Z.of_nat (length b)) f, d)
    | _, _ => (f, d)
    end
  else (f, d).

(** The document a directory entry names, when [ss_state_load] does not skip it. *)
Definition entry_name (entry : cstr) : option cstr :=
  match entry with
  | [] => None
  | c :: _ =>
      if bool_decide (c = "."%char) then None
      else
        match last_dot entry with
        | None => None
        | Some (stem, dot) => if streq dot (cs ".meta") then Some (take (SS_NAME_MAX - 1) stem) else None
        end
  end.

(** One round of [ss_state_load]. *)
Definition load_entry (entry : cstr) (st : ss_state) (d : disk) : ss_state * disk :=
  match entry_name entry with
  | None => (st, d)
  | Some n =>
      let file := fill_paths st n (with_names n [] zero_file) in
      match load_meta_file file d with
      | (None, d) => (st, d)
      | (Some file, d) =>
          let '(file, d) := recount file d in
          let file := with_lock false (lock_user file) (-1) file in
          (set_docs (insert_sorted (docs st) file) st, d)
      end
  end.

(** [ss_state_load]; [entries] is what [readdir] returns for the metadata
    directory, in its order, and [None] a failed [opendir]. *)
Definition ss_state_load (st : ss_state) (entries : option (list cstr)) (d : disk) : bool * ss_state * disk :=
  match entries with
  | None => (false, st, d)
  | Some es =>
      let '(st, d) := foldl (fun '(st, d) e => load_entry e st d) (st, d) es in (true, st, d)
  end.

(** ** The sorted table *)

Definition name_lt (a b : ss_file) : Prop := strcmp (name a) (name b) = Lt.
Definition sorted (fs : list ss_file) : Prop := StronglySorted name_lt fs.

#[export] Instance name_lt_trans : Transitive name_lt.
Proof. intros a b c. apply strcmp_lt_trans. Qed.

(** Everything before [r] is smaller than the key, everything from [r] on is not. *)
Definition below (fs : list ss_file) (key : cstr) (r : nat) : Prop :=
  forall j f, fs !! j = Some f -> j < r -> strcmp (name f) key = Lt.
Definition above (fs : list ss_file) (key : cstr) (r : nat) : Prop :=
  forall j f, fs !! j = Some f -> r <= j -> strcmp (name f) key = Gt.
Definition not_below (fs : list ss_file) (key : cstr) (r : nat) : Prop :=
  forall j f, fs !! j = Some f -> r <= j -> strcmp (name f) key <> Lt.

Lemma sorted_lookup fs i j a b :
  sorted fs -> i < j -> fs !! i = Some a -> fs !! j = Some b -> name_lt a b.
Proof.
  intros Hs. revert i j. induction Hs as [|x fs Hs IH Hx]; intros i j Hij Ha Hb; [done|].
  destruct j as [|j]; [lia|]. destruct i as [|i]; simplify_eq/=.
  - eapply Forall_lookup_1 in Hx; [|exact Hb]. done.
  - eapply IH; [|done..]. lia.
Qed.

Lemma below_mid fs key mid f :
  sorted fs -> fs !! mid = Some f -> strcmp (name f) key = Lt -> below fs key (mid + 1).
Proof.
  intros Hs Hf Hlt j g Hg Hj. destruct (decide (j = mid)) as [->|]; [congruence|].
  eapply strcmp_lt_trans; [|exact Hlt]. apply (sorted_lookup fs j mid); [done|lia|done|done].
Qed.

Lemma Gt_trans a b c : strcmp b a = Lt -> strcmp b c <> Lt -> strcmp a c = Gt.
Proof.
  intros H1 H2. destruct (strcmp b c) eqn:E; [|done|].
  - apply strcmp_eq in E as ->. rewrite strcmp_opp, H1. done.
  - rewrite strcmp_opp in E. destruct (strcmp c b) eqn:E2; try done.
    rewrite strcmp_opp. by rewrite (strcmp_lt_trans _ _ _ E2 H1).
Qed.

Lemma above_mid fs key mid f :
  sorted fs -> fs !! mid = Some f -> strcmp (name f) key <> Lt ->
  forall j g, fs !! j = Some g -> mid < j -> strcmp (name g) key = Gt.
Proof.
  intros Hs Hf Hge j g Hg Hj. eapply Gt_trans; [|exact Hge].
  apply (sorted_lookup fs mid j); done.
Qed.

Lemma mid_bounds lo hi : lo < hi -> lo <= lo + (hi - lo) / 2 < hi.
Proof. intros H. pose proof (Nat.div_lt (hi - lo) 2). lia. Qed.

Lemma lower_bound_spec fuel fs key lo hi :
  sorted fs -> lo <= hi <= length fs -> hi - lo <= fuel ->
  below fs key lo -> not_below fs key hi ->
  let r := lower_bound fuel fs key lo hi in
  r <= length fs /\ below fs key r /\ not_below fs key r.
Proof.
  intros Hs. revert lo hi. induction fuel as [|fuel IH]; intros lo hi Hb Hf Hlo Hhi; cbn [lower_bound].
  { assert (lo = hi) as -> by lia. by split_and!; [lia| |]. }
  destruct (Nat.ltb_spec lo hi); [|assert (lo = hi) as -> by lia; by split_and!; [lia| |]].
  pose proof (mid_bounds lo hi ltac:(done)) as Hm. set (mid := lo + (hi - lo) / 2) in *.
  destruct (lookup_lt_is_Some_2 fs mid) as [f Hmid]; [lia|]. rewrite Hmid.
  destruct (strcmp (name f) key) eqn:E.
  - apply IH; [lia|lia|done|]. intros j g Hg Hj. destruct (decide (j = mid)) as [->|].
    + by simplify_eq; rewrite E.
    + rewrite (above_mid fs key mid f Hs Hmid) with (j := j); [done|congruence|done|lia].
  - apply IH; [lia|lia| |done]. by eapply below_mid.
  - apply IH; [lia|lia|done|]. intros j g Hg Hj. destruct (decide (j = mid)) as [->|].
    + by simplify_eq; rewrite E.
    + rewrite (above_mid fs key mid f Hs Hmid) with (j := j); [done|congruence|done|lia].
Qed.

Lemma find_loop_spec fuel fs key lo hi :
  sorted fs -> lo <= hi <= length fs -> hi - lo <= fuel ->
  below fs key lo -> above fs key hi ->
  match find_loop fuel fs key lo hi with
  | inl (i, f) => fs !! i = Some f /\ name f = key
  | inr r => r <= length fs /\ below fs key r /\ above fs key r
  end.
Proof.
  intros Hs. revert lo hi. induction fuel as [|fuel IH]; intros lo hi Hb Hf Hlo Hhi; cbn [find_loop].
  { assert (lo = hi) as -> by lia. by split_and!; [lia| |]. }
  destruct (Nat.ltb_spec lo hi); [|assert (lo = hi) as -> by lia; by split_and!; [lia| |]].
  pose proof (mid_bounds lo hi ltac:(done)) as Hm. set (mid := lo + (hi - lo) / 2) in *.
  destruct (lookup_lt_is_Some_2 fs mid) as [f Hmid]; [lia|]. rewrite Hmid.
  destruct (strcmp (name f) key) eqn:E.
  - split; [done|]. by apply strcmp_eq.
  - apply IH; [lia|lia| |done]. by eapply below_mid.
  - apply IH; [lia|lia|done|]. intros j g Hg Hj. destruct (decide (j = mid)) as [->|]; [congruence|].
    apply (above_mid fs key mid f Hs Hmid) with (j := j); [congruence|done|lia].
Qed.

Lemma below_0 fs key : below fs key 0.
Proof. intros ???. lia. Qed.
Lemma above_length fs key : above fs key (length fs).
Proof. intros j f Hf. apply lookup_lt_Some in Hf. lia. Qed.
#[export] Hint Resolve below_0 above_length : cowrite.

(** The result of the search, in terms of the documents of the table. *)
Lemma find_index_spec st n :
  sorted (docs st) ->
  match find_index st n with
  | inl (i, f) => docs st !! i = Some f /\ name f = n
  | inr r => r <= length (docs st) /\ below (docs st) n r /\ above (docs st) n r
  end.
Proof. intros. apply find_loop_spec; auto with cowrite; lia. Qed.

Lemma find_index_None st n r :
  sorted (docs st) -> find_index st n = inr r -> forall f, f ∈ docs st -> name f <> n.
Proof.
  intros Hs E f [j Hj]%list_elem_of_lookup_1 Hn. pose proof (find_index_spec st n Hs) as H. rewrite E in H.
  destruct H as (_ & Hlt & Hgt). destruct (decide (j < r)).
  - specialize (Hlt j f Hj ltac:(done)). rewrite Hn, strcmp_refl in Hlt. done.
  - specialize (Hgt j f Hj ltac:(lia)). rewrite Hn, strcmp_refl in Hgt. done.
Qed.

Lemma sorted_unique fs i j f g :
  sorted fs -> fs !! i = Some f -> fs !! j = Some g -> name f = name g -> i = j.
Proof.
  intros Hs Hf Hg Hn. destruct (Nat.lt_trichotomy i j) as [H|[H|H]]; [|done|].
  - pose proof (sorted_lookup fs i j f g Hs H Hf Hg) as Hl. unfold name_lt in Hl.
    rewrite Hn, strcmp_refl in Hl. done.
  - pose proof (sorted_lookup fs j i g f Hs H Hg Hf) as Hl. unfold name_lt in Hl.
    rewrite Hn, strcmp_refl in Hl. done.
Qed.

Lemma find_index_Some st f i : sorted (docs st) -> docs st !! i = Some f -> find_index st (name f) = inl (i, f).
Proof.
  intros Hs Hf. pose proof (find_index_spec st (name f) Hs) as H.
  destruct (find_index st (name f)) as [[j g]|r] eqn:E.
  - destruct H as [Hg Hn]. assert (j = i) as -> by (eapply sorted_unique; done). by simplify_eq.
  - exfalso. eapply find_index_None; [done|exact E|by eapply list_elem_of_lookup_2|done].
Qed.

(** Insertion at a boundary keeps the order. *)
Lemma sorted_app fs gs :
  sorted fs -> sorted gs -> (forall f g, f ∈ fs -> g ∈ gs -> name_lt f g) -> sorted (fs ++ gs).
Proof.
  intros Hf Hg H. induction Hf as [|f fs Hf IH Hx]; [done|]. simpl. constructor.
  - apply IH. intros a b Ha. apply H. by right.
  - apply Forall_app. split; [done|]. apply Forall_forall. intros g Hg'. apply H; [left|done].
Qed.

Lemma sorted_app_inv fs gs :
  sorted (fs ++ gs) -> sorted fs /\ sorted gs /\ (forall f g, f ∈ fs -> g ∈ gs -> name_lt f g).
Proof.
  induction fs as [|f fs IH]; simpl; intros H.
  - split_and!; [constructor|done|]. intros ? ? []%elem_of_nil.
  - apply StronglySorted_inv in H as [H Hx]. apply IH in H as (H1 & H2 & H3).
    apply Forall_app in Hx as [Hx1 Hx2]. split_and!; [by constructor|done|].
    intros a b [->|Ha]%elem_of_cons Hb; [|by apply H3]. rewrite Forall_forall in Hx2. by apply Hx2.
Qed.

Lemma sorted_insert_at fs r file :
  sorted fs -> below fs (name file) r -> above fs (name file) r -> sorted (insert_at r file fs).
Proof.
  intros Hs Hb Ha. unfold insert_at. rewrite <- (take_drop r fs) in Hs.
  apply sorted_app_inv in Hs as (H1 & H2 & H3). apply sorted_app; [done| |].
  - constructor; [done|]. apply Forall_forall. intros g [j Hj]%list_elem_of_lookup_1.
    rewrite lookup_drop in Hj. unfold name_lt. rewrite strcmp_opp, (Ha _ _ Hj) by lia. done.
  - intros f g Hf [->|Hg]%elem_of_cons; [|by apply H3].
    apply list_elem_of_lookup_1 in Hf as [j Hj]. apply lookup_take_Some in Hj as [Hj Hlt].
    by apply (Hb j).
Qed.

Lemma sorted_remove_at fs i : sorted fs -> sorted (remove_at i fs).
Proof.
  intros Hs. unfold remove_at. rewrite <- (take_drop i fs) in Hs.
  apply sorted_app_inv in Hs as (H1 & H2 & H3).
  replace (drop (S i) fs) with (drop 1 (drop i fs)) by (rewrite drop_drop; f_equal; lia).
  apply sorted_app; [done| |].
  - destruct (drop i fs) as [|x k]; [done|]. by apply StronglySorted_inv in H2 as [H2 _].
  - intros f g Hf Hg. apply H3; [done|]. destruct (drop i fs); [done|]. by right.
Qed.

(** In a table without the name both searches agree. *)
Lemma lower_bound_find st file r :
  sorted (docs st) -> find_index st (name file) = inr r ->
  lower_bound (length (docs st)) (docs st) (name file) 0 (length (docs st)) = r.
Proof.
  intros Hs E. pose proof (find_index_spec st (name file) Hs) as H. rewrite E in H.
  destruct H as (Hr & Hlt & Hgt).
  destruct (lower_bound_spec (length (docs st)) (docs st) (name file) 0 (length (docs st)))
    as (Hr' & Hlt' & Hgt'); auto with cowrite; [lia..| |].
  { intros j g Hg. apply lookup_lt_Some in Hg. lia. }
  set (r' := lower_bound _ _ _ _ _) in *. clearbody r'.
  destruct (Nat.lt_trichotomy r r') as [H|[H|H]]; [|done|].
  - destruct (lookup_lt_is_Some_2 (docs st) r) as [f Hf]; [lia|].
    specialize (Hlt' r f Hf ltac:(lia)). specialize (Hgt r f Hf ltac:(lia)). congruence.
  - destruct (lookup_lt_is_Some_2 (docs st) r') as [f Hf]; [lia|].
    specialize (Hgt' r' f Hf ltac:(lia)). specialize (Hlt r' f Hf ltac:(lia)). congruence.
Qed.

(** ** The abstract table *)

Definition doc_map (fs : list ss_file) : gmap cstr ss_file :=
  list_to_map ((fun f => (name f, f)) <$> fs).

Lemma sorted_NoDup fs : sorted fs -> NoDup ((fun f => (name f, f)) <$> fs).*1.
Proof.
  intros Hs. rewrite <- list_fmap_compose. apply NoDup_alt. intros i j x Hi Hj.
  rewrite list_lookup_fmap in Hi, Hj.
  apply fmap_Some in Hi as (f & Hf & ->), Hj as (g & Hg & E). by eapply sorted_unique.
Qed.

Lemma doc_map_lookup fs n f : sorted fs -> doc_map fs !! n = Some f <-> f ∈ fs /\ name f = n.
Proof.
  intros Hs. unfold doc_map. rewrite <- elem_of_list_to_map by (by apply sorted_NoDup).
  rewrite list_elem_of_fmap. naive_solver.
Qed.

Lemma doc_map_find st n : sorted (docs st) -> fst (ss_state_find st n) = doc_map (docs st) !! n.
Proof.
  intros Hs. unfold ss_state_find. pose proof (find_index_spec st n Hs) as H.
  destruct (find_index st n) as [[i f]|r] eqn:E; symmetry.
  - destruct H as [Hf Hn]. apply doc_map_lookup; [done|]. split; [by eapply list_elem_of_lookup_2|done].
  - apply eq_None_not_Some. intros [f [Hf Hn]%doc_map_lookup]; [|done].
    by apply (find_index_None st n r Hs E f).
Qed.

Lemma doc_map_insert_at fs r file :
  sorted (insert_at r file fs) -> doc_map (insert_at r file fs) = <[name file := file]> (doc_map fs).
Proof.
  intros Hs. unfold doc_map, insert_at. rewrite fmap_app, fmap_cons. cbv beta.
  rewrite <- (take_drop r fs) at 3. rewrite fmap_app, !list_to_map_app, list_to_map_cons.
  rewrite <- insert_union_r; [done|].
  apply not_elem_of_list_to_map_1.
  intros ([n g] & Hn & (h & E & Hh)%list_elem_of_fmap)%list_elem_of_fmap. simplify_eq/=.
  apply sorted_app_inv in Hs as (_ & _ & Hlt). specialize (Hlt h file Hh ltac:(left)).
  unfold name_lt in Hlt. by rewrite H, strcmp_refl in Hlt.
Qed.

Lemma doc_map_remove_at fs i f :
  sorted fs -> fs !! i = Some f -> doc_map (remove_at i fs) = delete (name f) (doc_map fs).
Proof.
  intros Hs Hf. assert (fs = insert_at i f (remove_at i fs)) as E.
  { unfold insert_at, remove_at. pose proof (lookup_lt_Some _ _ _ Hf).
    rewrite take_app_le by (rewrite length_take; lia). rewrite take_take, Nat.min_id.
    rewrite drop_app_ge by (rewrite length_take; lia). rewrite length_take, Nat.min_l, Nat.sub_diag by lia.
    rewrite drop_0. symmetry. by apply take_drop_middle. }
  rewrite E at 2. rewrite doc_map_insert_at by (by rewrite <- E).
  rewrite delete_insert_id; [done|]. apply eq_None_not_Some.
  intros [g [Hg Hn]%doc_map_lookup]; [|by apply sorted_remove_at].
  rewrite E in Hs. unfold insert_at in Hs. apply list_elem_of_lookup_1 in Hg as [j Hj].
  rewrite <- (take_drop i (remove_at i fs)) in Hj.
  apply sorted_app_inv in Hs as (H1 & H2 & H3). apply StronglySorted_inv in H2 as [_ H2].
  rewrite Forall_forall in H2.
  assert (g ∈ take i (remove_at i fs) ++ drop i (remove_at i fs)) as [Hin|Hin]%elem_of_app
    by (by eapply list_elem_of_lookup_2).
  - specialize (H3 g f Hin ltac:(left)). unfold name_lt in H3. by rewrite Hn, strcmp_refl in H3.
  - specialize (H2 g Hin). unfold name_lt in H2. by rewrite Hn, strcmp_refl in H2.
Qed.

(** ** The metadata file *)

Definition load_meta (s : cstr) (f : ss_file) : ss_file := load_meta_lines (length s) s f.

Lemma load_meta_lines_fuel k s f : length s <= k -> load_meta_lines k s f = load_meta s f.
Proof.
  unfold load_meta. assert (forall k1 k2 s f, length s <= k1 -> length s <= k2 ->
    load_meta_lines k1 s f = load_meta_lines k2 s f) as H; [|intros; by apply H].
  clear. induction k1 as [|k1 IH]; intros [|k2] [|c s] f H1 H2; try (simpl in *; lia); try done.
  cbn [load_meta_lines]. destruct (fgets_line 255 (c :: s)) as [l r] eqn:E.
  pose proof (fgets_line_shrinks 254 c s) as Hr. change (S 254) with 255 in Hr. rewrite E in Hr.
  simpl in *. apply IH; lia.
Qed.

Lemma load_meta_line_field key value f :
  plain key -> Forall (fun c => c <> ":"%char) key -> plain value ->
  load_meta_line ((key ++ ":"%char :: value) ++ [newline]) f = load_meta_field key value f.
Proof.
  intros Hk Hc Hv. unfold load_meta_line.
  assert (plain (key ++ ":"%char :: value)) as Hp.
  { apply Forall_app. split; [done|]. by constructor. }
  rewrite c_str_id.
  - rewrite (cut_at (key ++ ":"%char :: value) []).
    + cbn [fst]. by rewrite cut_at.
    + eapply Forall_impl; [exact Hp|]. by intros c [].
  - apply Forall_app. split; [by apply plain_no_nul|]. by repeat constructor.
Qed.

Lemma load_meta_step key value rest f :
  plain key -> Forall (fun c => c <> ":"%char) key -> plain value -> length key + length value < 254 ->
  load_meta ((key ++ ":"%char :: value) ++ newline :: rest) f = load_meta rest (load_meta_field key value f).
Proof.
  intros Hk Hc Hv Hl. set (l := key ++ ":"%char :: value).
  assert (plain l) as Hp. { apply Forall_app. split; [done|]. by constructor. }
  assert (length l < 255) by (unfold l; rewrite length_app; simpl; lia).
  unfold load_meta at 1. destruct (l ++ newline :: rest) as [|c s] eqn:E; [by destruct l|].
  cbn [length load_meta_lines]. rewrite <- E, fgets_line_plain by done.
  unfold l at 1. rewrite load_meta_line_field by done. apply load_meta_lines_fuel.
  apply (f_equal length) in E. rewrite length_app in E. simpl in E. lia.
Qed.

(** What a record must satisfy to survive in its metadata file. *)
Record meta_ok (f : ss_file) : Prop := {
  ok_owner : plain (owner f) /\ length (owner f) < SS_USER_MAX;
  ok_last : plain (last_access_user f) /\ length (last_access_user f) < SS_USER_MAX;
  ok_created : (LONG_MIN <= created f <= LONG_MAX)%Z;
  ok_modified : (LONG_MIN <= modified f <= LONG_MAX)%Z;
  ok_access : (LONG_MIN <= last_access f <= LONG_MAX)%Z;
  ok_words : (0 <= word_count f < SIZE_MOD)%Z;
  ok_chars : (0 <= char_count f < SIZE_MOD)%Z;
}.

(** The persistent fields of [f] in the record [g]. *)
Definition restore (f g : ss_file) : ss_file :=
  with_counts (word_count f) (char_count f)
    (with_times (created f) (modified f) (last_access f) (last_access_user f) (with_names (name g) (owner f) g)).

Definition line_of (key : cstr) (value rest : cstr) : cstr := (key ++ ":"%char :: value) ++ newline :: rest.

Lemma meta_text_lines f :
  meta_text f =
  line_of (cs "owner") (owner f) (line_of (cs "created") (show_Z (created f))
  (line_of (cs "modified") (show_Z (modified f)) (line_of (cs "last_access") (show_Z (last_access f))
  (line_of (cs "last_access_user") (last_access_user f) (line_of (cs "word_count") (show_nonneg (word_count f))
  (line_of (cs "char_count") (show_nonneg (char_count f)) [])))))).
Proof. unfold meta_text, line_of. solve_text. Qed.

Lemma load_meta_line_of key value rest f :
  forallb (fun c => negb (bool_decide (c = newline)) && negb (bool_decide (c = "000"%char)) &&
                    negb (bool_decide (c = ":"%char))) key = true ->
  length key <= 20 -> plain value -> length value <= 65 ->
  load_meta (line_of key value rest) f = load_meta rest (load_meta_field key value f).
Proof.
  intros Hk Hl Hv Hn. rewrite forallb_forall in Hk. apply load_meta_step; [| |done|lia];
    apply List.Forall_forall; intros c Hc; specialize (Hk c Hc); bool_to_prop; done.
Qed.

Lemma field_owner v f : load_meta_field (cs "owner") v f = with_names (name f) (snprintf_s SS_USER_MAX v) f.
Proof. reflexivity. Qed.
Lemma field_created v f :
  load_meta_field (cs "created") v f = with_times (atol v) (modified f) (last_access f) (last_access_user f) f.
Proof. reflexivity. Qed.
Lemma field_modified v f :
  load_meta_field (cs "modified") v f = with_times (created f) (atol v) (last_access f) (last_access_user f) f.
Proof. reflexivity. Qed.
Lemma field_access v f :
  load_meta_field (cs "last_access") v f = with_times (created f) (modified f) (atol v) (last_access_user f) f.
Proof. reflexivity. Qed.
Lemma field_access_user v f :
  load_meta_field (cs "last_access_user") v f =
  with_times (created f) (modified f) (last_access f) (snprintf_s SS_USER_MAX v) f.
Proof. reflexivity. Qed.
Lemma field_words v f : load_meta_field (cs "word_count") v f = with_counts (strtoull v) (char_count f) f.
Proof. reflexivity. Qed.
Lemma field_chars v f : load_meta_field (cs "char_count") v f = with_counts (word_count f) (strtoull v) f.
Proof. reflexivity. Qed.

Lemma load_meta_text f g : meta_ok f -> load_meta (meta_text f) g = restore f g.
Proof.
  intros [[Ho Hol] [Hu Hul] Hc Hm Ha Hw Hch]. unfold SS_USER_MAX in *. rewrite meta_text_lines.
  assert (forall n, (0 <= n < SIZE_MOD)%Z -> plain (show_nonneg n) /\ length (show_nonneg n) <= 65) as Hnn.
  { intros n Hn. split; [apply plain_show_nonneg; lia|]. pose proof (show_nonneg_length n Hn). lia. }
  repeat rewrite load_meta_line_of;
    auto using plain_show_Z, show_Z_length; try (by apply Hnn); try (simpl; lia).
  change (load_meta [] ?h) with h.
  rewrite field_owner, field_created, field_modified, field_access, field_access_user, field_words, field_chars.
  rewrite !atol_show_Z, !strtoull_show, !snprintf_s_id by done. reflexivity.
Qed.

Lemma ss_state_find_spec st n f i :
  sorted (docs st) -> ss_state_find st n = (Some f, i) -> docs st !! i = Some f /\ name f = n.
Proof.
  intros Hs. unfold ss_state_find. pose proof (find_index_spec st n Hs) as H.
  destruct (find_index st n) as [[j g]|r]; intros [= -> ->]. done.
Qed.

(** Changing a record in place keeps the order when its name stays. *)
Lemma sorted_update fs i f g : sorted fs -> fs !! i = Some f -> name g = name f -> sorted (<[i := g]> fs).
Proof.
  intros Hs Hf Hn. apply list_elem_of_split_length in Hf as (l1 & l2 & -> & ->).
  replace (length l1) with (length l1 + 0) by lia. rewrite insert_app_r. simpl.
  apply sorted_app_inv in Hs as (H1 & H2 & H3). apply StronglySorted_inv in H2 as [H2 H4].
  apply sorted_app; [done| |].
  - constructor; [done|]. eapply Forall_impl; [exact H4|]. intros x. unfold name_lt. by rewrite Hn.
  - intros a b Ha [->|Hb]%elem_of_cons.
    + unfold name_lt. rewrite Hn. by apply H3; [|left].
    + apply H3; [done|]. by right.
Qed.

(** ** Properties *)

Lemma find_index_absent st n r :
  sorted (docs st) -> find_index st n = inr r -> r <= length (docs st) /\ below (docs st) n r /\ above (docs st) n r.
Proof. intros Hs E. pose proof (find_index_spec st n Hs) as H. by rewrite E in H. Qed.

(** The binary search is a look-up in the finite map of the documents, and its
    index is the document's position, or the one position where a document of that
    name can be inserted without breaking the order. *)
Lemma ss_state_find_refines st n :
  sorted (docs st) ->
  fst (ss_state_find st n) = doc_map (docs st) !! n /\
  match ss_state_find st n with
  | (Some f, i) => docs st !! i = Some f /\ name f = n
  | (None, i) => i <= length (docs st) /\ forall f, name f = n -> sorted (insert_at i f (docs st))
  end.
Proof.
  intros Hs. split; [by apply doc_map_find|]. unfold ss_state_find.
  pose proof (find_index_spec st n Hs) as H. destruct (find_index st n) as [[i f]|r] eqn:E; [done|].
  destruct H as (Hr & Hb & Ha). split; [done|]. intros f <-. by apply sorted_insert_at.
Qed.

Definition demo_state : ss_state :=
  set_docs [new_file (ss_state_dirs (cs "s")) (cs "a") (cs "ann") 1;
            new_file (ss_state_dirs (cs "s")) (cs "c") (cs "bob") 2] (ss_state_dirs (cs "s")).

Lemma demo_state_sorted : sorted (docs demo_state).
Proof. repeat constructor. Qed.

Lemma new_file_name st n o now : length n < SS_NAME_MAX -> name (new_file st n o now) = n.
Proof. intros. change (snprintf_s SS_NAME_MAX n = n). by apply snprintf_s_id. Qed.

Lemma set_docs_id st : set_docs (docs st) st = st.
Proof. by destruct st. Qed.

Lemma set_docs_idem fs gs st : set_docs fs (set_docs gs st) = set_docs fs st.
Proof. done. Qed.

Lemma insert_sorted_absent st file r :
  sorted (docs st) -> find_index st (name file) = inr r ->
  insert_sorted (docs st) file = insert_at r file (docs st) /\ r <= length (docs st) /\
  sorted (insert_at r file (docs st)).
Proof.
  intros Hs E. destruct (find_index_absent st (name file) r Hs E) as (Hr & Hb & Ha).
  unfold insert_sorted. rewrite (lower_bound_find st file r Hs E).
  split_and!; [done|done|by apply sorted_insert_at].
Qed.

Lemma write_meta_file_quiet f d :
  quiet d -> exists d', write_meta_file f d = (true, d') /\ quiet d' /\
  files d' = <[meta_path f := meta_text f]> (files d).
Proof.
  intros Hq. unfold write_meta_file, fopen_w, fwrite, next_fault. rewrite Hq. simpl. rewrite Hq.
  eexists. split_and!; [done|done|]. simpl. by rewrite insert_insert_eq.
Qed.

Lemma fopen_w_quiet p d :
  quiet d -> exists d', fopen_w p d = (true, d') /\ quiet d' /\ files d' = <[p := []]> (files d).
Proof. intros Hq. unfold fopen_w, next_fault. rewrite Hq. by eexists. Qed.

(** Adding a document, by cases. *)
Lemma ss_state_add_cases st n o now d :
  sorted (docs st) -> length n < SS_NAME_MAX ->
  let '(r, st', d') := ss_state_add st n o now d in
  match doc_map (docs st) !! n with
  | Some _ => r = Err EEXIST /\ st' = st /\ d' = d
  | None =>
      match r with
      | Ok _ => exists i, st' = set_docs (insert_at i (new_file st n o now) (docs st)) st /\ sorted (docs st')
      | Err e => e = ESYS /\ st' = st
      end
  end.
Proof.
  intros Hs Hn. rewrite <- (doc_map_find st n Hs). unfold ss_state_add, ss_state_find.
  destruct (find_index st n) as [[i f]|r] eqn:E; cbn [fst]; [by split_and!|].
  set (file := new_file st n o now).
  assert (name file = n) as Hname by (by apply new_file_name).
  rewrite <- Hname in E. destruct (insert_sorted_absent st file r Hs E) as (Hi & Hr & Hso).
  rewrite Hi. cbn [docs set_docs]. rewrite lookup_insert_at, remove_at_insert_at by done.
  rewrite set_docs_idem, set_docs_id. destruct (fopen_w (data_path file) d) as [opened d1].
  destruct opened; cbn [negb]; [|by split_and!].
  destruct (write_meta_file file d1) as [saved d2].
  destruct saved; [by exists r|by split_and!].
Qed.

(** Creating a document refines the insertion into the map.  An existing name
    is refused with [EEXIST] and changes nothing; a system call failure leaves the
    table as it was; otherwise the table is still sorted and has exactly the new
    record added.  When the calls succeed, the document file is empty and the
    metadata file describes the record. *)
Lemma ss_state_add_refines st n o now d :
  sorted (docs st) -> length n < SS_NAME_MAX ->
  let '(r, st', d') := ss_state_add st n o now d in
  let file := new_file st n o now in
  sorted (docs st') /\
  (doc_map (docs st) !! n <> None -> r = Err EEXIST) /\
  match r with
  | Ok _ => doc_map (docs st') = <[n := file]> (doc_map (docs st))
  | Err _ => st' = st
  end /\
  (quiet d -> doc_map (docs st) !! n = None -> data_path file <> meta_path file ->
   r = Ok tt /\ files d' = <[meta_path file := meta_text file]> (<[data_path file := []]> (files d))).
Proof.
  intros Hs Hn. pose proof (ss_state_add_cases st n o now d Hs Hn) as H.
  destruct (ss_state_add st n o now d) as [[r st'] d'] eqn:Ea.
  pose proof (new_file_name st n o now Hn) as Hname. cbv zeta.
  destruct (doc_map (docs st) !! n) as [g|] eqn:Hm.
  { destruct H as (-> & -> & ->). by split_and!. }
  assert (sorted (docs st') /\ match r with
    Ok _ => doc_map (docs st') = <[n := new_file st n o now]> (doc_map (docs st)) | Err _ => st' = st end) as [H1 H2].
  { destruct r as [[]|e]; [|by destruct H as (-> & ->)]. destruct H as (i & -> & Hso). split; [done|].
    cbn [docs set_docs] in *. rewrite doc_map_insert_at by done. by rewrite Hname. }
  split_and!; [done|done|done|]. intros Hq _ Hd.
  rewrite <- (doc_map_find st n Hs) in Hm. unfold ss_state_add, ss_state_find in *.
  destruct (find_index st n) as [[i f]|k] eqn:E; [done|]. rewrite <- Hname in E.
  destruct (insert_sorted_absent st _ k Hs E) as (Hi & Hk & Hso). rewrite Hi in Ea. cbn [docs set_docs] in Ea.
  rewrite lookup_insert_at in Ea by done.
  destruct (fopen_w_quiet (data_path (new_file st n o now)) d Hq) as (d1 & E1 & Hq1 & F1). rewrite E1 in Ea.
  destruct (write_meta_file_quiet (new_file st n o now) d1 Hq1) as (d2 & E2 & Hq2 & F2).
  cbn [negb] in Ea. rewrite E2 in Ea. simplify_eq. by rewrite F2, F1.
Qed.

Lemma unlink_quiet p d :
  quiet d -> quiet (snd (unlink p d)) /\ files (snd (unlink p d)) = delete p (files d).
Proof.
  intros Hq. unfold unlink, next_fault. rewrite Hq. destruct (files d !! p) eqn:E; [done|].
  split; [done|]. by rewrite delete_id.
Qed.

(** Deleting a document refines the deletion from the map: an unknown name is
    refused with [ENOENT] and nothing changes; a known one always goes, the order is
    kept, and when the calls succeed its data, metadata and undo files are gone and
    every other file is as before. *)
Lemma ss_state_remove_refines st n d :
  sorted (docs st) ->
  let '(r, st', d') := ss_state_remove st n d in
  match doc_map (docs st) !! n with
  | None => r = Err ENOENT /\ st' = st /\ d' = d
  | Some f =>
      r = Ok tt /\ sorted (docs st') /\ doc_map (docs st') = delete n (doc_map (docs st)) /\
      (quiet d ->
       files d' = delete (undo_path f) (delete (meta_path f) (delete (data_path f) (files d))))
  end.
Proof.
  intros Hs. rewrite <- (doc_map_find st n Hs). unfold ss_state_remove, ss_state_find.
  pose proof (find_index_spec st n Hs) as H. destruct (find_index st n) as [[i f]|r] eqn:E; cbn [fst]; [|done].
  destruct H as [Hf <-]. split_and!; [done|by apply sorted_remove_at|by apply doc_map_remove_at|].
  intros Hq. destruct (unlink_quiet (data_path f) d Hq) as [Hq1 F1].
  destruct (unlink_quiet (meta_path f) _ Hq1) as [Hq2 F2].
  destruct (unlink_quiet (undo_path f) _ Hq2) as [_ F3]. by rewrite F3, F2, F1.
Qed.

(** C31: The table of documents refines a finite map by name.  The binary search is a look-up in
    the map, and answers the position of the document or the one position where a document of
    that name keeps the order.  Creating inserts: an existing name is refused with [EEXIST],
    a failing system call leaves the table as it was, and otherwise the table is sorted and
    has exactly the new record added, with its files written.  Deleting removes: an unknown
    name is refused with [ENOENT] and changes nothing, a known one always goes, and its data,
    metadata and undo files with it, every other file as before, when no system call fails. *)
Theorem ss_state_refines_map st n o now d :
  sorted (docs st) -> length n < SS_NAME_MAX ->
  (fst (ss_state_find st n) = doc_map (docs st) !! n /\
   match ss_state_find st n with
   | (Some f, i) => docs st !! i = Some f /\ name f = n
   | (None, i) => i <= length (docs st) /\ forall f, name f = n -> sorted (insert_at i f (docs st))
   end) /\
  (let '(r, st', d') := ss_state_add st n o now d in
   let file := new_file st n o now in
   sorted (docs st') /\
   (doc_map (docs st) !! n <> None -> r = Err EEXIST) /\
   match r with
   | Ok _ => doc_map (docs st') = <[n := file]> (doc_map (docs st))
   | Err _ => st' = st
   end /\
   (quiet d -> doc_map (docs st) !! n = None -> data_path file <> meta_path file ->
    r = Ok tt /\ files d' = <[meta_path file := meta_text file]> (<[data_path file := []]> (files d)))) /\
  (let '(r, st', d') := ss_state_remove st n d in
   match doc_map (docs st) !! n with
   | None => r = Err ENOENT /\ st' = st /\ d' = d
   | Some f =>
       r = Ok tt /\ sorted (docs st') /\ doc_map (docs st') = delete n (doc_map (docs st)) /\
       (quiet d -> files d' = delete (undo_path f) (delete (meta_path f) (delete (data_path f) (files d))))
   end).
Proof.
  intros Hs Hn. split; [by apply ss_state_find_refines|]. split; [by apply ss_state_add_refines|by apply ss_state_remove_refines].
Qed.

Lemma ss_state_refines_map_witness :
  snd (ss_state_find demo_state (cs "b")) = 1 /\
  fst (ss_state_find demo_state (cs "b")) = doc_map (docs demo_state) !! cs "b" /\
  (let '(r, st', d') := ss_state_add demo_state (cs "b") (cs "eve") 9 (mk_disk ∅ [Fails 0] []) in sorted (docs st') /\ r = Err ESYS) /\
  (let '(r, st', d') := ss_state_remove demo_state (cs "a") (mk_disk ∅ [] []) in
   doc_map (docs st') = delete (cs "a") (doc_map (docs demo_state))).
Proof.
  split; [reflexivity|].
  destruct (ss_state_refines_map demo_state (cs "b") (cs "eve") 9 (mk_disk ∅ [Fails 0] []) ltac:(repeat constructor)
              ltac:(vm_compute; lia)) as ([H1 _] & H2 & _).
  split; [exact H1|]. split.
  - assert (fst (fst (ss_state_add demo_state (cs "b") (cs "eve") 9 (mk_disk ∅ [Fails 0] []))) = Err ESYS) as E
      by (vm_compute; reflexivity).
    destruct (ss_state_add _ _ _ _ _) as [[r st'] d']. exact (conj (proj1 H2) E).
  - destruct (ss_state_refines_map demo_state (cs "a") (cs "eve") 9 (mk_disk ∅ [] []) ltac:(repeat constructor)
                ltac:(vm_compute; lia)) as (_ & _ & H3).
    destruct (ss_state_remove _ _ _) as [[r st'] d'].
    replace (doc_map (docs demo_state) !! cs "a")
      with (Some (new_file (ss_state_dirs (cs "s")) (cs "a") (cs "ann") 1)) in H3 by (vm_compute; reflexivity).
    exact (proj1 (proj2 (proj2 H3))).
Defined.

(** *** Start-up *)

Definition unlock (f : ss_file) : ss_file := with_lock false [] (-1) f.

(** The files of a document agree with its record. *)
Record on_disk (st : ss_state) (t : tree) (f : ss_file) : Prop := {
  disk_meta : t !! meta_path f = Some (meta_text f);
  disk_ok : meta_ok f;
  disk_paths : fill_paths st (name f) f = f;
  disk_name : length (name f) < SS_NAME_MAX;
  disk_counts : (word_count f = 0 \/ char_count f = 0)%Z ->
    exists b, t !! data_path f = Some b /\ word_count f = Z.of_nat (count_words_in_text (c_str b)) /\
              char_count f = Z.of_nat (length b);
}.

Lemma recount_quiet st f d :
  quiet d -> on_disk st (files d) f -> recount f d = (f, d).
Proof.
  intros Hq [_ _ _ _ Hc]. unfold recount. destruct (_ || _)%bool eqn:E; [|done].
  destruct Hc as (b & Hb & Hw & Hch).
  { apply orb_true_iff in E as [E|E]; apply Z.eqb_eq in E; auto. }
  unfold plain_call, next_fault. rewrite Hq. cbv beta iota zeta. rewrite Hb, !Hq. cbv beta iota zeta. cbn [andb].
  rewrite <- Hw, <- Hch. by destruct f.
Qed.

Lemma ss_file_ext f g :
  name f = name g -> owner f = owner g -> data_path f = data_path g -> meta_path f = meta_path g ->
  undo_path f = undo_path g -> created f = created g -> modified f = modified g ->
  last_access f = last_access g -> last_access_user f = last_access_user g -> word_count f = word_count g ->
  char_count f = char_count g -> lock_active f = lock_active g -> lock_user f = lock_user g ->
  lock_sentence f = lock_sentence g -> f = g.
Proof. destruct f, g. cbn. by intros -> -> -> -> -> -> -> -> -> -> -> -> -> ->. Qed.

Lemma load_entry_good st st0 e f d :
  quiet d -> on_disk st (files d) f -> entry_name e = Some (name f) ->
  meta_dir st0 = meta_dir st -> files_dir st0 = files_dir st -> undo_dir st0 = undo_dir st ->
  load_entry e st0 d = (set_docs (insert_sorted (docs st0) (unlock f)) st0, d).
Proof.
  intros Hq Hd He H1 H2 H3. unfold load_entry. rewrite He.
  set (file := fill_paths st0 (name f) (with_names (name f) [] zero_file)).
  assert (restore f file = with_lock false [] 0 f) as Hr.
  { pose proof (disk_paths _ _ _ Hd) as Hp.
    apply ss_file_ext; try reflexivity; symmetry; rewrite <- Hp at 1.
    - change (snprintf_s 512 (files_dir st ++ "/"%char :: name f) = snprintf_s 512 (files_dir st0 ++ "/"%char :: name f)).
      by rewrite H2.
    - change (snprintf_s 512 (meta_dir st ++ "/"%char :: name f ++ cs ".meta") =
              snprintf_s 512 (meta_dir st0 ++ "/"%char :: name f ++ cs ".meta")). by rewrite H1.
    - change (snprintf_s 512 (undo_dir st ++ "/"%char :: name f ++ cs ".undo") =
              snprintf_s 512 (undo_dir st0 ++ "/"%char :: name f ++ cs ".undo")). by rewrite H3. }
  assert (meta_path file = meta_path f) as Hm.
  { rewrite <- (disk_paths _ _ _ Hd). unfold file, fill_paths. simpl. by rewrite H1. }
  unfold load_meta_file, plain_call, next_fault. rewrite Hq. cbv beta iota zeta.
  rewrite Hm, (disk_meta _ _ _ Hd). fold (load_meta (meta_text f) file).
  rewrite load_meta_text, Hr by apply Hd.
  rewrite (recount_quiet st); [done|done|]. destruct Hd as [Ha Hb Hc Hn Hcnt]. constructor; try done.
  - by destruct Hb.
  - change (with_lock false [] 0 (fill_paths st (name f) f) = with_lock false [] 0 f). by rewrite Hc.
Qed.

Lemma insert_sorted_perm fs f :
  sorted fs -> name f ∉ map name fs -> sorted (insert_sorted fs f) /\ insert_sorted fs f ≡ₚ f :: fs.
Proof.
  intros Hs Hn. split; [|apply insert_at_perm]. unfold insert_sorted.
  destruct (lower_bound_spec (length fs) fs (name f) 0 (length fs)) as (Hr & Hb & Ha); auto with cowrite; [lia..| |].
  { intros j g Hg. apply lookup_lt_Some in Hg. lia. }
  apply sorted_insert_at; [done..|]. intros j g Hg Hj. specialize (Ha j g Hg Hj).
  destruct (strcmp (name g) (name f)) eqn:E; [|done|done]. apply strcmp_eq in E.
  destruct Hn. rewrite <- E. apply list_elem_of_fmap_2. by eapply list_elem_of_lookup_2.
Qed.

Definition same_dirs (a b : ss_state) : Prop :=
  meta_dir a = meta_dir b /\ files_dir a = files_dir b /\ undo_dir a = undo_dir b.

(** The loop over the entries, for any kind of table and what an entry makes of a document. *)
Lemma load_entries_insert (P : ss_state -> Prop) (g : ss_file -> ss_file) fs es st0 d :
  (forall f, name (g f) = name f) -> (forall st l, P st -> P (set_docs l st)) ->
  (forall st e f, P st -> f ∈ fs -> entry_name e = Some (name f) ->
     load_entry e st d = (set_docs (insert_sorted (docs st) (g f)) st, d)) ->
  omap entry_name es = map name fs -> P st0 -> sorted (docs st0) -> NoDup (map name (docs st0) ++ map name fs) ->
  exists l, foldl (fun '(st, d) e => load_entry e st d) (st0, d) es = (set_docs l st0, d) /\
    sorted l /\ l ≡ₚ docs st0 ++ map g fs.
Proof.
  intros Hg HP. revert fs st0. induction es as [|e es IH]; intros fs st0 Hld He H0 Hs Hnd.
  { destruct fs; [|done]. exists (docs st0). rewrite app_nil_r, set_docs_id. done. }
  cbn [foldl]. cbn [omap list_omap] in He. destruct (entry_name e) as [n|] eqn:En.
  - destruct fs as [|f fs]; [done|]. cbn [map] in He. injection He as Hn He. subst n.
    rewrite (Hld st0 e f) by (done || left).
    cbn [map] in Hnd. apply NoDup_app in Hnd as (Hnd1 & Hnd2 & Hnd3). apply NoDup_cons in Hnd3 as [Hnd3 Hnd4].
    destruct (insert_sorted_perm (docs st0) (g f) Hs) as [Hs' Hp].
    { rewrite Hg. intros Hin. apply (Hnd2 (name f) Hin). left. }
    destruct (IH fs (set_docs (insert_sorted (docs st0) (g f)) st0)) as (l & E & Hl & Hpl); try done.
    { intros st e' f' Hst Hf'. apply Hld; [done|by right]. }
    { by apply HP. }
    { cbn [docs set_docs]. rewrite (fmap_Permutation name _ _ Hp). simpl. rewrite Hg. constructor.
      - intros [Hin|Hin]%elem_of_app; [|done]. apply (Hnd2 (name f) Hin). left.
      - apply NoDup_app. split_and!; [done| |done]. intros x Hx Hx'. apply (Hnd2 x Hx). by right. }
    exists l. rewrite E. split_and!; [done|done|]. rewrite Hpl. cbn [docs set_docs map]. rewrite Hp.
    simpl. by rewrite Permutation_middle.
  - unfold load_entry at 2. rewrite En. by apply IH.
Qed.

Lemma load_entries_good st fs es st0 d :
  quiet d -> Forall (on_disk st (files d)) fs -> omap entry_name es = map name fs ->
  same_dirs st0 st -> sorted (docs st0) -> NoDup (map name (docs st0) ++ map name fs) ->
  exists l, foldl (fun '(st, d) e => load_entry e st d) (st0, d) es = (set_docs l st0, d) /\
    sorted l /\ l ≡ₚ docs st0 ++ map unlock fs.
Proof.
  intros Hq Hfs He Hdirs. apply (load_entries_insert (fun st0 => same_dirs st0 st) unlock); [done|done| |done|done].
  intros st1 e f (H1 & H2 & H3) Hin En. apply (load_entry_good st); try done. rewrite Forall_forall in Hfs. by apply Hfs.
Qed.

#[export] Instance name_lt_antisymm : AntiSymm (=) name_lt.
Proof.
  intros a b H1 H2. unfold name_lt in *. pose proof (strcmp_lt_trans _ _ _ H1 H2) as H.
  by rewrite strcmp_refl in H.
Qed.

Lemma sorted_unlock fs : sorted fs -> sorted (map unlock fs).
Proof.
  induction 1 as [|f fs Hs IH Hf]; simpl; constructor; [done|].
  apply Forall_fmap. eapply Forall_impl; [exact Hf|]. done.
Qed.

(** Start-up restores the table.  Whatever the order in which the metadata
    directory is read, and whatever other entries it holds, loading the files of a
    table gives that table again, sorted, with every lock cleared. *)
Theorem ss_state_load_restores st es d :
  quiet d -> sorted (docs st) -> Forall (on_disk st (files d)) (docs st) ->
  omap entry_name es ≡ₚ map name (docs st) ->
  ss_state_load (set_docs [] st) (Some es) d = (true, set_docs (map unlock (docs st)) st, d).
Proof.
  intros Hq Hs Hd He.
  assert (exists fs, omap entry_name es = map name fs /\ docs st ≡ₚ fs) as (fs & Hfs & Hp).
  { apply Permutation_map_inv in He as (fs & E & Hp). exists fs. split; [done|by symmetry]. }
  destruct (load_entries_good st fs es (set_docs [] st) d) as (l & E & Hl & Hpl); try done.
  - by rewrite <- Hp.
  - constructor.
  - simpl. rewrite <- Hfs, He. pose proof (sorted_NoDup _ Hs) as Hn. by rewrite <- list_fmap_compose in Hn.
  - unfold ss_state_load. rewrite E. cbn [docs set_docs app] in Hpl. rewrite set_docs_idem.
    assert (l = map unlock (docs st)) as ->; [|done].
    apply (StronglySorted_unique name_lt); [done|by apply sorted_unlock|].
    rewrite Hpl. by rewrite Hp.
Qed.

Definition demo_files : disk :=
  mk_disk (foldr (fun f t => <[meta_path f := meta_text f]> (<[data_path f := []]> t)) ∅ (docs demo_state)) [] [].

Lemma ss_state_load_restores_witness :
  omap entry_name [cs "."; cs "c.meta"; cs "notes.txt"; cs "a.meta"] = [cs "c"; cs "a"] /\
  ss_state_load (set_docs [] demo_state) (Some [cs "."; cs "c.meta"; cs "notes.txt"; cs "a.meta"]) demo_files =
    (true, set_docs (map unlock (docs demo_state)) demo_state, demo_files).
Proof.
  split; [vm_compute; reflexivity|]. apply (ss_state_load_restores demo_state).
  - reflexivity.
  - repeat constructor.
  - apply List.Forall_cons; [|apply List.Forall_cons; [|apply List.Forall_nil]].
    all: constructor; [vm_compute; reflexivity| |vm_compute; reflexivity|vm_compute; lia|].
    1,3: constructor; vm_compute; split; try lia; try reflexivity; try (intros ?; discriminate).
    1,2,3,4: repeat apply List.Forall_cons; try apply List.Forall_nil; split; intros ?; discriminate.
    all: intros _; exists []; split; [|split]; vm_compute; reflexivity.
  - change (omap entry_name _) with [cs "c"; cs "a"]. apply perm_swap.
Defined.
