(* ===== verification/SsSession.v ===== *)
(** * [ss/ss_main.c]: write sessions

    A writer takes one sentence of a document, edits its words, and commits.  The
    commit looks the sentence up again in the current document, because other
    sentences may have changed meanwhile.  Arrays of strings are lists
    ([string_array_*] over the growable array of [Arr]). *)

From S2P Require Import Prelude Cstr SsText Fs SsState.

(** ** The session *)

(** [sentence_text] is never read while it is [NULL]; [NULL] is [[]] there. *)
Record write_session := mk_session {
  active : bool;
  sentence_index : Z;
  user : cstr;
  original_text : option cstr;
  sentence_text : cstr;
  baseline_sentence : option cstr;
  sentences : list cstr;
}.

Definition write_session_init : write_session := mk_session false (-1) [] None [] None [].

Definition write_session_clear (s : write_session) : write_session :=
  mk_session false (-1) (user s) None [] None [].

Definition set_text (t : cstr) (s : write_session) : write_session :=
  mk_session (active s) (sentence_index s) (user s) (original_text s) t (baseline_sentence s) (sentences s).

(** [(int)sentences.len] *)
Definition int_len {A} (l : list A) : Z := to_int (Z.of_nat (length l)).

(** [write_session_begin]; the session it had before is discarded. *)
Definition write_session_begin (file : ss_file) (u : cstr) (index : Z) (d : disk)
  : res unit * write_session * disk :=
  let '(loaded, d) := load_text (data_path file) d in
  let text := match loaded with Some (t, _) => t | None => [] end in
  let ss := split_sentences text in
  let u := snprintf_s SS_USER_MAX u in
  if (index <? 0)%Z || (int_len ss <? index)%Z then
    (Err EINVAL, mk_session true index u (Some text) [] None ss, d)
  else if (index <? int_len ss)%Z then
    match ss !! Z.to_nat index with
    | Some existing => (Ok tt, mk_session true index u (Some text) existing (Some existing) ss, d)
    | None => (Ok tt, mk_session true index u (Some text) [] None ss, d)
    end
  else (Ok tt, mk_session true index u (Some text) [] None ss, d).

(** ** Editing words *)

(** [string_array_insert]: refused beyond the end. *)
Definition string_array_insert (words : list cstr) (index : nat) (w : cstr) : option (list cstr) :=
  if length words <? index then None else Some (insert_at index w words).

Fixpoint insert_words (words : list cstr) (index : nat) (new_words : list cstr) : option (list cstr) :=
  match new_words with
  | [] => Some words
  | w :: ws =>
      match string_array_insert words index w with
      | None => None
      | Some words => insert_words words (S index) ws
      end
  end.

(** [string_array_remove] *)
Definition string_array_remove (words : list cstr) (index : nat) : list cstr :=
  if length words <=? index then words else remove_at index words.

(** Appending at the end takes the final delimiter off the last word: the words
    without it and the delimiter. *)
Definition relocate (words : list cstr) (idx : nat) : list cstr * option ascii :=
  if (idx =? length words) && (0 <? length words) then
    match last words with
    | Some w =>
        match last w with
        | Some c =>
            if is_sentence_delim_char c then
              (<[length words - 1 := take (length w - 1) w]> words, Some c)
            else (words, None)
        | None => (words, None)
        end
    | None => (words, None)
    end
  else (words, None).

(** The delimiter goes to the last word inserted. *)
Definition put_delim (words : list cstr) (delim : option ascii) (idx inserted_words : nat) : list cstr :=
  match delim with
  | None => words
  | Some c =>
      let target_index :=
        if 0 <? inserted_words then idx + inserted_words - 1
        else if 0 <? length words then length words - 1 else 0 in
      if target_index <? length words then alter (fun w => w ++ [c]) target_index words else words
  end.

Definition write_session_apply_insert (s : write_session) (index : Z) (content : cstr)
  : res unit * write_session :=
  if negb (active s) then (Err ESYS, s)
  else
    let words := split_words (sentence_text s) in
    if (index <? 0)%Z then (Err EINVAL, s)
    else
      let idx := Z.to_nat index in
      if length words <? idx then (Err EINVAL, s)
      else
        let new_words := split_words content in
        let '(words, delim) := relocate words idx in
        match insert_words words idx new_words with
        | None => (Err ESYS, s)
        | Some words =>
            (Ok tt, set_text (join_words (put_delim words delim idx (length new_words))) s)
        end.

Definition write_session_apply_replace (s : write_session) (index : Z) (content : cstr)
  : res unit * write_session :=
  if negb (active s) then (Err ESYS, s)
  else
    let words := split_words (sentence_text s) in
    if (index <? 0)%Z then (Err EINVAL, s)
    else
      let idx := Z.to_nat index in
      if length words <=? idx then (Err EINVAL, s)
      else
        match insert_words (string_array_remove words idx) idx (split_words content) with
        | None => (Err ESYS, s)
        | Some words => (Ok tt, set_text (join_words words) s)
        end.

Definition write_session_apply_delete (s : write_session) (index : Z) : res unit * write_session :=
  if negb (active s) then (Err ESYS, s)
  else
    let words := split_words (sentence_text s) in
    if (index <? 0)%Z then (Err EINVAL, s)
    else
      let idx := Z.to_nat index in
      if (length words =? 0) || (length words <=? idx) then (Err EINVAL, s)
      else (Ok tt, set_text (join_words (string_array_remove words idx)) s).

(** ** Committing *)

Definition CONTEXT_MATCH_LIMIT : nat := 4.

(** [for (step = ...; step <= CONTEXT_MATCH_LIMIT; ++step)], [n] rounds left. *)
Fixpoint context_loop (n : nat) (step : Z) (latest original : list cstr)
    (candidate_index target_index direction : Z) (matches : Z) : Z :=
  match n with
  | O => matches
  | S n =>
      let orig_idx := (target_index + direction * step)%Z in
      let latest_idx := (candidate_index + direction * step)%Z in
      if (orig_idx <? 0)%Z || (int_len original <=? orig_idx)%Z ||
         (latest_idx <? 0)%Z || (int_len latest <=? latest_idx)%Z then matches
      else
        match original !! Z.to_nat orig_idx, latest !! Z.to_nat latest_idx with
        | Some orig_val, Some latest_val =>
            if streq orig_val latest_val then
              context_loop n (step + 1) latest original candidate_index target_index direction (matches + 1)
            else matches
        | _, _ => matches
        end
  end.

Definition count_context_matches (latest original : list cstr) (candidate_index target_index direction : Z) : Z :=
  context_loop CONTEXT_MATCH_LIMIT 1 latest original candidate_index target_index direction 0.

(** The score of a candidate position. *)
Definition score (latest original : list cstr) (i target : Z) : Z :=
  let prefix_matches := count_context_matches latest original i target (-1) in
  let suffix_matches := count_context_matches latest original i target 1 in
  let distance := Z.abs (i - target) in
  let score := (prefix_matches * 1000 + suffix_matches * 500 - distance * 10)%Z in
  if (i <? target)%Z then (score - 50)%Z else score.

(** The loop over the candidates; [todo] are the sentences from position [i] on. *)
Fixpoint best_loop (todo : list cstr) (i : Z) (latest original : list cstr) (baseline : cstr) (target : Z)
    (best_index best_score : Z) : Z :=
  match todo with
  | [] => best_index
  | candidate :: todo =>
      if negb (streq candidate baseline) then
        best_loop todo (i + 1) latest original baseline target best_index best_score
      else
        let sc := score latest original i target in
        if (best_score <? sc)%Z then best_loop todo (i + 1) latest original baseline target i sc
        else best_loop todo (i + 1) latest original baseline target best_index best_score
  end.

(** The loop that builds [merged]. *)
Fixpoint merge_loop (todo : list cstr) (i insert_index : Z) (new_parts : list cstr) (replacing : bool)
    (inserted removed : bool) (merged : list cstr) : list cstr :=
  match todo with
  | [] => if inserted then merged else merged ++ new_parts
  | segment :: todo =>
      let here := (i =? insert_index)%Z in
      let merged := if negb inserted && here then merged ++ new_parts else merged in
      let inserted := inserted || here in
      if replacing && negb removed && here then
        merge_loop todo (i + 1) insert_index new_parts replacing inserted true merged
      else merge_loop todo (i + 1) insert_index new_parts replacing inserted removed (merged ++ [segment])
  end.

Definition replacing_existing (s : write_session) : bool :=
  match baseline_sentence s with Some (_ :: _) => true | _ => false end.

(** Where the new sentences go, [None] for the conflict. *)
Definition commit_index (s : write_session) (latest : list cstr) : option Z :=
  let insert_index := sentence_index s in
  let insert_index := if (insert_index <? 0)%Z then 0%Z else insert_index in
  let insert_index := if (int_len latest <? insert_index)%Z then int_len latest else insert_index in
  match baseline_sentence s with
  | Some (c :: b) =>
      let best := best_loop latest 0 latest (sentences s) (c :: b) (sentence_index s) (-1) INT_MIN in
      if (0 <=? best)%Z then Some (if (int_len latest <? best)%Z then int_len latest else best) else None
  | _ => Some insert_index
  end.

(** [write_session_commit]: the new text with its word and character counts.

    The conflict jumps to the clean-up over the declarations of [merged] and
    [merged_init] and over the assignment of [merged_init], which the clean-up then
    reads.  [merged_init] is the value that uninitialised variable reads as: a zero
    leaves [merged] alone and reports [EAGAIN], any other value hands the
    uninitialised array to [string_array_clear], which frees what it holds.  [None]
    is that undefined outcome. *)
Definition write_session_commit (merged_init : Z) (s : write_session) (file : ss_file) (d : disk)
  : option (res (cstr * nat * nat) * write_session * disk) :=
  let '(loaded, d) := load_text (data_path file) d in
  let current_text := match loaded with Some (t, _) => t | None => [] end in
  let latest := split_sentences current_text in
  let new_parts := split_sentences (sentence_text s) in
  match commit_index s latest with
  | None => if (merged_init =? 0)%Z then Some (Err EAGAIN, s, d) else None
  | Some insert_index =>
      let text := join_sentences (merge_loop latest 0 insert_index new_parts (replacing_existing s) false false []) in
      let '(undo_stored, d) := store_text_atomic (undo_path file) current_text d in
      if negb undo_stored then Some (Err ESYS, s, d)
      else
        let '(data_stored, d) := store_text_atomic (data_path file) text d in
        if negb data_stored then Some (Err ESYS, s, d)
        else Some (Ok (text, count_words_in_text text, length text),
                   mk_session false (sentence_index s) (user s) (original_text s) (sentence_text s)
                     (baseline_sentence s) (sentences s), d)
  end.

(** ** Words of a session *)

Definition words_of (s : write_session) : list cstr := split_words (sentence_text s).

(** Text without blanks; the empty text included. *)
Definition blank_free (w : cstr) : Prop := Forall (fun c => nonblank c = true) w.

Definition nonempty (w : cstr) : bool := match w with [] => false | _ => true end.

Lemma word_blank_free w : word w -> blank_free w.
Proof. by intros []. Qed.

(** Joining words with spaces and splitting again drops the empty ones. *)
Lemma split_join_blank_free ws :
  Forall blank_free ws -> split_words (join_words ws) = List.filter nonempty ws.
Proof.
  unfold join_words. induction 1 as [|w ws Hw Hws IH]; [done|].
  destruct w as [|c w].
  - destruct ws as [|v ws]; [done|]. rewrite join_with_cons by done.
    cbn [app List.filter nonempty]. by rewrite split_words_blank.
  - assert (word (c :: w)) as Hword by done. destruct ws as [|v ws].
    + cbn [join_with List.filter nonempty]. rewrite <- (app_nil_r (c :: w)) at 1. by rewrite split_words_word.
    + rewrite join_with_cons by done. rewrite split_words_word by done.
      rewrite split_words_blank by done. cbn [List.filter nonempty]. by rewrite IH.
Qed.

Lemma filter_nonempty_words ws : Forall word ws -> List.filter nonempty ws = ws.
Proof. induction 1 as [|w ws [Hne _] Hws IH]; [done|]. destruct w; [done|]. simpl. by rewrite IH. Qed.

Lemma Forall_word_split t : Forall word (split_words t).
Proof. apply split_words_words. Qed.
#[export] Hint Resolve Forall_word_split word_blank_free : cowrite.

Lemma insert_words_spec words idx new :
  idx <= length words -> insert_words words idx new = Some (take idx words ++ new ++ drop idx words).
Proof.
  revert words idx. induction new as [|w new IH]; intros words idx Hi; cbn [insert_words].
  - by rewrite app_nil_l, take_drop.
  - unfold string_array_insert. destruct (Nat.ltb_spec (length words) idx); [lia|].
    rewrite IH by (rewrite length_insert_at; lia). f_equal. unfold insert_at.
    rewrite take_app, drop_app, length_take, Nat.min_l by lia.
    rewrite (take_ge (take idx words)) by (rewrite length_take; lia).
    rewrite (drop_ge (take idx words)) by (rewrite length_take; lia).
    replace (S idx - idx) with 1 by lia. simpl. rewrite <- app_assoc. by rewrite take_0, drop_0.
Qed.

Lemma Forall_splice {A} (P : A -> Prop) idx k (l m : list A) :
  Forall P l -> Forall P m -> Forall P (take idx l ++ m ++ drop k l).
Proof. intros. apply Forall_app. split; [by apply Forall_take|]. apply Forall_app. split; [done|by apply Forall_drop]. Qed.

Lemma words_set_text s ws : Forall word ws -> words_of (set_text (join_words ws) s) = ws.
Proof. intros. unfold words_of. cbn [sentence_text set_text]. by apply split_join_words. Qed.

(** The last word of a sentence and its delimiter. *)
Lemma relocate_last ws0 w c :
  is_sentence_delim_char c = true ->
  relocate (ws0 ++ [w ++ [c]]) (length (ws0 ++ [w ++ [c]])) = (ws0 ++ [w], Some c).
Proof.
  intros Hc. unfold relocate. rewrite Nat.eqb_refl, length_app. cbn [length].
  destruct (Nat.ltb_spec 0 (length ws0 + 1)); [|lia]. cbn [andb]. rewrite !last_snoc, Hc.
  f_equal. replace (length ws0 + 1 - 1) with (length ws0 + 0) by lia. rewrite insert_app_r.
  rewrite length_app. cbn [length]. replace (length w + 1 - 1) with (length w) by lia.
  rewrite take_app_length. done.
Qed.

Lemma relocate_none ws idx :
  idx < length ws \/ (forall ws0 w c, ws = ws0 ++ [w ++ [c]] -> is_sentence_delim_char c = false) ->
  relocate ws idx = (ws, None).
Proof.
  intros H. unfold relocate. destruct (Nat.eqb_spec idx (length ws)) as [->|]; [|done].
  destruct H as [H|H]; [lia|]. destruct (0 <? length ws); [|done]. cbn [andb].
  destruct ws as [|v ws' _] using rev_ind; [done|]. rewrite last_snoc.
  destruct v as [|c v' _] using rev_ind; [done|]. rewrite last_snoc. by rewrite (H ws' v' c).
Qed.

Lemma words_blank_free ws : Forall word ws -> Forall blank_free ws.
Proof. intros H. eapply Forall_impl; [exact H|apply word_blank_free]. Qed.

(** The relocated delimiter goes back to its word when nothing is inserted. *)
Lemma put_delim_none ws0 w c : put_delim (ws0 ++ [w]) (Some c) (length ws0 + 1) 0 = ws0 ++ [w ++ [c]].
Proof.
  unfold put_delim. rewrite length_app. cbn [length]. change (0 <? 0) with false. cbv iota.
  destruct (Nat.ltb_spec 0 (length ws0 + 1)); [|lia].
  destruct (Nat.ltb_spec (length ws0 + 1 - 1) (length ws0 + 1)); [|lia].
  replace (length ws0 + 1 - 1) with (length ws0 + 0) by lia. by rewrite alter_app_r.
Qed.

Lemma put_delim_some ws0 w new v c :
  put_delim ((ws0 ++ [w]) ++ new ++ [v]) (Some c) (length ws0 + 1) (length (new ++ [v])) =
  ((ws0 ++ [w]) ++ new) ++ [v ++ [c]].
Proof.
  unfold put_delim. rewrite !length_app. cbn [length].
  destruct (Nat.ltb_spec 0 (length new + 1)); [|lia].
  destruct (Nat.ltb_spec (length ws0 + 1 + (length new + 1) - 1) (length ws0 + 1 + (length new + 1))); [|lia].
  replace (length ws0 + 1 + (length new + 1) - 1) with (length ((ws0 ++ [w]) ++ new) + 0)
    by (rewrite !length_app; simpl; lia).
  by rewrite (app_assoc _ new [v]), alter_app_r.
Qed.

Lemma relocated_words ws0 w c new :
  Forall word ws0 -> word (w ++ [c]) -> Forall word new ->
  split_words (join_words (put_delim ((ws0 ++ [w]) ++ new) (Some c) (length ws0 + 1) (length new))) =
  match last new with
  | None => ws0 ++ [w ++ [c]]
  | Some v => ws0 ++ List.filter nonempty [w] ++ removelast new ++ [v ++ [c]]
  end.
Proof.
  intros Hws0 Hwc Hnew. destruct new as [|v new _] using rev_ind.
  { cbn [length last]. rewrite app_nil_r, put_delim_none. apply split_join_words; [done|].
    apply Forall_app. split; [done|]. by apply Forall_singleton. }
  rewrite last_snoc, removelast_last, put_delim_some.
  apply Forall_app in Hnew as [Hnew [Hvne Hv]%Forall_singleton].
  assert (blank_free w /\ blank_free [c]) as [Hw Hc] by (destruct Hwc as [_ Hwc]; by apply Forall_app in Hwc).
  rewrite split_join_blank_free.
  - rewrite !List.filter_app, (filter_nonempty_words ws0), (filter_nonempty_words new) by done.
    destruct v as [|a v]; [done|]. simpl. by rewrite <- !app_assoc.
  - rewrite !Forall_app, !Forall_singleton. split_and!; auto using words_blank_free. by apply Forall_app.
Qed.

Lemma length_relocate ws idx : length (relocate ws idx).1 = length ws.
Proof.
  unfold relocate. destruct (_ && _)%bool; [|done]. destruct (last ws) as [w|]; [|done].
  destruct (last w) as [c|]; [|done]. destruct (is_sentence_delim_char c); [|done]. apply length_insert.
Qed.

(** C3: Inserting words into the sentence of an active session.  An index outside [0..n], with [n] the
    number of its words, is refused and nothing changes.  Otherwise only the sentence changes, and
    the words of the content appear before word [index]; but when they are appended to a sentence
    whose last word ends in a delimiter, the delimiter moves to the end of the last word
    inserted, so the sentence stays terminated (a last word that is nothing but the
    delimiter disappears), and a content without words changes no word. *)
Theorem write_session_insert_words s index content :
  active s = true ->
  let '(r, s') := write_session_apply_insert s index content in
  let ws := words_of s in
  let new := split_words content in
  let idx := Z.to_nat index in
  ((index < 0)%Z \/ (Z.of_nat (length ws) < index)%Z -> r = Err EINVAL /\ s' = s) /\
  ((0 <= index <= Z.of_nat (length ws))%Z ->
     r = Ok tt /\
     s' = set_text (sentence_text s') s /\
     (idx < length ws \/ (forall ws0 w c, ws = ws0 ++ [w ++ [c]] -> is_sentence_delim_char c = false) ->
      words_of s' = take idx ws ++ new ++ drop idx ws) /\
     (forall ws0 w c, idx = length ws -> ws = ws0 ++ [w ++ [c]] -> is_sentence_delim_char c = true ->
      words_of s' = match last new with
                    | None => ws
                    | Some v => ws0 ++ List.filter nonempty [w] ++ removelast new ++ [v ++ [c]]
                    end)).
Proof.
  intros Ha. unfold write_session_apply_insert. rewrite Ha. cbn [negb]. fold (words_of s).
  destruct (Z.ltb_spec index 0). { split; [done|lia]. }
  destruct (Nat.ltb_spec (length (words_of s)) (Z.to_nat index)). { split; [done|lia]. }
  set (ws := words_of s) in *. set (idx := Z.to_nat index) in *.
  assert (Forall word ws) as Hws by apply Forall_word_split.
  pose proof (Forall_word_split content) as Hnew. set (new := split_words content) in *.
  destruct (relocate ws idx) as [ws1 delim] eqn:Er.
  pose proof (length_relocate ws idx) as Hlen. rewrite Er in Hlen. cbn [fst] in Hlen.
  rewrite insert_words_spec by lia. cbv zeta. split; [lia|]. intros _. split_and!; [done|done| |].
  - intros Hc. rewrite relocate_none in Er by done. simplify_eq. cbn [put_delim].
    apply words_set_text. by apply Forall_splice.
  - intros ws0 w c Hi Hs Hd. rewrite Hi, Hs, relocate_last in Er by done. injection Er as <- <-.
    rewrite Hi, Hs in *. apply Forall_app in Hws as [Hws0 Hwc%List.Forall_inv].
    rewrite !length_app in *. cbn [length] in *.
    rewrite take_ge, drop_ge by (rewrite length_app; simpl; lia). rewrite app_nil_r.
    by apply relocated_words.
Qed.

Definition demo_session : write_session :=
  mk_session true 0 (cs "ann") None (cs "hello world.") (Some (cs "hello world.")) [cs "hello world."].

Lemma write_session_insert_words_witness :
  active demo_session = true /\
  words_of (snd (write_session_apply_insert demo_session 2 (cs "and  you"))) =
    [cs "hello"; cs "world"; cs "and"; cs "you."] /\
  fst (write_session_apply_insert demo_session 3 (cs "x")) = Err EINVAL.
Proof.
  split; [reflexivity|]. split.
  - pose proof (write_session_insert_words demo_session 2 (cs "and  you") eq_refl) as H.
    destruct (write_session_apply_insert _ _ _) as [r s']. destruct H as [_ H].
    destruct H as (_ & _ & _ & H); [vm_compute; split; discriminate|].
    apply (H [cs "hello"] (cs "world") "."%char); reflexivity.
  - pose proof (write_session_insert_words demo_session 3 (cs "x") eq_refl) as H.
    destruct (write_session_apply_insert _ _ _) as [r s']. apply H. right. reflexivity.
Defined.

Lemma words_remove ws idx new :
  idx < length ws ->
  insert_words (string_array_remove ws idx) idx new = Some (take idx ws ++ new ++ drop (S idx) ws).
Proof.
  intros Hi. unfold string_array_remove. destruct (Nat.leb_spec (length ws) idx); [lia|].
  rewrite insert_words_spec by (rewrite length_remove_at; lia). f_equal. unfold remove_at.
  rewrite take_app_le, drop_app_ge by (rewrite length_take; lia).
  rewrite take_take, Nat.min_id, length_take, Nat.min_l, Nat.sub_diag, drop_0 by lia. done.
Qed.

(** Replacing and deleting a word.  An index outside [0..n-1] is refused and
    nothing changes; otherwise exactly that word is replaced by the words of the
    content, or removed, and the rest of the session is as it was. *)
Theorem write_session_replace_delete_words s index content :
  active s = true ->
  let ws := words_of s in
  let idx := Z.to_nat index in
  let in_range := (0 <= index < Z.of_nat (length ws))%Z in
  (let '(r, s') := write_session_apply_replace s index content in
   (~ in_range -> r = Err EINVAL /\ s' = s) /\
   (in_range -> r = Ok tt /\ s' = set_text (sentence_text s') s /\
                words_of s' = take idx ws ++ split_words content ++ drop (S idx) ws)) /\
  (let '(r, s') := write_session_apply_delete s index in
   (~ in_range -> r = Err EINVAL /\ s' = s) /\
   (in_range -> r = Ok tt /\ s' = set_text (sentence_text s') s /\
                words_of s' = take idx ws ++ drop (S idx) ws)).
Proof.
  intros Ha. unfold write_session_apply_replace, write_session_apply_delete. rewrite Ha.
  cbn [negb]. fold (words_of s). set (ws := words_of s). cbv zeta.
  assert (Forall word ws) as Hws by apply Forall_word_split.
  destruct (Z.ltb_spec index 0); [by split; (split; [|lia])|].
  destruct (Nat.leb_spec (length ws) (Z.to_nat index)).
  { rewrite orb_true_r. by split; (split; [|lia]). }
  destruct (Nat.eqb_spec (length ws) 0); [lia|]. cbn [orb].
  rewrite words_remove by done. split; (split; [lia|]); intros _; split_and!; try done.
  - apply words_set_text, Forall_splice; [done|apply Forall_word_split].
  - unfold string_array_remove. destruct (Nat.leb_spec (length ws) (Z.to_nat index)); [lia|].
    apply words_set_text, Forall_app. split; [by apply Forall_take|by apply Forall_drop].
Qed.

Lemma write_session_replace_delete_words_witness :
  active demo_session = true /\
  words_of (snd (write_session_apply_replace demo_session 0 (cs "good bye"))) = [cs "good"; cs "bye"; cs "world."] /\
  words_of (snd (write_session_apply_delete demo_session 1)) = [cs "hello"].
Proof.
  split; [reflexivity|]. split.
  - destruct (write_session_replace_delete_words demo_session 0 (cs "good bye") eq_refl) as [H _].
    destruct (write_session_apply_replace _ _ _) as [r s']. destruct H as [_ H].
    destruct H as (_ & _ & H); [vm_compute; split; [discriminate|reflexivity]|]. exact H.
  - destruct (write_session_replace_delete_words demo_session 1 [] eq_refl) as [_ H].
    destruct (write_session_apply_delete _ _) as [r s']. destruct H as [_ H].
    destruct H as (_ & _ & H); [vm_compute; split; [discriminate|reflexivity]|]. exact H.
Defined.

(** ** Where a commit goes *)

(** Documents below 2^27 sentences: all the [int] arithmetic of the search is exact. *)
Definition small {A} (l : list A) : Prop := (Z.of_nat (length l) < 134217728)%Z.

Lemma int_len_small {A} (l : list A) : small l -> int_len l = Z.of_nat (length l).
Proof. unfold small, int_len. intros. apply to_int_id. unfold INT_MIN, INT_MAX. lia. Qed.

Lemma context_loop_bounds n step latest original c t dir m :
  (m <= context_loop n step latest original c t dir m <= m + Z.of_nat n)%Z.
Proof.
  revert step m. induction n as [|n IH]; intros step m; cbn [context_loop]; cbv zeta; [lia|].
  repeat case_match; try lia. specialize (IH (step + 1)%Z (m + 1)%Z). lia.
Qed.

(** Comparing a document with itself, no position matches more context than the
    position itself. *)
Lemma context_loop_self n step l c t dir m :
  (context_loop n step l l c t dir m <= context_loop n step l l t t dir m)%Z.
Proof.
  revert step m. induction n as [|n IH]; intros step m; cbn [context_loop]; cbv zeta; [lia|].
  pose proof (context_loop_bounds n (step + 1) l l t t dir (m + 1)) as Hb.
  destruct (Z.ltb_spec (t + dir * step) 0) as [|H1]; [cbn [orb]; lia|].
  destruct (Z.leb_spec (int_len l) (t + dir * step)) as [|H2]; [cbn [orb]; lia|]. cbn [orb].
  destruct (l !! Z.to_nat (t + dir * step)) as [v|]; [|by case_match].
  unfold streq. rewrite (bool_decide_true (v = v)) by done.
  repeat case_match; try lia. apply IH.
Qed.

Lemma count_context_bounds latest original c t dir :
  (0 <= count_context_matches latest original c t dir <= 4)%Z.
Proof. unfold count_context_matches. 
  pose proof (context_loop_bounds CONTEXT_MATCH_LIMIT 1 latest original c t dir 0) as H.
  change (Z.of_nat CONTEXT_MATCH_LIMIT) with 4%Z in H. lia.
Qed.

Lemma score_self l i t : i <> t -> (score l l i t < score l l t t)%Z.
Proof.
  intros Hne. unfold score, count_context_matches.
  pose proof (context_loop_self CONTEXT_MATCH_LIMIT 1 l i t (-1) 0).
  pose proof (context_loop_self CONTEXT_MATCH_LIMIT 1 l i t 1 0).
  rewrite Z.sub_diag, Z.ltb_irrefl. destruct (i <? t)%Z; lia.
Qed.

Lemma score_above_min latest original i t :
  (0 <= i < 134217728)%Z -> (0 <= t < 134217728)%Z -> (INT_MIN < score latest original i t)%Z.
Proof.
  intros. unfold score, INT_MIN. pose proof (count_context_bounds latest original i t (-1)).
  pose proof (count_context_bounds latest original i t 1). destruct (i <? t)%Z; lia.
Qed.

(** The loop is an arg-max over the occurrences of the baseline, the first among equals. *)
Lemma best_loop_spec todo i latest original b t bi bs :
  let sc := fun k : nat => score latest original (i + Z.of_nat k) t in
  let r := best_loop todo i latest original b t bi bs in
  (r = bi /\ forall k, todo !! k = Some b -> (sc k <= bs)%Z) \/
  (exists k, todo !! k = Some b /\ r = (i + Z.of_nat k)%Z /\ (bs < sc k)%Z /\
     (forall j, todo !! j = Some b -> (sc j <= sc k)%Z) /\
     (forall j, todo !! j = Some b -> j < k -> (sc j < sc k)%Z)).
Proof.
  revert i bi bs. induction todo as [|c todo IH]; intros i bi bs; cbv zeta; cbn [best_loop].
  { left. split; [done|]. intros k Hk. by rewrite lookup_nil in Hk. }
  assert (forall k : nat, (i + Z.of_nat (S k) = i + 1 + Z.of_nat k)%Z) as HS by lia.
  assert ((i + Z.of_nat 0) = i)%Z as H0 by lia.
  destruct (streq c b) eqn:Hc; unfold streq in Hc; cbn [negb].
  - apply bool_decide_eq_true in Hc as ->. cbv zeta. destruct (Z.ltb_spec bs (score latest original i t)) as [Hlt|Hge].
    + right. destruct (IH (i + 1)%Z i (score latest original i t)) as [[-> Hall]|(k & Hk & -> & Hgt & Hall & Hfst)].
      * exists 0. rewrite H0. split_and!; [done|done|done| |intros; lia].
        intros [|j] Hj; [by rewrite H0|]. rewrite HS. by apply Hall.
      * exists (S k). rewrite HS. split_and!; [done|done|lia| |].
        -- intros [|j] Hj; [rewrite H0; lia|]. rewrite HS. by apply Hall.
        -- intros [|j] Hj Hjk; [by rewrite H0|]. rewrite HS. apply Hfst; [done|lia].
    + destruct (IH (i + 1)%Z bi bs) as [[-> Hall]|(k & Hk & -> & Hgt & Hall & Hfst)].
      * left. split; [done|]. intros [|j] Hj; [by rewrite H0|]. rewrite HS. by apply Hall.
      * right. exists (S k). rewrite HS. split_and!; [done|done|done| |].
        -- intros [|j] Hj; [rewrite H0; lia|]. rewrite HS. by apply Hall.
        -- intros [|j] Hj Hjk; [rewrite H0; lia|]. rewrite HS. apply Hfst; [done|lia].
  - apply bool_decide_eq_false in Hc.
    destruct (IH (i + 1)%Z bi bs) as [[-> Hall]|(k & Hk & -> & Hgt & Hall & Hfst)].
    + left. split; [done|]. intros [|j] Hj; [by simplify_eq/=|]. rewrite HS. by apply Hall.
    + right. exists (S k). rewrite HS. split_and!; [done|done|done| |].
      * intros [|j] Hj; [by simplify_eq/=|]. rewrite HS. by apply Hall.
      * intros [|j] Hj Hjk; [by simplify_eq/=|]. rewrite HS. apply Hfst; [done|lia].
Qed.

(** What an active session satisfies. *)
Record session_ok (s : write_session) : Prop := {
  ok_active : active s = true;
  ok_index : (0 <= sentence_index s <= Z.of_nat (length (sentences s)))%Z;
  ok_small : small (sentences s);
  ok_baseline : baseline_sentence s = sentences s !! Z.to_nat (sentence_index s);
  ok_wf : wf_doc (sentences s);
}.

Lemma wf_doc_nonempty ss b : wf_doc ss -> b ∈ ss -> b <> [].
Proof.
  induction 1 as [|s [Hne _]|s ss (body & d & -> & _) Hss IH].
  - by intros []%elem_of_nil.
  - by intros ->%list_elem_of_singleton.
  - intros [->|Hb]%elem_of_cons; [by destruct body|auto].
Qed.

Lemma session_baseline s b : session_ok s -> baseline_sentence s = Some b -> b <> [].
Proof.
  intros H Hb. rewrite (ok_baseline s H) in Hb. apply (wf_doc_nonempty (sentences s)); [apply H|].
  by eapply list_elem_of_lookup_2.
Qed.

Lemma commit_index_existing s b latest :
  session_ok s -> small latest -> baseline_sentence s = Some b ->
  match commit_index s latest with
  | None => b ∉ latest
  | Some i => exists k, i = Z.of_nat k /\ latest !! k = Some b /\
      (forall j, latest !! j = Some b ->
         (score latest (sentences s) (Z.of_nat j) (sentence_index s) <=
          score latest (sentences s) (Z.of_nat k) (sentence_index s))%Z)
  end.
Proof.
  intros Hs Hl Hb. pose proof (session_baseline s b Hs Hb) as Hne. unfold commit_index. rewrite Hb.
  destruct b as [|c b]; [done|]. cbv zeta.
  destruct (best_loop_spec latest 0 latest (sentences s) (c :: b) (sentence_index s) (-1) INT_MIN)
    as [[-> Hall]|(k & Hk & -> & Hgt & Hall & _)].
  - change (0 <=? -1)%Z with false. cbv iota. intros [k Hk]%list_elem_of_lookup_1. specialize (Hall k Hk).
    pose proof (lookup_lt_Some _ _ _ Hk). unfold small in Hl.
    pose proof (ok_index s Hs). pose proof (ok_small s Hs) as Hsm. unfold small in Hsm.
    pose proof (score_above_min latest (sentences s) (0 + Z.of_nat k) (sentence_index s) ltac:(lia) ltac:(lia)). lia.
  - pose proof (lookup_lt_Some _ _ _ Hk). destruct (Z.leb_spec 0 (0 + Z.of_nat k)); [|lia].
    rewrite int_len_small by done. destruct (Z.ltb_spec (Z.of_nat (length latest)) (0 + Z.of_nat k)); [lia|].
    exists k. split_and!; [lia|done|done].
Qed.

Lemma commit_index_append s latest :
  session_ok s -> small latest -> baseline_sentence s = None ->
  commit_index s latest = Some (Z.min (sentence_index s) (Z.of_nat (length latest))).
Proof.
  intros Hs Hl Hb. unfold commit_index. rewrite Hb. cbv zeta. pose proof (ok_index s Hs).
  destruct (Z.ltb_spec (sentence_index s) 0); [lia|]. rewrite int_len_small by done. f_equal.
  destruct (Z.ltb_spec (Z.of_nat (length latest)) (sentence_index s)); lia.
Qed.

(** On an unchanged document a commit replaces the sentence the session opened. *)
Lemma commit_index_unchanged s :
  session_ok s -> commit_index s (sentences s) = Some (sentence_index s).
Proof.
  intros Hs. pose proof (ok_index s Hs) as Hi. destruct (baseline_sentence s) as [b|] eqn:Hb.
  - pose proof (commit_index_existing s b (sentences s) Hs (ok_small s Hs) Hb) as H.
    rewrite (ok_baseline s Hs) in Hb. destruct (commit_index s (sentences s)) as [i|].
    + destruct H as (k & -> & Hk & Hall). f_equal. specialize (Hall _ Hb). rewrite Z2Nat.id in Hall by lia.
      destruct (decide (Z.of_nat k = sentence_index s)); [done|].
      pose proof (score_self (sentences s) (Z.of_nat k) (sentence_index s) ltac:(done)). lia.
    + destruct H. by eapply list_elem_of_lookup_2.
  - rewrite commit_index_append; [|done|apply Hs|done]. f_equal.
    rewrite (ok_baseline s Hs) in Hb. apply lookup_ge_None in Hb. lia.
Qed.

(** *** The merge *)

Lemma merge_loop_after todo i k parts rep rem merged :
  (k < i)%Z -> merge_loop todo i k parts rep true rem merged = merged ++ todo.
Proof.
  revert i merged. induction todo as [|x todo IH]; intros i merged Hi; cbn [merge_loop]; cbv zeta.
  { by rewrite app_nil_r. }
  destruct (Z.eqb_spec i k); [lia|]. cbn [negb andb orb]. rewrite !andb_false_r.
  rewrite IH by lia. by rewrite <- app_assoc.
Qed.

Lemma merge_loop_from todo i k parts rep merged :
  k <= length todo -> (rep = true -> k < length todo) ->
  merge_loop todo i (i + Z.of_nat k) parts rep false false merged =
  merged ++ take k todo ++ parts ++ drop (if rep then S k else k) todo.
Proof.
  revert i k merged. induction todo as [|x todo IH]; intros i k merged Hk Hr; cbn [merge_loop]; cbv zeta.
  { destruct rep; simpl in *; [specialize (Hr eq_refl); lia|]. assert (k = 0) as -> by lia. simpl.
    by rewrite app_nil_r. }
  destruct k as [|k].
  - destruct (Z.eqb_spec i (i + Z.of_nat 0)); [|lia]. cbn [negb andb orb]. rewrite andb_true_r.
    destruct rep; cbn [andb]; rewrite merge_loop_after by lia; simpl; by rewrite ?drop_0, <- ?app_assoc.
  - destruct (Z.eqb_spec i (i + Z.of_nat (S k))); [lia|]. cbn [negb andb orb]. rewrite !andb_false_r.
    replace (i + Z.of_nat (S k))%Z with (i + 1 + Z.of_nat k)%Z by lia.
    rewrite IH; [|simpl in Hk; lia|intros H; specialize (Hr H); simpl in Hr; lia].
    destruct rep; simpl; by rewrite <- !app_assoc.
Qed.

Lemma merge_loop_spec latest k parts rep :
  k <= length latest -> (rep = true -> k < length latest) ->
  merge_loop latest 0 (Z.of_nat k) parts rep false false [] =
  take k latest ++ parts ++ drop (if rep then S k else k) latest.
Proof. intros. rewrite <- (Z.add_0_l (Z.of_nat k)). by rewrite merge_loop_from. Qed.

(** ** What a commit promises *)

(** The document a commit may produce from the sentences it finds, [None] for the
    conflict. *)
Inductive commits (s : write_session) (latest : list cstr) : option (list cstr) -> Prop :=
| commits_conflict b :
    baseline_sentence s = Some b -> b ∉ latest -> commits s latest None
| commits_replace b k :
    baseline_sentence s = Some b -> latest !! k = Some b ->
    (latest = sentences s -> Z.of_nat k = sentence_index s) ->
    commits s latest (Some (take k latest ++ split_sentences (sentence_text s) ++ drop (S k) latest))
| commits_append k :
    baseline_sentence s = None -> Z.of_nat k = Z.min (sentence_index s) (Z.of_nat (length latest)) ->
    commits s latest (Some (take k latest ++ split_sentences (sentence_text s) ++ drop k latest)).

(** The document [write_session_commit] computes. *)
Definition commit_doc (s : write_session) (latest : list cstr) : option (list cstr) :=
  (fun i => merge_loop latest 0 i (split_sentences (sentence_text s)) (replacing_existing s) false false [])
    <$> commit_index s latest.

Lemma commit_doc_refines s latest :
  session_ok s -> small latest -> commits s latest (commit_doc s latest).
Proof.
  intros Hs Hl. unfold commit_doc. destruct (baseline_sentence s) as [b|] eqn:Hb.
  - pose proof (session_baseline s b Hs Hb) as Hne. pose proof (commit_index_existing s b latest Hs Hl Hb) as H.
    assert (replacing_existing s = true) as ->.
    { unfold replacing_existing. rewrite Hb. by destruct b. }
    destruct (commit_index s latest) as [i|] eqn:Hi; cbn [fmap option_fmap option_map].
    + destruct H as (k & -> & Hk & _). pose proof (lookup_lt_Some _ _ _ Hk).
      rewrite merge_loop_spec by (intros; lia). eapply commits_replace; [done|done|].
      intros ->. rewrite commit_index_unchanged in Hi by done. congruence.
    + by eapply commits_conflict.
  - rewrite commit_index_append by done. cbn [fmap option_fmap option_map].
    assert (replacing_existing s = false) as -> by (unfold replacing_existing; by rewrite Hb).
    pose proof (ok_index s Hs). set (m := Z.min _ _).
    replace m with (Z.of_nat (Z.to_nat m)) by (unfold m; lia).
    rewrite merge_loop_spec by (try done; unfold m; lia). apply commits_append; [done|]. unfold m. lia.
Qed.

Lemma commit_as_doc g s file d :
  write_session_commit g s file d =
  (let '(loaded, d1) := load_text (data_path file) d in
   let current := match loaded with Some (t, _) => t | None => [] end in
   match commit_doc s (split_sentences current) with
   | None => if (g =? 0)%Z then Some (Err EAGAIN, s, d1) else None
   | Some doc =>
       let '(undo_stored, d2) := store_text_atomic (undo_path file) current d1 in
       if negb undo_stored then Some (Err ESYS, s, d2)
       else
         let '(data_stored, d3) := store_text_atomic (data_path file) (join_sentences doc) d2 in
         if negb data_stored then Some (Err ESYS, s, d3)
         else Some (Ok (join_sentences doc, count_words_in_text (join_sentences doc), length (join_sentences doc)),
               mk_session false (sentence_index s) (user s) (original_text s) (sentence_text s)
                 (baseline_sentence s) (sentences s), d3)
   end).
Proof.
  unfold write_session_commit, commit_doc. destruct (load_text (data_path file) d) as [l d1]. cbv zeta.
  by destruct (commit_index s _).
Qed.

(** Where the uninitialised flag reads zero every commit is defined. *)
Lemma commit_zero_defined s file d : is_Some (write_session_commit 0 s file d).
Proof. rewrite commit_as_doc. change (0 =? 0)%Z with true. cbv zeta. repeat case_match; first [done|by eexists]. Qed.

(** The paths of a document do not collide. *)
Record good_paths (file : ss_file) : Prop := {
  gp_data : length (data_path file) < 508;
  gp_undo : length (undo_path file) < 508;
  gp_ne : data_path file <> undo_path file;
  gp_tmp_data : tmp_path (data_path file) <> undo_path file;
  gp_tmp_undo : tmp_path (undo_path file) <> data_path file;
}.

(** In state [t], reached from [t0]: the document is the old one, or it is the new
    text and the undo file holds the text it replaced. *)
Definition commit_safe (file : ss_file) (t0 : tree) (current text : cstr) (t : tree) : Prop :=
  t !! data_path file = t0 !! data_path file \/
  (t !! data_path file = Some text /\ t !! undo_path file = Some current).

Lemma stored_undo_safe file current text t0 t :
  good_paths file -> stored (undo_path file) current t0 t -> commit_safe file t0 current text t.
Proof.
  intros [_ _ Hne _ Htu] H. left.
  destruct (stored_lookup _ _ _ _ (data_path file) H) as [?|[? _]]; [congruence|done|congruence].
Qed.

Lemma stored_data_safe file current text t0 t1 t :
  good_paths file -> t1 !! data_path file = t0 !! data_path file -> t1 !! undo_path file = Some current ->
  stored (data_path file) text t1 t -> commit_safe file t0 current text t.
Proof.
  intros Hg H1 H2 H. destruct Hg as [Hd Hu Hne Htd Htu]. pose proof (tmp_path_ne _ Hd) as Hdd.
  destruct (stored_lookup _ _ _ _ (data_path file) H) as [E|[_ E]]; [congruence|left; congruence|right].
  split; [done|]. destruct (stored_lookup _ _ _ _ (undo_path file) H) as [E'|[E' _]]; congruence.
Qed.

(** The two stores of a commit, under any failures. *)
Lemma commit_stores file current text d1 u d2 :
  good_paths file -> store_text_atomic (undo_path file) current d1 = (u, d2) ->
  since d1 d2 (commit_safe file (files d1) current text) /\
  files d2 !! data_path file = files d1 !! data_path file /\
  (u = true -> files d2 !! undo_path file = Some current) /\
  (u = true -> forall v d3, store_text_atomic (data_path file) text d2 = (v, d3) ->
     since d1 d3 (commit_safe file (files d1) current text) /\
     if v then files d3 !! data_path file = Some text /\ files d3 !! undo_path file = Some current
     else files d3 !! data_path file = files d1 !! data_path file).
Proof.
  intros Hg Hu. pose proof Hg as [Hd _ Hne Htd Htu]. pose proof (tmp_path_ne _ Hd) as Hdd.
  destruct (store_text_atomic_stored _ _ _ _ _ Hu) as (Hs & Hok & Hf).
  assert (since d1 d2 (commit_safe file (files d1) current text)) as Hsafe.
  { eapply since_mono; [|exact Hs]. intros t. by apply stored_undo_safe. }
  assert (files d2 !! data_path file = files d1 !! data_path file) as Hdata.
  { destruct Hs as (_ & _ & _ & H). destruct (stored_lookup _ _ _ _ (data_path file) H) as [?|[? _]]; congruence. }
  assert (u = true -> files d2 !! undo_path file = Some current) as Hundo.
  { intros ->. rewrite Hok by done. by rewrite lookup_insert_eq. }
  split_and!; [done|done|done|]. intros -> v d3 Hv. specialize (Hundo eq_refl).
  destruct (store_text_atomic_stored _ _ _ _ _ Hv) as (Hs' & Hok' & Hf'). split.
  - eapply since_trans; [exact Hsafe|]. eapply since_mono; [|exact Hs']. intros t.
    by apply stored_data_safe.
  - destruct v.
    + rewrite Hok' by done. rewrite lookup_insert_eq, lookup_insert_ne, lookup_delete_ne by congruence. done.
    + destruct (Hf' eq_refl) as (_ & _ & _ & E).
      rewrite <- (lookup_delete_ne (files d3) (tmp_path (data_path file))), E, lookup_delete_ne by congruence. done.
Qed.

(** C1: a commit of an open session refines its specification under every schedule of
    failures, when the paths of the document and its undo file fit their buffers with
    [".tmp"] and do not collide, and no text has 2^27 sentences.  The current text it
    works on is what [load_text] returned: the document when the read succeeds, and the
    empty text or the part that was read when it fails, an error the commit does not
    report.  It conflicts exactly when the sentence the session opened
    is no longer a sentence of the current text; it then touches no file, but its
    clean-up reads an uninitialised flag: the commit reports [EAGAIN] where that reads
    zero, and is undefined otherwise.  Otherwise it is defined whatever that flag
    reads, and on success the document is the current text with that sentence alone
    replaced (or with the new sentences put at the session's index, or at the end),
    the counters describe the stored text, and the undo file holds the current text.
    At every moment, hence after any crash, the data file is as before the commit, or
    it holds the new text and the undo file the current one; on any reported error
    the data file is as before. *)
Theorem write_session_commit_refines g s file d :
  session_ok s -> good_paths file ->
  let loaded := fst (load_text (data_path file) d) in
  let current := match loaded with Some (t, _) => t | None => [] end in
  let latest := split_sentences current in
  small latest ->
  (quiet d -> current = default [] (c_str <$> files d !! data_path file)) /\
  exists doc, commits s latest doc /\
    match doc, write_session_commit g s file d with
    | None, None => g <> 0%Z
    | None, Some (r, s', d') => g = 0%Z /\ r = Err EAGAIN /\ s' = s /\ same_files d d'
    | Some ss, None => False
    | Some ss, Some (r, s', d') =>
        since d d' (commit_safe file (files d) current (join_sentences ss)) /\
        match r with
        | Ok (text, words, chars) =>
            text = join_sentences ss /\ words = length (split_words text) /\ chars = length text /\
            active s' = false /\
            files d' !! data_path file = Some text /\ files d' !! undo_path file = Some current
        | Err e => e = ESYS /\ s' = s /\ files d' !! data_path file = files d !! data_path file
        end
    end.
Proof.
  intros Hs Hg loaded current latest Hl. split.
  { intros Hq. unfold current, loaded. rewrite load_text_quiet by done. by destruct (files d !! _). }
  rewrite commit_as_doc.
  destruct (load_text (data_path file) d) as [l d1] eqn:E1. cbn [fst] in loaded.
  pose proof (load_text_same _ _ _ _ E1) as Hsame. cbv zeta.
  change (match l with Some (t, _) => t | None => [] end) with current. fold latest.
  pose proof (commit_doc_refines s latest Hs Hl) as Hc.
  destruct (commit_doc s latest) as [ss|]; [|exists None; split; [done|]; by destruct (Z.eqb_spec g 0)]. set (text := join_sentences ss).
  assert (forall d', since d1 d' (commit_safe file (files d1) current text) ->
                     since d d' (commit_safe file (files d) current text)) as Hlift.
  { destruct Hsame as [-> Hp]. intros d' (new & E & H). exists new. by rewrite E, Hp. }
  destruct Hsame as [Hfiles _].
  destruct (store_text_atomic (undo_path file) current d1) as [u d2] eqn:E2.
  destruct (commit_stores file current text d1 u d2 Hg E2) as (H1 & H2 & H3 & H4).
  destruct u; cbn [negb]; [|exists (Some ss); rewrite <- Hfiles at 2; by eauto 10]. specialize (H4 eq_refl).
  destruct (store_text_atomic (data_path file) text d2) as [v d3] eqn:E3.
  destruct (H4 v d3 eq_refl) as [H5 H6].
  destruct v; cbn [negb]; exists (Some ss); (split; [done|]); (split; [by apply Hlift|]).
  - rewrite <- count_words_spec. destruct H6. by split_and!.
  - by rewrite <- Hfiles.
Qed.

Definition demo_file : ss_file := new_file (ss_state_dirs (cs "s")) (cs "a") (cs "ann") 1.

Lemma demo_good_paths : good_paths demo_file.
Proof. split; first [vm_compute; lia|vm_compute; discriminate]. Qed.

Definition demo_doc (o : list fault) : disk := mk_disk (<[data_path demo_file := cs "One. Two. Three."]> ∅) o [].

(** Ann opened sentence 1 and made it two sentences. *)
Definition demo_writer : write_session :=
  mk_session true 1 (cs "ann") None (cs "Two! and half.") (Some (cs "Two.")) [cs "One."; cs "Two."; cs "Three."].

Lemma demo_doc_wf : wf_doc [cs "One."; cs "Two."; cs "Three."].
Proof. change [cs "One."; cs "Two."; cs "Three."] with (split_sentences (cs "One. Two. Three.")). apply split_sentences_wf. Qed.

Lemma demo_writer_ok : session_ok demo_writer.
Proof. split; try reflexivity; [vm_compute; split; discriminate|apply demo_doc_wf]. Qed.

Definition demo_faults : list fault := [Fine; Fine; Fine; Fine; Fine; Fine; Fine; Fine; Fine; Fine; Fails 0].

(** The document has lost Ann's sentence. *)
Definition demo_gone : disk := mk_disk (<[data_path demo_file := cs "One. Three."]> ∅) [] [].

Lemma write_session_commit_refines_witness :
  session_ok demo_writer /\
  (exists text words chars s' d',
     write_session_commit 7 demo_writer demo_file (demo_doc []) = Some (Ok (text, words, chars), s', d') /\
     words = length (split_words text) /\ files d' !! data_path demo_file = Some text) /\
  (* the undo file is stored, the data file is not *)
  (exists s' d', write_session_commit 7 demo_writer demo_file (demo_doc demo_faults) = Some (Err ESYS, s', d') /\
     files d' !! data_path demo_file = Some (cs "One. Two. Three.")) /\
  (* the conflict, with a flag that reads zero and one that does not *)
  (exists d', write_session_commit 0 demo_writer demo_file demo_gone = Some (Err EAGAIN, demo_writer, d') /\
     same_files demo_gone d') /\
  write_session_commit 7 demo_writer demo_file demo_gone = None.
Proof.
  pose proof (fun g d => write_session_commit_refines g demo_writer demo_file d demo_writer_ok demo_good_paths) as K.
  split; [apply demo_writer_ok|]. split; [|split; [|split]].
  - destruct (K 7%Z (demo_doc []) eq_refl) as (_ & [ss|] & _ & H).
    + destruct (write_session_commit 7 demo_writer demo_file (demo_doc [])) as [[[r s'] d']|] eqn:E; [|done].
      destruct r as [[[text words] chars]|e].
      * exists text, words, chars, s', d'. tauto.
      * exfalso. apply (f_equal (fmap (fun x => is_ok (fst (fst x))))) in E. vm_compute in E. discriminate.
    + exfalso. destruct (write_session_commit 7 demo_writer demo_file (demo_doc [])) as [[[r s'] d']|] eqn:E.
      * destruct H as [H _]. discriminate.
      * vm_compute in E. discriminate.
  - destruct (K 7%Z (demo_doc demo_faults) eq_refl) as (_ & doc & _ & H).
    destruct (write_session_commit 7 demo_writer demo_file (demo_doc demo_faults)) as [[[r s'] d']|] eqn:E.
    + apply (f_equal (fmap (fun x => fst (fst x)))) in E as E'. vm_compute in E'. injection E' as <-.
      exists s', d'. split; [done|]. destruct doc as [ss|]; [|by destruct H as [? _]]. by destruct H as (_ & _ & _ & H).
    + vm_compute in E. discriminate.
  - destruct (K 0%Z demo_gone eq_refl) as (_ & doc & _ & H).
    destruct (write_session_commit 0 demo_writer demo_file demo_gone) as [[[r s'] d']|] eqn:E.
    + apply (f_equal (fmap (fun x => fst (fst x)))) in E as E'. vm_compute in E'. injection E' as <-.
      destruct doc as [ss|]; [by destruct H as (_ & H & _)|]. destruct H as (_ & _ & -> & H). by exists d'.
    + vm_compute in E. discriminate.
  - reflexivity.
Defined.

(** ** Beginning a session *)

Definition write_session_text (s : write_session) : cstr := default [] (baseline_sentence s).

(** a session opens exactly for the indices [0..n] of the document's [n]
    sentences, and then it is well formed: it holds the document's sentences, and its
    text and baseline are the sentence at the index, or empty at [n].  Other indices
    are refused with [EINVAL], and no file is touched either way. *)
Lemma write_session_begin_ok file u index d :
  let '(r, s, d') := write_session_begin file u index d in
  same_files d d' /\
  (small (sentences s) ->
   match r with
   | Ok _ => session_ok s /\ sentence_index s = index /\ sentence_text s = write_session_text s /\
             user s = snprintf_s SS_USER_MAX u
   | Err e => e = EINVAL /\ ((index < 0)%Z \/ (Z.of_nat (length (sentences s)) < index)%Z)
   end) /\
  (forall b, quiet d -> files d !! data_path file = Some b -> sentences s = split_sentences (c_str b)).
Proof.
  unfold write_session_begin. destruct (load_text (data_path file) d) as [l d1] eqn:E.
  pose proof (load_text_same _ _ _ _ E) as Hsame. cbv zeta.
  set (text := match l with Some (t, _) => t | None => [] end).
  pose proof (split_sentences_wf text) as Hwf. set (ss := split_sentences text) in *.
  assert (forall b, quiet d -> files d !! data_path file = Some b -> ss = split_sentences (c_str b)) as Hload.
  { intros b Hq Hb. rewrite load_text_quiet, Hb in E by done. simpl in E. by simplify_eq. }
  assert (forall b, small ss -> (0 <= index <= Z.of_nat (length ss))%Z -> b = ss !! Z.to_nat index ->
    forall o t, session_ok (mk_session true index (snprintf_s SS_USER_MAX u) o t b ss)) as Hok.
  { intros b Hsm Hi -> o t. by split. }
  destruct (Z.ltb_spec index 0) as [|H0]; cbn [orb].
  { split_and!; [done|by auto|done]. }
  destruct (Z.ltb_spec (int_len ss) index) as [H1|H1].
  { split_and!; [done| |done]. cbn [sentences]. intros Hsm. rewrite int_len_small in H1 by done. auto. }
  destruct (Z.ltb_spec index (int_len ss)) as [H2|H2].
  - destruct (ss !! Z.to_nat index) as [x|] eqn:Hx; (split_and!; [done| |done]); cbn [sentences]; intros Hsm;
      rewrite int_len_small in * by done; (split_and!; [|done..]); apply Hok; auto; lia.
  - split_and!; [done| |done]. cbn [sentences]. intros Hsm. rewrite int_len_small in * by done.
    split_and!; [|done..]. apply Hok; [done|lia|]. symmetry. apply lookup_ge_None. lia.
Qed.

(** ** A failed read *)

(** A commit takes a document it cannot read for an empty one.  When opening
    the data file fails transiently, a session that appends (no baseline) reports
    success, and the document is left with its new sentences alone: the old text is
    neither there nor in the undo file. *)
Theorem failed_read_loses_document g s file d k :
  good_paths file -> baseline_sentence s = None -> oracle d = [Fails k] ->
  exists text words chars s' d',
    write_session_commit g s file d = Some (Ok (text, words, chars), s', d') /\
    text = join_sentences (split_sentences (sentence_text s)) /\
    files d' !! data_path file = Some text /\ files d' !! undo_path file = Some [].
Proof.
  intros Hg Hb Ho. rewrite commit_as_doc.
  assert (load_text (data_path file) d = (None, mk_disk (files d) [] (past d))) as ->.
  { unfold load_text, plain_call, next_fault. by rewrite Ho. }
  cbv zeta. change (split_sentences []) with (@nil cstr).
  set (doc := split_sentences (sentence_text s)).
  assert (commit_doc s [] = Some doc) as ->.
  { unfold commit_doc, commit_index, replacing_existing. rewrite Hb. simpl. done. }
  set (d1 := mk_disk _ _ _).
  assert (forall p c d, quiet d -> exists d', store_text_atomic p c d = (true, d') /\ quiet d') as Hst.
  { clear. intros p c d Hq. unfold quiet in *.
    unfold store_text_atomic, fopen_w, fwrite, plain_call, rename, next_fault. repeat (cbn; rewrite ?Hq).
    rewrite lookup_insert_eq. eexists. split; [done|]. done. }
  destruct (Hst (undo_path file) [] d1 eq_refl) as (d2 & E2 & Hq2).
  destruct (Hst (data_path file) (join_sentences doc) d2 Hq2) as (d3 & E3 & _).
  destruct (commit_stores file [] (join_sentences doc) d1 true d2 Hg E2) as (_ & _ & _ & H).
  destruct (H eq_refl true d3 E3) as (_ & H1 & H2).
  rewrite E2. cbn [negb]. rewrite E3. cbn [negb]. eexists _, _, _, _, _. by split_and!.
Qed.

(** A session that appends after the last sentence. *)
Definition demo_appender : write_session :=
  mk_session true 3 (cs "bob") None (cs "Four.") None [cs "One."; cs "Two."; cs "Three."].

Lemma failed_read_loses_document_witness :
  oracle (demo_doc [Fails 0]) = [Fails 0] /\
  exists text words chars s' d',
    write_session_commit 7 demo_appender demo_file (demo_doc [Fails 0]) = Some (Ok (text, words, chars), s', d') /\
    text = cs "Four." /\ files d' !! data_path demo_file = Some text /\
    files d' !! undo_path demo_file = Some [].
Proof.
  split; [reflexivity|].
  exact (failed_read_loses_document 7 demo_appender demo_file (demo_doc [Fails 0]) 0 demo_good_paths eq_refl eq_refl).
Defined.

(** ** Concurrent writers *)

Lemma no_nul_app a b : no_nul (a ++ b) <-> no_nul a /\ no_nul b.
Proof. apply Forall_app. Qed.

Lemma no_nul_trim s : no_nul s -> no_nul (trim_spaces s).
Proof.
  intros H. destruct (trim_split s) as (a & b & E & _). rewrite E in H.
  apply no_nul_app in H as [_ H]. by apply no_nul_app in H as [H _].
Qed.

Lemma no_nul_push buf : no_nul buf -> Forall no_nul (push_sentence [] buf).
Proof. intros H%no_nul_trim. unfold push_sentence. destruct (trim_spaces buf); [constructor|]. by constructor. Qed.

Lemma no_nul_split_loop p buf : no_nul p -> no_nul buf -> Forall no_nul (split_sentences_loop p buf []).
Proof.
  revert buf. induction p as [|c p IH]; intros buf Hp Hb; cbn [split_sentences_loop]; cbv zeta.
  - destruct buf; [constructor|]. by apply no_nul_push.
  - apply Forall_cons in Hp as [Hc Hp].
    assert (no_nul (buf ++ [unline c])) as Hb'.
    { apply no_nul_app. split; [done|]. constructor; [|constructor]. unfold unline. by case_decide. }
    destruct (is_sentence_delim_char (unline c)); [|by apply IH].
    rewrite split_loop_out. apply Forall_app. split; [by apply no_nul_push|]. apply IH; [done|constructor].
Qed.

Lemma no_nul_split t : no_nul t -> Forall no_nul (split_sentences t).
Proof. intros. apply no_nul_split_loop; [done|constructor]. Qed.

Lemma no_nul_join ss : Forall no_nul ss -> no_nul (join_sentences ss).
Proof.
  unfold join_sentences. induction 1 as [|s ss Hs Hss IH]; [constructor|].
  destruct ss as [|s' ss]; [done|]. rewrite join_with_cons by done. apply no_nul_app. split; [done|].
  by constructor.
Qed.

(** An element that occurs once has one position. *)
Lemma unique_position {A} (l1 l2 : list A) x k :
  x ∉ l1 -> x ∉ l2 -> (l1 ++ x :: l2) !! k = Some x -> k = length l1.
Proof.
  intros H1 H2 Hk. destruct (Nat.lt_trichotomy k (length l1)) as [H|[H|H]]; [|done|].
  - rewrite lookup_app_l in Hk by done. destruct H1. by eapply list_elem_of_lookup_2.
  - rewrite lookup_app_r in Hk by lia. destruct (k - length l1) as [|j] eqn:E; [lia|]. simpl in Hk.
    destruct H2. by eapply list_elem_of_lookup_2.
Qed.

(** A commit of a session whose sentence occurs once replaces that occurrence. *)
Lemma commit_doc_unique s l1 x l2 :
  session_ok s -> small (l1 ++ x :: l2) -> baseline_sentence s = Some x -> x ∉ l1 -> x ∉ l2 ->
  commit_doc s (l1 ++ x :: l2) = Some (l1 ++ split_sentences (sentence_text s) ++ l2).
Proof.
  intros Hs Hl Hb H1 H2. pose proof (commit_doc_refines s _ Hs Hl) as H.
  inversion H as [b Hb' Hni E|b k Hb' Hk _ E|k Hb' _ E]; [|f_equal|congruence].
  - assert (b = x) as -> by congruence. destruct Hni. apply elem_of_app. right. left.
  - assert (b = x) as -> by congruence. rewrite (unique_position l1 l2 x k) by done.
    rewrite take_app_length. do 2 f_equal.
    replace (S (length l1)) with (length l1 + 1) by lia. by rewrite drop_app_add.
Qed.

(** A commit without failures. *)
Lemma store_text_atomic_quiet p c d :
  quiet d -> exists d', store_text_atomic p c d = (true, d') /\ quiet d'.
Proof.
  intros Hq. unfold quiet in *.
  unfold store_text_atomic, fopen_w, fwrite, plain_call, rename, next_fault. repeat (cbn; rewrite ?Hq).
  rewrite lookup_insert_eq. eexists. split; [done|]. done.
Qed.

Lemma commit_quiet g s file d raw doc :
  good_paths file -> quiet d -> files d !! data_path file = Some raw ->
  commit_doc s (split_sentences (c_str raw)) = Some doc ->
  exists s' d', write_session_commit g s file d =
      Some (Ok (join_sentences doc, count_words_in_text (join_sentences doc), length (join_sentences doc)), s', d') /\
    quiet d' /\ files d' !! data_path file = Some (join_sentences doc).
Proof.
  intros Hg Hq Hraw Hdoc. rewrite commit_as_doc, load_text_quiet, Hraw by done.
  cbn [option_map]. cbv zeta. rewrite Hdoc.
  destruct (store_text_atomic_quiet (undo_path file) (c_str raw) d Hq) as (d2 & E2 & Hq2).
  destruct (store_text_atomic_quiet (data_path file) (join_sentences doc) d2 Hq2) as (d3 & E3 & Hq3).
  destruct (commit_stores file _ (join_sentences doc) d true d2 Hg E2) as (_ & _ & _ & H).
  destruct (H eq_refl true d3 E3) as (_ & H1 & _).
  rewrite E2. cbn [negb]. rewrite E3. cbn [negb]. eexists _, _. by split_and!.
Qed.

(** Sentences that keep their delimiters can be put before any document. *)
Lemma wf_doc_app l1 l2 : Forall terminated l1 -> wf_doc l2 -> wf_doc (l1 ++ l2).
Proof. induction 1; simpl; auto with cowrite. Qed.

Lemma wf_doc_app_inv l1 l2 : wf_doc (l1 ++ l2) -> l2 <> [] -> Forall terminated l1 /\ wf_doc l2.
Proof.
  induction l1 as [|s l1 IH]; simpl; [done|]. intros H Hne.
  assert (l1 ++ l2 <> []) by (by destruct l1). inversion H; [congruence|]. destruct IH; auto.
Qed.

(** Two writers that opened the same document on different sentences. *)
Section Concurrent.
Context (file : ss_file) (a b : write_session) (l1 l2 l3 : list cstr) (x y : cstr).
Notation ss := (l1 ++ x :: l2 ++ y :: l3).
Notation pa := (split_sentences (sentence_text a)).
Notation pb := (split_sentences (sentence_text b)).

Record disjoint_writers : Prop := {
  dw_a : session_ok a;
  dw_b : session_ok b;
  dw_base_a : baseline_sentence a = Some x;
  dw_base_b : baseline_sentence b = Some y;
  dw_nul : Forall no_nul ss /\ no_nul (sentence_text a) /\ no_nul (sentence_text b);
  (* the opened sentences can be recognised *)
  dw_x : x ∉ l1 ++ l2 ++ y :: l3 /\ x ∉ pb;
  dw_y : y ∉ l1 ++ x :: l2 ++ l3 /\ y ∉ pa;
  dw_wf : wf_doc ss;
  (* an edited text that other text follows ends with a delimiter, as its sentence did *)
  dw_keep_a : Forall terminated pa;
  dw_keep_b : Forall terminated pb \/ l3 = [];
  dw_small : small ss /\ small (l1 ++ pa ++ l2 ++ y :: l3) /\ small (l1 ++ x :: l2 ++ pb ++ l3);
}.

Lemma disjoint_wf : disjoint_writers -> wf_doc (l1 ++ pa ++ l2 ++ y :: l3) /\ wf_doc (l1 ++ x :: l2 ++ pb ++ l3).
Proof using.
  intros H. destruct (wf_doc_app_inv l1 (x :: l2 ++ y :: l3)) as [H1 H2]; [apply H|done|].
  change (x :: l2 ++ y :: l3) with ((x :: l2) ++ y :: l3) in H2.
  apply wf_doc_app_inv in H2 as [H2 H3]; [|done]. apply Forall_cons in H2 as [Hx H2].
  pose proof (dw_keep_a H) as Ha. split; [by repeat apply wf_doc_app|].
  apply wf_doc_app; [done|]. apply wf_cons; [done|]. apply wf_doc_app; [done|].
  destruct (dw_keep_b H) as [Hb|E].
  - apply wf_doc_app; [done|]. inversion H3; [constructor|done].
  - rewrite E, app_nil_r. apply split_sentences_wf.
Qed.

Lemma commit_then g1 g2 first second d doc1 doc2 raw :
  good_paths file -> quiet d -> files d !! data_path file = Some raw ->
  commit_doc first (split_sentences (c_str raw)) = Some doc1 ->
  wf_doc doc1 -> Forall no_nul doc1 -> commit_doc second doc1 = Some doc2 ->
  exists r1 s1 d1 r2 s2 d2,
    write_session_commit g1 first file d = Some (Ok r1, s1, d1) /\
    write_session_commit g2 second file d1 = Some (Ok r2, s2, d2) /\
    files d2 !! data_path file = Some (join_sentences doc2).
Proof using.
  intros Hg Hq Hraw H1 Hwf Hnn H2.
  destruct (commit_quiet g1 first file d raw doc1 Hg Hq Hraw H1) as (s1 & d1 & E1 & Hq1 & F1).
  destruct (commit_quiet g2 second file d1 (join_sentences doc1) doc2 Hg Hq1 F1) as (s2 & d2 & E2 & _ & F2).
  { by rewrite c_str_id, split_join_sentences by (done || by apply no_nul_join). }
  by eexists _, _, _, _, _, _.
Qed.

(** C2: writers of different sentences do not lose each other's edits, when the
    commits run one after the other and no system call fails.  Suppose both opened the
    same document, each opened sentence occurs once in it and not in the other's
    edited text, and the edited texts keep their final delimiters (the later one may
    drop it when its sentence is the last of the document; see
    [dropped_delimiter_order] for what happens otherwise), with fewer than 2^27
    sentences throughout, and paths that do not collide.  Then committing in either order succeeds twice and leaves
    the same document, in which both sentences are replaced and all others are as
    they were. *)
Theorem disjoint_commits g1 g2 d :
  disjoint_writers -> good_paths file -> quiet d ->
  files d !! data_path file = Some (join_sentences ss) ->
  (exists r1 s1 d1 r2 s2 d2,
    write_session_commit g1 a file d = Some (Ok r1, s1, d1) /\
    write_session_commit g2 b file d1 = Some (Ok r2, s2, d2) /\
    files d2 !! data_path file = Some (join_sentences (l1 ++ pa ++ l2 ++ pb ++ l3))) /\
  (exists r1 s1 d1 r2 s2 d2,
    write_session_commit g2 b file d = Some (Ok r1, s1, d1) /\
    write_session_commit g1 a file d1 = Some (Ok r2, s2, d2) /\
    files d2 !! data_path file = Some (join_sentences (l1 ++ pa ++ l2 ++ pb ++ l3))).
Proof using.
  intros Hdw. destruct (disjoint_wf Hdw) as [Hwa Hwb]. revert Hdw.
  intros [Ha Hb Hba Hbb (Hn & Hna & Hnb) [Hx Hxb] [Hy Hya] Hwf _ _ (Hs & Hsa & Hsb)] Hg Hq Hd.
  apply no_nul_split in Hna, Hnb. rewrite !Forall_app, !Forall_cons, !Forall_app, !Forall_cons in Hn.
  assert (split_sentences (c_str (join_sentences ss)) = ss) as Hload.
  { rewrite c_str_id; [by apply split_join_sentences|]. apply no_nul_join.
    rewrite !Forall_app, !Forall_cons, !Forall_app, !Forall_cons. tauto. }
  rewrite !elem_of_app, !elem_of_cons in Hx. rewrite !elem_of_app, !elem_of_cons, !elem_of_app in Hy.
  split.
  - eapply (commit_then g1 g2 a b d (l1 ++ pa ++ l2 ++ y :: l3)); [done..| |done| |].
    + rewrite Hload. apply commit_doc_unique; try done; rewrite ?elem_of_app, ?elem_of_cons; tauto.
    + rewrite !Forall_app, !Forall_cons. tauto.
    + replace (l1 ++ pa ++ l2 ++ y :: l3) with ((l1 ++ pa ++ l2) ++ y :: l3) by (by rewrite <- !app_assoc).
      rewrite commit_doc_unique; [by rewrite <- !app_assoc|done|by rewrite <- !app_assoc|done| |];
        rewrite ?elem_of_app; tauto.
  - eapply (commit_then g2 g1 b a d (l1 ++ x :: l2 ++ pb ++ l3)); [done..| |done| |].
    + rewrite Hload. replace ss with ((l1 ++ x :: l2) ++ y :: l3) by (by rewrite <- app_assoc).
      rewrite commit_doc_unique; [by rewrite <- app_assoc|done|by rewrite <- app_assoc|done| |];
        rewrite ?elem_of_app, ?elem_of_cons; tauto.
    + rewrite !Forall_app, !Forall_cons, !Forall_app. tauto.
    + rewrite commit_doc_unique; [done|done|done|done| |]; rewrite ?elem_of_app; tauto.
Qed.
End Concurrent.

(** Bob opened sentence 2 of the same document. *)
Definition demo_other : write_session :=
  mk_session true 2 (cs "bob") None (cs "3.") (Some (cs "Three.")) [cs "One."; cs "Two."; cs "Three."].

Lemma demo_disjoint :
  disjoint_writers demo_writer demo_other [cs "One."] [] [] (cs "Two.") (cs "Three.").
Proof.
  split; try reflexivity; try apply demo_writer_ok.
  - split; try reflexivity; [vm_compute; split; discriminate|apply demo_doc_wf].
  - split_and!; repeat constructor; discriminate.
  - by split; apply (bool_decide_unpack _); vm_compute.
  - by split; apply (bool_decide_unpack _); vm_compute.
  - by apply (wf_doc_app_inv _ [cs "X"]); [exact (split_sentences_wf (cs "Two! and half. X"))|].
  - left. by apply (wf_doc_app_inv _ [cs "X"]); [exact (split_sentences_wf (cs "3. X"))|].
  - by split_and!.
Qed.

Lemma disjoint_commits_witness :
  disjoint_writers demo_writer demo_other [cs "One."] [] [] (cs "Two.") (cs "Three.") /\
  exists r1 s1 d1 r2 s2 d2,
    let d := mk_disk (<[data_path demo_file := join_sentences [cs "One."; cs "Two."; cs "Three."]]> ∅) [] [] in
    write_session_commit 7 demo_other demo_file d = Some (Ok r1, s1, d1) /\
    write_session_commit 5 demo_writer demo_file d1 = Some (Ok r2, s2, d2) /\
    files d2 !! data_path demo_file = Some (join_sentences [cs "One."; cs "Two!"; cs "and half."; cs "3."]).
Proof.
  split; [apply demo_disjoint|].
  exact (proj2 (disjoint_commits demo_file demo_writer demo_other [cs "One."] [] [] (cs "Two.") (cs "Three.") 5 7
    (mk_disk (<[data_path demo_file := join_sentences [cs "One."; cs "Two."; cs "Three."]]> ∅) [] [])
    demo_disjoint demo_good_paths eq_refl eq_refl)).
Defined.

(** Ann takes the full stop off her sentence, and Bob makes two of his. *)
Definition drop_ann : write_session :=
  mk_session true 1 (cs "ann") None (cs "Two") (Some (cs "Two.")) (split_sentences (cs "One. Two. Three. Four.")).
Definition drop_bob : write_session :=
  mk_session true 2 (cs "bob") None (cs "3. And.") (Some (cs "Three.")) (split_sentences (cs "One. Two. Three. Four.")).
Definition drop_disk : disk := mk_disk (<[data_path demo_file := cs "One. Two. Three. Four."]> ∅) [] [].

Definition commit_in_turn (first second : write_session) : option (bool * option (list cstr)) :=
  '(_, _, d) ← write_session_commit 0 first demo_file drop_disk;
  '(r, _, d) ← write_session_commit 0 second demo_file d;
  Some (is_ok r, split_sentences <$> files d !! data_path demo_file).

(** An edited text that drops its delimiter runs into the sentence after it: when
    Ann commits first, Bob's sentence is gone and his commit conflicts; in the other
    order both succeed. *)
Lemma dropped_delimiter_order :
  commit_in_turn drop_ann drop_bob = Some (false, Some [cs "One."; cs "Two Three."; cs "Four."]) /\
  commit_in_turn drop_bob drop_ann = Some (true, Some [cs "One."; cs "Two 3."; cs "And."; cs "Four."]).
Proof. split; vm_compute; reflexivity. Qed.
