(* ===== verification/SsTables.v ===== *)
(** * [ss/ss_main.c]: tickets and sentence locks

    The name manager announces a ticket for each operation a client may perform on
    the data port; a ticket is consumed by its first use.  A writer holds the lock
    of its sentence for the whole session.  Both tables are arrays scanned linearly,
    each operation under its mutex. *)

From S2P Require Import Prelude Cstr SsState.

(** ** Tickets *)

Record auth_ticket := mk_ticket {
  token : cstr;
  t_file : cstr;
  t_user : cstr;
  t_op : cstr;
  expiry : Z;
}.

Definition expired (now : Z) (t : auth_ticket) : bool := negb (expiry t =? 0)%Z && (expiry t <? now)%Z.

(** The loop of [ticket_table_prune]: every round removes an entry or advances. *)
Fixpoint prune_loop (fuel : nat) (now : Z) (i : nat) (entries : list auth_ticket) : list auth_ticket :=
  match fuel with
  | O => entries
  | S f =>
      match entries !! i with
      | None => entries
      | Some t => if expired now t then prune_loop f now i (remove_at i entries) else prune_loop f now (S i) entries
      end
  end.

Definition ticket_table_prune (now : Z) (entries : list auth_ticket) : list auth_ticket :=
  prune_loop (length entries) now 0 entries.

Definition ticket_table_add (entries : list auth_ticket) (tok file usr op : cstr) (exp : Z) : list auth_ticket :=
  entries ++ [mk_ticket (snprintf_s 64 tok) (snprintf_s SS_NAME_MAX file) (snprintf_s SS_USER_MAX usr)
                        (snprintf_s 16 op) exp].

Definition ticket_matches (tok usr file op : cstr) (t : auth_ticket) : bool :=
  streq (token t) tok && streq (t_user t) usr && streq (t_file t) file && streq (t_op t) op.

(** The ticket taken, and the table left. *)
Definition ticket_table_take (now : Z) (entries : list auth_ticket) (tok usr file op : cstr)
  : option auth_ticket * list auth_ticket :=
  let entries := ticket_table_prune now entries in
  match find_first (ticket_matches tok usr file op) entries with
  | Some (i, t) => (Some t, remove_at i entries)
  | None => (None, entries)
  end.

Lemma prune_loop_spec fuel now pre post :
  length post <= fuel ->
  prune_loop fuel now (length pre) (pre ++ post) = pre ++ List.filter (fun t => negb (expired now t)) post.
Proof.
  revert pre post. induction fuel as [|f IH]; intros pre post Hf; cbn [prune_loop].
  { destruct post; [|simpl in Hf; lia]. done. }
  destruct post as [|t post].
  - simpl List.filter. rewrite app_nil_r, lookup_ge_None_2 by lia. done.
  - rewrite lookup_app_r, Nat.sub_diag by lia. cbn [lookup list_lookup]. simpl in Hf.
    destruct (expired now t) eqn:E; simpl List.filter; rewrite E; cbn [negb].
    + unfold remove_at. rewrite take_app_length.
      replace (S (length pre)) with (length pre + 1) by lia. rewrite drop_app_add. simpl. rewrite drop_0.
      apply IH. lia.
    + replace (pre ++ t :: post) with ((pre ++ [t]) ++ post) by (by rewrite <- app_assoc).
      replace (S (length pre)) with (length (pre ++ [t])) by (rewrite length_app; simpl; lia).
      rewrite IH by lia. by rewrite <- app_assoc.
Qed.

Lemma ticket_table_prune_spec now entries :
  ticket_table_prune now entries = List.filter (fun t => negb (expired now t)) entries.
Proof. unfold ticket_table_prune. by apply (prune_loop_spec _ _ []). Qed.

Lemma ticket_matches_spec tok usr file op t :
  ticket_matches tok usr file op t = true <-> token t = tok /\ t_user t = usr /\ t_file t = file /\ t_op t = op.
Proof. unfold ticket_matches, streq. rewrite !andb_true_iff, !bool_decide_eq_true. tauto. Qed.

Lemma NoDup_filter_fn {A B} (f : A -> B) (p : A -> bool) l : NoDup (map f l) -> NoDup (map f (List.filter p l)).
Proof.
  induction l as [|x l IH]; simpl; [done|]. intros [Hx Hl]%NoDup_cons. destruct (p x); [|auto].
  simpl. constructor; [|auto]. intros (y & E & Hy)%list_elem_of_fmap. apply Hx. rewrite E.
  apply list_elem_of_fmap_2. apply list_elem_of_In. apply list_elem_of_In, List.filter_In in Hy. apply Hy.
Qed.

Lemma remove_at_middle {A} (l1 l2 : list A) x : remove_at (length l1) (l1 ++ x :: l2) = l1 ++ l2.
Proof.
  unfold remove_at. rewrite take_app_length. replace (S (length l1)) with (length l1 + 1) by lia.
  rewrite drop_app_add. simpl. by rewrite drop_0.
Qed.

(** C16: tickets are single use and bound to their request.  A take succeeds exactly
    when an unexpired ticket carries the token, the user, the file and the operation
    of the request; it removes that ticket and, besides expired ones, no other.  When
    tokens are not issued twice, no later take with that token, at any time and for
    any request, succeeds again. *)
Theorem ticket_single_use now entries tok usr file op :
  NoDup (map token entries) ->
  match ticket_table_take now entries tok usr file op with
  | (Some t, rest) =>
      t ∈ entries /\ expired now t = false /\ ticket_matches tok usr file op t = true /\
      (forall u, u ∈ rest <-> u ∈ entries /\ expired now u = false /\ u <> t) /\
      NoDup (map token rest) /\
      (forall now' usr' file' op', fst (ticket_table_take now' rest tok usr' file' op') = None)
  | (None, rest) =>
      rest = List.filter (fun t => negb (expired now t)) entries /\
      forall t, t ∈ entries -> expired now t = false -> ticket_matches tok usr file op t = false
  end.
Proof.
  intros Hnd. unfold ticket_table_take. rewrite ticket_table_prune_spec.
  set (live := List.filter _ entries).
  assert (forall u, u ∈ live <-> u ∈ entries /\ expired now u = false) as Hlive.
  { intros u. unfold live. rewrite !list_elem_of_In, List.filter_In, negb_true_iff. done. }
  assert (NoDup (map token live)) as Hndl by (by apply NoDup_filter_fn).
  destruct (find_first (ticket_matches tok usr file op) live) as [[i t]|] eqn:E.
  - apply find_first_Some in E as (Hi & Hm & _).
    pose proof (list_elem_of_lookup_2 _ _ _ Hi) as Hin.
    apply list_elem_of_split_length in Hi as (l1 & l2 & El & ->). rewrite El in *. rewrite remove_at_middle.
    rewrite map_app in Hndl. cbn [map] in Hndl. apply NoDup_app in Hndl as (N1 & N2 & [N3 N4]%NoDup_cons).
    assert (NoDup (map token (l1 ++ l2))) as Hnd'.
    { rewrite map_app. apply NoDup_app. split_and!; [done| |done]. intros x Hx Hx'. apply (N2 x Hx). by right. }
    assert (token t ∉ map token (l1 ++ l2)) as Hnt.
    { rewrite map_app, elem_of_app. intros [Hx|Hx]; [|done]. apply (N2 _ Hx). left. }
    split_and!; [by apply Hlive|by apply Hlive|done| |done|].
    + intros u. split.
      * intros Hu. assert (u ∈ l1 ++ t :: l2) as Hu'.
        { rewrite elem_of_app, elem_of_cons. apply elem_of_app in Hu. tauto. }
        apply Hlive in Hu' as [? ?]. split_and!; [done|done|]. intros ->. apply Hnt. by apply list_elem_of_fmap_2.
      * intros (Hu & He & Hne). assert (u ∈ l1 ++ t :: l2) as Hu' by (by apply Hlive).
        rewrite elem_of_app, elem_of_cons in Hu'. rewrite elem_of_app. tauto.
    + intros now' usr' file' op'. rewrite ticket_table_prune_spec.
      destruct (find_first _ (List.filter _ (l1 ++ l2))) as [[j u]|] eqn:E; [|done].
      apply find_first_Some in E as (Hj & Hmu & _). destruct Hnt.
      apply ticket_matches_spec in Hm as [-> _]. apply ticket_matches_spec in Hmu as [<- _].
      apply list_elem_of_fmap_2, list_elem_of_In. apply list_elem_of_lookup_2, list_elem_of_In, List.filter_In in Hj. apply Hj.
  - split; [done|]. intros t Ht He. apply find_first_None in E. rewrite Forall_forall in E. apply E. by apply Hlive.
Qed.

Definition demo_tickets : list auth_ticket :=
  ticket_table_add (ticket_table_add [] (cs "t1") (cs "a") (cs "ann") (cs "READ") 100)
    (cs "t2") (cs "a") (cs "bob") (cs "WRITE") 50.

Lemma ticket_single_use_witness :
  NoDup (map token demo_tickets) /\
  is_Some (fst (ticket_table_take 60 demo_tickets (cs "t1") (cs "ann") (cs "a") (cs "READ"))) /\
  (* expired *)
  fst (ticket_table_take 60 demo_tickets (cs "t2") (cs "bob") (cs "a") (cs "WRITE")) = None /\
  (* the second use *)
  fst (ticket_table_take 60 (snd (ticket_table_take 60 demo_tickets (cs "t1") (cs "ann") (cs "a") (cs "READ")))
         (cs "t1") (cs "ann") (cs "a") (cs "READ")) = None.
Proof.
  assert (NoDup (map token demo_tickets)) as Hnd by (by apply (bool_decide_unpack _); vm_compute).
  split; [exact Hnd|]. split; [eexists; vm_compute; reflexivity|]. split; [vm_compute; reflexivity|].
  pose proof (ticket_single_use 60 demo_tickets (cs "t1") (cs "ann") (cs "a") (cs "READ") Hnd) as H.
  assert (is_Some (fst (ticket_table_take 60 demo_tickets (cs "t1") (cs "ann") (cs "a") (cs "READ")))) as [t Ht] by (eexists; vm_compute; reflexivity).
  destruct (ticket_table_take _ _ _ _ _ _) as [[u|] rest]; [|discriminate]. apply H.
Defined.

(** ** Sentence locks *)

Record sentence_lock := mk_lock {
  l_file : cstr;
  l_sentence : Z;
  l_user : cstr;
}.

Definition lock_matches (file : cstr) (sentence : Z) (l : sentence_lock) : bool :=
  (l_sentence l =? sentence)%Z && streq (l_file l) file.

Definition sentence_lock_find (locks : list sentence_lock) (file : cstr) (sentence : Z) : option sentence_lock :=
  snd <$> find_first (lock_matches file sentence) locks.

(** [None] is [EBUSY]. *)
Definition sentence_lock_acquire (locks : list sentence_lock) (file : cstr) (sentence : Z) (usr : cstr)
  : option (list sentence_lock) :=
  match sentence_lock_find locks file sentence with
  | Some _ => None
  | None => Some (locks ++ [mk_lock (snprintf_s SS_NAME_MAX file) sentence (snprintf_s SS_USER_MAX usr)])
  end.

Definition sentence_lock_release (locks : list sentence_lock) (file : cstr) (sentence : Z) : list sentence_lock :=
  match find_first (lock_matches file sentence) locks with
  | Some (i, _) => remove_at i locks
  | None => locks
  end.

Definition lock_key (l : sentence_lock) : cstr * Z := (l_file l, l_sentence l).
Definition locked (locks : list sentence_lock) (file : cstr) (sentence : Z) : Prop :=
  (file, sentence) ∈ map lock_key locks.

Lemma lock_matches_spec file n l : lock_matches file n l = true <-> lock_key l = (file, n).
Proof.
  unfold lock_matches, streq, lock_key. rewrite andb_true_iff, Z.eqb_eq, bool_decide_eq_true. naive_solver.
Qed.

Lemma lock_find_None locks file n : find_first (lock_matches file n) locks = None <-> ~ locked locks file n.
Proof.
  rewrite find_first_None, Forall_forall. unfold locked. split.
  - intros H (l & E & Hl)%list_elem_of_fmap. specialize (H l Hl).
    by rewrite (proj2 (lock_matches_spec file n l)) in H.
  - intros H l Hl. destruct (lock_matches file n l) eqn:E; [|done]. apply lock_matches_spec in E.
    destruct H. rewrite <- E. by apply list_elem_of_fmap_2.
Qed.

(** The keys of the table are a set. *)
Definition locks_wf (locks : list sentence_lock) : Prop := NoDup (map lock_key locks).

(** Acquiring: refused exactly when the sentence is locked, otherwise it becomes locked. *)
Lemma sentence_lock_acquire_spec locks file n usr :
  length file < SS_NAME_MAX -> locks_wf locks ->
  match sentence_lock_acquire locks file n usr with
  | None => locked locks file n
  | Some locks' => ~ locked locks file n /\ locks_wf locks' /\
      forall f m, locked locks' f m <-> locked locks f m \/ (f, m) = (file, n)
  end.
Proof.
  intros Hf Hwf. unfold sentence_lock_acquire, sentence_lock_find.
  destruct (find_first (lock_matches file n) locks) as [[i l]|] eqn:E; cbn [fmap option_fmap option_map].
  - apply find_first_Some in E as (Hl & Hm & _). apply lock_matches_spec in Hm. unfold locked. rewrite <- Hm.
    apply list_elem_of_fmap_2. by eapply list_elem_of_lookup_2.
  - apply lock_find_None in E. unfold locks_wf, locked in *. rewrite map_app. cbn [map].
    assert (lock_key (mk_lock (snprintf_s SS_NAME_MAX file) n (snprintf_s SS_USER_MAX usr)) = (file, n)) as ->
      by (unfold lock_key; cbn [l_file l_sentence]; by rewrite snprintf_s_id).
    split_and!; [done| |].
    + apply NoDup_app. split_and!; [done| |apply NoDup_singleton]. intros x Hx ->%list_elem_of_singleton. done.
    + intros f m. by rewrite elem_of_app, list_elem_of_singleton.
Qed.

(** Releasing unlocks that sentence and no other. *)
Lemma sentence_lock_release_spec locks file n :
  locks_wf locks ->
  locks_wf (sentence_lock_release locks file n) /\
  forall f m, locked (sentence_lock_release locks file n) f m <-> locked locks f m /\ (f, m) <> (file, n).
Proof.
  intros Hwf. unfold sentence_lock_release.
  destruct (find_first (lock_matches file n) locks) as [[i l]|] eqn:E.
  - apply find_first_Some in E as (Hl & Hm & _). apply lock_matches_spec in Hm.
    apply list_elem_of_split_length in Hl as (l1 & l2 & -> & ->). rewrite remove_at_middle.
    unfold locks_wf, locked in *. rewrite map_app in *. cbn [map] in Hwf.
    apply NoDup_app in Hwf as (N1 & N2 & [N3 N4]%NoDup_cons). split.
    + apply NoDup_app. split_and!; [done| |done]. intros x Hx Hx'. apply (N2 x Hx). by right.
    + intros f m. rewrite map_app. cbn [map]. rewrite !elem_of_app, elem_of_cons, Hm. split.
      * intros [H|H]; (split; [tauto|]); intros Heq; rewrite Heq, <- Hm in H; [|done]. apply (N2 _ H). left.
      * tauto.
  - apply lock_find_None in E. split; [done|]. intros f m. split; [|by intros []].
    intros H. split; [done|]. intros [= -> ->]. done.
Qed.
