(* ===== verification/SsServer.v ===== *)
(** * [ss/ss_main.c]: the storage server's request handlers

    The server's state is its document table, its files, the ticket and lock
    tables, and the messages it has sent on the socket to the name manager and to
    the client of the current connection.  A handler is a function on that state.
    A send succeeds unless the text does not fit its buffer; what the network
    delivers is an argument, and so is the clock, read once per request. *)

From S2P Require Import Prelude Cstr Json Proto SsText Fs SsState SsSession SsTables.

(** ** State *)

Record world := mk_world {
  w_state : ss_state;
  w_disk : disk;
  w_tickets : list auth_ticket;
  w_locks : list sentence_lock;
  w_nm : list cstr;
  w_peer : list cstr;
}.

Definition set_state (s : ss_state) (w : world) : world :=
  mk_world s (w_disk w) (w_tickets w) (w_locks w) (w_nm w) (w_peer w).
Definition set_disk (d : disk) (w : world) : world :=
  mk_world (w_state w) d (w_tickets w) (w_locks w) (w_nm w) (w_peer w).
Definition set_tickets (t : list auth_ticket) (w : world) : world :=
  mk_world (w_state w) (w_disk w) t (w_locks w) (w_nm w) (w_peer w).
Definition set_locks (l : list sentence_lock) (w : world) : world :=
  mk_world (w_state w) (w_disk w) (w_tickets w) l (w_nm w) (w_peer w).

(** Whether the text was sent, to the name manager and to the client. *)
Definition send_nm (m : option cstr) (w : world) : bool * world :=
  match m with
  | Some json => (true, mk_world (w_state w) (w_disk w) (w_tickets w) (w_locks w) (w_nm w ++ [json]) (w_peer w))
  | None => (false, w)
  end.
Definition send_peer (m : option cstr) (w : world) : bool * world :=
  match m with
  | Some json => (true, mk_world (w_state w) (w_disk w) (w_tickets w) (w_locks w) (w_nm w) (w_peer w ++ [json]))
  | None => (false, w)
  end.

Definition answer_nm (r : reply) (w : world) : world := snd (send_nm (reply_json r) w).
Definition answer_peer (r : reply) (w : world) : world := snd (send_peer (reply_json r) w).

(** [load_text] and [store_text_atomic] on the server's files; a document that
    cannot be loaded is taken for an empty one where the code does so. *)
Definition load (path : cstr) (w : world) : option cstr * world :=
  let '(r, d) := load_text path (w_disk w) in (fst <$> r, set_disk d w).
Definition store (path content : cstr) (w : world) : bool * world :=
  let '(ok, d) := store_text_atomic path content (w_disk w) in (ok, set_disk d w).

(** ** Shared steps *)

(** What [notify_nm_file_update] sends, if it fits. *)
Definition notify_payload (f : ss_file) : option cstr :=
  escaped_name ← json_escape_string (SS_NAME_MAX * 2) (name f);
  escaped_owner ← json_escape_string (SS_USER_MAX * 2) (owner f);
  escaped_last ← json_escape_string (SS_USER_MAX * 2) (last_access_user f);
  fit MAX_JSON
    (js "{'type':'SS_FILE_UPDATE','file':'" ++ escaped_name ++ js "','owner':'" ++ escaped_owner ++
     js "','words':" ++ show_nonneg (word_count f) ++ js ",'chars':" ++ show_nonneg (char_count f) ++
     js ",'modified':" ++ show_Z (modified f) ++ js ",'lastAccess':" ++ show_Z (last_access f) ++
     js ",'lastAccessUser':'" ++ escaped_last ++ js "'}").

Definition notify_nm_file_update (f : ss_file) (w : world) : world := snd (send_nm (notify_payload f) w).

Definition snapshot_file (file_name : cstr) (w : world) : option ss_file :=
  fst (ss_state_find (w_state w) file_name).

(** The block under the state lock: find the record and change it in place. *)
Definition update_record (file_name : cstr) (upd : ss_file -> ss_file) (w : world) : option ss_file * world :=
  match ss_state_find (w_state w) file_name with
  | (None, _) => (None, w)
  | (Some f, idx) => (Some (upd f), set_state (set_docs (<[idx := upd f]> (docs (w_state w))) (w_state w)) w)
  end.

(** The same with [ss_state_save_meta]; its result is ignored. *)
Definition update_and_save (file_name : cstr) (upd : ss_file -> ss_file) (w : world) : option ss_file * world :=
  match update_record file_name upd w with
  | (None, w) => (None, w)
  | (Some f, w) => (Some f, set_disk (snd (ss_state_save_meta f (w_disk w))) w)
  end.

Definition set_file_lock_state (file_name : cstr) (active : bool) (sentence : Z) (usr : option cstr) (w : world)
  : world :=
  snd (update_record file_name
         (with_lock active
            (match usr with Some u => if active then snprintf_s SS_USER_MAX u else [] | None => [] end)
            (if active then sentence else -1)) w).

(** [last_access] and [last_access_user]. *)
Definition touch (usr : cstr) (now : Z) (f : ss_file) : ss_file :=
  with_times (created f) (modified f) now (snprintf_s SS_USER_MAX usr) f.
(** New counters, and the times of a modification. *)
Definition modify (words chars : nat) (usr : cstr) (now : Z) (f : ss_file) : ss_file :=
  with_times (created f) now now (snprintf_s SS_USER_MAX usr) (with_counts (Z.of_nat words) (Z.of_nat chars) f).

Definition show_size (n : nat) : cstr := show_nonneg (Z.of_nat n).

(** ** Undo *)

Definition perform_undo (file_name usr : cstr) (now : Z) (w : world) : res (cstr * nat * nat) * world :=
  match snapshot_file file_name w with
  | None => (Err ENOENT, w)
  | Some view =>
      if lock_active view then (Err EBUSY, w)
      else
        let '(undo_text, w) := load (undo_path view) w in
        match undo_text with
        | None => (Err ENOENT, w)
        | Some undo_text =>
            let '(_, w) := load (data_path view) w in
            let '(stored, w) := store (data_path view) undo_text w in
            if negb stored then (Err ESYS, w)
            else
              let w := set_disk (snd (unlink (undo_path view) (w_disk w))) w in
              let new_chars := length undo_text in
              let new_words := count_words_in_text undo_text in
              match update_and_save file_name (modify new_words new_chars usr now) w with
              | (None, w) => (Err ENOENT, w)
              | (Some f, w) => (Ok (undo_text, new_words, new_chars), notify_nm_file_update f w)
              end
        end
  end.

(** ** Tickets *)

Definition validate_ticket (tok usr file op : cstr) (now : Z) (w : world) : bool * world :=
  let '(t, ts) := ticket_table_take now (w_tickets w) tok usr file op in
  (match t with Some _ => true | None => false end, set_tickets ts w).

(** ** Reading and streaming *)

Definition handle_read (file_name usr : cstr) (now : Z) (w : world) : world :=
  match snapshot_file file_name w with
  | None => answer_peer (RErr ERR_NOTFOUND (cs "file not found")) w
  | Some view =>
      let '(text, w) := load (data_path view) w in
      match json_escape_dup (default [] text) with
      | None => answer_peer (RErr ERR_INTERNAL (cs "encode failed")) w
      | Some escaped =>
          let '(meta, w) := update_and_save file_name (touch usr now) w in
          let w := match meta with Some f => notify_nm_file_update f w | None => w end in
          let f := default view meta in
          match fit MAX_JSON (js "'file':'" ++ name view ++ js "','content':'" ++ escaped ++
                              js "','words':" ++ show_nonneg (word_count f) ++
                              js ",'chars':" ++ show_nonneg (char_count f)) with
          | None => answer_peer (RErr ERR_INTERNAL (cs "response too large")) w
          | Some extra => answer_peer (ROk extra) w
          end
      end
  end.

(** The words are sent one message each; a word that cannot be encoded is skipped. *)
Fixpoint stream_words (words : list cstr) (w : world) : world :=
  match words with
  | [] => w
  | x :: words =>
      match json_escape_dup x with
      | None => stream_words words w
      | Some escaped =>
          match fit 1024 (js "{'status':'DATA','word':'" ++ escaped ++ js "'}") with
          | None => stream_words words w
          | Some msg => stream_words words (snd (send_peer (Some msg) w))
          end
      end
  end.

Definition handle_stream (file_name usr : cstr) (now : Z) (w : world) : world :=
  match snapshot_file file_name w with
  | None => answer_peer (RErr ERR_NOTFOUND (cs "file not found")) w
  | Some view =>
      let '(text, w) := load (data_path view) w in
      let words := split_words (default [] text) in
      match fit 256 (js "'mode':'STREAM','words':" ++ show_size (length words)) with
      | None => answer_peer (RErr ERR_INTERNAL (cs "response too large")) w
      | Some header =>
          let '(sent, w) := send_peer (send_ok header) w in
          if negb sent then w
          else
            let w := stream_words words w in
            let w := snd (send_peer (Some (js "{'status':'DONE'}")) w) in
            match update_and_save file_name (touch usr now) w with
            | (Some f, w) => notify_nm_file_update f w
            | (None, w) => w
            end
      end
  end.

(** ** Writing *)

(** Leaving [handle_write] before its loop. *)
Definition write_bail (file_name : cstr) (sentence : Z) (w : world) : world :=
  let w := set_file_lock_state file_name false (-1) None w in
  set_locks (sentence_lock_release (w_locks w) file_name sentence) w.

(** [handle_write] up to its loop: the session and the snapshot it works with. *)
Definition write_open (file_name usr : cstr) (sentence : Z) (w : world)
  : option (write_session * ss_file) * world :=
  match snapshot_file file_name w with
  | None => (None, answer_peer (RErr ERR_NOTFOUND (cs "file not found")) w)
  | Some view =>
      match sentence_lock_acquire (w_locks w) file_name sentence usr with
      | None => (None, answer_peer (RErr ERR_LOCKED (cs "sentence locked")) w)
      | Some ls =>
          let w := set_locks ls w in
          let w := set_file_lock_state file_name true sentence (Some usr) w in
          let '(r, session, d) := write_session_begin view usr sentence (w_disk w) in
          let w := set_disk d w in
          match r with
          | Err e =>
              let w := write_bail file_name sentence w in
              (None, answer_peer (if decide (e = EINVAL) then RErr ERR_BADREQ (cs "sentence index out of range")
                                  else RErr ERR_INTERNAL (cs "write init failed")) w)
          | Ok _ =>
              match json_escape_dup (sentence_text session) with
              | None => (None, answer_peer (RErr ERR_INTERNAL (cs "encode failed")) (write_bail file_name sentence w))
              | Some escaped =>
                  match fit MAX_JSON (js "'mode':'WRITE','current':'" ++ escaped ++ js "','sentence':" ++ show_Z sentence) with
                  | None => (None, answer_peer (RErr ERR_INTERNAL (cs "response too large")) (write_bail file_name sentence w))
                  | Some extra =>
                      let '(sent, w) := send_peer (send_ok extra) w in
                      if sent then (Some (session, view), w) else (None, write_bail file_name sentence w)
                  end
              end
          end
      end
  end.

(** The answer to an edit. *)
Definition edit_reply (r : res unit) (failed step : cstr) : reply :=
  match r with
  | Ok _ => ROk step
  | Err e => if decide (e = EINVAL) then RErr ERR_BADREQ (cs "word index out of range") else RErr ERR_CONFLICT failed
  end.

(** The answer to a successful commit. *)
Definition commit_reply (text : cstr) (words chars : nat) : reply :=
  match json_escape_dup text with
  | Some escaped =>
      match fit MAX_JSON (js "'step':'COMMIT','words':" ++ show_size words ++ js ",'chars':" ++ show_size chars ++
                          js ",'content':'" ++ escaped ++ js "'") with
      | Some extra => ROk extra
      | None => ROk (js "'step':'COMMIT'")
      end
  | None => ROk (js "'step':'COMMIT'")
  end.

(** One message of the loop of [handle_write]: [None] when the loop ends.  The
    handler is modelled for the runs in which the uninitialised flag of
    [write_session_commit] reads zero, so that a conflict is answered; the case
    [None] of the commit does not arise then ([commit_zero_defined]). *)
Definition write_message (file_name usr : cstr) (view : ss_file) (now : Z) (json : cstr)
    (session : write_session) (w : world) : option write_session * world :=
  match json_get_string json (cs "type") 64 with
  | None => (Some session, answer_peer (RErr ERR_BADREQ (cs "missing type")) w)
  | Some type =>
      if streq type (cs "WRITE_INSERT") then
        match json_get_int json (cs "index") with
        | None => (Some session, answer_peer (RErr ERR_BADREQ (cs "missing index")) w)
        | Some index =>
            match json_get_string_alloc json (cs "content") with
            | None => (Some session, answer_peer (RErr ERR_BADREQ (cs "missing content")) w)
            | Some content =>
                let '(r, session) := write_session_apply_insert session index content in
                (Some session, answer_peer (edit_reply r (cs "insert failed") (js "'step':'INSERT'")) w)
            end
        end
      else if streq type (cs "WRITE_REPLACE") then
        match json_get_int json (cs "index") with
        | None => (Some session, answer_peer (RErr ERR_BADREQ (cs "missing index")) w)
        | Some index =>
            match json_get_string_alloc json (cs "content") with
            | None => (Some session, answer_peer (RErr ERR_BADREQ (cs "missing content")) w)
            | Some content =>
                let '(r, session) := write_session_apply_replace session index content in
                (Some session, answer_peer (edit_reply r (cs "replace failed") (js "'step':'REPLACE'")) w)
            end
        end
      else if streq type (cs "WRITE_DELETE") then
        match json_get_int json (cs "index") with
        | None => (Some session, answer_peer (RErr ERR_BADREQ (cs "missing index")) w)
        | Some index =>
            let '(r, session) := write_session_apply_delete session index in
            (Some session, answer_peer (edit_reply r (cs "delete failed") (js "'step':'DELETE'")) w)
        end
      else if streq type (cs "WRITE_COMMIT") then
        match write_session_commit 0 session view (w_disk w) with
        | None => (None, w)
        | Some (Err e, session, d) =>
            (None, answer_peer (if decide (e = EAGAIN) then RErr ERR_CONFLICT (cs "sentence modified by another writer")
                                else RErr ERR_INTERNAL (cs "commit failed")) (set_disk d w))
        | Some (Ok (text, words, chars), session, d) =>
            let w := set_disk d w in
            let w := answer_peer (commit_reply text words chars) w in
            match update_and_save file_name
                    (fun f => with_lock false (lock_user f) (-1) (modify words chars usr now f)) w with
            | (Some f, w) => (None, notify_nm_file_update f w)
            | (None, w) => (None, w)
            end
        end
      else if streq type (cs "WRITE_ABORT") then (None, answer_peer (ROk (js "'step':'ABORT'")) w)
      else (Some session, answer_peer (RErr ERR_BADREQ (cs "unknown write command")) w)
  end.

(** After the loop. *)
Definition write_close (file_name : cstr) (sentence : Z) (w : world) : world :=
  let w := set_locks (sentence_lock_release (w_locks w) file_name sentence) w in
  set_file_lock_state file_name false (-1) None w.

(** The loop; it ends with the messages when the client goes away. *)
Fixpoint write_loop (file_name usr : cstr) (view : ss_file) (now : Z) (msgs : list cstr)
    (session : write_session) (w : world) : world :=
  match msgs with
  | [] => w
  | json :: msgs =>
      match write_message file_name usr view now json session w with
      | (Some session, w) => write_loop file_name usr view now msgs session w
      | (None, w) => w
      end
  end.

Definition handle_write (file_name usr : cstr) (sentence : Z) (now : Z) (msgs : list cstr) (w : world) : world :=
  match write_open file_name usr sentence w with
  | (None, w) => w
  | (Some (session, view), w) => write_close file_name sentence (write_loop file_name usr view now msgs session w)
  end.

(** ** The data port *)

(** One connection: the first message, and those that follow. *)
Definition handle_data_client (json : cstr) (msgs : list cstr) (now : Z) (w : world) : world :=
  match json_get_string json (cs "type") 64, json_get_string json (cs "file") SS_NAME_MAX,
        json_get_string json (cs "user") SS_USER_MAX, json_get_string json (cs "ticket") 64 with
  | Some type, Some file_name, Some usr, Some tok =>
      if streq type (cs "READ") then
        let '(ok, w) := validate_ticket tok usr file_name (cs "READ") now w in
        if ok then handle_read file_name usr now w else answer_peer (RErr ERR_NOAUTH (cs "invalid ticket")) w
      else if streq type (cs "STREAM") then
        let '(ok, w) := validate_ticket tok usr file_name (cs "STREAM") now w in
        if ok then handle_stream file_name usr now w else answer_peer (RErr ERR_NOAUTH (cs "invalid ticket")) w
      else if streq type (cs "WRITE_BEGIN") then
        match json_get_int json (cs "sentence") with
        | None => answer_peer (RErr ERR_BADREQ (cs "missing sentence")) w
        | Some sentence =>
            let '(ok, w) := validate_ticket tok usr file_name (cs "WRITE") now w in
            if ok then handle_write file_name usr sentence now msgs w
            else answer_peer (RErr ERR_NOAUTH (cs "invalid ticket")) w
        end
      else answer_peer (RErr ERR_BADREQ (cs "unsupported operation")) w
  | _, _, _, _ => answer_peer (RErr ERR_BADREQ (cs "missing fields")) w
  end.

(** ** Checkpoints *)

(** [ensure_directory]: directories are not part of the model, the call may fail. *)
Definition ensure_directory (w : world) : bool * world :=
  let '(ok, d) := plain_call (w_disk w) in (ok, set_disk d w).

(** [snprintf] into a path: [ENAMETOOLONG] when it does not fit. *)
Definition fit_path (size : nat) (s : cstr) : res cstr :=
  match fit size s with Some p => Ok p | None => Err ENAMETOOLONG end.

Definition ensure_checkpoint_dir (file_name : cstr) (dir_sz : nat) (w : world) : res cstr * world :=
  match fit_path 512 (checkpoints_dir (w_state w) ++ "/"%char :: file_name) with
  | Err e => (Err e, w)
  | Ok dir =>
      let '(ok, w) := ensure_directory w in
      if ok then (fit_path dir_sz dir, w) else (Err ESYS, w)
  end.

Definition build_checkpoint_path (file_name tag : cstr) (path_sz : nat) (w : world) : res cstr * world :=
  match ensure_checkpoint_dir file_name 512 w with
  | (Err e, w) => (Err e, w)
  | (Ok dir, w) => (fit_path path_sz (dir ++ "/"%char :: tag), w)
  end.

Definition ss_create_checkpoint (file_name tag usr : cstr) (w : world) : res unit * world :=
  if negb (valid_filename tag) then (Err EINVAL, w)
  else
    match snapshot_file file_name w with
    | None => (Err ESYS, w)
    | Some view =>
        let '(content, w) := load (data_path view) w in
        match build_checkpoint_path file_name tag 512 w with
        | (Err e, w) => (Err e, w)
        | (Ok path, w) =>
            let '(stored, w) := store path (default [] content) w in
            (if stored then Ok tt else Err ESYS, w)
        end
    end.

Definition ss_read_checkpoint (file_name tag : cstr) (w : world) : res cstr * world :=
  if negb (valid_filename tag) then (Err EINVAL, w)
  else
    match build_checkpoint_path file_name tag 512 w with
    | (Err e, w) => (Err e, w)
    | (Ok path, w) =>
        let '(content, w) := load path w in
        (match content with Some c => Ok c | None => Err ENOENT end, w)
    end.

Definition ss_revert_checkpoint (file_name tag usr : cstr) (now : Z) (w : world) : res unit * world :=
  if negb (valid_filename tag) then (Err EINVAL, w)
  else
    match build_checkpoint_path file_name tag 512 w with
    | (Err e, w) => (Err e, w)
    | (Ok path, w) =>
        let '(checkpoint, w) := load path w in
        match checkpoint with
        | None => (Err ENOENT, w)
        | Some checkpoint =>
            match snapshot_file file_name w with
            | None => (Err ESYS, w)
            | Some view =>
                if lock_active view then (Err EBUSY, w)
                else
                  let '(current, w) := load (data_path view) w in
                  let '(undo_stored, w) := store (undo_path view) (default [] current) w in
                  if negb undo_stored then (Err ESYS, w)
                  else
                    let '(stored, w) := store (data_path view) checkpoint w in
                    if negb stored then (Err ESYS, w)
                    else
                      match update_and_save file_name
                              (modify (count_words_in_text checkpoint) (length checkpoint) usr now) w with
                      | (None, w) => (Err ENOENT, w)
                      | (Some f, w) => (Ok tt, notify_nm_file_update f w)
                      end
            end
        end
    end.

(** [respond_checkpoint_error] *)
Definition checkpoint_error (err : errno) (msg : cstr) : reply :=
  match err with
  | ENOENT => RErr ERR_NOTFOUND msg
  | EINVAL | ENAMETOOLONG => RErr ERR_BADREQ msg
  | _ => RErr ERR_INTERNAL msg
  end.

(** ** Commands of the name manager *)

Section Commands.
(** The network to the other storage servers: host, port and request to the
    response, [None] when connecting, sending or receiving fails. *)
Context (rpc : cstr -> cstr -> cstr -> option cstr).
(** The text [strerror] gives. *)
Context (strerror : errno -> cstr).

Definition ss_fetch_remote_content (host port file usr ticket : cstr) : option cstr :=
  file_esc ← json_escape_dup file;
  user_esc ← json_escape_dup usr;
  ticket_esc ← json_escape_dup ticket;
  payload ← fit MAX_JSON (js "{'type':'READ','file':'" ++ file_esc ++ js "','user':'" ++ user_esc ++
                          js "','ticket':'" ++ ticket_esc ++ js "'}");
  response ← rpc host port payload;
  if status_is_ok response then json_get_string_alloc response (cs "content") else None.

Definition handle_nm_sync (json : cstr) (now : Z) (w : world) : world :=
  match json_get_string json (cs "file") SS_NAME_MAX, json_get_string json (cs "owner") SS_USER_MAX,
        json_get_string json (cs "sourceHost") 64, json_get_string json (cs "sourcePort") 16,
        json_get_string json (cs "ticket") 64 with
  | Some file_name, Some own, Some host, Some port, Some ticket =>
      match ss_fetch_remote_content host port file_name own ticket with
      | None => answer_nm (RErr ERR_INTERNAL (cs "sync failed")) w
      | Some content =>
          let w := match snapshot_file file_name w with
                   | Some _ => w
                   | None => let '(_, s, d) := ss_state_add (w_state w) file_name own now (w_disk w) in
                             set_disk d (set_state s w)
                   end in
          match snapshot_file file_name w with
          | None => answer_nm (RErr ERR_INTERNAL (cs "sync failed")) w
          | Some view =>
              let '(existing, w) := load (data_path view) w in
              let '(undo_stored, w) := store (undo_path view) (default [] existing) w in
              if negb undo_stored then answer_nm (RErr ERR_INTERNAL (cs "sync failed")) w
              else
                let '(stored, w) := store (data_path view) content w in
                if negb stored then answer_nm (RErr ERR_INTERNAL (cs "sync failed")) w
                else
                  match update_and_save file_name
                          (with_counts (Z.of_nat (count_words_in_text content)) (Z.of_nat (length content))) w with
                  | (None, w) => answer_nm (RErr ERR_INTERNAL (cs "sync failed")) w
                  | (Some _, w) => answer_nm (ROk (js "'op':'SYNC'")) w
                  end
          end
      end
  | _, _, _, _, _ => answer_nm (RErr ERR_BADREQ (cs "invalid sync")) w
  end.

Definition handle_nm_ticket_command (json : cstr) (w : world) : world :=
  match json_get_string json (cs "token") 64, json_get_string json (cs "file") SS_NAME_MAX,
        json_get_string json (cs "user") SS_USER_MAX, json_get_string json (cs "op") 16,
        json_get_int json (cs "expiry") with
  | Some tok, Some file_name, Some usr, Some op, Some exp =>
      answer_nm (ROk (js "'op':'TICKET'")) (set_tickets (ticket_table_add (w_tickets w) tok file_name usr op exp) w)
  | _, _, _, _, _ => answer_nm (RErr ERR_BADREQ (cs "invalid ticket")) w
  end.

Definition nm_create (json : cstr) (now : Z) (w : world) : world :=
  match json_get_string json (cs "file") SS_NAME_MAX, json_get_string json (cs "owner") SS_USER_MAX with
  | Some n, Some own =>
      if negb (valid_filename n) then answer_nm (RErr ERR_BADREQ (cs "invalid create")) w
      else
        let '(r, s, d) := ss_state_add (w_state w) n own now (w_disk w) in
        let w := set_disk d (set_state s w) in
        answer_nm (match r with Ok _ => ROk (js "'op':'CREATE'") | Err e => RErr ERR_EXISTS (strerror e) end) w
  | _, _ => answer_nm (RErr ERR_BADREQ (cs "invalid create")) w
  end.

Definition nm_delete (json : cstr) (w : world) : world :=
  match json_get_string json (cs "file") SS_NAME_MAX with
  | Some n =>
      if negb (valid_filename n) then answer_nm (RErr ERR_BADREQ (cs "invalid delete")) w
      else
        match snapshot_file n w with
        | None => answer_nm (RErr ERR_NOTFOUND (cs "file missing")) w
        | Some f =>
            if lock_active f then answer_nm (RErr ERR_LOCKED (cs "file locked for write")) w
            else
              let '(r, s, d) := ss_state_remove (w_state w) n (w_disk w) in
              let w := set_disk d (set_state s w) in
              answer_nm (match r with Ok _ => ROk (js "'op':'DELETE'")
                                 | Err _ => RErr ERR_INTERNAL (cs "delete failed") end) w
        end
  | None => answer_nm (RErr ERR_BADREQ (cs "invalid delete")) w
  end.

Definition nm_undo (json : cstr) (now : Z) (w : world) : world :=
  match json_get_string json (cs "file") SS_NAME_MAX, json_get_string json (cs "user") SS_USER_MAX with
  | Some file_name, Some usr =>
      match perform_undo file_name usr now w with
      | (Err e, w) =>
          answer_nm (if decide (e = EBUSY) then RErr ERR_LOCKED (cs "file locked for write")
                     else RErr ERR_CONFLICT (cs "undo not possible")) w
      | (Ok (text, words, chars), w) =>
          answer_nm (ROk match json_escape_dup text with
            | Some escaped => default (js "'op':'UNDO'")
                (fit MAX_JSON (js "'op':'UNDO','words':" ++ show_size words ++ js ",'chars':" ++ show_size chars ++
                               js ",'content':'" ++ escaped ++ js "'"))
            | None => js "'op':'UNDO'"
            end) w
      end
  | _, _ => answer_nm (RErr ERR_BADREQ (cs "invalid undo")) w
  end.

(** The fields the three checkpoint commands start with. *)
Definition checkpoint_request (json : cstr) (w : world)
    (k : cstr -> cstr -> cstr -> world) : world :=
  match json_get_string json (cs "file") SS_NAME_MAX, json_get_string json (cs "tag") SS_NAME_MAX,
        json_get_string json (cs "user") SS_USER_MAX with
  | Some file_name, Some tag, Some usr =>
      if negb (valid_filename tag) then answer_nm (RErr ERR_BADREQ (cs "invalid tag")) w else k file_name tag usr
  | _, _, _ => answer_nm (RErr ERR_BADREQ (cs "invalid checkpoint")) w
  end.

Definition nm_checkpoint_create (json : cstr) (w : world) : world :=
  checkpoint_request json w (fun file_name tag usr =>
    match ss_create_checkpoint file_name tag usr w with
    | (Err e, w) => answer_nm (checkpoint_error e (cs "checkpoint create failed")) w
    | (Ok _, w) => answer_nm (ROk (js "'op':'CHECKPOINT'")) w
    end).

Definition nm_checkpoint_view (json : cstr) (w : world) : world :=
  checkpoint_request json w (fun file_name tag usr =>
    match ss_read_checkpoint file_name tag w with
    | (Err e, w) => answer_nm (checkpoint_error e (cs "checkpoint missing")) w
    | (Ok content, w) =>
        match json_escape_dup content with
        | None => answer_nm (RErr ERR_INTERNAL (cs "encoding error")) w
        | Some escaped =>
            match fit MAX_JSON (js "'content':'" ++ escaped ++ js "'") with
            | None => answer_nm (RErr ERR_INTERNAL (cs "response too large")) w
            | Some extra => answer_nm (ROk extra) w
            end
        end
    end).

Definition nm_checkpoint_revert (json : cstr) (now : Z) (w : world) : world :=
  checkpoint_request json w (fun file_name tag usr =>
    match ss_revert_checkpoint file_name tag usr now w with
    | (Err e, w) => answer_nm (if decide (e = EBUSY) then RErr ERR_LOCKED (cs "file locked for write")
                               else checkpoint_error e (cs "checkpoint revert failed")) w
    | (Ok _, w) => answer_nm (ROk (js "'op':'REVERT'")) w
    end).

(** [process_nm_command] once the message is received. *)
Definition process_nm_command (json : cstr) (now : Z) (w : world) : world :=
  match json_get_string json (cs "type") 64 with
  | None => answer_nm (RErr ERR_BADREQ (cs "missing type")) w
  | Some type =>
      if streq type (cs "NM_CREATE") then nm_create json now w
      else if streq type (cs "NM_DELETE") then nm_delete json w
      else if streq type (cs "NM_TICKET") then handle_nm_ticket_command json w
      else if streq type (cs "NM_UNDO") then nm_undo json now w
      else if streq type (cs "NM_CHECKPOINT_CREATE") then nm_checkpoint_create json w
      else if streq type (cs "NM_CHECKPOINT_VIEW") then nm_checkpoint_view json w
      else if streq type (cs "NM_CHECKPOINT_REVERT") then nm_checkpoint_revert json now w
      else if streq type (cs "NM_SYNC") then handle_nm_sync json now w
      else if streq type (cs "PING") then answer_nm (ROk (js "'op':'PING'")) w
      else answer_nm (RErr ERR_BADREQ (cs "unknown command")) w
  end.

End Commands.

(** [build_file_list]: the bytes written before [offset], and whether a NUL stands
    at [offset].  The comma overwrites the NUL of the names before it, so when the
    next name does not fit the text is not terminated. *)
Fixpoint file_list_loop (fs : list ss_file) (out : cstr) (out_size : nat) : cstr * bool :=
  match fs with
  | [] => (out, true)
  | f :: fs =>
      if negb (length out =? 0) && (out_size <=? length out + 1) then (out, true)
      else
        let out' := if length out =? 0 then out else out ++ [","%char] in
        if out_size <=? length out' + length (name f) then (out', length out =? 0)
        else file_list_loop fs (out' ++ name f) out_size
  end.

Definition build_file_list (w : world) (out_size : nat) : cstr * bool :=
  file_list_loop (docs (w_state w)) [] out_size.

(** ** The invariant of the server *)

(** The table is sorted and its names fit their buffers. *)
Definition docs_ok (w : world) : Prop :=
  sorted (docs (w_state w)) /\ Forall (fun f => length (name f) < SS_NAME_MAX) (docs (w_state w)).

(** [keeps w w']: the locks are as before and the table is still well formed. *)
Definition keeps (w w' : world) : Prop := w_locks w' = w_locks w /\ (docs_ok w -> docs_ok w').

Create HintDb keeps.

Lemma keeps_refl w : keeps w w.
Proof. done. Qed.

Lemma keeps_trans w1 w2 w3 : keeps w1 w2 -> keeps w2 w3 -> keeps w1 w3.
Proof. intros [L1 D1] [L2 D2]. split; [congruence|auto]. Qed.

Lemma keeps_answer_nm r w w1 : keeps w w1 -> keeps w (answer_nm r w1).
Proof. intros H. unfold answer_nm. by destruct (reply_json r). Qed.
Lemma keeps_answer_peer r w w1 : keeps w w1 -> keeps w (answer_peer r w1).
Proof. intros H. unfold answer_peer. by destruct (reply_json r). Qed.
Lemma keeps_send_peer m b w w1 w2 : send_peer m w1 = (b, w2) -> keeps w w1 -> keeps w w2.
Proof. destruct m; intros [= <- <-] H; done. Qed.
Lemma keeps_snd_send_peer m w w1 : keeps w w1 -> keeps w (snd (send_peer m w1)).
Proof. by destruct m. Qed.
Lemma keeps_notify f w w1 : keeps w w1 -> keeps w (notify_nm_file_update f w1).
Proof. intros H. unfold notify_nm_file_update. by destruct (notify_payload f). Qed.
Lemma keeps_load p r w w1 w2 : load p w1 = (r, w2) -> keeps w w1 -> keeps w w2.
Proof. unfold load. destruct (load_text p (w_disk w1)). intros [= <- <-] H. done. Qed.
Lemma keeps_store p c b w w1 w2 : store p c w1 = (b, w2) -> keeps w w1 -> keeps w w2.
Proof. unfold store. destruct (store_text_atomic p c (w_disk w1)). intros [= <- <-] H. done. Qed.
Lemma keeps_set_disk d w w1 : keeps w w1 -> keeps w (set_disk d w1).
Proof. done. Qed.
Lemma keeps_set_tickets t w w1 : keeps w w1 -> keeps w (set_tickets t w1).
Proof. done. Qed.
Lemma keeps_validate tok u f op now b w w1 w2 :
  validate_ticket tok u f op now w1 = (b, w2) -> keeps w w1 -> keeps w w2.
Proof. unfold validate_ticket. destruct (ticket_table_take _ _ _ _ _ _). intros [= <- <-] H. done. Qed.
Lemma keeps_ensure_dir b w w1 w2 : ensure_directory w1 = (b, w2) -> keeps w w1 -> keeps w w2.
Proof. unfold ensure_directory. destruct (plain_call _). intros [= <- <-] H. done. Qed.
Lemma keeps_checkpoint_path f t n r w w1 w2 : build_checkpoint_path f t n w1 = (r, w2) -> keeps w w1 -> keeps w w2.
Proof.
  unfold build_checkpoint_path, ensure_checkpoint_dir. intros E H.
  destruct (fit_path 512 _); [|by simplify_eq]. destruct (ensure_directory w1) as [b w3] eqn:E3.
  pose proof (keeps_ensure_dir _ _ _ _ E3 H). destruct b; [|by simplify_eq]. destruct (fit_path 512 _); by simplify_eq.
Qed.

(** Changing a record in place, its name kept. *)
Lemma keeps_update_record n upd r w w1 w2 :
  (forall f, name (upd f) = name f) -> update_record n upd w1 = (r, w2) -> keeps w w1 -> keeps w w2.
Proof.
  intros Hu E H. eapply keeps_trans; [exact H|]. unfold update_record in E.
  destruct (ss_state_find (w_state w1) n) as [[f|] idx] eqn:Ef; simplify_eq; [|done]. split; [done|].
  intros [Hs Hn]. destruct (ss_state_find_spec (w_state w1) n f idx Hs Ef) as [Hf _].
  unfold docs_ok. cbn [w_state set_state docs set_docs]. split.
  - by apply sorted_update with f.
  - apply Forall_insert; [done|]. rewrite Hu. by eapply Forall_lookup_1 in Hn; [|exact Hf].
Qed.

Lemma keeps_update_and_save n upd r w w1 w2 :
  (forall f, name (upd f) = name f) -> update_and_save n upd w1 = (r, w2) -> keeps w w1 -> keeps w w2.
Proof.
  intros Hu E H. unfold update_and_save in E. destruct (update_record n upd w1) as [r1 w3] eqn:E1.
  pose proof (keeps_update_record _ _ _ _ _ _ Hu E1 H) as H3. destruct r1; by simplify_eq.
Qed.

Lemma keeps_lock_state f a n u w w1 : keeps w w1 -> keeps w (set_file_lock_state f a n u w1).
Proof.
  intros H. unfold set_file_lock_state. destruct (update_record _ _ _) eqn:E.
  eapply keeps_update_record; [|exact E|done]. done.
Qed.

#[export] Hint Resolve keeps_refl keeps_answer_nm keeps_answer_peer keeps_snd_send_peer keeps_notify
  keeps_set_disk keeps_set_tickets keeps_lock_state : keeps.
#[export] Hint Extern 4 (keeps _ ?w) =>
  match goal with
  | H : send_peer _ _ = (_, w) |- _ => eapply keeps_send_peer; [exact H|]
  | H : load _ _ = (_, w) |- _ => eapply keeps_load; [exact H|]
  | H : store _ _ _ = (_, w) |- _ => eapply keeps_store; [exact H|]
  | H : validate_ticket _ _ _ _ _ _ = (_, w) |- _ => eapply keeps_validate; [exact H|]
  | H : build_checkpoint_path _ _ _ _ = (_, w) |- _ => eapply keeps_checkpoint_path; [exact H|]
  | H : update_and_save _ _ _ = (_, w) |- _ => eapply keeps_update_and_save; [|exact H|]; [done|]
  end : keeps.

(** Case analysis on a handler's body, then the chain of its steps. *)
Ltac keep := cbv zeta; repeat break_goal; cbn [fst snd]; eauto 30 with keeps.

Lemma perform_undo_keeps f u now w : keeps w (snd (perform_undo f u now w)).
Proof. unfold perform_undo. keep. Qed.

Lemma handle_read_keeps f u now w : keeps w (handle_read f u now w).
Proof. unfold handle_read. keep. Qed.

Lemma stream_words_keeps words w w1 : keeps w w1 -> keeps w (stream_words words w1).
Proof.
  revert w1. induction words as [|x words IH]; intros w1 H; cbn [stream_words]; [done|].
  destruct (json_escape_dup x); [|auto]. destruct (fit 1024 _); auto.
Qed.
#[export] Hint Resolve stream_words_keeps : keeps.

Lemma handle_stream_keeps f u now w : keeps w (handle_stream f u now w).
Proof. unfold handle_stream. keep. Qed.

Lemma write_message_keeps f u view now json s w : keeps w (snd (write_message f u view now json s w)).
Proof. unfold write_message. keep. Qed.

Lemma write_loop_keeps f u view now msgs s w : keeps w (write_loop f u view now msgs s w).
Proof.
  revert s w. induction msgs as [|json msgs IH]; intros s w; cbn [write_loop]; [done|].
  pose proof (write_message_keeps f u view now json s w) as H.
  destruct (write_message f u view now json s w) as [[s'|] w']; [|done]. by eapply keeps_trans.
Qed.

Lemma checkpoint_request_keeps json w k :
  (forall f t u, keeps w (k f t u)) -> keeps w (checkpoint_request json w k).
Proof. intros H. unfold checkpoint_request. keep. Qed.

Lemma ss_create_checkpoint_keeps f t u w : keeps w (snd (ss_create_checkpoint f t u w)).
Proof. unfold ss_create_checkpoint. keep. Qed.
Lemma ss_read_checkpoint_keeps f t w : keeps w (snd (ss_read_checkpoint f t w)).
Proof. unfold ss_read_checkpoint. keep. Qed.
Lemma ss_revert_checkpoint_keeps f t u now w : keeps w (snd (ss_revert_checkpoint f t u now w)).
Proof. unfold ss_revert_checkpoint. keep. Qed.

Lemma add_keeps n o now w r s d :
  length n < SS_NAME_MAX -> ss_state_add (w_state w) n o now (w_disk w) = (r, s, d) ->
  keeps w (set_disk d (set_state s w)).
Proof.
  intros Hn E. split; [done|]. intros [Hs Hl]. pose proof (ss_state_add_cases (w_state w) n o now (w_disk w) Hs Hn) as H.
  rewrite E in H. unfold docs_ok. cbn [w_state set_disk set_state].
  destruct (doc_map (docs (w_state w)) !! n); [by destruct H as (_ & -> & _)|].
  destruct r as [[]|e]; [|by destruct H as (_ & ->)]. destruct H as (i & -> & Hso). split; [done|].
  cbn [docs set_docs]. apply Forall_forall. intros f [->|Hf]%elem_of_insert_at.
  - by rewrite new_file_name.
  - rewrite Forall_forall in Hl. by apply Hl.
Qed.

Lemma remove_keeps n w r s d :
  ss_state_remove (w_state w) n (w_disk w) = (r, s, d) -> keeps w (set_disk d (set_state s w)).
Proof.
  intros E. split; [done|]. intros [Hs Hl]. unfold ss_state_remove in E. unfold docs_ok. cbn [w_state set_disk set_state].
  destruct (ss_state_find (w_state w) n) as [[f|] i]; simplify_eq; [|done]. cbn [docs set_docs].
  split; [by apply sorted_remove_at|]. apply Forall_forall. intros g Hg%elem_of_remove_at.
  rewrite Forall_forall in Hl. by apply Hl.
Qed.

Lemma nm_create_keeps strerror json now w : keeps w (nm_create strerror json now w).
Proof.
  unfold nm_create. destruct (json_get_string json (cs "file") SS_NAME_MAX) as [n|] eqn:Hn; [|keep].
  apply json_get_string_length in Hn. destruct (json_get_string json (cs "owner") SS_USER_MAX); [|keep].
  destruct (negb (valid_filename n)); [keep|].
  destruct (ss_state_add _ _ _ _ _) as [[r s] d] eqn:E. apply add_keeps in E; [|done]. keep.
Qed.

Lemma nm_delete_keeps json w : keeps w (nm_delete json w).
Proof.
  unfold nm_delete. destruct (json_get_string json (cs "file") SS_NAME_MAX) as [n|]; [|keep].
  destruct (negb (valid_filename n)); [keep|]. destruct (snapshot_file n w) as [f|]; [|keep].
  destruct (lock_active f); [keep|].
  destruct (ss_state_remove _ _ _) as [[r s] d] eqn:E. apply remove_keeps in E. keep.
Qed.

Lemma nm_undo_keeps json now w : keeps w (nm_undo json now w).
Proof.
  unfold nm_undo. destruct (json_get_string json (cs "file") SS_NAME_MAX) as [f|]; [|keep].
  destruct (json_get_string json (cs "user") SS_USER_MAX) as [u|]; [|keep].
  pose proof (perform_undo_keeps f u now w) as H.
  destruct (perform_undo f u now w) as [[[[t x] y]|e] w']; cbn [snd] in H; keep.
Qed.

Lemma handle_nm_sync_keeps rpc json now w : keeps w (handle_nm_sync rpc json now w).
Proof.
  unfold handle_nm_sync. destruct (json_get_string json (cs "file") SS_NAME_MAX) as [n|] eqn:Hn; [|keep].
  apply json_get_string_length in Hn. do 4 (destruct (json_get_string _ _ _); [|keep]).
  destruct (ss_fetch_remote_content _ _ _ _ _ _); [|keep].
  set (w1 := match snapshot_file n w with Some _ => w | None => _ end).
  assert (keeps w w1) as H1.
  { unfold w1. destruct (snapshot_file n w); [done|].
    destruct (ss_state_add _ _ _ _ _) as [[r s] d] eqn:E. by apply add_keeps in E. }
  clearbody w1. keep.
Qed.

(** Every command of the name manager keeps the invariant and the sentence locks. *)
Lemma process_nm_command_keeps rpc strerror json now w : keeps w (process_nm_command rpc strerror json now w).
Proof.
  unfold process_nm_command. destruct (json_get_string json (cs "type") 64) as [t|]; [|keep].
  destruct (streq t (cs "NM_CREATE")); [apply nm_create_keeps|].
  destruct (streq t (cs "NM_DELETE")); [apply nm_delete_keeps|].
  destruct (streq t (cs "NM_TICKET")); [unfold handle_nm_ticket_command; keep|].
  destruct (streq t (cs "NM_UNDO")); [apply nm_undo_keeps|].
  destruct (streq t (cs "NM_CHECKPOINT_CREATE")).
  { apply checkpoint_request_keeps. intros f g u. pose proof (ss_create_checkpoint_keeps f g u w) as H.
    destruct (ss_create_checkpoint f g u w) as [[] w']; cbn [snd] in H; keep. }
  destruct (streq t (cs "NM_CHECKPOINT_VIEW")).
  { apply checkpoint_request_keeps. intros f g u. pose proof (ss_read_checkpoint_keeps f g w) as H.
    destruct (ss_read_checkpoint f g w) as [[] w']; cbn [snd] in H; keep. }
  destruct (streq t (cs "NM_CHECKPOINT_REVERT")).
  { apply checkpoint_request_keeps. intros f g u. pose proof (ss_revert_checkpoint_keeps f g u now w) as H.
    destruct (ss_revert_checkpoint f g u now w) as [[] w']; cbn [snd] in H; keep. }
  destruct (streq t (cs "NM_SYNC")); [apply handle_nm_sync_keeps|]. keep.
Qed.

(** *** Sessions and locks *)

Definition lock_held (w : world) (f : cstr) (n : Z) : Prop := locked (w_locks w) f n.

(** Same locks as a set, table still fine. *)
Definition keeps_locks (w w' : world) : Prop :=
  (forall f n, lock_held w' f n <-> lock_held w f n) /\
  (locks_wf (w_locks w) -> locks_wf (w_locks w')) /\ (docs_ok w -> docs_ok w').

Lemma keeps_keeps_locks w w' : keeps w w' -> keeps_locks w w'.
Proof. intros [H1 H2]. unfold keeps_locks, lock_held. rewrite H1. done. Qed.

(** One more sentence is locked. *)
Definition locks_more (f : cstr) (n : Z) (w w' : world) : Prop :=
  ~ lock_held w f n /\ locks_wf (w_locks w') /\ docs_ok w' /\
  forall g m, lock_held w' g m <-> lock_held w g m \/ (g, m) = (f, n).

Lemma locks_more_keeps f n w w1 w2 : locks_more f n w w1 -> keeps w1 w2 -> locks_more f n w w2.
Proof.
  intros (H1 & H2 & H3 & H4) [E D]. unfold locks_more, lock_held in *. rewrite E. auto.
Qed.

(** Releasing it again. *)
Lemma release_keeps_locks f n w w1 w2 :
  locks_more f n w w1 -> w_locks w2 = sentence_lock_release (w_locks w1) f n -> (docs_ok w1 -> docs_ok w2) ->
  keeps_locks w w2.
Proof.
  intros (H1 & H2 & H3 & H4) E D. destruct (sentence_lock_release_spec (w_locks w1) f n H2) as [H5 H6].
  unfold keeps_locks, lock_held in *. rewrite E. split_and!; [|done|auto].
  intros g m. rewrite H6, H4. split; [|intros H; split; [tauto|congruence]]. tauto.
Qed.

Lemma write_close_locks f n w :
  w_locks (write_close f n w) = sentence_lock_release (w_locks w) f n /\ (docs_ok w -> docs_ok (write_close f n w)).
Proof.
  unfold write_close.
  destruct (keeps_lock_state f false (-1) None _ _
    (keeps_refl (set_locks (sentence_lock_release (w_locks w) f n) w))) as [H1 H2]. by rewrite H1.
Qed.

Lemma write_bail_locks f n w :
  w_locks (write_bail f n w) = sentence_lock_release (w_locks w) f n /\ (docs_ok w -> docs_ok (write_bail f n w)).
Proof.
  unfold write_bail. destruct (keeps_lock_state f false (-1) None _ _ (keeps_refl w)) as [H1 H2].
  cbn [set_locks w_locks]. rewrite H1. split; [done|]. intros D. apply (H2 D).
Qed.

Lemma snapshot_length f w v : docs_ok w -> snapshot_file f w = Some v -> length f < SS_NAME_MAX.
Proof.
  intros [Hs Hl] H. unfold snapshot_file in H. rewrite doc_map_find in H by done.
  apply doc_map_lookup in H as [Hv <-]; [|done]. rewrite Forall_forall in Hl. by apply Hl.
Qed.

(** Opening a session takes exactly its lock, or leaves everything locked as it was. *)
Lemma write_open_locks f u n w :
  docs_ok w -> locks_wf (w_locks w) ->
  match write_open f u n w with
  | (Some (s, view), w') => locks_more f n w w'
  | (None, w') => keeps_locks w w'
  end.
Proof.
  intros Hd Hwf. unfold write_open. destruct (snapshot_file f w) as [view|] eqn:Ev; [|apply keeps_keeps_locks; keep].
  pose proof (snapshot_length f w view Hd Ev) as Hf.
  pose proof (sentence_lock_acquire_spec (w_locks w) f n u Hf Hwf) as Ha.
  destruct (sentence_lock_acquire (w_locks w) f n u) as [ls|]; [|apply keeps_keeps_locks; keep].
  destruct (write_session_begin view u n _) as [[r s] d].
  set (w1 := set_disk d _).
  assert (locks_more f n w w1) as H1.
  { eapply (locks_more_keeps f n w (set_locks ls w)); [|unfold w1; auto with keeps].
    destruct Ha as (H1 & H2 & H3). done. }
  assert (forall w2, keeps (write_bail f n w1) w2 -> keeps_locks w w2) as Hbail.
  { intros w2 [E D]. destruct (write_bail_locks f n w1) as [E' D'].
    apply (release_keeps_locks f n w w1); [done|congruence|auto]. }
  assert (forall m b w2 w3, send_peer m w1 = (b, w2) -> keeps (write_bail f n w2) w3 -> keeps_locks w w3) as Hbail'.
  { intros m b w2 w3 E2 [E D]. destruct (write_bail_locks f n w2) as [E' D'].
    apply (release_keeps_locks f n w w2); [|congruence|auto]. eapply locks_more_keeps; [exact H1|].
    eapply keeps_send_peer; [exact E2|done]. }
  destruct r as [[]|e]; [|apply Hbail; keep].
  destruct (json_escape_dup _); [|apply Hbail; keep].
  destruct (fit MAX_JSON _); [|apply Hbail; keep].
  destruct (send_peer _ w1) as [[] w2] eqn:E2.
  - eapply locks_more_keeps; [exact H1|]. by eapply keeps_send_peer.
  - eapply Hbail'; [exact E2|]. done.
Qed.

Lemma handle_write_locks f u n now msgs w :
  docs_ok w -> locks_wf (w_locks w) -> keeps_locks w (handle_write f u n now msgs w).
Proof.
  intros Hd Hwf. unfold handle_write. pose proof (write_open_locks f u n w Hd Hwf) as H.
  destruct (write_open f u n w) as [[[s view]|] w1]; [|done].
  pose proof (locks_more_keeps _ _ _ _ _ H (write_loop_keeps f u view now msgs s w1)) as H2.
  destruct (write_close_locks f n (write_loop f u view now msgs s w1)) as [E D].
  by eapply release_keeps_locks.
Qed.

(** ** Properties: requests *)

Lemma handle_data_client_locks json msgs now w :
  docs_ok w -> locks_wf (w_locks w) -> keeps_locks w (handle_data_client json msgs now w).
Proof.
  intros Hd Hwf. unfold handle_data_client.
  destruct (json_get_string json (cs "type") 64) as [t|]; [|apply keeps_keeps_locks; keep].
  destruct (json_get_string json (cs "file") SS_NAME_MAX) as [f|]; [|apply keeps_keeps_locks; keep].
  destruct (json_get_string json (cs "user") SS_USER_MAX) as [u|]; [|apply keeps_keeps_locks; keep].
  destruct (json_get_string json (cs "ticket") 64) as [tok|]; [|apply keeps_keeps_locks; keep].
  assert (forall op ok w1, validate_ticket tok u f op now w = (ok, w1) -> keeps w w1) as Hv.
  { intros op ok w1 E. by eapply keeps_validate. }
  destruct (streq t (cs "READ")).
  { apply keeps_keeps_locks. destruct (validate_ticket _ _ _ _ _ _) as [ok w1] eqn:E. apply Hv in E.
    destruct ok; [|keep]. eapply keeps_trans; [exact E|apply handle_read_keeps]. }
  destruct (streq t (cs "STREAM")).
  { apply keeps_keeps_locks. destruct (validate_ticket _ _ _ _ _ _) as [ok w1] eqn:E. apply Hv in E.
    destruct ok; [|keep]. eapply keeps_trans; [exact E|apply handle_stream_keeps]. }
  destruct (streq t (cs "WRITE_BEGIN")); [|apply keeps_keeps_locks; keep].
  destruct (json_get_int json (cs "sentence")) as [n|]; [|apply keeps_keeps_locks; keep].
  destruct (validate_ticket _ _ _ _ _ _) as [ok w1] eqn:E. apply Hv in E.
  destruct ok; [|apply keeps_keeps_locks; keep]. destruct E as [E D].
  destruct (handle_write_locks f u n now msgs w1) as (H1 & H2 & H3); [auto|by rewrite E|].
  unfold keeps_locks, lock_held in *. rewrite E in *. auto.
Qed.

(** C7: every request keeps the server's invariant.  Whatever is received on the data
    port or from the name manager, the table stays sorted and within its bounds,
    no sentence is locked twice, and once the request is over exactly the sentences
    that were locked before it are locked: a writer always gives its lock back. *)
Theorem requests_keep_invariant w :
  docs_ok w -> locks_wf (w_locks w) ->
  (forall json msgs now, keeps_locks w (handle_data_client json msgs now w)) /\
  (forall rpc strerror json now, keeps_locks w (process_nm_command rpc strerror json now w)).
Proof.
  intros Hd Hwf. split; intros; [by apply handle_data_client_locks|].
  apply keeps_keeps_locks, process_nm_command_keeps.
Qed.

(** A server with the two documents of [demo_state], and a lock held on one. *)
Definition demo_world (ls : list sentence_lock) : world :=
  mk_world demo_state demo_files demo_tickets ls [] [].

Lemma demo_world_ok ls : docs_ok (demo_world ls).
Proof. split; [repeat constructor|]. repeat (apply List.Forall_cons; [vm_compute; lia|]). constructor. Qed.

Lemma requests_keep_invariant_witness :
  docs_ok (demo_world [mk_lock (cs "c") 0 (cs "bob")]) /\
  locks_wf (w_locks (demo_world [mk_lock (cs "c") 0 (cs "bob")])) /\
  (let w' := handle_data_client
      (js "{'type':'WRITE_BEGIN','file':'a','user':'bob','ticket':'t2','sentence':0}")
      [js "{'type':'WRITE_INSERT','index':0,'content':'Hi.'}"; js "{'type':'WRITE_COMMIT'}"] 10
      (demo_world [mk_lock (cs "c") 0 (cs "bob")]) in
   lock_held w' (cs "c") 0 <-> lock_held (demo_world [mk_lock (cs "c") 0 (cs "bob")]) (cs "c") 0).
Proof.
  assert (locks_wf (w_locks (demo_world [mk_lock (cs "c") 0 (cs "bob")]))) as Hwf by apply NoDup_singleton.
  split; [apply demo_world_ok|]. split; [exact Hwf|].
  exact (proj1 (proj1 (requests_keep_invariant _ (demo_world_ok _) Hwf)
    (js "{'type':'WRITE_BEGIN','file':'a','user':'bob','ticket':'t2','sentence':0}")
    [js "{'type':'WRITE_INSERT','index':0,'content':'Hi.'}"; js "{'type':'WRITE_COMMIT'}"] 10%Z) (cs "c") 0%Z).
Defined.

(** The operation a request type needs a ticket for. *)
Definition op_of (type : cstr) : option cstr :=
  if streq type (cs "READ") then Some (cs "READ")
  else if streq type (cs "STREAM") then Some (cs "STREAM")
  else if streq type (cs "WRITE_BEGIN") then Some (cs "WRITE")
  else None.

(** Some live ticket carries the token, user and file of the request and its operation. *)
Definition authorised (json : cstr) (now : Z) (w : world) : Prop :=
  exists type f u tok op t,
    json_get_string json (cs "type") 64 = Some type /\ json_get_string json (cs "file") SS_NAME_MAX = Some f /\
    json_get_string json (cs "user") SS_USER_MAX = Some u /\ json_get_string json (cs "ticket") 64 = Some tok /\
    op_of type = Some op /\ t ∈ w_tickets w /\ expired now t = false /\ ticket_matches tok u f op t = true.

(** The message carries the fields every first message needs, and this type. *)
Definition has_fields (json type : cstr) : Prop :=
  json_get_string json (cs "type") 64 = Some type /\ is_Some (json_get_string json (cs "file") SS_NAME_MAX) /\
  is_Some (json_get_string json (cs "user") SS_USER_MAX) /\ is_Some (json_get_string json (cs "ticket") 64).

(** Nothing happened but one answer. *)
Definition only_answered (w w' : world) (r : reply) : Prop :=
  w_state w' = w_state w /\ w_disk w' = w_disk w /\ w_locks w' = w_locks w /\ w_nm w' = w_nm w /\
  exists json, reply_json r = Some json /\ w_peer w' = w_peer w ++ [json].

Lemma answer_only w w1 r :
  w_state w1 = w_state w -> w_disk w1 = w_disk w -> w_locks w1 = w_locks w -> w_nm w1 = w_nm w ->
  w_peer w1 = w_peer w -> reply_json r <> None -> only_answered w (answer_peer r w1) r.
Proof.
  intros H1 H2 H3 H4 H5 Hr. unfold answer_peer, only_answered. destruct (reply_json r) as [j|]; [|done].
  cbn. rewrite H5. eauto 10.
Qed.

Lemma validate_unauthorised tok u f op now w :
  (forall t, t ∈ w_tickets w -> expired now t = false -> ticket_matches tok u f op t = false) ->
  exists ts, validate_ticket tok u f op now w = (false, set_tickets ts w).
Proof.
  intros H. unfold validate_ticket, ticket_table_take. rewrite ticket_table_prune_spec.
  destruct (find_first _ _) as [[i t]|] eqn:E; [|by eexists].
  apply find_first_Some in E as (Hi & Hm & _). apply list_elem_of_lookup_2, list_elem_of_In, List.filter_In in Hi as [Hi He].
  apply negb_true_iff in He. rewrite (H t) in Hm; [done|by apply list_elem_of_In|done].
Qed.

(** How a first message without a live ticket is answered. *)
Inductive refusal (json : cstr) : reply -> Prop :=
| refuse_fields :
    json_get_string json (cs "type") 64 = None \/ json_get_string json (cs "file") SS_NAME_MAX = None \/
    json_get_string json (cs "user") SS_USER_MAX = None \/ json_get_string json (cs "ticket") 64 = None ->
    refusal json (RErr ERR_BADREQ (cs "missing fields"))
| refuse_type type :
    has_fields json type -> op_of type = None -> refusal json (RErr ERR_BADREQ (cs "unsupported operation"))
| refuse_sentence :
    has_fields json (cs "WRITE_BEGIN") -> json_get_int json (cs "sentence") = None ->
    refusal json (RErr ERR_BADREQ (cs "missing sentence"))
| refuse_ticket type op :
    has_fields json type -> op_of type = Some op ->
    (type = cs "WRITE_BEGIN" -> is_Some (json_get_int json (cs "sentence"))) ->
    refusal json (RErr ERR_NOAUTH (cs "invalid ticket")).

(** The request determines the refusal. *)
Lemma refusal_unique json r1 r2 : refusal json r1 -> refusal json r2 -> r1 = r2.
Proof.
  unfold has_fields.
  intros [Hn|t (H1 & H2 & H3 & H4) Ho|(H1 & H2 & H3 & H4) Hs|t op (H1 & H2 & H3 & H4) Ho Hs];
    intros [Hn'|t' (H1' & H2' & H3' & H4') Ho'|(H1' & H2' & H3' & H4') Hs'|t' op' (H1' & H2' & H3' & H4') Ho' Hs'];
    try done; exfalso;
    repeat match goal with H : is_Some _ |- _ => destruct H as [? H] | H : _ \/ _ |- _ => destruct H end; try congruence.
  all: simplify_eq; try (destruct Hs as [? Hs]; [done|]); try (destruct Hs' as [? Hs']; [done|]); congruence.
Qed.

(** C9: no ticket, no access.  A connection whose first message does not carry a live ticket for
    its own user, file and operation leaves documents, files, locks and the name manager
    untouched, whatever it sends next, and gets exactly one answer, which the message
    determines: [ERR_BADREQ] "missing fields" when the type, file, user or ticket is missing
    or too long, "unsupported operation" for another type than a read, a stream or a write,
    "missing sentence" for a write without a sentence, and otherwise [ERR_NOAUTH] "invalid
    ticket". *)
Theorem no_ticket_no_access json msgs now w :
  ~ authorised json now w ->
  exists r, refusal json r /\ (forall r', refusal json r' -> r' = r) /\
    only_answered w (handle_data_client json msgs now w) r.
Proof.
  intros Hna. enough (exists r, refusal json r /\ only_answered w (handle_data_client json msgs now w) r) as (r & Hr & Ho).
  { exists r. split_and!; [done| |done]. intros r' Hr'. by eapply refusal_unique. }
  unfold handle_data_client.
  assert (forall r, refusal json r -> reply_json r <> None -> exists q, refusal json q /\ only_answered w (answer_peer r w) q) as Hbad0.
  { intros r Hr Hj. exists r. split; [done|by apply answer_only]. }
  destruct (json_get_string json (cs "type") 64) as [t|] eqn:Et; [|apply Hbad0; [apply refuse_fields; tauto|done]].
  destruct (json_get_string json (cs "file") SS_NAME_MAX) as [f|] eqn:Ef; [|apply Hbad0; [apply refuse_fields; tauto|done]].
  destruct (json_get_string json (cs "user") SS_USER_MAX) as [u|] eqn:Eu; [|apply Hbad0; [apply refuse_fields; tauto|done]].
  destruct (json_get_string json (cs "ticket") 64) as [tok|] eqn:Ek; [|apply Hbad0; [apply refuse_fields; tauto|done]].
  assert (has_fields json t) as Hf by (split_and!; [done|by eexists..]).
  assert (forall op, op_of t = Some op -> exists ts, validate_ticket tok u f op now w = (false, set_tickets ts w)) as Hv.
  { intros op Hop. apply validate_unauthorised. intros x Hx Hex. apply not_true_iff_false. intros Hm.
    apply Hna. by exists t, f, u, tok, op, x. }
  assert (forall op, op_of t = Some op -> (t = cs "WRITE_BEGIN" -> is_Some (json_get_int json (cs "sentence"))) ->
    forall ts, exists r, refusal json r /\ only_answered w (answer_peer (RErr ERR_NOAUTH (cs "invalid ticket")) (set_tickets ts w)) r) as Hno.
  { intros op Hop Hs ts. exists (RErr ERR_NOAUTH (cs "invalid ticket")). split; [by eapply refuse_ticket|by apply answer_only]. }
  unfold op_of in Hv, Hno. destruct (streq t (cs "READ")) eqn:E1.
  { destruct (Hv _ eq_refl) as [ts ->]. eapply Hno; [done|]. by intros ->. }
  destruct (streq t (cs "STREAM")) eqn:E2.
  { destruct (Hv _ eq_refl) as [ts ->]. eapply Hno; [done|]. by intros ->. }
  destruct (streq t (cs "WRITE_BEGIN")) eqn:E3.
  2: { apply Hbad0; [|done]. eapply refuse_type; [done|]. unfold op_of. by rewrite E1, E2, E3. }
  apply bool_decide_eq_true in E3 as ->. destruct (json_get_int json (cs "sentence")) eqn:En.
  - destruct (Hv _ eq_refl) as [ts ->]. eapply Hno; [done|]. by eexists.
  - apply Hbad0; [by apply refuse_sentence|done].
Qed.

Lemma no_ticket_no_access_witness :
  (* bob's ticket is for another operation *)
  let json := js "{'type':'READ','file':'a','user':'bob','ticket':'t2'}" in
  only_answered (demo_world []) (handle_data_client json [] 10 (demo_world [])) (RErr ERR_NOAUTH (cs "invalid ticket")).
Proof.
  intros json. destruct (no_ticket_no_access json [] 10 (demo_world [])) as (r & _ & Hu & Ho).
  - intros (type & f & u & tok & op & t & H1 & H2 & H3 & H4 & H5 & H6 & _ & H7). vm_compute in H1, H2, H3, H4.
    injection H1 as <-. injection H2 as <-. injection H3 as <-. injection H4 as <-. vm_compute in H5. injection H5 as <-.
    apply list_elem_of_In in H6. destruct H6 as [<-|[<-|[]]]; vm_compute in H7; discriminate.
  - rewrite (Hu (RErr ERR_NOAUTH (cs "invalid ticket"))); [exact Ho|].
    apply (refuse_ticket json (cs "READ") (cs "READ")); [|reflexivity|discriminate].
    split; [vm_compute; reflexivity|]. split; [|split]; vm_compute; eauto.
Defined.

(** ** Properties: undo and checkpoints *)

(** Updating a record in place, seen through the table. *)
Lemma update_record_found f upd w v :
  docs_ok w -> (forall g, name (upd g) = name g) -> snapshot_file f w = Some v ->
  exists w', update_record f upd w = (Some (upd v), w') /\ snapshot_file f w' = Some (upd v) /\
    w_disk w' = w_disk w /\ docs_ok w' /\ w_tickets w' = w_tickets w /\ w_locks w' = w_locks w.
Proof.
  intros Hd Hu Hv. unfold snapshot_file in Hv. destruct (update_record f upd w) as [r w'] eqn:E.
  pose proof (keeps_update_record f upd r w w w' Hu E (keeps_refl w)) as [_ Hd'].
  unfold update_record in E. destruct (ss_state_find (w_state w) f) as [o idx] eqn:Ef. cbn [fst] in Hv. subst o.
  destruct (ss_state_find_spec _ _ _ _ (proj1 Hd) Ef) as [Hi Hn]. simplify_eq. eexists. split; [done|].
  split_and!; try done; [|by apply Hd'].
  unfold snapshot_file, ss_state_find. specialize (Hd' Hd). destruct Hd' as [Hs _].
  rewrite <- (Hu v). erewrite find_index_Some; [done|done|]. cbn [w_state set_state docs set_docs].
  apply list_lookup_insert_eq. by eapply lookup_lt_Some.
Qed.

Lemma update_and_save_quiet f upd w v :
  docs_ok w -> (forall g, name (upd g) = name g) -> snapshot_file f w = Some v -> quiet (w_disk w) ->
  exists w', update_and_save f upd w = (Some (upd v), w') /\ snapshot_file f w' = Some (upd v) /\
    files (w_disk w') = <[meta_path (upd v) := meta_text (upd v)]> (files (w_disk w)) /\
    quiet (w_disk w') /\ docs_ok w'.
Proof.
  intros Hd Hu Hv Hq. destruct (update_record_found f upd w v Hd Hu Hv) as (w1 & E & Hv1 & Hd1 & Hok & _ & _).
  unfold update_and_save. rewrite E. unfold ss_state_save_meta.
  destruct (write_meta_file_quiet (upd v) (w_disk w1)) as (d' & Ed & Hqd & Fd); [by rewrite Hd1|].
  rewrite Ed. eexists. split; [done|]. cbn [snd w_disk set_disk]. rewrite Fd, Hd1. by split_and!.
Qed.

(** Notifications change nothing the properties look at. *)
Lemma notify_same f w :
  w_disk (notify_nm_file_update f w) = w_disk w /\ w_state (notify_nm_file_update f w) = w_state w.
Proof. unfold notify_nm_file_update. by destruct (notify_payload f). Qed.

Lemma load_quiet p w : quiet (w_disk w) -> load p w = (c_str <$> files (w_disk w) !! p, w).
Proof. intros Hq. unfold load. rewrite load_text_quiet by done. by destruct (files (w_disk w) !! p), w. Qed.

Lemma store_quiet p c w :
  quiet (w_disk w) -> exists w', store p c w = (true, w') /\ quiet (w_disk w') /\
    files (w_disk w') = <[p := c]> (delete (tmp_path p) (files (w_disk w))) /\ w_state w' = w_state w.
Proof.
  intros Hq. unfold store. destruct (store_text_atomic_quiet p c (w_disk w) Hq) as (d & E & Hqd). rewrite E.
  destruct (store_text_atomic_stored _ _ _ _ _ E) as (_ & Hok & _).
  eexists. split; [done|]. by split_and!; [|apply Hok|].
Qed.

Lemma docs_ok_state w w' : w_state w' = w_state w -> docs_ok w -> docs_ok w'.
Proof. unfold docs_ok. by intros ->. Qed.

(** The metadata file is none of the others. *)
Definition meta_apart (v : ss_file) : Prop := meta_path v <> data_path v /\ meta_path v <> undo_path v.

(** C17: undo puts the saved text back.  It is refused with [EBUSY] while the record
    is marked as locked, and with [ENOENT] for an unknown document or when there is
    nothing to undo; otherwise the document becomes the text of the undo file, the
    undo file is gone, the record counts the restored text, and undoing again is
    refused: undo does not toggle. *)
Theorem undo_restores f u now w :
  docs_ok w -> quiet (w_disk w) ->
  let '(r, w') := perform_undo f u now w in
  match snapshot_file f w with
  | None => r = Err ENOENT /\ w' = w
  | Some view =>
      if lock_active view then r = Err EBUSY /\ w' = w
      else
        match files (w_disk w) !! undo_path view with
        | None => r = Err ENOENT /\ w' = w
        | Some raw =>
            good_paths view -> meta_apart view ->
            let text := c_str raw in
            r = Ok (text, length (split_words text), length text) /\
            files (w_disk w') !! data_path view = Some text /\
            files (w_disk w') !! undo_path view = None /\
            snapshot_file f w' = Some (modify (length (split_words text)) (length text) u now view) /\
            forall u' now', fst (perform_undo f u' now' w') = Err ENOENT
        end
  end.
Proof.
  intros Hd Hq. unfold perform_undo at 1. destruct (snapshot_file f w) as [view|] eqn:Hv; [|done].
  destruct (lock_active view) eqn:Hl; [done|]. rewrite load_quiet by done.
  destruct (files (w_disk w) !! undo_path view) as [raw|] eqn:Hraw; [|done]. cbn [fmap option_fmap option_map].
  rewrite load_quiet by done. destruct (store_quiet (data_path view) (c_str raw) w Hq) as (w1 & E1 & Hq1 & F1 & S1).
  rewrite E1. cbn [negb]. destruct (unlink_quiet (undo_path view) (w_disk w1) Hq1) as [Hq2 F2].
  set (w2 := set_disk _ w1). cbv zeta.
  destruct (update_and_save_quiet f (modify (count_words_in_text (c_str raw)) (length (c_str raw)) u now) w2 view)
    as (w3 & E3 & Hv3 & F3 & Hq3 & Hd3); [by apply (docs_ok_state w); [unfold w2; cbn|]|done| |done|].
  { unfold snapshot_file, w2 in *. cbn. by rewrite S1. }
  rewrite E3, count_words_spec in *. intros [_ _ Hne _ _] [Hm1 Hm2].
  destruct (notify_same (modify (length (split_words (c_str raw))) (length (c_str raw)) u now view) w3) as [N1 N2].
  set (w4 := notify_nm_file_update _ w3) in *.
  assert (files (w_disk w4) !! undo_path view = None) as Hundo.
  { rewrite N1, F3, lookup_insert_ne by done. unfold w2. cbn. by rewrite F2, lookup_delete_eq. }
  assert (snapshot_file f w4 = Some (modify (length (split_words (c_str raw))) (length (c_str raw)) u now view)) as Hv4.
  { unfold snapshot_file in *. by rewrite N2. }
  split_and!; [done| |done|done|].
  - rewrite N1, F3, lookup_insert_ne by done. unfold w2. cbn. by rewrite F2, lookup_delete_ne, F1, lookup_insert_eq.
  - intros u' now'. unfold perform_undo. rewrite Hv4. cbn [lock_active modify with_times with_counts]. rewrite Hl.
    rewrite load_quiet by (by rewrite N1). cbn [undo_path modify with_times with_counts]. by rewrite Hundo.
Qed.

Definition demo_undo : world :=
  set_disk (mk_disk (<[cs "s/files/a" := cs "new"]> (<[cs "s/undo/a.undo" := cs "old text"]> ∅)) [] []) (demo_world []).

Lemma undo_restores_witness :
  docs_ok demo_undo /\ quiet (w_disk demo_undo) /\
  files (w_disk (snd (perform_undo (cs "a") (cs "ann") 7 demo_undo))) !! cs "s/files/a" = Some (cs "old text").
Proof.
  assert (docs_ok demo_undo) as Hd by apply (demo_world_ok []).
  split; [exact Hd|]. split; [reflexivity|].
  pose proof (undo_restores (cs "a") (cs "ann") 7 demo_undo Hd eq_refl) as H.
  destruct (perform_undo (cs "a") (cs "ann") 7 demo_undo) as [r w'].
  change (snapshot_file (cs "a") demo_undo) with (Some demo_file) in H. cbn [lock_active demo_file] in H.
  change (files (w_disk demo_undo) !! undo_path demo_file) with (Some (cs "old text")) in H.
  destruct H as (_ & H & _); [apply demo_good_paths|split; vm_compute; discriminate|]. exact H.
Defined.

Definition checkpoint_path (w : world) (f tag : cstr) : cstr :=
  (checkpoints_dir (w_state w) ++ "/"%char :: f) ++ "/"%char :: tag.

Lemma fit_id n s : length s < n -> fit n s = Some s.
Proof. intros. unfold fit. by destruct (Nat.leb_spec n (length s)); [lia|]. Qed.

Lemma fit_path_id n s : length s < n -> fit_path n s = Ok s.
Proof. intros. unfold fit_path. by rewrite fit_id. Qed.

Lemma build_checkpoint_path_quiet f tag w :
  quiet (w_disk w) -> length (checkpoint_path w f tag) < 512 ->
  build_checkpoint_path f tag 512 w = (Ok (checkpoint_path w f tag), w).
Proof.
  intros Hq Hl. unfold build_checkpoint_path, ensure_checkpoint_dir, checkpoint_path in *.
  rewrite length_app in Hl. simpl in Hl. rewrite (fit_path_id 512 (_ ++ _)) by lia.
  unfold ensure_directory, plain_call, next_fault. rewrite Hq.
  rewrite fit_path_id by lia. cbn [negb]. rewrite fit_path_id by (rewrite length_app; simpl; lia).
  by destruct w.
Qed.

(** The text of a document: a document without a readable file is empty. *)
Definition text_of (w : world) (v : ss_file) : cstr := default [] (c_str <$> files (w_disk w) !! data_path v).

Lemma c_str_text_of w v : c_str (text_of w v) = text_of w v.
Proof. unfold text_of. destruct (files (w_disk w) !! data_path v); [|done]. apply c_str_id, no_nul_c_str. Qed.

Lemma create_checkpoint_quiet f tag u w v :
  quiet (w_disk w) -> valid_filename tag = true -> snapshot_file f w = Some v ->
  length (checkpoint_path w f tag) < 512 ->
  exists w', ss_create_checkpoint f tag u w = (Ok tt, w') /\
    files (w_disk w') !! checkpoint_path w f tag = Some (text_of w v).
Proof.
  intros Hq Ht Hv Hl. unfold ss_create_checkpoint. rewrite Ht, Hv. cbn [negb]. rewrite load_quiet by done.
  rewrite build_checkpoint_path_quiet by done.
  destruct (store_quiet (checkpoint_path w f tag) (text_of w v) w Hq) as (w' & E & _ & F & _).
  fold (text_of w v). rewrite E. eexists. split; [done|]. rewrite F. by rewrite lookup_insert_eq.
Qed.

(** The checkpoint is a file of its own. *)
Record checkpoint_apart (p : cstr) (v : ss_file) : Prop := {
  ca_data : p <> data_path v /\ p <> tmp_path (data_path v);
  ca_undo : p <> undo_path v /\ p <> tmp_path (undo_path v);
  ca_meta : p <> meta_path v;
}.

Lemma revert_checkpoint_quiet f tag u now w v content :
  docs_ok w -> quiet (w_disk w) -> valid_filename tag = true -> snapshot_file f w = Some v ->
  lock_active v = false -> length (checkpoint_path w f tag) < 512 ->
  files (w_disk w) !! checkpoint_path w f tag = Some content -> c_str content = content ->
  good_paths v -> meta_apart v -> checkpoint_apart (checkpoint_path w f tag) v ->
  exists w', ss_revert_checkpoint f tag u now w = (Ok tt, w') /\
    files (w_disk w') !! data_path v = Some content /\
    files (w_disk w') !! undo_path v = Some (text_of w v) /\
    files (w_disk w') !! checkpoint_path w f tag = Some content /\
    snapshot_file f w' = Some (modify (length (split_words content)) (length content) u now v).
Proof.
  intros Hd Hq Ht Hv Hla Hl Hc Hcs [_ _ Hne Htd Htu] [Hm1 Hm2] [[C1 C2] [C3 C4] C5].
  unfold ss_revert_checkpoint. rewrite Ht. cbn [negb]. rewrite build_checkpoint_path_quiet by done.
  rewrite load_quiet, Hc by done. cbn [fmap option_fmap option_map]. rewrite Hcs, Hv, Hla, load_quiet by done.
  fold (text_of w v). destruct (store_quiet (undo_path v) (text_of w v) w Hq) as (w1 & E1 & Hq1 & F1 & S1).
  rewrite E1. cbn [negb]. destruct (store_quiet (data_path v) content w1 Hq1) as (w2 & E2 & Hq2 & F2 & S2).
  rewrite E2. cbn [negb].
  destruct (update_and_save_quiet f (modify (count_words_in_text content) (length content) u now) w2 v)
    as (w3 & E3 & Hv3 & F3 & _ & _); [|done| |done|].
  { apply (docs_ok_state w); [congruence|done]. }
  { unfold snapshot_file in *. by rewrite S2, S1. }
  rewrite E3, count_words_spec in *. eexists. split; [done|].
  destruct (notify_same (modify (length (split_words content)) (length content) u now v) w3) as [N1 N2].
  rewrite N1, F3, F2, F1. cbn [meta_path modify with_times with_counts]. split_and!.
  - by rewrite lookup_insert_ne, lookup_insert_eq.
  - rewrite lookup_insert_ne, lookup_insert_ne, lookup_delete_ne, lookup_insert_eq by congruence. done.
  - rewrite lookup_insert_ne, lookup_insert_ne, lookup_delete_ne, lookup_insert_ne, lookup_delete_ne by congruence. done.
  - unfold snapshot_file in *. by rewrite N2.
Qed.

(** C18: reverting restores exactly what was checkpointed.  However the document and
    the rest of the server changed since, as long as the checkpoint itself was not
    overwritten, a revert on an unlocked document brings back the text it had when
    the checkpoint was taken, keeps the text it replaces for undo, keeps the
    checkpoint, and makes the record count the restored text. *)
Theorem checkpoint_revert_restores f tag u1 u2 now w1 w1' v1 w2 v2 :
  quiet (w_disk w1) -> valid_filename tag = true -> snapshot_file f w1 = Some v1 ->
  length (checkpoint_path w1 f tag) < 512 ->
  ss_create_checkpoint f tag u1 w1 = (Ok tt, w1') ->
  docs_ok w2 -> quiet (w_disk w2) -> snapshot_file f w2 = Some v2 -> lock_active v2 = false ->
  checkpoint_path w2 f tag = checkpoint_path w1 f tag ->
  files (w_disk w2) !! checkpoint_path w1 f tag = files (w_disk w1') !! checkpoint_path w1 f tag ->
  good_paths v2 -> meta_apart v2 -> checkpoint_apart (checkpoint_path w1 f tag) v2 ->
  let '(r, w2') := ss_revert_checkpoint f tag u2 now w2 in
  r = Ok tt /\
  files (w_disk w2') !! data_path v2 = Some (text_of w1 v1) /\
  files (w_disk w2') !! undo_path v2 = Some (text_of w2 v2) /\
  files (w_disk w2') !! checkpoint_path w1 f tag = Some (text_of w1 v1) /\
  snapshot_file f w2' =
    Some (modify (length (split_words (text_of w1 v1))) (length (text_of w1 v1)) u2 now v2).
Proof.
  intros Hq1 Ht Hv1 Hl Hc Hd2 Hq2 Hv2 Hla Hp Hsame Hg Hm Ha.
  destruct (create_checkpoint_quiet f tag u1 w1 v1 Hq1 Ht Hv1 Hl) as (w & E & F).
  rewrite E in Hc. injection Hc as ->. rewrite F in Hsame. rewrite <- Hp in *.
  destruct (revert_checkpoint_quiet f tag u2 now w2 v2 (text_of w1 v1)) as (w2' & E2 & H); try done.
  { apply c_str_text_of. }
  rewrite E2. split; [done|]. exact H.
Qed.

Lemma checkpoint_revert_restores_witness :
  let w1 := demo_undo in
  let w1' := snd (ss_create_checkpoint (cs "a") (cs "v1") (cs "ann") w1) in
  (* the document is overwritten after the checkpoint *)
  let w2 := set_disk (mk_disk (<[cs "s/files/a" := cs "spoiled"]> (files (w_disk w1'))) [] []) w1' in
  files (w_disk w2) !! cs "s/files/a" = Some (cs "spoiled") /\
  files (w_disk (snd (ss_revert_checkpoint (cs "a") (cs "v1") (cs "bob") 9 w2))) !! cs "s/files/a" = Some (cs "new").
Proof.
  intros w1 w1' w2. split; [vm_compute; reflexivity|].
  assert (docs_ok w2) as Hd by apply (demo_world_ok []).
  pose proof (checkpoint_revert_restores (cs "a") (cs "v1") (cs "ann") (cs "bob") 9 w1 w1' demo_file w2 demo_file
    eq_refl eq_refl eq_refl ltac:(vm_compute; lia)) as H.
  destruct (ss_revert_checkpoint (cs "a") (cs "v1") (cs "bob") 9 w2) as [r w2'].
  apply H; [vm_compute; reflexivity|exact Hd|vm_compute; reflexivity|vm_compute; reflexivity|reflexivity
           |reflexivity|vm_compute; reflexivity|apply demo_good_paths|split; vm_compute; discriminate|].
  split; try split; vm_compute; discriminate.
Defined.

(** *** The list of documents sent at registration *)

Lemma file_list_loop_fits fs out size :
  Forall (fun f => name f <> []) fs -> length out < size ->
  length out + list_sum (map (fun f => length (name f) + 1) fs) < size ->
  snd (file_list_loop fs out size) = true.
Proof.
  intros Hne. revert out. induction Hne as [|f fs Hf Hne IH]; intros out Ho Hs; cbn [file_list_loop]; [done|].
  simpl in Hs. destruct (negb (length out =? 0) && (size <=? length out + 1)); [done|]. cbv zeta.
  assert (length (if length out =? 0 then out else out ++ [","%char]) <= length out + 1) as Hl.
  { destruct (length out =? 0); [lia|]. rewrite length_app. simpl. lia. }
  destruct (Nat.leb_spec size (length (if length out =? 0 then out else out ++ [","%char]) + length (name f))); [lia|].
  apply IH; rewrite length_app; lia.
Qed.

(** Twelve documents with names of a hundred characters. *)
Definition long_names : world :=
  set_state (set_docs (repeat (with_names (repeat "a"%char 100) [] zero_file) 12) demo_state) (demo_world []).

(** The list is always terminated when it fits; when it does not, it may be left
    without its NUL in the 1024-byte buffer of [main]. *)
Lemma build_file_list_unterminated :
  (forall w size, Forall (fun f => name f <> []) (docs (w_state w)) ->
     list_sum (map (fun f => length (name f) + 1) (docs (w_state w))) < size ->
     snd (build_file_list w size) = true) /\
  snd (build_file_list long_names 1024) = false.
Proof.
  split; [|vm_compute; reflexivity]. intros w size Hne Hs. apply file_list_loop_fits; [done|simpl; lia|done].
Qed.
