(* ===== verification/SsConcurrent.v ===== *)
(** * [ss/ss_main.c]: concurrent writers

    Every data connection runs in a thread of its own while the main thread serves
    the name manager.  The system is a step relation on the server's state and the
    writers in progress; a step is one call of a handler's part between two points
    where the thread waits for its client.  Inside such a part the code takes and
    drops its locks several times; where that matters, for the end of a session and
    for the commit, the part is split further. *)

From stdpp Require Import relations.
From S2P Require Import Prelude Cstr Json Proto SsText Fs SsState SsSession SsTables SsServer.

(** ** The writers *)

Inductive phase :=
  | Editing (s : write_session)  (** in the loop of [handle_write] *)
  | Done                         (** the loop has ended *)
  | Released.                    (** after [sentence_lock_release] *)

Record writer := mk_writer {
  wr_file : cstr;
  wr_user : cstr;
  wr_sentence : Z;
  wr_view : ss_file;
  wr_phase : phase;
}.

Definition set_phase (p : phase) (t : writer) : writer :=
  mk_writer (wr_file t) (wr_user t) (wr_sentence t) (wr_view t) p.

Definition wr_key (t : writer) : cstr * Z := (wr_file t, wr_sentence t).

(** The writer still has its sentence. *)
Definition holds (t : writer) : bool := match wr_phase t with Released => false | _ => true end.

Notation system := (world * gmap nat writer)%type.

Section Steps.
Context (rpc : cstr -> cstr -> cstr -> option cstr) (strerror : errno -> cstr).

(** The threads of the data connections. *)
Inductive client_step : system -> system -> Prop :=
| step_open w ts i f u n s v w' :
    ts !! i = None -> write_open f u n w = (Some (s, v), w') ->
    client_step (w, ts) (w', <[i := mk_writer f u n v (Editing s)]> ts)
| step_refused w ts f u n w' :
    write_open f u n w = (None, w') -> client_step (w, ts) (w', ts)
| step_message w ts i t s now json s' w' :
    ts !! i = Some t -> wr_phase t = Editing s ->
    write_message (wr_file t) (wr_user t) (wr_view t) now json s w = (Some s', w') ->
    client_step (w, ts) (w', <[i := set_phase (Editing s') t]> ts)
| step_last_message w ts i t s now json w' :
    ts !! i = Some t -> wr_phase t = Editing s ->
    write_message (wr_file t) (wr_user t) (wr_view t) now json s w = (None, w') ->
    client_step (w, ts) (w', <[i := set_phase Done t]> ts)
| step_hangup w ts i t s :
    ts !! i = Some t -> wr_phase t = Editing s -> client_step (w, ts) (w, <[i := set_phase Done t]> ts)
| step_release w ts i t :
    ts !! i = Some t -> wr_phase t = Done ->
    client_step (w, ts) (set_locks (sentence_lock_release (w_locks w) (wr_file t) (wr_sentence t)) w,
                  <[i := set_phase Released t]> ts)
| step_clear w ts i t :
    ts !! i = Some t -> wr_phase t = Released ->
    client_step (w, ts) (set_file_lock_state (wr_file t) false (-1) None w, delete i ts)
| step_read w ts f u now : client_step (w, ts) (handle_read f u now w, ts)
| step_stream w ts f u now : client_step (w, ts) (handle_stream f u now w, ts)
| step_ticket w ts tok u f op now b w' :
    validate_ticket tok u f op now w = (b, w') -> client_step (w, ts) (w', ts).

(** ... and the main thread. *)
Inductive step : system -> system -> Prop :=
| step_client s s' : client_step s s' -> step s s'
| step_command w ts json now : step (w, ts) (process_nm_command rpc strerror json now w, ts).

Definition started (s : system) : Prop := docs_ok (fst s) /\ w_locks (fst s) = [] /\ snd s = ∅.

Definition reachable (s : system) : Prop := exists s0, started s0 /\ rtc step s0 s.

(** The locks of the table are those of the writers, one each. *)
Record system_ok (s : system) : Prop := {
  so_docs : docs_ok (fst s);
  so_locks : locks_wf (w_locks (fst s));
  so_held : forall f n, lock_held (fst s) f n <-> exists i t, snd s !! i = Some t /\ holds t = true /\ wr_key t = (f, n);
  so_once : forall i j t t', snd s !! i = Some t -> snd s !! j = Some t' -> holds t = true -> holds t' = true ->
    wr_key t = wr_key t' -> i = j;
}.

Lemma system_ok_start s : started s -> system_ok s.
Proof using.
  intros (H1 & H2 & H3). split; [done|by rewrite H2; constructor| |].
  - intros f n. unfold lock_held, locked. rewrite H2, H3. split; [by intros []%elem_of_nil|].
    intros (i & t & Ht & _). by rewrite lookup_empty in Ht.
  - intros i j t t'. rewrite H3, lookup_empty. done.
Qed.

(** A step of the server that changes no lock. *)
Lemma system_ok_keeps w w' ts : keeps w w' -> system_ok (w, ts) -> system_ok (w', ts).
Proof using. intros [E D] [H1 H2 H3 H4]. split; unfold lock_held in *; cbn [fst snd] in *; rewrite ?E; auto. Qed.

(** A writer that changes phase while it holds its lock. *)
Lemma system_ok_phase w ts i t p :
  ts !! i = Some t -> holds t = true -> holds (set_phase p t) = true -> system_ok (w, ts) ->
  system_ok (w, <[i := set_phase p t]> ts).
Proof using.
  intros Hi Ht Hp [H1 H2 H3 H4]. split; [done|done| |].
  - intros f n. rewrite H3. cbn [snd]. split; intros (j & t' & Hj & Hh & Hk).
    + destruct (decide (i = j)) as [<-|].
      * exists i, (set_phase p t). rewrite lookup_insert_eq. by simplify_eq.
      * exists j, t'. by rewrite lookup_insert_ne.
    + apply lookup_insert_Some in Hj as [[<- <-]|[Hne Hj]]; [by exists i, t|by exists j, t'].
  - intros j k t1 t2; cbn [fst snd]; intros [[<- <-]|[? Hj]]%lookup_insert_Some [[<- <-]|[? Hk]]%lookup_insert_Some Hh1 Hh2 E; try done.
    + by apply (H4 i k t t2).
    + by apply (H4 j i t1 t).
    + by apply (H4 j k t1 t2).
Qed.

Lemma system_ok_open w w' ts i f u n v s :
  ts !! i = None -> locks_more f n w w' -> system_ok (w, ts) ->
  system_ok (w', <[i := mk_writer f u n v (Editing s)]> ts).
Proof using.
  intros Hi (L1 & L2 & L3 & L4) [H1 H2 H3 H4]. cbn [fst snd] in *. split; [done|done| |].
  - intros g m. cbn [fst snd]. rewrite L4, H3. split.
    + intros [(j & t & Hj & Hh & Hk)|[= -> ->]].
      * exists j, t. rewrite lookup_insert_ne by congruence. done.
      * eexists i, _. by rewrite lookup_insert_eq.
    + intros (j & t & [[<- <-]|[Hne Hj]]%lookup_insert_Some & Hh & Hk); [right; by simplify_eq/=|left].
      by exists j, t.
  - assert (forall j t, ts !! j = Some t -> holds t = true -> wr_key t <> (f, n)) as Hne.
    { intros j t Hj Hh Hk. apply L1, H3. by exists j, t. }
    intros j k t1 t2; cbn [fst snd]; intros [[<- <-]|[? Hj]]%lookup_insert_Some [[<- <-]|[? Hk]]%lookup_insert_Some Hh1 Hh2 E; try done.
    + symmetry in E. by destruct (Hne k t2 Hk Hh2).
    + by destruct (Hne j t1 Hj Hh1).
    + by apply (H4 j k t1 t2).
Qed.

Lemma system_ok_release w ts i t :
  ts !! i = Some t -> holds t = true -> system_ok (w, ts) ->
  system_ok (set_locks (sentence_lock_release (w_locks w) (wr_file t) (wr_sentence t)) w,
             <[i := set_phase Released t]> ts).
Proof using.
  intros Hi Ht [H1 H2 H3 H4]. cbn [fst snd] in *.
  destruct (sentence_lock_release_spec (w_locks w) (wr_file t) (wr_sentence t) H2) as [H5 H6].
  split; [done|done| |].
  - intros f n. unfold lock_held in *. cbn [fst snd w_locks set_locks]. rewrite H6, H3. split.
    + intros [(j & t' & Hj & Hh & Hk) Hne]. exists j, t'. rewrite lookup_insert_ne; [done|].
      intros ->. by simplify_eq.
    + intros (j & t' & [[<- <-]|[Hne Hj]]%lookup_insert_Some & Hh & Hk); [done|]. split; [by exists j, t'|].
      intros E. apply Hne. apply (H4 i j t t'); try done. rewrite Hk, E. done.
  - intros j k t1 t2; cbn [fst snd]; intros [[<- <-]|[? Hj]]%lookup_insert_Some [[<- <-]|[? Hk]]%lookup_insert_Some Hh1 Hh2 E; try done.
    by apply (H4 j k t1 t2).
Qed.

Lemma system_ok_delete w ts i t :
  ts !! i = Some t -> holds t = false -> system_ok (w, ts) -> system_ok (w, delete i ts).
Proof using.
  intros Hi Ht [H1 H2 H3 H4]. cbn [fst snd] in *. split; [done|done| |].
  - intros f n. cbn [fst snd]. rewrite H3. split.
    + intros (j & t' & Hj & Hh & Hk). exists j, t'. rewrite lookup_delete_ne; [done|]. intros ->. congruence.
    + intros (j & t' & [? Hj]%lookup_delete_Some & Hh & Hk). by exists j, t'.
  - intros j k t1 t2; cbn [fst snd]; intros [? Hj]%lookup_delete_Some [? Hk]%lookup_delete_Some. by apply (H4 j k t1 t2).
Qed.

Lemma system_ok_keeps_locks w w' ts : keeps_locks w w' -> system_ok (w, ts) -> system_ok (w', ts).
Proof using.
  intros (L1 & L2 & L3) [H1 H2 H3 H4]. split; cbn [fst snd] in *; auto. intros f n. by rewrite L1.
Qed.

Lemma step_preserves_ok x x' : step x x' -> system_ok x -> system_ok x'.
Proof using.
  intros [y y' Hstep|w ts json now] Hok; [|by eapply system_ok_keeps; [apply process_nm_command_keeps|done]]. destruct Hstep as
    [w ts i f u n s v w' Hi E|w ts f u n w' E|w ts i t s now json s' w' Hi Hp E|w ts i t s now json w' Hi Hp E
    |w ts i t s Hi Hp|w ts i t Hi Hp|w ts i t Hi Hp|w ts f u now|w ts f u now|w ts tok u f op now b w' E].
  - pose proof (write_open_locks f u n w (so_docs _ Hok) (so_locks _ Hok)) as H. rewrite E in H.
    by eapply system_ok_open.
  - pose proof (write_open_locks f u n w (so_docs _ Hok) (so_locks _ Hok)) as H. rewrite E in H.
    by eapply system_ok_keeps_locks.
  - pose proof (write_message_keeps (wr_file t) (wr_user t) (wr_view t) now json s w) as H. rewrite E in H.
    eapply system_ok_phase; [done|by unfold holds; rewrite Hp|done|]. by eapply system_ok_keeps.
  - pose proof (write_message_keeps (wr_file t) (wr_user t) (wr_view t) now json s w) as H. rewrite E in H.
    eapply system_ok_phase; [done|by unfold holds; rewrite Hp|done|]. by eapply system_ok_keeps.
  - eapply system_ok_phase; [done|by unfold holds; rewrite Hp|done|done].
  - eapply system_ok_release; [done|by unfold holds; rewrite Hp|done].
  - eapply system_ok_delete; [done|by unfold holds; rewrite Hp|].
    eapply system_ok_keeps; [|exact Hok]. auto with keeps.
  - eapply system_ok_keeps; [apply handle_read_keeps|done].
  - eapply system_ok_keeps; [apply handle_stream_keeps|done].
  - eapply system_ok_keeps; [|exact Hok]. by eapply keeps_validate.
Qed.

Lemma reachable_ok s : reachable s -> system_ok s.
Proof using.
  intros (s0 & H0 & Hr). apply system_ok_start in H0. induction Hr as [s|s1 s2 s3 H12 H23 IH]; [done|].
  apply IH. by eapply step_preserves_ok.
Qed.

(** C6: two writers never have the same sentence.  However connections, edits,
    commits, hang-ups and name-manager commands interleave, writers that have not
    yet released their lock edit different sentences, and a sentence is locked in
    the table exactly when one of them has it, so that a refused writer was refused
    for a good reason and no lock is leaked. *)
Theorem sentence_mutual_exclusion w ts :
  reachable (w, ts) ->
  (forall i j t t', i <> j -> ts !! i = Some t -> ts !! j = Some t' -> holds t = true -> holds t' = true ->
     wr_key t <> wr_key t') /\
  (forall f n, lock_held w f n <-> exists i t, ts !! i = Some t /\ holds t = true /\ wr_key t = (f, n)).
Proof using.
  intros Hr%reachable_ok. split; [|apply (so_held _ Hr)].
  intros i j t t' Hne Hi Hj Hh Hh' E. apply Hne. by eapply (so_once _ Hr).
Qed.

(** The document's own lock flag does not follow the locks.  When a writer of a
    document finishes, its last step marks the document as unlocked even though
    another writer still holds another sentence of it, so the commands that are
    refused on a locked document (undo, revert, delete) are accepted while that
    writer's session is open. *)
Theorem finished_writer_unlocks_document w ts i t j t' :
  reachable (w, ts) -> ts !! i = Some t -> wr_phase t = Released ->
  ts !! j = Some t' -> holds t' = true -> wr_file t' = wr_file t ->
  exists w', step (w, ts) (w', delete i ts) /\
    delete i ts !! j = Some t' /\ lock_held w' (wr_file t') (wr_sentence t') /\
    forall v, snapshot_file (wr_file t') w' = Some v ->
      lock_active v = false /\ forall u now, fst (perform_undo (wr_file t') u now w') <> Err EBUSY.
Proof using.
  intros Hr Hi Hp Hj Hh Hf. apply reachable_ok in Hr.
  exists (set_file_lock_state (wr_file t) false (-1) None w). split_and!.
  - by apply step_client, step_clear.
  - rewrite lookup_delete_ne; [done|]. intros ->. simplify_eq. unfold holds in Hh. by rewrite Hp in Hh.
  - destruct (keeps_lock_state (wr_file t) false (-1) None w w (keeps_refl w)) as [E _].
    unfold lock_held. rewrite E. apply (so_held _ Hr). by exists j, t'.
  - intros v Hv. rewrite Hf in *.
    assert (lock_active v = false) as Hl.
    { unfold set_file_lock_state in Hv. destruct (snapshot_file (wr_file t) w) as [v0|] eqn:E0.
      - destruct (update_record_found (wr_file t) (with_lock false [] (-1)) w v0 (so_docs _ Hr)) as (w' & E & Hv' & _);
          [done|done|]. rewrite E in Hv. cbn [snd] in Hv. rewrite Hv in Hv'. by injection Hv' as ->.
      - assert (update_record (wr_file t) (with_lock false [] (-1)) w = (None, w)) as E.
        { unfold update_record. unfold snapshot_file in E0.
          by destruct (ss_state_find (w_state w) (wr_file t)) as [[g|] k]. }
        rewrite E in Hv. cbn [snd] in Hv. congruence. }
    split; [done|]. intros u now. unfold perform_undo. rewrite Hv, Hl.
    repeat break_goal; cbn [fst]; done.
Qed.

End Steps.

(** ** A run with two writers *)

Definition no_rpc (host port payload : cstr) : option cstr := None.
Definition no_error (e : errno) : cstr := [].

Definition demo_two : world :=
  set_disk (mk_disk (<[cs "s/files/a" := cs "One. Two."]> ∅) [] []) (demo_world []).

(** Ann and Bob edit the two sentences of document [a]. *)
Lemma demo_editing :
  exists w ts t t', reachable no_rpc no_error (w, ts) /\ ts !! 0 = Some t /\ ts !! 1 = Some t' /\
    is_Some (match wr_phase t with Editing s => Some s | _ => None end) /\ holds t' = true /\
    wr_key t = (cs "a", 0%Z) /\ wr_key t' = (cs "a", 1%Z).
Proof.
  set (o0 := write_open (cs "a") (cs "ann") 0 demo_two).
  set (o1 := write_open (cs "a") (cs "bob") 1 (snd o0)).
  assert (is_Some (fst o0)) as [[s0 v0] H0] by (eexists; vm_compute; reflexivity).
  assert (is_Some (fst o1)) as [[s1 v1] H1] by (eexists; vm_compute; reflexivity).
  eexists (snd o1), (<[1 := mk_writer (cs "a") (cs "bob") 1 v1 (Editing s1)]>
                      (<[0 := mk_writer (cs "a") (cs "ann") 0 v0 (Editing s0)]> ∅)), _, _.
  split_and!; [|by rewrite lookup_insert_ne, lookup_insert_eq|by rewrite lookup_insert_eq|by eexists|done|done|done].
  exists (demo_two, ∅). split; [by split_and!; [apply (demo_world_ok [])|..]|].
  eapply rtc_l; [|apply rtc_once].
  - apply step_client, (step_open _ _ 0 (cs "a") (cs "ann") 0%Z s0 v0 (snd o0)); [apply lookup_empty|].
    change (o0 = (Some (s0, v0), snd o0)). rewrite <- H0. by destruct o0.
  - apply step_client, (step_open _ _ 1 (cs "a") (cs "bob") 1%Z s1 v1 (snd o1)); [by rewrite lookup_insert_ne|].
    change (o1 = (Some (s1, v1), snd o1)). rewrite <- H1. by destruct o1.
Qed.

Lemma sentence_mutual_exclusion_witness :
  exists w ts t t', reachable no_rpc no_error (w, ts) /\ ts !! 0 = Some t /\ ts !! 1 = Some t' /\
    wr_key t <> wr_key t' /\ lock_held w (cs "a") 1.
Proof.
  destruct demo_editing as (w & ts & t & t' & Hr & H0 & H1 & [s Hs] & Hh & K & K').
  assert (holds t = true) as Ht by (unfold holds; destruct (wr_phase t); [reflexivity|discriminate|discriminate]).
  exists w, ts, t, t'. split; [exact Hr|]. split; [exact H0|]. split; [exact H1|].
  destruct (sentence_mutual_exclusion no_rpc no_error w ts Hr) as [H2 H3]. split.
  - apply (H2 0 1 t t'); try assumption. discriminate.
  - apply H3. exists 1, t'. split; [exact H1|]. split; assumption.
Defined.

(** Ann leaves; Bob is still editing. *)
Lemma demo_left :
  exists w ts t t', reachable no_rpc no_error (w, ts) /\ ts !! 0 = Some t /\ wr_phase t = Released /\
    ts !! 1 = Some t' /\ holds t' = true /\ wr_file t' = wr_file t.
Proof.
  destruct demo_editing as (w & ts & t & t' & (s0 & Hst & Hr) & H0 & H1 & [s Hs] & Hh & K & K').
  destruct (wr_phase t) eqn:Hp; simplify_eq/=.
  eexists _, _, (set_phase Released (set_phase Done t)), t'. split_and!.
  - exists s0. split; [done|]. etrans; [exact Hr|].
    eapply rtc_l; [apply step_client; by eapply (step_hangup _ _ 0)|apply rtc_once].
    apply step_client. by eapply (step_release _ _ 0); [rewrite lookup_insert_eq|].
  - by rewrite lookup_insert_eq.
  - done.
  - by rewrite !lookup_insert_ne.
  - done.
  - unfold wr_key in *. cbn. congruence.
Qed.

Lemma finished_writer_unlocks_document_witness :
  exists w ts t' w', step no_rpc no_error (w, ts) (w', delete 0 ts) /\ delete 0 ts !! 1 = Some t' /\
    lock_held w' (wr_file t') (wr_sentence t').
Proof.
  destruct demo_left as (w & ts & t & t' & Hr & H0 & Hp & H1 & Hh & Hf).
  destruct (finished_writer_unlocks_document no_rpc no_error w ts 0 t 1 t' Hr H0 Hp H1 Hh Hf)
    as (w' & H2 & H3 & H4 & _).
  exists w, ts, t', w'. split; [exact H2|]. split; [exact H3|exact H4].
Defined.

(** ** The commit in two steps *)

(** [write_session_commit] holds no lock: between loading the current document and
    storing the new one another writer's commit can run.  The two halves: *)
Definition commit_prepare (s : write_session) (file : ss_file) (d : disk) : option (cstr * cstr) * disk :=
  let '(loaded, d) := load_text (data_path file) d in
  let current_text := match loaded with Some (t, _) => t | None => [] end in
  let latest := split_sentences current_text in
  match commit_index s latest with
  | None => (None, d)
  | Some insert_index =>
      (Some (current_text, join_sentences (merge_loop latest 0 insert_index (split_sentences (sentence_text s))
                                             (replacing_existing s) false false [])), d)
  end.

Definition commit_store (s : write_session) (file : ss_file) (current text : cstr) (d : disk)
  : option (res (cstr * nat * nat) * write_session * disk) :=
  let '(undo_stored, d) := store_text_atomic (undo_path file) current d in
  if negb undo_stored then Some (Err ESYS, s, d)
  else
    let '(data_stored, d) := store_text_atomic (data_path file) text d in
    if negb data_stored then Some (Err ESYS, s, d)
    else Some (Ok (text, count_words_in_text text, length text),
          mk_session false (sentence_index s) (user s) (original_text s) (sentence_text s)
            (baseline_sentence s) (sentences s), d).

(** Run one after the other they are the commit. *)
Lemma commit_halves g s file d :
  write_session_commit g s file d =
  match commit_prepare s file d with
  | (None, d) => if (g =? 0)%Z then Some (Err EAGAIN, s, d) else None
  | (Some (current, text), d) => commit_store s file current text d
  end.
Proof.
  unfold write_session_commit, commit_prepare, commit_store.
  destruct (load_text (data_path file) d) as [l d1]. by destruct (commit_index s _).
Qed.

(** C40: interleaved commits lose an update.  When two writers of different
    sentences both load the document before either stores it, both commits succeed,
    but the document is what the second one computed from the old text alone: the
    first writer's sentence is there unedited, and the undo file does not hold it
    either. *)
Theorem interleaved_commits_lose_update g a b file d current ta tb d1 d2 :
  good_paths file -> quiet d ->
  commit_prepare a file d = (Some (current, ta), d1) ->
  commit_prepare b file d1 = (Some (current, tb), d2) ->
  exists ra sa d3 rb sb d4,
    commit_store a file current ta d2 = Some (Ok ra, sa, d3) /\ files d3 !! data_path file = Some ta /\
    commit_store b file current tb d3 = Some (Ok rb, sb, d4) /\ files d4 !! data_path file = Some tb /\
    files d4 !! undo_path file = Some current /\
    (* exactly what [b]'s commit alone would have produced *)
    exists d5, write_session_commit g b file d = Some (Ok rb, sb, d5) /\ files d5 !! data_path file = Some tb.
Proof.
  intros Hg Hq Ea Eb.
  assert (forall s x d', commit_prepare s file d = (x, d') -> d' = d) as Hp.
  { intros s x d'. unfold commit_prepare. rewrite load_text_quiet by done. by destruct (commit_index s _); intros [= _ <-]. }
  pose proof (Hp a _ _ Ea). subst d1. pose proof (Hp b _ _ Eb). subst d2.
  assert (forall s text d0, quiet d0 -> exists s' d', commit_store s file current text d0 =
      Some (Ok (text, count_words_in_text text, length text), s', d') /\ quiet d' /\
      s' = mk_session false (sentence_index s) (user s) (original_text s) (sentence_text s)
             (baseline_sentence s) (sentences s) /\
      files d' !! data_path file = Some text /\ files d' !! undo_path file = Some current) as Hst.
  { intros s text d0 Hq0. destruct (store_text_atomic_quiet (undo_path file) current d0 Hq0) as (e1 & E1 & Hq1).
    destruct (store_text_atomic_quiet (data_path file) text e1 Hq1) as (e2 & E2 & Hq2).
    destruct (commit_stores file current text d0 true e1 Hg E1) as (_ & _ & _ & H).
    destruct (H eq_refl true e2 E2) as (_ & H1 & H2).
    unfold commit_store. rewrite E1. cbn [negb]. rewrite E2. cbn [negb]. eexists _, _. by split_and!. }
  destruct (Hst a ta d Hq) as (sa & d3 & E3 & Hq3 & _ & F3 & _).
  destruct (Hst b tb d3 Hq3) as (sb & d4 & E4 & _ & S4 & F4 & U4).
  destruct (Hst b tb d Hq) as (sb' & d5 & E5 & _ & S5 & F5 & _).
  eexists _, _, _, _, _, _. split_and!; [exact E3|exact F3|exact E4|exact F4|exact U4|].
  rewrite commit_halves, Eb. cbv beta iota. rewrite E5.
  exists d5. split; [by rewrite S4, S5|done].
Qed.

Lemma interleaved_commits_lose_update_witness :
  let d := demo_doc [] in
  exists ra sa d3 rb sb d4,
    commit_store demo_writer demo_file (cs "One. Two. Three.")
      (join_sentences [cs "One."; cs "Two!"; cs "and half."; cs "Three."]) d = Some (Ok ra, sa, d3) /\
    commit_store demo_other demo_file (cs "One. Two. Three.")
      (join_sentences [cs "One."; cs "Two."; cs "3."]) d3 = Some (Ok rb, sb, d4) /\
    files d4 !! data_path demo_file = Some (join_sentences [cs "One."; cs "Two."; cs "3."]).
Proof.
  intros d.
  destruct (interleaved_commits_lose_update 0 demo_writer demo_other demo_file d (cs "One. Two. Three.")
    (join_sentences [cs "One."; cs "Two!"; cs "and half."; cs "Three."])
    (join_sentences [cs "One."; cs "Two."; cs "3."]) d d demo_good_paths eq_refl)
    as (ra & sa & d3 & rb & sb & d4 & H1 & _ & H2 & H3 & _).
  - vm_compute. reflexivity.
  - vm_compute. reflexivity.
  - exists ra, sa, d3, rb, sb, d4. split; [exact H1|]. split; [exact H2|exact H3].
Defined.
