(* ===== verification/SsStart.v ===== *)
(** * [ss/ss_main.c], [ss/ss_state.c]: starting a storage server

    [main] finds its storage directory, makes the directories below it, loads the table of
    documents, opens its log files, connects to the name manager and registers, and then
    serves the name manager itself and every data connection in a thread of its own, until
    the name manager is gone. *)

From stdpp Require Import relations.
From S2P Require Import Prelude Cstr Json Proto SsText Fs SsState SsSession SsTables SsServer SsConcurrent.

(** ** Paths *)

Definition PATH_MAX : nat := 4096.

Definition path_uses_temp_alias (path : cstr) : bool :=
  bool_decide (take 5 path = cs "/temp") &&
  match drop 5 path with [] => true | c :: _ => bool_decide (c = "/"%char) end.

Definition is_slash (c : ascii) : bool := bool_decide (c = "/"%char).
Definition drop_last_while (p : ascii -> bool) (s : cstr) : cstr := rev (drop_while p (rev s)).

(** [dirname]: without the last component, and ["."] or ["/"] when nothing else is left. *)
Definition dirname (path : cstr) : cstr :=
  match path with
  | [] => cs "."
  | _ =>
      match drop_last_while is_slash path with
      | [] => cs "/"
      | trimmed =>
          match drop_last_while (fun c => negb (is_slash c)) trimmed with
          | [] => cs "."
          | parent => match drop_last_while is_slash parent with [] => cs "/" | d => d end
          end
      end
  end.

(** [exe_link] is what [/proc/self/exe] points to, [None] when it cannot be read. *)
Definition get_workspace_root (exe_link : option cstr) (out_len : nat) : option cstr :=
  if out_len =? 0 then None
  else
    link ← exe_link;
    let exe_path := take (PATH_MAX - 1) link in
    if PATH_MAX - 1 <=? length exe_path then None
    else
      match exe_path with
      | [] => None
      | _ =>
          bin_dir ← fit PATH_MAX exe_path;
          repo_dir ← fit PATH_MAX (dirname bin_dir);
          fit out_len (dirname repo_dir)
      end.

(** The directory, and whether it is below the workspace. *)
Definition resolve_storage_directory (workspace_root requested : cstr) (resolved_len : nat) : option (cstr * bool) :=
  let below (relative : cstr) :=
    match workspace_root with
    | [] => None
    | _ => resolved ← fit resolved_len (workspace_root ++ "/"%char :: relative); Some (resolved, true)
    end in
  if resolved_len =? 0 then None
  else
    match requested with
    | c :: relative =>
        if bool_decide (c = "/"%char) then
          if path_uses_temp_alias requested then below (match relative with [] => cs "temp" | _ => relative end)
          else resolved ← fit resolved_len requested; Some (resolved, false)
        else below requested
    | [] => below requested
    end.

Definition join_path (dst_sz : nat) (base suffix : cstr) : option cstr :=
  if dst_sz <=? length base + length suffix then None else Some (base ++ suffix).

(** ** Directories *)

(** How [mkdir] ends: done, somebody else did it meanwhile, or not at all. *)
Inductive making := Made | AlreadyThere | NotMade.

(** What [stat] finds, a directory or something else, and the calls of [mkdir] to come. *)
Record dir_tree := mk_dirs { nodes : gmap cstr bool; mkdirs : list making }.

Definition mkdir (path : cstr) (t : dir_tree) : making * dir_tree :=
  let '(m, rest) := match mkdirs t with [] => (Made, []) | m :: l => (m, l) end in
  (m, mk_dirs (match m with Made => <[path := true]> (nodes t) | _ => nodes t end) rest).

(** [ensure_dir] of [ss_state.c] and [ensure_directory] of [ss_main.c]. *)
Definition ensure_dir (path : cstr) (t : dir_tree) : bool * dir_tree :=
  match nodes t !! path with
  | Some is_dir => (is_dir, t)
  | None => let '(m, t) := mkdir path t in (match m with NotMade => false | _ => true end, t)
  end.

Fixpoint ensure_dirs (paths : list cstr) (t : dir_tree) : bool * dir_tree :=
  match paths with
  | [] => (true, t)
  | p :: paths => let '(ok, t) := ensure_dir p t in if ok then ensure_dirs paths t else (false, t)
  end.

(** [readdir] gives the names in a directory, [None] when it cannot be opened. *)
Definition ss_state_init (dir : cstr) (readdir : cstr -> option (list cstr)) (t : dir_tree) (d : disk)
  : bool * ss_state * dir_tree * disk :=
  let st := ss_state_dirs dir in
  let '(ok, t) := ensure_dirs [dir; files_dir st; meta_dir st; undo_dir st; checkpoints_dir st] t in
  if negb ok then (false, st, t, d)
  else let '(ok, st, d) := ss_state_load st (readdir (meta_dir st)) d in (ok, st, t, d).

(** ** Registration *)

Definition register_payload (id host ctrl_port data_port file_list : cstr) : option cstr :=
  escaped_id ← json_escape_string 128 id;
  escaped_host ← json_escape_string 128 host;
  escaped_files ← json_escape_string 1024 file_list;
  fit MAX_JSON
    (js "{'type':'SS_REGISTER','ssId':'" ++ escaped_id ++ js "','host':'" ++ escaped_host ++ js "','ctrlPort':'" ++ ctrl_port ++
     js "','dataPort':'" ++ data_port ++ js "','files':'" ++ escaped_files ++ js "'}").

(** The loop that waits for the answer: its status, and the messages left to receive; [None]
    when the connection ends first. *)
Fixpoint register_loop (msgs : list cstr) (w : world) : option (cstr * list cstr) * world :=
  match msgs with
  | [] => (None, w)
  | m :: msgs =>
      match json_get_string m (cs "status") 16 with
      | Some status => (Some (status, msgs), w)
      | None =>
          match json_get_string m (cs "type") 64 with
          | Some type => register_loop msgs (if streq type (cs "NM_TICKET") then handle_nm_ticket_command m w else w)
          | None => register_loop msgs w
          end
      end
  end.

(** ** The process *)

(** What [main] finds around it. *)
Record ss_environment := mk_ss_env {
  e_exe_link : option cstr;
  e_cwd : option cstr;
  e_locks : bool;                                  (** the three initialisations of locks *)
  e_readdir : cstr -> option (list cstr);
  e_dirs : dir_tree;
  e_disk : disk;
  e_logs : bool * bool;
  e_nm : option Z;                                 (** [net_connect] *)
  e_stack : cstr;                                  (** what follows an unterminated list of documents, up to a NUL *)
  e_registering : list cstr;                       (** the messages of the name manager *)
  e_listen : option Z;                             (** [net_listen] *)
}.

Record ss_process := mk_ss_process {
  s_id : cstr;
  s_host : cstr;
  s_data_port : cstr;
  s_nm_fd : Z;
  s_listen_fd : Z;
  s_system : system;
  s_dirs : dir_tree;
  s_logs_opened : bool;
  s_closed : list Z;
}.

Definition with_fds (nm listen : Z) (p : ss_process) : ss_process :=
  mk_ss_process (s_id p) (s_host p) (s_data_port p) nm listen (s_system p) (s_dirs p) (s_logs_opened p) (s_closed p).
Definition with_system (s : system) (p : ss_process) : ss_process :=
  mk_ss_process (s_id p) (s_host p) (s_data_port p) (s_nm_fd p) (s_listen_fd p) s (s_dirs p) (s_logs_opened p) (s_closed p).
Definition with_dirs (t : dir_tree) (logs : bool) (p : ss_process) : ss_process :=
  mk_ss_process (s_id p) (s_host p) (s_data_port p) (s_nm_fd p) (s_listen_fd p) (s_system p) t logs (s_closed p).
Definition close_client (fd : Z) (p : ss_process) : ss_process :=
  mk_ss_process (s_id p) (s_host p) (s_data_port p) (s_nm_fd p) (s_listen_fd p) (s_system p) (s_dirs p) (s_logs_opened p) (s_closed p ++ [fd]).

Definition on_world (f : world -> world) (p : ss_process) : ss_process :=
  with_system (f (fst (s_system p)), snd (s_system p)) p.

(** At [cleanup]. *)
Definition cleanup (p : ss_process) : ss_process :=
  mk_ss_process (s_id p) (s_host p) (s_data_port p) (s_nm_fd p) (s_listen_fd p)
    (set_locks [] (set_tickets [] (set_state (set_docs [] (w_state (fst (s_system p)))) (fst (s_system p)))), snd (s_system p))
    (s_dirs p) false
    (s_closed p ++ (if (0 <=? s_listen_fd p)%Z then [s_listen_fd p] else []) ++ (if (0 <=? s_nm_fd p)%Z then [s_nm_fd p] else [])).

(** ** [main], part by part *)

(** From the arguments to the storage directory and the table; [None]: the program exits. *)
Definition load_storage (ss_id public_host data_port requested : cstr) (env : ss_environment) : option (cstr * ss_process) :=
  let workspace_root := match get_workspace_root (e_exe_link env) PATH_MAX with
                        | Some root => root
                        | None => default [] (e_cwd env ≫= fit PATH_MAX)
                        end in
  '(storage_dir, _) ← resolve_storage_directory workspace_root requested PATH_MAX;
  if negb (e_locks env) then None
  else
    let '(ok, st, t, d) := ss_state_init storage_dir (e_readdir env) (e_dirs env) (e_disk env) in
    if negb ok then None
    else
      Some (storage_dir, mk_ss_process (snprintf_s 64 ss_id) (snprintf_s 64 public_host) (snprintf_s 16 data_port) (-1) (-1)
                           (mk_world st d [] [] [] [], ∅) t false []).

(** The log files below the storage directory; whether both are open. *)
Definition open_logs (storage_dir : cstr) (env : ss_environment) (p : ss_process) : bool * ss_process :=
  match join_path PATH_MAX storage_dir (cs "/logs") with
  | None => (false, p)
  | Some log_dir =>
      let '(ok, t) := ensure_dir log_dir (s_dirs p) in
      let p := with_dirs t false p in
      if negb ok then (false, p)
      else
        match join_path PATH_MAX log_dir (cs "/ss.log"), join_path PATH_MAX log_dir (cs "/requests.log") with
        | Some _, Some _ => let ok := fst (e_logs env) && snd (e_logs env) in (ok, with_dirs t ok p)
        | _, _ => (false, p)
        end
  end.

(** What [main] takes for the list of documents. *)
Definition file_list (env : ss_environment) (w : world) : cstr :=
  let '(text, terminated) := build_file_list w 1024 in if terminated : bool then text else text ++ e_stack env.

(** The connection to the name manager: the messages still to be received, once registered. *)
Definition register (env : ss_environment) (p : ss_process) : option (list cstr) * ss_process :=
  match e_nm env with
  | None => (None, p)
  | Some fd =>
      let p := with_fds fd (-1) p in
      match register_payload (s_id p) (s_host p) (cs "0") (s_data_port p) (file_list env (fst (s_system p))) with
      | None => (None, p)
      | Some payload =>
          let p := on_world (fun w => snd (send_nm (Some payload) w)) p in
          let '(answer, w) := register_loop (e_registering env) (fst (s_system p)) in
          let p := on_world (fun _ => w) p in
          match answer with
          | Some (status, rest) => (if streq status (cs "OK") then Some rest else None, p)
          | None => (None, p)
          end
      end
  end.

(** Up to the loop: the process, and the messages received but not yet read; [inl] with the
    process to clean up, if any. *)
Definition start_server (ss_id public_host data_port requested : cstr) (env : ss_environment)
  : option ss_process + list cstr * ss_process :=
  match load_storage ss_id public_host data_port requested env with
  | None => inl None
  | Some (storage_dir, p) =>
      let '(ok, p) := open_logs storage_dir env p in
      if negb ok then inl (Some p)
      else
        match register env p with
        | (None, p) => inl (Some p)
        | (Some rest, p) =>
            match e_listen env with
            | None => inl (Some p)
            | Some fd => inr (rest, with_fds (s_nm_fd p) fd p)
            end
        end
  end.

(** ** The main loop *)

(** What a round of [select] finds: a command with the time it is handled, [None] for a broken
    connection; a data connection, and whether a thread can be started for it.  Between two
    rounds the other threads run. *)
Inductive round :=
| SelectInterrupted
| SelectFailed
| Ready (command : option (option (cstr * Z))) (client : option (Z * bool))
| Threads (f : system -> system).

Section Loop.
Context (rpc : cstr -> cstr -> cstr -> option cstr) (strerror : errno -> cstr).

Definition accept_client (client : option (Z * bool)) (p : ss_process) : ss_process :=
  match client with
  | Some (fd, false) => close_client fd p
  | _ => p
  end.

(** The exit code, when the loop ends. *)
Fixpoint serve (rounds : list round) (p : ss_process) : option Z * ss_process :=
  match rounds with
  | [] => (None, p)
  | SelectInterrupted :: rounds => serve rounds p
  | SelectFailed :: _ => (Some 1%Z, p)
  | Ready (Some None) _ :: _ => (Some 1%Z, p)
  | Ready (Some (Some (json, now))) client :: rounds =>
      serve rounds (accept_client client (on_world (process_nm_command rpc strerror json now) p))
  | Ready None client :: rounds => serve rounds (accept_client client p)
  | Threads f :: rounds => serve rounds (with_system (f (s_system p)) p)
  end.

(** The exit code, [None] while it still runs, and the process. *)
Definition ss_main (ss_id public_host data_port requested : cstr) (env : ss_environment) (rounds : list round)
  : option Z * option ss_process :=
  match start_server ss_id public_host data_port requested env with
  | inl p => (Some 1%Z, cleanup <$> p)
  | inr (_, p) =>
      match serve rounds p with
      | (Some code, p) => (Some code, Some (cleanup p))
      | (None, p) => (None, Some p)
      end
  end.

(** ** Registration *)

Definition is_ticket (m : cstr) : bool :=
  match json_get_string m (cs "type") 64 with Some type => streq type (cs "NM_TICKET") | None => false end.

(** The table of tickets after an announcement. *)
Definition announce (ts : list auth_ticket) (m : cstr) : list auth_ticket :=
  match json_get_string m (cs "token") 64, json_get_string m (cs "file") SS_NAME_MAX,
        json_get_string m (cs "user") SS_USER_MAX, json_get_string m (cs "op") 16, json_get_int m (cs "expiry") with
  | Some tok, Some file_name, Some usr, Some op, Some exp => ticket_table_add ts tok file_name usr op exp
  | _, _, _, _, _ => ts
  end.

Lemma answer_nm_same r w :
  w_state (answer_nm r w) = w_state w /\ w_disk (answer_nm r w) = w_disk w /\ w_tickets (answer_nm r w) = w_tickets w /\
  w_locks (answer_nm r w) = w_locks w.
Proof using. unfold answer_nm. by destruct (reply_json r). Qed.

Lemma ticket_command_spec m w :
  w_state (handle_nm_ticket_command m w) = w_state w /\ w_disk (handle_nm_ticket_command m w) = w_disk w /\
  w_tickets (handle_nm_ticket_command m w) = announce (w_tickets w) m /\ w_locks (handle_nm_ticket_command m w) = w_locks w.
Proof using.
  unfold handle_nm_ticket_command, announce.
  destruct (json_get_string m (cs "token") 64); [|apply answer_nm_same]. destruct (json_get_string m (cs "file") SS_NAME_MAX); [|apply answer_nm_same].
  destruct (json_get_string m (cs "user") SS_USER_MAX); [|apply answer_nm_same]. destruct (json_get_string m (cs "op") 16); [|apply answer_nm_same].
  destruct (json_get_int m (cs "expiry")); [|apply answer_nm_same].
  match goal with |- context [answer_nm ?r ?x] => destruct (answer_nm_same r x) as (H1 & H2 & H3 & H4); by rewrite H1, H2, H3, H4 end.
Qed.

(** The loop ends with the first message that has a status, and of those before it the tickets
    count, in their order. *)
Lemma register_loop_spec msgs w :
  let '(r, w') := register_loop msgs w in
  w_state w' = w_state w /\ w_disk w' = w_disk w /\ w_locks w' = w_locks w /\
  match r with
  | None => Forall (fun m => json_get_string m (cs "status") 16 = None) msgs
  | Some (status, rest) => exists before m, msgs = before ++ m :: rest /\ json_get_string m (cs "status") 16 = Some status /\
      Forall (fun m => json_get_string m (cs "status") 16 = None) before /\
      w_tickets w' = foldl announce (w_tickets w) (List.filter is_ticket before)
  end.
Proof using.
  revert w. induction msgs as [|m msgs IH]; intros w; cbn [register_loop]; [done|].
  destruct (json_get_string m (cs "status") 16) as [status|] eqn:Es; [split_and!; [done..|]; by exists [], m|].
  assert (forall w1, w_state w1 = w_state w -> w_disk w1 = w_disk w -> w_locks w1 = w_locks w ->
    w_tickets w1 = (if is_ticket m then announce (w_tickets w) m else w_tickets w) ->
    let '(r, w') := register_loop msgs w1 in
    w_state w' = w_state w /\ w_disk w' = w_disk w /\ w_locks w' = w_locks w /\
    match r with
    | None => Forall (fun m => json_get_string m (cs "status") 16 = None) (m :: msgs)
    | Some (status, rest) => exists before m', m :: msgs = before ++ m' :: rest /\ json_get_string m' (cs "status") 16 = Some status /\
        Forall (fun m => json_get_string m (cs "status") 16 = None) before /\
        w_tickets w' = foldl announce (w_tickets w) (List.filter is_ticket before)
    end) as Hgo.
  { intros w1 E1 E2 E3 E4. specialize (IH w1). destruct (register_loop msgs w1) as [r w']. destruct IH as (I1 & I2 & I3 & I4).
    split_and!; [congruence..|]. destruct r as [[status rest]|]; [|by constructor].
    destruct I4 as (before & m' & -> & Hs & Hb & Ht). exists (m :: before), m'. split_and!; [done|done|by constructor|].
    cbn [List.filter]. rewrite Ht, E4. by destruct (is_ticket m). }
  unfold is_ticket in Hgo at 1. destruct (json_get_string m (cs "type") 64) as [type|]; [|by apply Hgo].
  destruct (streq type (cs "NM_TICKET")); [|by apply Hgo]. destruct (ticket_command_spec m w) as (H1 & H2 & H3 & H4). by apply Hgo.
Qed.

(** ** The table that is loaded *)

Lemma load_entry_cases e st d :
  let '(st', _) := load_entry e st d in
  st' = st \/ exists n f, entry_name e = Some n /\ name f = n /\ st' = set_docs (insert_sorted (docs st) f) st.
Proof using.
  unfold load_entry. destruct (entry_name e) as [n|]; [|by left]. unfold load_meta_file. destruct (plain_call d) as [opened d1].
  destruct opened; [|by left]. destruct (files d1 !! _) as [b|]; [|by left].
  set (f0 := load_meta_lines _ _ _). assert (name f0 = n) as Hn.
  { unfold f0. clear. generalize (length b). intros k. assert (name (fill_paths st n (with_names n [] zero_file)) = n) as H by done.
    revert H. generalize (fill_paths st n (with_names n [] zero_file)). revert b. induction k as [|k IH]; intros b f H; [by destruct b|].
    destruct b as [|c b]; [done|]. cbn [load_meta_lines]. destruct (fgets_line 255 (c :: b)) as [line rest]. apply IH.
    unfold load_meta_line. destruct (cut _ _) as [key [value|]]; [|done]. unfold load_meta_field. by repeat case_match. }
  assert (name (fst (recount f0 d1)) = n) as Hr.
  { unfold recount. destruct (_ || _)%bool; [|done]. destruct (plain_call d1) as [[] d2]; [|done]. destruct (files d2 !! _); [|done].
    destruct (plain_call d2) as [at_end d3], (plain_call d3) as [at_start d4]. by destruct (next_fault d4) as [r d5]. }
  destruct (recount f0 d1) as [f1 d2]. cbn [fst] in Hr. right. by exists n, (with_lock false (lock_user f1) (-1) f1).
Qed.

Lemma entry_name_length e n : entry_name e = Some n -> length n < SS_NAME_MAX.
Proof using.
  unfold entry_name. destruct e as [|c e]; [done|]. case_bool_decide; [done|]. destruct (last_dot _) as [[stem dot]|]; [|done].
  destruct (streq _ _); [|done]. intros [= <-]. rewrite length_take. unfold SS_NAME_MAX. lia.
Qed.

Lemma load_entries_sorted es st d :
  NoDup (omap entry_name es) -> (forall n, n ∈ omap entry_name es -> n ∉ map name (docs st)) -> sorted (docs st) ->
  Forall (fun f => length (name f) < SS_NAME_MAX) (docs st) ->
  let '(st', _) := foldl (fun '(st, d) e => load_entry e st d) (st, d) es in
  sorted (docs st') /\ Forall (fun f => length (name f) < SS_NAME_MAX) (docs st').
Proof using.
  revert st d. induction es as [|e es IH]; intros st d Hnd Hni Hs Hl; [done|]. cbn [foldl].
  pose proof (load_entry_cases e st d) as Hc. destruct (load_entry e st d) as [st1 d1]. cbn [omap list_omap] in *.
  destruct Hc as [->|(n & f & En & Hf & ->)].
  - destruct (entry_name e) as [n|]; [|by apply IH]. apply NoDup_cons in Hnd as [_ Hnd]. apply IH; try done. intros x Hx. apply Hni. by right.
  - rewrite En in *. apply NoDup_cons in Hnd as [Hn Hnd]. destruct (insert_sorted_perm (docs st) f Hs) as [Hs' Hp].
    { rewrite Hf. apply Hni. left. }
    apply IH; cbn [docs set_docs]; try done.
    + intros x Hx. rewrite (fmap_Permutation name _ _ Hp : map name _ ≡ₚ map name (f :: docs st)). cbn [map]. rewrite Hf. intros [->|Hin]%elem_of_cons; [done|].
      apply (Hni x); [by right|done].
    + rewrite Hp. constructor; [rewrite Hf; by eapply entry_name_length|done].
Qed.

(** Different entries for different documents give a well formed table. *)
Lemma ss_state_init_docs_ok dir readdir t d st t' d' :
  (forall p es, readdir p = Some es -> NoDup (omap entry_name es)) ->
  ss_state_init dir readdir t d = (true, st, t', d') ->
  sorted (docs st) /\ Forall (fun f => length (name f) < SS_NAME_MAX) (docs st).
Proof using.
  intros Hnd. unfold ss_state_init. destruct (ensure_dirs _ t) as [[] t1]; [|done]. cbn [negb].
  destruct (readdir _) as [es|] eqn:Er; [|done]. unfold ss_state_load.
  pose proof (load_entries_sorted es (ss_state_dirs dir) d (Hnd _ _ Er)) as H.
  destruct (foldl _ _ es) as [st1 d1]. intros [= <- <- <-]. apply H; [|constructor|constructor]. intros n _. apply not_elem_of_nil.
Qed.

(** ** The life of the server *)

Lemma on_world_system f p : s_system (on_world f p) = (f (fst (s_system p)), snd (s_system p)).
Proof using. done. Qed.

Lemma load_storage_spec id host port dir env storage_dir p :
  load_storage id host port dir env = Some (storage_dir, p) ->
  exists root below st t d, resolve_storage_directory root dir PATH_MAX = Some (storage_dir, below) /\
    ss_state_init storage_dir (e_readdir env) (e_dirs env) (e_disk env) = (true, st, t, d) /\
    p = mk_ss_process (snprintf_s 64 id) (snprintf_s 64 host) (snprintf_s 16 port) (-1) (-1) (mk_world st d [] [] [] [], ∅) t false [].
Proof using.
  unfold load_storage. intros H. destruct (resolve_storage_directory _ _ _) as [[sd below]|] eqn:Er; [|done]. simpl in H.
  destruct (e_locks env); [|done]. cbn [negb] in H.
  destruct (ss_state_init _ _ _ _) as [[[ok st] t] d] eqn:Ei. destruct ok; [|done]. cbn [negb] in H. injection H as <- <-.
  do 5 eexists. split_and!; [exact Er|exact Ei|done].
Qed.

Lemma open_logs_system dir env p : let '(_, p') := open_logs dir env p in
  s_system p' = s_system p /\ s_id p' = s_id p /\ s_host p' = s_host p /\ s_data_port p' = s_data_port p /\ s_closed p' = s_closed p.
Proof using.
  unfold open_logs. destruct (join_path PATH_MAX dir _) as [l|]; [|done]. destruct (ensure_dir l _) as [[] t]; [|done]. cbn [negb].
  destruct (join_path _ l (cs "/ss.log")); [|done]. by destruct (join_path _ l _).
Qed.

(** What a server that starts serving has: the table loaded from its storage directory, the
    tickets announced so far, and nothing else. *)
Lemma start_server_spec id host port dir env rest p :
  start_server id host port dir env = inr (rest, p) ->
  exists storage_dir st t d before ok,
    ss_state_init storage_dir (e_readdir env) (e_dirs env) (e_disk env) = (true, st, t, d) /\
    e_registering env = before ++ ok :: rest /\ json_get_string ok (cs "status") 16 = Some (cs "OK") /\
    e_nm env = Some (s_nm_fd p) /\ e_listen env = Some (s_listen_fd p) /\ s_closed p = [] /\
    w_state (fst (s_system p)) = st /\ w_disk (fst (s_system p)) = d /\ w_locks (fst (s_system p)) = [] /\ snd (s_system p) = ∅ /\
    w_tickets (fst (s_system p)) = foldl announce [] (List.filter is_ticket before).
Proof using.
  unfold start_server. intros H. destruct (load_storage id host port dir env) as [[sd p0]|] eqn:El; [|done].
  apply load_storage_spec in El as (root & below & st & t & d & _ & Ei & E0).
  pose proof (open_logs_system sd env p0) as Hol. destruct (open_logs sd env p0) as [[] p1]; [|done]. cbn [negb] in H.
  destruct Hol as (O1 & O2 & O3 & O4 & O5). unfold register in H. destruct (e_nm env) as [nfd|]; [|done]. cbv zeta in H.
  destruct (register_payload _ _ _ _ _) as [payload|]; [|done]. rewrite on_world_system in H. cbn [fst with_fds s_system] in H.
  set (w0 := snd (send_nm (Some payload) (fst (s_system p1)))) in *.
  pose proof (register_loop_spec (e_registering env) w0) as Hr. destruct (register_loop _ w0) as [[[status rest']|] w1]; [|done].
  destruct Hr as (R1 & R2 & R3 & before & ok & R4 & R5 & R6 & R7). destruct (streq status (cs "OK")) eqn:Es; [|done].
  apply bool_decide_eq_true in Es as ->. destruct (e_listen env) as [lfd|]; [|done]. injection H as -> <-.
  exists sd, st, t, d, before, ok. cbn [s_nm_fd with_fds s_listen_fd s_closed on_world with_system s_system fst snd].
  assert (s_system p1 = (mk_world st d [] [] [] [], ∅)) as E1 by (by rewrite O1, E0). cbn in R1, R2, R3, R7. rewrite E1 in R1, R2, R3, R7.
  split_and!; try done; [by rewrite O5, E0|by rewrite E1].
Qed.

Definition threads_ok (r : round) : Prop :=
  match r with Threads f => forall s, rtc (step rpc strerror) s (f s) | _ => True end.

(** [select] failed with another error than an interruption, or the connection to the name
    manager is broken. *)
Definition ends_server (r : round) : Prop := r = SelectFailed \/ exists client, r = Ready (Some None) client.

(** The loop ends in the first such round, with exit code 1, and in no other. *)
Definition ends_as (rounds : list round) (code : option Z) : Prop :=
  match code with
  | None => Forall (fun r => ~ ends_server r) rounds
  | Some code => code = 1%Z /\ Exists ends_server rounds
  end.

Lemma ends_later r rounds code : ~ ends_server r -> ends_as rounds code -> ends_as (r :: rounds) code.
Proof using. destruct code as [code|]; cbn; [|intros; by constructor]. intros _ [-> H]. split; [done|by apply Exists_cons_tl]. Qed.

Lemma serve_steps rounds p :
  Forall threads_ok rounds -> let '(code, q) := serve rounds p in
  rtc (step rpc strerror) (s_system p) (s_system q) /\ s_nm_fd q = s_nm_fd p /\ s_listen_fd q = s_listen_fd p /\
  ends_as rounds code.
Proof.
  intros Hr. revert p. induction Hr as [|r rs Hx Hrs IH]; intros p; cbn [serve]; [split_and!; [apply rtc_refl|done|done|constructor]|].
  assert (forall p1, ~ ends_server r -> rtc (step rpc strerror) (s_system p) (s_system p1) -> s_nm_fd p1 = s_nm_fd p -> s_listen_fd p1 = s_listen_fd p ->
    let '(code, q) := serve rs p1 in
    rtc (step rpc strerror) (s_system p) (s_system q) /\ s_nm_fd q = s_nm_fd p /\ s_listen_fd q = s_listen_fd p /\
    ends_as (r :: rs) code) as Hgo.
  { intros p1 H0 H1 H2 H3. specialize (IH p1). destruct (serve rs p1) as [code q]. destruct IH as (I1 & I2 & I3 & I4).
    split_and!; [by etrans|congruence|congruence|by apply ends_later]. }
  assert (ends_server r -> rtc (step rpc strerror) (s_system p) (s_system p) /\ s_nm_fd p = s_nm_fd p /\ s_listen_fd p = s_listen_fd p /\
    ends_as (r :: rs) (Some 1%Z)) as Hend by (intros; split_and!; [apply rtc_refl|done|done|split; [done|by apply Exists_cons_hd]]).
  assert (forall client p1, s_system (accept_client client p1) = s_system p1 /\ s_nm_fd (accept_client client p1) = s_nm_fd p1 /\
    s_listen_fd (accept_client client p1) = s_listen_fd p1) as Hacc by (intros [[fd []]|] p1; done).
  destruct r as [| |command client|f].
  - apply Hgo; try done. intros [|[? ?]]; done.
  - apply Hend. by left.
  - destruct command as [[[json now]|]|].
    + destruct (Hacc client (on_world (process_nm_command rpc strerror json now) p)) as (A1 & A2 & A3).
      apply Hgo; [intros [|[? ?]]; done| |by rewrite A2|by rewrite A3]. rewrite A1, on_world_system. destruct (s_system p) as [w ts]. apply rtc_once. apply step_command.
    + apply Hend. right. by eexists.
    + destruct (Hacc client p) as (A1 & A2 & A3). apply Hgo; [intros [|[? ?]]; done|by rewrite A1|done|done].
  - apply Hgo; [intros [|[? ?]]; done|apply Hx|done..].
Qed.

End Loop.

(** ** A concrete run *)

Definition demo_dir : cstr := cs "data".

(** The server is started as /w/bin/storage_server with the storage directory "data"; a ticket
    is announced before the name manager answers. *)
Definition demo_ss_env : ss_environment :=
  mk_ss_env (Some (cs "/w/bin/storage_server")) None true
    (fun p => if streq p (cs "/w/data/meta") then Some [cs "."; cs "b.meta"; cs "a.meta"] else None)
    (mk_dirs (<[cs "/w/data" := true]> ∅) [Made; AlreadyThere])
    (mk_disk (<[cs "/w/data/meta/a.meta" := cs "owner:ann"]> (<[cs "/w/data/meta/b.meta" := cs "owner:bob"]>
              (<[cs "/w/data/files/a" := cs "Hi."]> ∅))) [] [])
    (true, true) (Some 4%Z) []
    [js "{'type':'NM_TICKET','token':'t1','file':'a','user':'ann','op':'READ','expiry':900}";
     js "{'type':'PING'}"; js "{'status':'OK','role':'SS'}"; js "{'type':'PING'}"]
    (Some 5%Z).

Definition demo_rounds : list round :=
  [Ready None (Some (6%Z, false)); SelectInterrupted; Ready (Some (Some (js "{'type':'PING'}", 100%Z))) None; Ready (Some None) None].

Definition demo_started : list cstr * ss_process :=
  match start_server (cs "ss1") (cs "localhost") (cs "9000") demo_dir demo_ss_env with inr x => x | inl _ => ([], mk_ss_process [] [] [] 0 0 (demo_world [], ∅) (mk_dirs ∅ []) false []) end.


(** ** What goes wrong *)

(** While it waits for the answer to its registration the server drops every command but a
    ticket, without an answer; the name manager, which has it in its table already, waits. *)
Lemma command_lost_while_registering m msgs w :
  json_get_string m (cs "status") 16 = None -> is_ticket m = false -> register_loop (m :: msgs) w = register_loop msgs w.
Proof.
  unfold is_ticket. intros Hs Ht. cbn [register_loop]. rewrite Hs. destruct (json_get_string m (cs "type") 64); [|done]. by rewrite Ht.
Qed.

(** The directories are cut to 255 characters: below a longer path all four are the same. *)
Lemma long_storage_directory dir :
  255 <= length dir ->
  let st := ss_state_dirs dir in files_dir st = meta_dir st /\ meta_dir st = undo_dir st /\ undo_dir st = checkpoints_dir st.
Proof.
  intros Hl. assert (forall s, snprintf_s 256 (dir ++ s) = take 255 dir) as H by (intros s; unfold snprintf_s; by rewrite take_app_le).
  unfold ss_state_dirs. cbn [files_dir meta_dir undo_dir checkpoints_dir]. by rewrite !H.
Qed.

(** ** Where the data is *)

(** A directory below [/temp] is taken for one below the workspace, as a relative one is; every
    other absolute one stays as it is.  Nothing is stored below [/temp] unless the workspace
    is there. *)
Lemma storage_directory_cases root requested n dir below :
  resolve_storage_directory root requested n = Some (dir, below) ->
  length dir < n /\
  if below then dir = root ++ "/"%char :: (if path_uses_temp_alias requested then drop 1 requested else requested) /\ root <> []
  else dir = requested /\ path_uses_temp_alias requested = false.
Proof.
  assert (forall m s r, fit m s = Some r -> r = s /\ length s < m) as Hfit.
  { intros m s r. unfold fit. destruct (Nat.leb_spec m (length s)); [done|]. intros [= <-]. by split. }
  unfold resolve_storage_directory. destruct (n =? 0); [done|].
  assert (forall rel, (match root with [] => None | _ => resolved ← fit n (root ++ "/"%char :: rel); Some (resolved, true) end) = Some (dir, below) ->
    length dir < n /\ below = true /\ dir = root ++ "/"%char :: rel /\ root <> []) as Hb.
  { intros rel. destruct root as [|r root]; [done|]. destruct (fit n _) as [x|] eqn:E; [|done]. apply Hfit in E as [-> E]. cbn [mbind option_bind]. intros [= <- <-]. by split_and!. }
  assert (path_uses_temp_alias [] = false) as Hnil by (by vm_compute).
  destruct requested as [|c rel].
  - intros H. apply Hb in H as (H1 & -> & H2 & H3). by rewrite Hnil.
  - case_bool_decide as Hc.
    + destruct (path_uses_temp_alias (c :: rel)) eqn:Ea.
      * intros H. apply Hb in H as (H1 & -> & H2 & H3). split; [done|]. split; [|done]. destruct rel; [|done].
        exfalso. unfold path_uses_temp_alias in Ea. by rewrite bool_decide_false in Ea.
      * destruct (fit n _) as [x|] eqn:E; [|done]. apply Hfit in E as [-> E]. cbn [mbind option_bind]. by intros [= <- <-].
    + intros H. apply Hb in H as (H1 & -> & H2 & H3). split; [done|]. split; [|done].
      assert (path_uses_temp_alias (c :: rel) = false) as ->; [|done]. unfold path_uses_temp_alias.
      rewrite bool_decide_false; [done|]. cbn. by intros [= ->].
Qed.
