(* ===== verification/SsTypes.v ===== *)
(** * [ss/ss_main.c], [ss/ss_state.c]: what the arrays of the storage server hold

    Strings are kept in arrays of fixed size, counters are unsigned.  Every string in the tables,
    from whatever message, argument or metadata file it came, is shorter than its array, so that it is
    terminated, in every state the server reaches. *)

From stdpp Require Import relations.
From S2P Require Import Prelude Keyed Cstr Json Proto SsText Fs SsState SsSession SsTables SsServer SsConcurrent SsStart.

(** ** The types *)

Record record_fits (f : ss_file) : Prop := {
  rf_name : length (name f) < SS_NAME_MAX;
  rf_owner : length (owner f) < SS_USER_MAX;
  rf_data : length (data_path f) < 512;
  rf_meta : length (meta_path f) < 512;
  rf_undo : length (undo_path f) < 512;
  rf_last : length (last_access_user f) < SS_USER_MAX;
  rf_lock : length (lock_user f) < SS_USER_MAX;
  rf_counts : (0 <= word_count f /\ 0 <= char_count f)%Z;
}.

Definition ticket_fits (t : auth_ticket) : Prop :=
  length (token t) < 64 /\ length (t_file t) < SS_NAME_MAX /\ length (t_user t) < SS_USER_MAX /\ length (t_op t) < 16.

Definition lock_fits (l : sentence_lock) : Prop := length (l_file l) < SS_NAME_MAX /\ length (l_user l) < SS_USER_MAX.

Record typed (w : world) : Prop := {
  ty_docs : Forall record_fits (docs (w_state w));
  ty_tickets : Forall ticket_fits (w_tickets w);
  ty_locks : Forall lock_fits (w_locks w);
}.

Lemma snprintf_fits n s : 0 < n -> length (snprintf_s n s) < n.
Proof. intros H. pose proof (length_snprintf_s n s). lia. Qed.

Create HintDb types.
#[export] Hint Extern 2 (length (snprintf_s _ _) < _) => apply snprintf_fits; unfold SS_NAME_MAX, SS_USER_MAX; lia : types.
#[export] Hint Extern 2 (length [] < _) => cbn; unfold SS_NAME_MAX, SS_USER_MAX; lia : types.
#[export] Hint Extern 2 (0 <= Z.of_nat _)%Z => lia : types.

(** ** Changes of a record *)

Definition keeps_fits (upd : ss_file -> ss_file) : Prop := forall f, record_fits f -> record_fits (upd f).

Lemma fits_lock a u n : length u < SS_USER_MAX -> keeps_fits (with_lock a u n).
Proof. by intros Hu f []. Qed.
Lemma fits_times c m a u f : length u < SS_USER_MAX -> record_fits f -> record_fits (with_times c m a u f).
Proof. by intros Hu []. Qed.
Lemma fits_counts wc cc f : (0 <= wc)%Z -> (0 <= cc)%Z -> record_fits f -> record_fits (with_counts wc cc f).
Proof. by intros H1 H2 []. Qed.
Lemma fits_touch u now : keeps_fits (touch u now).
Proof. intros f H. apply fits_times; [auto with types|done]. Qed.
Lemma fits_modify words chars u now : keeps_fits (modify words chars u now).
Proof. intros f H. apply fits_times; [auto with types|]. apply fits_counts; [lia|lia|done]. Qed.
Lemma fits_modify_unlock words chars u now : keeps_fits (fun f => with_lock false (lock_user f) (-1) (modify words chars u now f)).
Proof. intros f H. apply fits_lock; [apply (rf_lock f H)|by apply fits_modify]. Qed.
Lemma fits_counts_of words chars : keeps_fits (with_counts (Z.of_nat words) (Z.of_nat chars)).
Proof. intros f H. apply fits_counts; [lia|lia|done]. Qed.
#[export] Hint Resolve fits_touch fits_modify fits_modify_unlock fits_counts_of : types.

Lemma fits_paths st n f : record_fits f -> record_fits (fill_paths st n f).
Proof. intros []. split; try done; cbn [data_path meta_path undo_path fill_paths]; auto with types. Qed.

Lemma fits_new_file st n o now : record_fits (new_file st n o now).
Proof.
  unfold new_file. apply fits_lock; [auto with types|]. apply fits_counts; [lia|lia|]. apply fits_times; [auto with types|].
  apply fits_paths. split; cbn [name owner with_names]; try solve [auto with types]. all: cbn; unfold SS_USER_MAX; lia.
Qed.

(** ** The tables *)

Lemma typed_same w w' :
  docs (w_state w') = docs (w_state w) -> w_tickets w' = w_tickets w -> w_locks w' = w_locks w -> typed w -> typed w'.
Proof. intros E1 E2 E3 []. split; by rewrite ?E1, ?E2, ?E3. Qed.

Lemma typed_answer_nm r w : typed w -> typed (answer_nm r w).
Proof. apply typed_same; unfold answer_nm; by destruct (reply_json r). Qed.
Lemma typed_answer_peer r w : typed w -> typed (answer_peer r w).
Proof. apply typed_same; unfold answer_peer; by destruct (reply_json r). Qed.
Lemma typed_send_peer m b w w' : send_peer m w = (b, w') -> typed w -> typed w'.
Proof. destruct m; intros [= <- <-]; [by apply typed_same|done]. Qed.
Lemma typed_snd_send_peer m w : typed w -> typed (snd (send_peer m w)).
Proof. by apply typed_same; destruct m. Qed.
Lemma typed_notify f w : typed w -> typed (notify_nm_file_update f w).
Proof. apply typed_same; unfold notify_nm_file_update; by destruct (notify_payload f). Qed.
Lemma typed_set_disk d w : typed w -> typed (set_disk d w).
Proof. by apply typed_same. Qed.
Lemma typed_load p r w w' : load p w = (r, w') -> typed w -> typed w'.
Proof. unfold load. destruct (load_text p (w_disk w)). intros [= <- <-]. apply typed_set_disk. Qed.
Lemma typed_store p c b w w' : store p c w = (b, w') -> typed w -> typed w'.
Proof. unfold store. destruct (store_text_atomic p c (w_disk w)). intros [= <- <-]. apply typed_set_disk. Qed.
Lemma typed_checkpoint_path f t n r w w' : build_checkpoint_path f t n w = (r, w') -> typed w -> typed w'.
Proof.
  unfold build_checkpoint_path, ensure_checkpoint_dir, ensure_directory. intros E H. destruct (fit_path 512 _); [|by simplify_eq].
  destruct (plain_call _) as [[] d]; [|by simplify_eq; apply typed_set_disk]. destruct (fit_path 512 _); simplify_eq; by apply typed_set_disk.
Qed.

Lemma Forall_remove_at {A} (P : A -> Prop) i l : Forall P l -> Forall P (remove_at i l).
Proof. rewrite !Forall_forall. intros H x Hx%elem_of_remove_at. by apply H. Qed.

Lemma typed_validate tok u f op now b w w' : validate_ticket tok u f op now w = (b, w') -> typed w -> typed w'.
Proof.
  unfold validate_ticket, ticket_table_take. rewrite ticket_table_prune_spec. intros E [H1 H2 H3].
  assert (Forall ticket_fits (List.filter (fun t => negb (expired now t)) (w_tickets w))) as Hf.
  { rewrite Forall_forall in H2 |- *. intros x Hx%list_elem_of_In. apply List.filter_In in Hx as [Hx _]. apply H2. by apply list_elem_of_In. }
  destruct (find_first _ _) as [[i t]|]; injection E as <- <-; split; try done. by apply Forall_remove_at.
Qed.

Lemma typed_add_ticket tok f u op e w : typed w -> typed (set_tickets (ticket_table_add (w_tickets w) tok f u op e) w).
Proof.
  intros [H1 H2 H3]. split; [done| |done]. apply Forall_app. split; [done|]. apply Forall_singleton.
  unfold ticket_fits. cbn [token t_file t_user t_op]. split_and!; auto with types.
Qed.

Lemma typed_acquire f n u ls w : sentence_lock_acquire (w_locks w) f n u = Some ls -> typed w -> typed (set_locks ls w).
Proof.
  unfold sentence_lock_acquire. intros E [H1 H2 H3]. destruct (sentence_lock_find _ _ _); [done|]. injection E as <-. split; [done|done|].
  apply Forall_app. split; [done|]. apply Forall_singleton. unfold lock_fits. cbn [l_file l_user]. split; auto with types.
Qed.

Lemma typed_release f n w : typed w -> typed (set_locks (sentence_lock_release (w_locks w) f n) w).
Proof.
  intros [H1 H2 H3]. split; [done|done|]. cbn [w_locks set_locks]. unfold sentence_lock_release.
  destruct (find_first _ _) as [[i l]|]; [by apply Forall_remove_at|done].
Qed.

(** The search gives a document of the table, sorted or not. *)
Lemma find_index_in st n i f : find_index st n = inl (i, f) -> docs st !! i = Some f.
Proof.
  unfold find_index. generalize (length (docs st)) at 1. intros fuel. generalize (length (docs st)) as hi. generalize 0 as lo.
  induction fuel as [|fuel IH]; intros lo hi; cbn [find_loop]; [done|]. destruct (lo <? hi); [|done].
  destruct (docs st !! (lo + (hi - lo) / 2)) as [g|] eqn:Eg; [|done]. destruct (strcmp _ _); [|apply IH|apply IH]. by intros [= <- <-].
Qed.

Lemma typed_update_record n upd r w w' : keeps_fits upd -> update_record n upd w = (r, w') -> typed w -> typed w'.
Proof.
  unfold update_record, ss_state_find. intros Hu E [H1 H2 H3]. destruct (find_index _ n) as [[i f]|] eqn:Ef; simplify_eq; [|done].
  split; [|done|done]. cbn [w_state set_state docs set_docs]. apply Forall_insert; [done|]. apply Hu.
  apply find_index_in in Ef. by eapply Forall_lookup_1 in H1.
Qed.

Lemma typed_update_and_save n upd r w w' : keeps_fits upd -> update_and_save n upd w = (r, w') -> typed w -> typed w'.
Proof.
  intros Hu E H. unfold update_and_save in E. destruct (update_record n upd w) as [r1 w1] eqn:E1.
  pose proof (typed_update_record _ _ _ _ _ Hu E1 H) as H1. destruct r1; injection E as <- <-; [by apply typed_set_disk|done].
Qed.

Lemma typed_lock_state f a n u w : typed w -> typed (set_file_lock_state f a n u w).
Proof.
  intros H. unfold set_file_lock_state. destruct (update_record _ _ _) as [r w'] eqn:E. cbn [snd].
  eapply typed_update_record; [|exact E|done]. apply fits_lock. destruct u; [destruct a|]; auto with types.
Qed.

Lemma typed_add n o now r s d w : ss_state_add (w_state w) n o now (w_disk w) = (r, s, d) -> typed w -> typed (set_disk d (set_state s w)).
Proof.
  intros E [H1 H2 H3]. split; [|done|done]. cbn [w_state set_disk set_state]. unfold ss_state_add in E.
  destruct (ss_state_find _ n) as [[f|] i]; [by simplify_eq|].
  set (file := new_file (w_state w) n o now) in *. assert (Forall record_fits (insert_sorted (docs (w_state w)) file)) as Hi.
  { unfold insert_sorted. apply Forall_forall. intros f [->|Hf]%elem_of_insert_at; [apply fits_new_file|]. rewrite Forall_forall in H1. by apply H1. }
  cbv zeta in E. cbn [docs set_docs] in E. destruct (fopen_w _ _) as [opened d1]. destruct opened; cbn [negb] in E; [|simplify_eq; by apply Forall_remove_at].
  destruct (insert_sorted _ _ !! i) as [x|]; [|by simplify_eq]. destruct (write_meta_file x d1) as [[] d2]; simplify_eq; [done|by apply Forall_remove_at].
Qed.

Lemma typed_remove n r s d w : ss_state_remove (w_state w) n (w_disk w) = (r, s, d) -> typed w -> typed (set_disk d (set_state s w)).
Proof.
  intros E [H1 H2 H3]. split; [|done|done]. unfold ss_state_remove in E. destruct (ss_state_find _ n) as [[f|] i]; simplify_eq; [|done].
  by apply Forall_remove_at.
Qed.

(** ** Requests *)

#[export] Hint Resolve typed_answer_nm typed_answer_peer typed_snd_send_peer typed_notify typed_set_disk typed_add_ticket typed_release
  typed_lock_state : types.
#[export] Hint Extern 4 (typed ?w) =>
  match goal with
  | H : send_peer _ _ = (_, w) |- _ => eapply typed_send_peer; [exact H|]
  | H : load _ _ = (_, w) |- _ => eapply typed_load; [exact H|]
  | H : store _ _ _ = (_, w) |- _ => eapply typed_store; [exact H|]
  | H : validate_ticket _ _ _ _ _ _ = (_, w) |- _ => eapply typed_validate; [exact H|]
  | H : build_checkpoint_path _ _ _ _ = (_, w) |- _ => eapply typed_checkpoint_path; [exact H|]
  | H : update_and_save _ _ _ = (_, w) |- _ => eapply typed_update_and_save; [|exact H|]; [solve [auto with types]|]
  end : types.
#[export] Hint Extern 4 (typed (set_disk _ (set_state _ _))) =>
  match goal with
  | H : ss_state_add _ _ _ _ _ = _ |- _ => eapply typed_add; [exact H|]
  | H : ss_state_remove _ _ _ = _ |- _ => eapply typed_remove; [exact H|]
  end : types.
#[export] Hint Extern 4 (typed (set_locks _ _)) =>
  match goal with H : sentence_lock_acquire _ _ _ _ = Some _ |- _ => eapply typed_acquire; [exact H|] end : types.

Ltac fit_types := cbv zeta; repeat break_goal; cbn [fst snd]; subst; eauto 30 with types.

Lemma undo_typed f u now w : typed w -> typed (snd (perform_undo f u now w)).
Proof. intros H. unfold perform_undo. fit_types. Qed.
Lemma read_typed f u now w : typed w -> typed (handle_read f u now w).
Proof. intros H. unfold handle_read. fit_types. Qed.
Lemma stream_words_typed words w : typed w -> typed (stream_words words w).
Proof.
  revert w. induction words as [|x words IH]; intros w H; cbn [stream_words]; [done|].
  destruct (json_escape_dup x); [|auto]. destruct (fit 1024 _); auto with types.
Qed.
#[export] Hint Resolve stream_words_typed : types.
Lemma stream_typed f u now w : typed w -> typed (handle_stream f u now w).
Proof. intros H. unfold handle_stream. fit_types. Qed.
Lemma write_open_typed f u n w : typed w -> typed (snd (write_open f u n w)).
Proof. intros H. unfold write_open, write_bail. fit_types. Qed.
Lemma write_message_typed f u v now json s w : typed w -> typed (snd (write_message f u v now json s w)).
Proof. intros H. unfold write_message. fit_types. Qed.
Lemma create_checkpoint_typed f t u w : typed w -> typed (snd (ss_create_checkpoint f t u w)).
Proof. intros H. unfold ss_create_checkpoint. fit_types. Qed.
Lemma read_checkpoint_typed f t w : typed w -> typed (snd (ss_read_checkpoint f t w)).
Proof. intros H. unfold ss_read_checkpoint. fit_types. Qed.
Lemma revert_checkpoint_typed f t u now w : typed w -> typed (snd (ss_revert_checkpoint f t u now w)).
Proof. intros H. unfold ss_revert_checkpoint. fit_types. Qed.
Lemma checkpoint_request_typed json w k : typed w -> (forall f t u, typed (k f t u)) -> typed (checkpoint_request json w k).
Proof. intros Hw H. unfold checkpoint_request. fit_types. Qed.
Lemma ticket_command_typed json w : typed w -> typed (handle_nm_ticket_command json w).
Proof. intros H. unfold handle_nm_ticket_command. fit_types. Qed.

Section Steps.
Context (rpc : cstr -> cstr -> cstr -> option cstr) (strerror : errno -> cstr).

Lemma sync_typed json now w : typed w -> typed (handle_nm_sync rpc json now w).
Proof.
  intros H. unfold handle_nm_sync. do 5 (destruct (json_get_string _ _ _); [|fit_types]).
  destruct (ss_fetch_remote_content _ _ _ _ _ _); [|fit_types]. cbv zeta.
  match goal with |- context [snapshot_file ?n (match ?x with Some _ => _ | None => _ end)] =>
    set (w1 := match x with Some _ => w | None => _ end); assert (typed w1) as H1 end.
  { unfold w1. destruct (snapshot_file _ w); [done|]. destruct (ss_state_add _ _ _ _ _) as [[r s] d] eqn:E. by eapply typed_add. }
  clearbody w1. fit_types.
Qed.

Lemma command_typed json now w : typed w -> typed (process_nm_command rpc strerror json now w).
Proof.
  intros H. unfold process_nm_command. destruct (json_get_string json (cs "type") 64) as [t|]; [|fit_types].
  destruct (streq t (cs "NM_CREATE")).
  { unfold nm_create. destruct (json_get_string _ _ _) as [n|]; [|fit_types]. destruct (json_get_string _ _ _) as [o|]; [|fit_types].
    destruct (negb _); [fit_types|]. destruct (ss_state_add _ _ _ _ _) as [[r s] d] eqn:E. pose proof (typed_add _ _ _ _ _ _ _ E H). fit_types. }
  destruct (streq t (cs "NM_DELETE")).
  { unfold nm_delete. destruct (json_get_string _ _ _) as [n|]; [|fit_types]. destruct (negb _); [fit_types|].
    destruct (snapshot_file n w) as [f|]; [|fit_types]. destruct (lock_active f); [fit_types|].
    destruct (ss_state_remove _ _ _) as [[r s] d] eqn:E. pose proof (typed_remove _ _ _ _ _ E H). fit_types. }
  destruct (streq t (cs "NM_TICKET")); [by apply ticket_command_typed|].
  destruct (streq t (cs "NM_UNDO")).
  { unfold nm_undo. destruct (json_get_string _ _ _) as [f|]; [|fit_types]. destruct (json_get_string _ _ _) as [u|]; [|fit_types].
    pose proof (undo_typed f u now w H) as Hu. destruct (perform_undo f u now w) as [[[[x y] z]|e] w']; cbn [snd] in Hu; fit_types. }
  destruct (streq t (cs "NM_CHECKPOINT_CREATE")).
  { apply checkpoint_request_typed; [done|]. intros f g u. pose proof (create_checkpoint_typed f g u w H) as Hc.
    destruct (ss_create_checkpoint f g u w) as [[] w']; cbn [snd] in Hc; fit_types. }
  destruct (streq t (cs "NM_CHECKPOINT_VIEW")).
  { apply checkpoint_request_typed; [done|]. intros f g u. pose proof (read_checkpoint_typed f g w H) as Hc.
    destruct (ss_read_checkpoint f g w) as [[] w']; cbn [snd] in Hc; fit_types. }
  destruct (streq t (cs "NM_CHECKPOINT_REVERT")).
  { apply checkpoint_request_typed; [done|]. intros f g u. pose proof (revert_checkpoint_typed f g u now w H) as Hc.
    destruct (ss_revert_checkpoint f g u now w) as [[] w']; cbn [snd] in Hc; fit_types. }
  destruct (streq t (cs "NM_SYNC")); [by apply sync_typed|fit_types].
Qed.

Lemma step_typed x x' : step rpc strerror x x' -> typed (fst x) -> typed (fst x').
Proof.
  intros [y y' Hstep|w ts json now] Hw; [|by apply command_typed]. destruct Hstep as
    [w ts i f u n s v w' Hi E|w ts f u n w' E|w ts i t s now json s' w' Hi Hp E|w ts i t s now json w' Hi Hp E
    |w ts i t s Hi Hp|w ts i t Hi Hp|w ts i t Hi Hp|w ts f u now|w ts f u now|w ts tok u f op now b w' E]; cbn [fst] in *.
  - pose proof (write_open_typed f u n w Hw) as H. by rewrite E in H.
  - pose proof (write_open_typed f u n w Hw) as H. by rewrite E in H.
  - pose proof (write_message_typed (wr_file t) (wr_user t) (wr_view t) now json s w Hw) as H. by rewrite E in H.
  - pose proof (write_message_typed (wr_file t) (wr_user t) (wr_view t) now json s w Hw) as H. by rewrite E in H.
  - done.
  - by apply typed_release.
  - by apply typed_lock_state.
  - by apply read_typed.
  - by apply stream_typed.
  - by eapply typed_validate.
Qed.

Lemma steps_typed x x' : rtc (step rpc strerror) x x' -> typed (fst x) -> typed (fst x').
Proof. induction 1 as [|x y z Hs _ IH]; [done|]. intros H. apply IH. by eapply step_typed. Qed.

(** ** What is loaded *)

Lemma strtoull_nonneg s : (0 <= strtoull s)%Z.
Proof.
  unfold strtoull. destruct (scan_number s) as [[[neg v] ?]|]; [|lia]. unfold SIZE_MOD, to_size.
  destruct (_ <=? v)%Z; [lia|]. by apply Z.mod_pos_bound.
Qed.

Lemma load_meta_field_fits key value f : record_fits f -> record_fits (load_meta_field key value f).
Proof.
  intros H. unfold load_meta_field.
  repeat case_match; try done; try (by apply fits_times; [apply H|]); try (by apply fits_times; [auto with types|]);
    try (by apply fits_counts; [apply strtoull_nonneg || apply (rf_counts f H)|apply strtoull_nonneg || apply (rf_counts f H)|]).
  destruct H. split; try done. cbn [owner with_names]. auto with types.
Qed.

Lemma load_entry_typed e st d :
  Forall record_fits (docs st) -> Forall record_fits (docs (fst (load_entry e st d))).
Proof.
  intros H. unfold load_entry. destruct (entry_name e) as [n|] eqn:En; [|done]. apply entry_name_length in En.
  set (file := fill_paths st n (with_names n [] zero_file)). assert (record_fits file) as Hf.
  { apply fits_paths. split; cbn [name owner with_names]; try solve [auto with types]; try done; cbn; unfold SS_USER_MAX; lia. }
  clearbody file. destruct (load_meta_file file d) as [[f|] d1] eqn:El; [|done].
  assert (record_fits f) as Hl.
  { unfold load_meta_file in El. destruct (plain_call d) as [[] d2]; [|done]. destruct (files d2 !! _) as [b|]; [|done]. injection El as <- _.
    revert Hf. generalize file. generalize (length b) as k. intros k. revert b. induction k as [|k IH]; intros b g Hg; [by destruct b|].
    destruct b as [|c b]; [done|]. cbn [load_meta_lines]. destruct (fgets_line 255 (c :: b)) as [line rest]. apply IH.
    unfold load_meta_line. destruct (cut _ _) as [key [value|]]; [by apply load_meta_field_fits|done]. }
  assert (record_fits (fst (recount f d1))) as Hr.
  { unfold recount. destruct (_ || _)%bool; [|done]. destruct (plain_call d1) as [[] d2]; [|done]. destruct (files d2 !! _); [|done].
    destruct (plain_call d2) as [at_end d3], (plain_call d3) as [at_start d4], (next_fault d4) as [r d5]. apply fits_counts; done || lia. }
  destruct (recount f d1) as [g d2]. cbn [fst docs set_docs] in *. unfold insert_sorted. apply Forall_forall. intros x [->|Hx]%elem_of_insert_at.
  - apply fits_lock; [apply Hr|done].
  - rewrite Forall_forall in H. by apply H.
Qed.

Lemma load_typed st entries d : Forall record_fits (docs st) -> Forall record_fits (docs (snd (fst (ss_state_load st entries d)))).
Proof.
  intros H. unfold ss_state_load. destruct entries as [es|]; [|done].
  assert (Forall record_fits (docs (fst (foldl (fun '(st, d) e => load_entry e st d) (st, d) es)))) as Hl; [|by destruct (foldl _ _ es)].
  revert st d H. induction es as [|e es IH]; intros st d H; cbn [foldl]; [done|].
  pose proof (load_entry_typed e st d H) as He. destruct (load_entry e st d) as [st1 d1]. by apply IH.
Qed.

(** C8: Every array of the storage server holds what fits it.  Whatever the metadata files
    contain when it starts, whatever the name manager and the clients send, and however their
    requests interleave, every name, path, user, token and operation in the tables is a string
    shorter than its array, and no counter is negative. *)
Theorem storage_server_typed dir readdir t d st t' d' w ts
  (Hinit : ss_state_init dir readdir t d = (true, st, t', d'))
  (Hrun : rtc (step rpc strerror) (mk_world st d' [] [] [] [], ∅) (w, ts)) : typed w.
Proof.
  apply steps_typed in Hrun; [done|]. cbn [fst]. split; [|constructor|constructor]. cbn [w_state].
  unfold ss_state_init in Hinit. destruct (ensure_dirs _ t) as [[] t1]; [|done]. cbn [negb] in Hinit.
  pose proof (load_typed (ss_state_dirs dir) (readdir (meta_dir (ss_state_dirs dir))) d ltac:(constructor)) as H.
  destruct (ss_state_load _ _ d) as [[ok st1] d1]. cbn [fst snd] in H. by simplify_eq.
Qed.
End Steps.

(** A metadata file with an owner of a hundred characters, and a ticket for a user of that name. *)
Definition long_owner : cstr := repeat "o"%char 100.
Definition demo_long : disk :=
  mk_disk (<[cs "/w/meta/a.meta" := cs "owner:" ++ long_owner]> ∅) [] [].
Definition demo_long_state : bool * ss_state * dir_tree * disk :=
  ss_state_init (cs "/w") (fun _ => Some [cs "a.meta"]) (mk_dirs ∅ []) demo_long.
Definition demo_long_world : world := mk_world (snd (fst (fst demo_long_state))) (snd demo_long_state) [] [] [] [].
Definition demo_long_ticket : cstr := js "{'type':'NM_TICKET','token':'t','file':'a','user':'eve','op':'READ','expiry':9}".

Lemma storage_server_typed_witness :
  typed (process_nm_command no_rpc no_error demo_long_ticket 1 demo_long_world) /\
  map (fun f => length (owner f)) (docs (w_state demo_long_world)) = [63] /\
  length (w_tickets (process_nm_command no_rpc no_error demo_long_ticket 1 demo_long_world)) = 1.
Proof.
  split; [|vm_compute; split; reflexivity].
  apply (storage_server_typed no_rpc no_error (cs "/w") (fun _ => Some [cs "a.meta"]) (mk_dirs ∅ []) demo_long
    (snd (fst (fst demo_long_state))) (snd (fst demo_long_state)) (snd demo_long_state) _ ∅).
  - change (demo_long_state = (true, snd (fst (fst demo_long_state)), snd (fst demo_long_state), snd demo_long_state)).
    assert (fst (fst (fst demo_long_state)) = true) as E by (vm_compute; reflexivity).
    destruct demo_long_state as [[[started ?] ?] ?]. cbn [fst snd] in *. by rewrite E.
  - apply rtc_once. apply (step_command no_rpc no_error demo_long_world ∅ demo_long_ticket 1).
Defined.
