(* ===== verification/SsRestart.v ===== *)
(** * [ss/ss_main.c], [ss/ss_state.c]: what a restart finds

    The table of documents lives in memory; the metadata files are what is left of it when the
    server stops.  Whatever the server does, on a working disk the metadata directory holds
    exactly the files of the documents in the table, each as the table has it; so loading it
    gives the table back.  All of this is about a storage directory whose path is not cut. *)

From Stdlib Require Import Sorted.
From stdpp Require Import relations sorting.
From S2P Require Import Prelude Cstr Json Proto SsText Fs SsState SsSession SsTables SsServer SsConcurrent SsStart.

Section Restart.
Context (dir : cstr) (dir_short : length dir + 12 < 256).

Notation D := (ss_state_dirs dir).

(** ** Paths *)

Definition meta_file (n : cstr) : cstr := dir ++ cs "/meta/" ++ n ++ cs ".meta".
Definition in_meta (p : cstr) : Prop := (dir ++ cs "/meta/") `prefix_of` p.

(** Neither the file nor the temporary one used to replace it is in the metadata directory. *)
Definition safe (p : cstr) : Prop := ~ in_meta p /\ ~ in_meta (tmp_path p).

Lemma dirs_of : files_dir D = dir ++ cs "/files" /\ meta_dir D = dir ++ cs "/meta" /\ undo_dir D = dir ++ cs "/undo" /\
  checkpoints_dir D = dir ++ cs "/checkpoints".
Proof.
  unfold ss_state_dirs. cbn [files_dir meta_dir undo_dir checkpoints_dir].
  rewrite !snprintf_s_id by (rewrite length_app; cbn; lia). done.
Qed.

(** The character after the slash tells the directories apart. *)
Lemma in_meta_char p : in_meta p -> p !! (length dir + 1) = Some "m"%char.
Proof. intros [q ->]. rewrite <- app_assoc, lookup_app_r by lia. by replace (length dir + 1 - length dir) with 1 by lia. Qed.

Lemma not_in_meta p c : p !! (length dir + 1) = Some c -> c <> "m"%char -> safe p.
Proof.
  intros Hp Hc. split; intros Hm%in_meta_char; [congruence|]. unfold tmp_path, snprintf_s in Hm.
  rewrite lookup_take_lt in Hm by lia. rewrite lookup_app_l in Hm; [congruence|by eapply lookup_lt_Some].
Qed.

Lemma below_char sub rest c : sub !! 1 = Some c -> (dir ++ sub ++ rest) !! (length dir + 1) = Some c.
Proof.
  intros H. rewrite lookup_app_r by lia. replace (length dir + 1 - length dir) with 1 by lia.
  by rewrite lookup_app_l by (by eapply lookup_lt_Some).
Qed.

Lemma safe_below sub rest c : sub !! 1 = Some c -> c <> "m"%char -> safe (snprintf_s 512 (dir ++ sub ++ rest)).
Proof.
  intros H Hc. apply (not_in_meta _ c); [|done]. unfold snprintf_s. rewrite lookup_take_lt by lia. by apply below_char.
Qed.

(** The paths of a record are those of its name. *)
Definition paths_ok (f : ss_file) : Prop :=
  data_path f = data_path (fill_paths D (name f) f) /\ meta_path f = meta_path (fill_paths D (name f) f) /\
  undo_path f = undo_path (fill_paths D (name f) f).

Lemma paths_safe f : paths_ok f -> safe (data_path f) /\ safe (undo_path f).
Proof.
  intros (-> & _ & ->). destruct dirs_of as (E1 & _ & E3 & _). unfold fill_paths. cbn [data_path undo_path].
  rewrite E1, E3, <- !app_assoc. split.
  - exact (safe_below (cs "/files") ("/"%char :: name f) "f"%char eq_refl ltac:(done)).
  - exact (safe_below (cs "/undo") ("/"%char :: name f ++ cs ".undo") "u"%char eq_refl ltac:(done)).
Qed.

Lemma meta_path_file f : paths_ok f -> length (name f) < SS_NAME_MAX -> meta_path f = meta_file (name f).
Proof.
  intros (_ & -> & _) Hl. destruct dirs_of as (_ & E2 & _). unfold fill_paths. cbn [meta_path]. rewrite E2, <- app_assoc.
  unfold SS_NAME_MAX in Hl. apply snprintf_s_id. unfold meta_file. rewrite !length_app. cbn [length cs]. change (length (cs "/meta/")) with 6. change (length (cs ".meta")) with 5. lia.
Qed.

Lemma meta_file_inj n n' : meta_file n = meta_file n' -> n = n'.
Proof. unfold meta_file. rewrite !app_assoc. intros H%app_inv_tail. by apply app_inv_head in H. Qed.

Lemma meta_file_in n : in_meta (meta_file n).
Proof. unfold meta_file. rewrite app_assoc. by eexists. Qed.

(** ** The invariant *)

Record stored (w : world) : Prop := {
  sd_quiet : quiet (w_disk w);
  sd_dirs : set_docs [] (w_state w) = D;
  sd_docs : docs_ok w;
  sd_names : Forall (fun f => valid_filename (name f) = true /\ paths_ok f) (docs (w_state w));
  (** the metadata files are those of the documents ... *)
  sd_meta : forall n, files (w_disk w) !! meta_file n = meta_text <$> doc_map (docs (w_state w)) !! n;
  (** ... and there are no others *)
  sd_only : forall p b, files (w_disk w) !! p = Some b -> in_meta p -> exists n, p = meta_file n;
}.

(** What is outside of the metadata directory does not matter. *)
Lemma stored_files w w' :
  w_state w' = w_state w -> quiet (w_disk w') ->
  (forall p, in_meta p -> files (w_disk w') !! p = files (w_disk w) !! p) -> stored w -> stored w'.
Proof.
  intros E Hq Hf [H1 H2 H3 H4 H5 H6]. split; [done|by rewrite E| |by rewrite E| |].
  - by eapply docs_ok_state.
  - intros n. rewrite E, Hf by apply meta_file_in. apply H5.
  - intros p b Hp Hm. rewrite Hf in Hp by done. by eapply H6.
Qed.

Create HintDb stored.

Lemma stored_same w w' : w_state w' = w_state w -> w_disk w' = w_disk w -> stored w -> stored w'.
Proof. intros E1 E2 Hs. apply (stored_files w); [done|rewrite E2; apply Hs|by rewrite E2|done]. Qed.

Lemma stored_answer_nm r w : stored w -> stored (answer_nm r w).
Proof. apply stored_same; apply answer_nm_same. Qed.
Lemma stored_answer_peer r w : stored w -> stored (answer_peer r w).
Proof. apply stored_same; unfold answer_peer; by destruct (reply_json r). Qed.
Lemma stored_send_peer m b w w' : send_peer m w = (b, w') -> stored w -> stored w'.
Proof. destruct m; intros [= <- <-]; [by apply stored_same|done]. Qed.
Lemma stored_snd_send_peer m w : stored w -> stored (snd (send_peer m w)).
Proof. by apply stored_same; destruct m. Qed.
Lemma stored_notify f w : stored w -> stored (notify_nm_file_update f w).
Proof. apply stored_same; apply notify_same. Qed.
Lemma stored_set_tickets t w : stored w -> stored (set_tickets t w).
Proof. by apply stored_same. Qed.
Lemma stored_set_locks l w : stored w -> stored (set_locks l w).
Proof. by apply stored_same. Qed.
Lemma stored_validate tok u f op now b w w' : validate_ticket tok u f op now w = (b, w') -> stored w -> stored w'.
Proof. unfold validate_ticket. destruct (ticket_table_take _ _ _ _ _ _). intros [= <- <-]. by apply stored_set_tickets. Qed.
Lemma stored_load p r w w' : load p w = (r, w') -> stored w -> stored w'.
Proof. intros E Hs. rewrite load_quiet in E by apply Hs. by injection E as <- <-. Qed.

Lemma stored_store p c b w w' : safe p -> store p c w = (b, w') -> stored w -> stored w'.
Proof.
  intros [Hp Ht] E Hs. destruct (store_quiet p c w (sd_quiet w Hs)) as (w1 & E1 & Hq & Hf & Hst). rewrite E1 in E. injection E as <- <-.
  apply (stored_files w); [done|done| |done]. intros q Hq'. rewrite Hf.
  rewrite lookup_insert_ne by congruence. by rewrite lookup_delete_ne by congruence.
Qed.

Lemma stored_unlink p w : ~ in_meta p -> stored w -> stored (set_disk (snd (unlink p (w_disk w))) w).
Proof.
  intros Hp Hs. destruct (unlink_quiet p (w_disk w) (sd_quiet w Hs)) as [Hq Hf]. apply (stored_files w); [done|done| |done].
  intros q Hq'. cbn [w_disk set_disk]. rewrite Hf. by rewrite lookup_delete_ne by congruence.
Qed.

(** ** Records that change *)

Lemma doc_map_update fs i f g :
  sorted fs -> fs !! i = Some f -> name g = name f -> doc_map (<[i := g]> fs) = <[name f := g]> (doc_map fs).
Proof.
  intros Hs Hi Hn. pose proof (sorted_update fs i f g Hs Hi Hn) as Hs'. pose proof (lookup_lt_Some _ _ _ Hi) as Hlt.
  apply map_eq. intros n. apply option_eq. intros h. rewrite doc_map_lookup by done.
  destruct (decide (n = name f)) as [->|Hne].
  - rewrite lookup_insert_eq. split.
    + intros [Hh Hhn]. apply list_elem_of_lookup in Hh as [j Hj].
      assert (j = i) as ->; [|rewrite list_lookup_insert_eq in Hj by done; done].
      eapply (sorted_unique (<[i := g]> fs)); [done|exact Hj|by apply list_lookup_insert_eq|congruence].
    + intros [= <-]. split; [|done]. apply list_elem_of_lookup. exists i. by apply list_lookup_insert_eq.
  - rewrite lookup_insert_ne by congruence. rewrite doc_map_lookup by done. split; intros [Hh Hhn]; (split; [|done]).
    + apply list_elem_of_lookup in Hh as [j Hj]. apply list_elem_of_lookup. exists j. destruct (decide (j = i)) as [->|].
      * rewrite list_lookup_insert_eq in Hj by done. congruence.
      * by rewrite list_lookup_insert_ne in Hj by congruence.
    + apply list_elem_of_lookup in Hh as [j Hj]. apply list_elem_of_lookup. exists j. destruct (decide (j = i)) as [->|]; [congruence|].
      by rewrite list_lookup_insert_ne by congruence.
Qed.

(** The name and the paths are kept. *)
Definition same_paths (upd : ss_file -> ss_file) : Prop :=
  forall f, name (upd f) = name f /\ data_path (upd f) = data_path f /\ meta_path (upd f) = meta_path f /\ undo_path (upd f) = undo_path f.

Lemma paths_ok_upd upd f : same_paths upd -> paths_ok f -> paths_ok (upd f).
Proof. intros Hu (H1 & H2 & H3). destruct (Hu f) as (U1 & U2 & U3 & U4). unfold paths_ok, fill_paths in *. cbn in *. rewrite U1, U2, U3, U4. done. Qed.

(** Everything but the metadata. *)
Lemma stored_record n upd w f i :
  same_paths upd -> stored w -> ss_state_find (w_state w) n = (Some f, i) ->
  let w' := set_state (set_docs (<[i := upd f]> (docs (w_state w))) (w_state w)) w in
  docs_ok w' /\ set_docs [] (w_state w') = D /\
  Forall (fun f => valid_filename (name f) = true /\ paths_ok f) (docs (w_state w')) /\
  doc_map (docs (w_state w')) = <[name f := upd f]> (doc_map (docs (w_state w))) /\ name f = n /\
  valid_filename (name f) = true /\ paths_ok f /\ length (name f) < SS_NAME_MAX.
Proof.
  intros Hu Hs Ef. destruct (ss_state_find_spec _ _ _ _ (proj1 (sd_docs w Hs)) Ef) as [Hi Hn]. destruct (Hu f) as (U1 & _).
  pose proof (sd_names w Hs) as Hnames. pose proof (sd_docs w Hs) as [Hso Hl]. cbn [w_state set_state docs set_docs].
  assert ((valid_filename (name f) = true /\ paths_ok f) /\ length (name f) < SS_NAME_MAX) as [[Hv Hp] Hlen].
  { split; [by eapply Forall_lookup_1 in Hnames; [|exact Hi]|by eapply Forall_lookup_1 in Hl; [|exact Hi]]. }
  split_and!; try done.
  - split; cbn [w_state set_state docs set_docs]; [by eapply sorted_update|]. apply Forall_insert; [done|]. by rewrite U1.
  - apply (sd_dirs w Hs).
  - apply Forall_insert; [done|]. rewrite U1. split; [done|by apply paths_ok_upd].
  - by apply doc_map_update.
Qed.

Lemma stored_update_record n upd r w w' :
  same_paths upd -> (forall f, meta_text (upd f) = meta_text f) -> update_record n upd w = (r, w') -> stored w -> stored w'.
Proof.
  intros Hu Hm E Hs. unfold update_record in E. destruct (ss_state_find (w_state w) n) as [[f|] i] eqn:Ef; [|by injection E as <- <-].
  injection E as <- <-. destruct (stored_record n upd w f i Hu Hs Ef) as (H1 & H2 & H3 & H4 & _).
  split; [apply Hs|done|done|done| |apply Hs]. intros k. rewrite H4. cbn [w_disk set_state]. rewrite (sd_meta w Hs).
  destruct (ss_state_find_spec _ _ _ _ (proj1 (sd_docs w Hs)) Ef) as [Hi Hn].
  destruct (decide (k = name f)) as [->|]; [|by rewrite lookup_insert_ne].
  rewrite lookup_insert_eq. assert (doc_map (docs (w_state w)) !! name f = Some f) as ->; [|change (Some (meta_text f) = Some (meta_text (upd f))); by rewrite Hm].
  apply doc_map_lookup; [apply (sd_docs w Hs)|]. split; [by eapply list_elem_of_lookup_2|done].
Qed.

Lemma stored_lock_state f a n u w : stored w -> stored (set_file_lock_state f a n u w).
Proof.
  unfold set_file_lock_state. destruct (update_record _ _ _) as [r w'] eqn:E. cbn [snd]. by eapply stored_update_record; [..|exact E].
Qed.

Lemma stored_update_and_save n upd r w w' : same_paths upd -> update_and_save n upd w = (r, w') -> stored w -> stored w'.
Proof.
  intros Hu E Hs. unfold update_and_save, update_record in E.
  destruct (ss_state_find (w_state w) n) as [[f|] i] eqn:Ef; [|by injection E as <- <-].
  destruct (stored_record n upd w f i Hu Hs Ef) as (H1 & H2 & H3 & H4 & Hn & Hv & Hp & Hl). injection E as <- <-.
  destruct (write_meta_file_quiet (upd f) (w_disk w) (sd_quiet w Hs)) as (d & Ed & Hq & Hf).
  unfold ss_state_save_meta. rewrite Ed. destruct (Hu f) as (U1 & _ & U3 & _).
  rewrite U3, meta_path_file in Hf by done.
  split; [done|done|done|done| |]; cbn [snd w_disk set_disk w_state].
  - intros k. rewrite Hf, H4. destruct (decide (k = name f)) as [->|Hne]; [by rewrite !lookup_insert_eq|].
    rewrite lookup_insert_ne by (by intros ?%meta_file_inj). rewrite lookup_insert_ne by congruence. apply (sd_meta w Hs).
  - intros p b Hpb Hin. rewrite Hf in Hpb. apply lookup_insert_Some in Hpb as [[<- _]|[_ Hpb]]; [by eexists|by eapply (sd_only w Hs)].
Qed.

(** ** Documents that come and go *)

Lemma quiet_add st n o now d : quiet d -> quiet (snd (ss_state_add st n o now d)).
Proof.
  intros Hq. unfold ss_state_add. destruct (ss_state_find st n) as [[f|] i]; [done|]. set (file := new_file st n o now).
  destruct (fopen_w_quiet (data_path file) d Hq) as (d1 & -> & Hq1 & _). cbn [negb].
  destruct (docs _ !! i) as [x|]; [|done]. by destruct (write_meta_file_quiet x d1 Hq1) as (d2 & -> & Hq2 & _).
Qed.

Lemma quiet_remove st n d : quiet d -> quiet (snd (ss_state_remove st n d)).
Proof.
  intros Hq. unfold ss_state_remove. destruct (ss_state_find st n) as [[f|] i]; [|done]. cbn [snd].
  by do 3 apply unlink_quiet.
Qed.

Lemma stored_add n o now r s d w :
  length n < SS_NAME_MAX -> valid_filename n = true ->
  ss_state_add (w_state w) n o now (w_disk w) = (r, s, d) -> stored w -> stored (set_disk d (set_state s w)).
Proof.
  intros Hl Hv E Hs. pose proof (quiet_add (w_state w) n o now (w_disk w) (sd_quiet w Hs)) as Hq.
  pose proof (ss_state_add_cases (w_state w) n o now (w_disk w) (proj1 (sd_docs w Hs)) Hl) as Hc.
  pose proof (ss_state_add_refines (w_state w) n o now (w_disk w) (proj1 (sd_docs w Hs)) Hl) as Hr.
  pose proof (add_keeps n o now w r s d Hl E) as [_ Hd]. rewrite E in Hc, Hr, Hq. cbn [snd] in Hq.
  destruct (doc_map (docs (w_state w)) !! n) as [g|] eqn:Eg.
  { destruct Hc as (_ & -> & ->). by apply (stored_same w). }
  set (file := new_file (w_state w) n o now) in *.
  assert (name file = n) as Hn by (by apply new_file_name).
  assert (paths_ok file) as Hp.
  { assert (files_dir D = files_dir (w_state w) /\ meta_dir D = meta_dir (w_state w) /\ undo_dir D = undo_dir (w_state w)) as (E1 & E2 & E3).
    { by rewrite <- (sd_dirs w Hs). }
    unfold paths_ok. rewrite Hn. unfold fill_paths. cbn [data_path meta_path undo_path]. by rewrite E1, E2, E3. }
  assert (meta_path file = meta_file n) as Hm by (rewrite meta_path_file, Hn; [done|done|by rewrite Hn]).
  destruct (paths_safe file Hp) as [[Hdp _] _]. cbv zeta in Hr. destruct Hr as (_ & _ & _ & Hf).
  destruct Hf as [-> Hf]; [apply Hs|done|intros Heq; apply Hdp; rewrite Heq, Hm; apply meta_file_in|].
  destruct Hc as (i & -> & Hso). cbn [docs set_docs] in Hso. rewrite Hm in Hf.
  split; [done|apply Hs|by apply Hd, Hs| | |]; cbn [w_state w_disk set_disk set_state docs set_docs].
  - apply Forall_forall. intros f [->|Hin]%elem_of_insert_at; [by rewrite Hn|]. pose proof (sd_names w Hs) as H. rewrite Forall_forall in H. by apply H.
  - intros k. rewrite doc_map_insert_at by done. rewrite Hn, Hf. destruct (decide (k = n)) as [->|Hne]; [by rewrite !lookup_insert_eq|].
    rewrite lookup_insert_ne by (by intros ?%meta_file_inj). rewrite lookup_insert_ne by (intros E'; apply Hdp; rewrite E'; apply meta_file_in).
    rewrite lookup_insert_ne by congruence. apply (sd_meta w Hs).
  - intros p b Hpb Hin. rewrite Hf in Hpb. apply lookup_insert_Some in Hpb as [[<- _]|[_ Hpb]]; [by eexists|].
    apply lookup_insert_Some in Hpb as [[<- _]|[_ Hpb]]; [done|]. by eapply (sd_only w Hs).
Qed.

Lemma stored_remove n r s d w :
  ss_state_remove (w_state w) n (w_disk w) = (r, s, d) -> stored w -> stored (set_disk d (set_state s w)).
Proof.
  intros E Hs. pose proof (quiet_remove (w_state w) n (w_disk w) (sd_quiet w Hs)) as Hq.
  pose proof (ss_state_remove_refines (w_state w) n (w_disk w) (proj1 (sd_docs w Hs))) as Hr.
  pose proof (remove_keeps n w r s d E) as [_ Hd]. rewrite E in Hr, Hq. cbn [snd] in Hq.
  destruct (doc_map (docs (w_state w)) !! n) as [f|] eqn:Ef; [|by destruct Hr as (_ & -> & ->); apply (stored_same w)].
  destruct Hr as (_ & Hso & Hm & Hf). specialize (Hf (sd_quiet w Hs)).
  apply doc_map_lookup in Ef as [Hin Hn]; [|apply (sd_docs w Hs)].
  pose proof (sd_names w Hs) as Hnames. rewrite Forall_forall in Hnames. destruct (Hnames f Hin) as [_ Hp].
  pose proof (sd_docs w Hs) as [_ Hl]. rewrite Forall_forall in Hl. specialize (Hl f Hin).
  rewrite (meta_path_file f Hp Hl), Hn in Hf. destruct (paths_safe f Hp) as [[Hd1 _] [Hd2 _]].
  assert (set_docs [] s = D /\ forall g, g ∈ docs s -> g ∈ docs (w_state w)) as [Hds Hsub].
  { unfold ss_state_remove in E. destruct (ss_state_find _ _) as [[f'|] i]; injection E as <- <- <-; [|by split; [apply Hs|]].
    split; [apply (sd_dirs w Hs)|]. intros g Hg%elem_of_remove_at. done. }
  split; [done|done|by apply Hd, Hs| | |]; cbn [w_state w_disk set_disk set_state].
  - apply Forall_forall. intros g Hg. by apply Hnames, Hsub.
  - intros k. rewrite Hm, Hf. rewrite lookup_delete_ne by (intros E'; apply Hd2; rewrite E'; apply meta_file_in).
    destruct (decide (k = n)) as [->|Hne]; [by rewrite !lookup_delete_eq|].
    rewrite lookup_delete_ne by (by intros ?%meta_file_inj). rewrite lookup_delete_ne by (intros E'; apply Hd1; rewrite E'; apply meta_file_in).
    rewrite lookup_delete_ne by congruence. apply (sd_meta w Hs).
  - intros p b Hpb Hin'. rewrite Hf in Hpb. apply lookup_delete_Some in Hpb as [_ Hpb]. apply lookup_delete_Some in Hpb as [_ Hpb].
    apply lookup_delete_Some in Hpb as [_ Hpb]. by eapply (sd_only w Hs).
Qed.

(** A document of the table keeps away from the metadata directory. *)
Definition view_ok (v : ss_file) : Prop := safe (data_path v) /\ safe (undo_path v).

Lemma snapshot_view n w v : snapshot_file n w = Some v -> stored w -> view_ok v.
Proof.
  intros Hv Hs. unfold snapshot_file in Hv. rewrite doc_map_find in Hv by apply (sd_docs w Hs).
  apply doc_map_lookup in Hv as [Hin _]; [|apply (sd_docs w Hs)]. pose proof (sd_names w Hs) as H. rewrite Forall_forall in H.
  by apply paths_safe, H.
Qed.

Lemma stored_ensure_dir b w w' : ensure_directory w = (b, w') -> stored w -> stored w'.
Proof.
  intros E Hs. unfold ensure_directory, plain_call, next_fault in E. rewrite (sd_quiet w Hs) in E. injection E as <- <-. by apply (stored_same w).
Qed.

Lemma checkpoint_safe f t n r w w' : build_checkpoint_path f t n w = (r, w') -> stored w -> stored w' /\ forall p, r = Ok p -> safe p.
Proof.
  intros E Hs. assert (checkpoints_dir (w_state w) = checkpoints_dir D) as Ec by (by rewrite <- (sd_dirs w Hs)).
  unfold build_checkpoint_path, ensure_checkpoint_dir in E. rewrite Ec, (proj2 (proj2 (proj2 dirs_of))) in E.
  unfold fit_path, fit in E. destruct (512 <=? _); [by injection E as <- <-|].
  destruct (ensure_directory w) as [b w1] eqn:Ed. pose proof (stored_ensure_dir _ _ _ Ed Hs) as H1. destruct b; [|by injection E as <- <-].
  destruct (512 <=? _); [by injection E as <- <-|]. destruct (n <=? _); [by injection E as <- <-|].
  injection E as <- <-. split; [done|]. intros p [= <-]. rewrite <- !app_assoc. apply (not_in_meta _ "c"%char); [|done].
  exact (below_char (cs "/checkpoints") (("/"%char :: f) ++ "/"%char :: t) "c"%char eq_refl).
Qed.

Lemma stored_begin v u n r s d w : write_session_begin v u n (w_disk w) = (r, s, d) -> stored w -> stored (set_disk d w).
Proof.
  intros E Hs. unfold write_session_begin in E. rewrite load_text_quiet in E by apply Hs.
  assert (d = w_disk w) as ->; [|by apply (stored_same w)]. by repeat case_match; simplify_eq.
Qed.

Lemma stored_commit g s v r s' d w : view_ok v -> write_session_commit g s v (w_disk w) = Some (r, s', d) -> stored w -> stored (set_disk d w).
Proof.
  intros [Hd Hu] E Hs. unfold write_session_commit in E. rewrite load_text_quiet in E by apply Hs.
  assert (set_disk (w_disk w) w = w) as Hid by (by destruct w).
  destruct (commit_index _ _) as [k|]; [|destruct (g =? 0)%Z; [injection E as <- <- <-; by rewrite Hid|done]].
  assert (forall p c w1 b d1, safe p -> stored w1 -> store_text_atomic p c (w_disk w1) = (b, d1) -> stored (set_disk d1 w1)) as Hst.
  { intros p c w1 b d1 Hp H1 E1. eapply (stored_store p c b w1); [done|unfold store; by rewrite E1|done]. }
  destruct (store_text_atomic (undo_path v) _ (w_disk w)) as [b1 d1] eqn:E1. pose proof (Hst _ _ _ _ _ Hu Hs E1) as H1.
  destruct b1; cbn [negb] in E; [|by injection E as <- <- <-].
  destruct (store_text_atomic (data_path v) _ d1) as [b2 d2] eqn:E2. pose proof (Hst _ _ (set_disk d1 w) _ _ Hd H1 E2) as H2.
  destruct b2; injection E as <- <- <-; exact H2.
Qed.

(** ** Requests *)

#[local] Hint Resolve stored_answer_nm stored_answer_peer stored_snd_send_peer stored_notify stored_set_tickets stored_set_locks
  stored_lock_state : stored.
#[local] Hint Extern 4 (stored ?w) =>
  match goal with
  | H : send_peer _ _ = (_, w) |- _ => eapply stored_send_peer; [exact H|]
  | H : load _ _ = (_, w) |- _ => eapply stored_load; [exact H|]
  | H : store _ _ _ = (_, w) |- _ => eapply stored_store; [|exact H|]; [assumption|]
  | H : validate_ticket _ _ _ _ _ _ = (_, w) |- _ => eapply stored_validate; [exact H|]
  | H : build_checkpoint_path _ _ _ _ = (_, w) |- _ => eapply (fun E Hs => proj1 (checkpoint_safe _ _ _ _ _ _ E Hs)); [exact H|]
  | H : update_and_save _ _ _ = (_, w) |- _ => eapply stored_update_and_save; [|exact H|]; [done|]
  end : stored.
#[local] Hint Extern 4 (stored (set_disk (snd (unlink ?p _)) _)) => apply stored_unlink : stored.
#[local] Hint Extern 4 (~ in_meta _) => match goal with H : safe _ |- _ => exact (proj1 H) end : stored.

(** Case analysis on a handler's body, then the chain of its steps. *)
Ltac stay := cbv zeta; repeat break_goal; cbn [fst snd]; eauto 30 with stored.
(** The same with the record the handler starts from. *)
Ltac stay_view Hs :=
  match goal with
  | |- context [snapshot_file ?f ?w] =>
      let Ev := fresh in destruct (snapshot_file f w) as [?|] eqn:Ev;
      [destruct (snapshot_view _ _ _ Ev Hs)|]; stay
  end.

Lemma undo_stored f u now w : stored w -> stored (snd (perform_undo f u now w)).
Proof. intros Hs. unfold perform_undo. stay_view Hs. Qed.

Lemma read_stored f u now w : stored w -> stored (handle_read f u now w).
Proof. intros Hs. unfold handle_read. stay_view Hs. Qed.

Lemma stream_words_stored words w : stored w -> stored (stream_words words w).
Proof.
  revert w. induction words as [|x words IH]; intros w Hs; cbn [stream_words]; [done|].
  destruct (json_escape_dup x); [|auto]. destruct (fit 1024 _); auto with stored.
Qed.
#[local] Hint Resolve stream_words_stored : stored.

Lemma stream_stored f u now w : stored w -> stored (handle_stream f u now w).
Proof. intros Hs. unfold handle_stream. stay_view Hs. Qed.

Lemma write_open_stored f u n w :
  stored w -> stored (snd (write_open f u n w)) /\ forall s v, fst (write_open f u n w) = Some (s, v) -> view_ok v.
Proof.
  intros Hs. unfold write_open, write_bail. destruct (snapshot_file f w) as [view|] eqn:Ev; [|split; [stay|done]].
  pose proof (snapshot_view _ _ _ Ev Hs) as Hv. destruct (sentence_lock_acquire _ _ _ _) as [ls|]; [|split; [stay|done]].
  cbv zeta. set (w1 := set_file_lock_state f true n (Some u) (set_locks ls w)). assert (stored w1) as H1 by (unfold w1; auto with stored).
  clearbody w1. destruct (write_session_begin view u n (w_disk w1)) as [[r s] d] eqn:Eb. pose proof (stored_begin _ _ _ _ _ _ _ Eb H1) as H2.
  set (w2 := set_disk d w1) in *. clearbody w2.
  destruct r; [|split; [stay|done]]. destruct (json_escape_dup _); [|split; [stay|done]]. destruct (fit MAX_JSON _); [|split; [stay|done]].
  destruct (send_peer _ w2) as [[] w3] eqn:E3; (split; [stay|]); [|done]. by intros s' v' [= <- <-].
Qed.

Lemma write_message_stored f u v now json s w : view_ok v -> stored w -> stored (snd (write_message f u v now json s w)).
Proof.
  intros Hv Hs. unfold write_message. destruct (json_get_string json (cs "type") 64) as [t|]; [|stay].
  destruct (streq t (cs "WRITE_INSERT")); [stay|]. destruct (streq t (cs "WRITE_REPLACE")); [stay|]. destruct (streq t (cs "WRITE_DELETE")); [stay|].
  destruct (streq t (cs "WRITE_COMMIT")); [|stay]. destruct (write_session_commit 0 s v (w_disk w)) as [[[r s'] d]|] eqn:Ec; [|stay].
  pose proof (stored_commit _ _ _ _ _ _ _ Hv Ec Hs) as H1. cbv zeta. set (w1 := set_disk d w) in *. clearbody w1. stay.
Qed.

Lemma write_loop_stored f u v now msgs s w : view_ok v -> stored w -> stored (write_loop f u v now msgs s w).
Proof.
  intros Hv. revert s w. induction msgs as [|json msgs IH]; intros s w Hs; cbn [write_loop]; [done|].
  pose proof (write_message_stored f u v now json s w Hv Hs) as H. destruct (write_message f u v now json s w) as [[s'|] w']; [|done]. by apply IH.
Qed.

Lemma data_client_stored json msgs now w : stored w -> stored (handle_data_client json msgs now w).
Proof.
  intros Hs. unfold handle_data_client.
  destruct (json_get_string json (cs "type") 64) as [t|]; [|stay]. destruct (json_get_string json (cs "file") SS_NAME_MAX) as [f|]; [|stay].
  destruct (json_get_string json (cs "user") SS_USER_MAX) as [u|]; [|stay]. destruct (json_get_string json (cs "ticket") 64) as [tok|]; [|stay].
  assert (forall op b w1, validate_ticket tok u f op now w = (b, w1) -> stored w1) as Hv by (intros op b w1 E; by eapply stored_validate).
  destruct (streq t (cs "READ")).
  { destruct (validate_ticket _ _ _ _ _ _) as [[] w1] eqn:E; apply Hv in E; [by apply read_stored|stay]. }
  destruct (streq t (cs "STREAM")).
  { destruct (validate_ticket _ _ _ _ _ _) as [[] w1] eqn:E; apply Hv in E; [by apply stream_stored|stay]. }
  destruct (streq t (cs "WRITE_BEGIN")); [|stay]. destruct (json_get_int json (cs "sentence")) as [n|]; [|stay].
  destruct (validate_ticket _ _ _ _ _ _) as [[] w1] eqn:E; apply Hv in E; [|stay]. unfold handle_write.
  destruct (write_open_stored f u n w1 E) as [H1 H2]. destruct (write_open f u n w1) as [[[s v]|] w2]; [|done].
  unfold write_close. apply stored_lock_state, stored_set_locks, write_loop_stored; [by eapply H2|done].
Qed.

(** *** Commands *)

Lemma create_checkpoint_stored f t u w : stored w -> stored (snd (ss_create_checkpoint f t u w)).
Proof.
  intros Hs. unfold ss_create_checkpoint. destruct (negb _); [done|]. destruct (snapshot_file f w) as [v|]; [|done].
  destruct (load (data_path v) w) as [c w1] eqn:E1. pose proof (stored_load _ _ _ _ E1 Hs) as H1.
  destruct (build_checkpoint_path f t 512 w1) as [p w2] eqn:E2. destruct (checkpoint_safe _ _ _ _ _ _ E2 H1) as [H2 Hp].
  destruct p as [p|e]; [|done]. specialize (Hp p eq_refl). stay.
Qed.

Lemma read_checkpoint_stored f t w : stored w -> stored (snd (ss_read_checkpoint f t w)).
Proof. intros Hs. unfold ss_read_checkpoint. stay. Qed.

Lemma revert_checkpoint_stored f t u now w : stored w -> stored (snd (ss_revert_checkpoint f t u now w)).
Proof.
  intros Hs. unfold ss_revert_checkpoint. destruct (negb _); [done|].
  destruct (build_checkpoint_path f t 512 w) as [p w1] eqn:E1. destruct (checkpoint_safe _ _ _ _ _ _ E1 Hs) as [H1 _]. clear E1.
  destruct p as [p|e]; [|done]. destruct (load p w1) as [c w2] eqn:E2. pose proof (stored_load _ _ _ _ E2 H1) as H2. clear E2.
  destruct c as [c|]; [|done]. stay_view H2.
Qed.

Lemma checkpoint_request_stored json w k :
  stored w -> (forall f t u, stored (k f t u)) -> stored (checkpoint_request json w k).
Proof. intros Hs H. unfold checkpoint_request. stay. Qed.

(** The names a synchronisation brings are those of documents, as the ones the name manager
    makes are. *)
Definition sync_names_valid (json : cstr) : Prop :=
  json_get_string json (cs "type") 64 = Some (cs "NM_SYNC") ->
  forall n, json_get_string json (cs "file") SS_NAME_MAX = Some n -> valid_filename n = true.

Section Commands.
Context (rpc : cstr -> cstr -> cstr -> option cstr) (strerror : errno -> cstr).

Lemma create_stored json now w : stored w -> stored (nm_create strerror json now w).
Proof.
  intros Hs. unfold nm_create. destruct (json_get_string json (cs "file") SS_NAME_MAX) as [n|] eqn:En; [|stay].
  destruct (json_get_string json (cs "owner") SS_USER_MAX) as [o|]; [|stay]. destruct (valid_filename n) eqn:Ev; cbn [negb]; [|stay].
  apply json_get_string_length in En. destruct (ss_state_add _ _ _ _ _) as [[r s] d] eqn:E. apply stored_add in E; [|done..]. stay.
Qed.

Lemma delete_stored json w : stored w -> stored (nm_delete json w).
Proof.
  intros Hs. unfold nm_delete. destruct (json_get_string json (cs "file") SS_NAME_MAX) as [n|]; [|stay].
  destruct (negb _); [stay|]. destruct (snapshot_file n w) as [f|]; [|stay]. destruct (lock_active f); [stay|].
  destruct (ss_state_remove _ _ _) as [[r s] d] eqn:E. apply stored_remove in E; [|done]. stay.
Qed.

Lemma sync_stored json now w :
  (forall n, json_get_string json (cs "file") SS_NAME_MAX = Some n -> valid_filename n = true) ->
  stored w -> stored (handle_nm_sync rpc json now w).
Proof.
  intros Hv Hs. unfold handle_nm_sync. destruct (json_get_string json (cs "file") SS_NAME_MAX) as [n|] eqn:En; [|stay].
  specialize (Hv n eq_refl). apply json_get_string_length in En. do 4 (destruct (json_get_string _ _ _); [|stay]).
  destruct (ss_fetch_remote_content _ _ _ _ _ _); [|stay].
  set (w1 := match snapshot_file n w with Some _ => w | None => _ end). assert (stored w1) as H1.
  { unfold w1. destruct (snapshot_file n w); [done|]. destruct (ss_state_add _ _ _ _ _) as [[r s] d] eqn:E. by eapply stored_add. }
  clearbody w1. stay_view H1.
Qed.

Lemma command_stored json now w : sync_names_valid json -> stored w -> stored (process_nm_command rpc strerror json now w).
Proof.
  intros Hv Hs. unfold process_nm_command. unfold sync_names_valid in Hv.
  destruct (json_get_string json (cs "type") 64) as [t|]; [|stay].
  destruct (streq t (cs "NM_CREATE")); [by apply create_stored|]. destruct (streq t (cs "NM_DELETE")); [by apply delete_stored|].
  destruct (streq t (cs "NM_TICKET")); [unfold handle_nm_ticket_command; stay|].
  destruct (streq t (cs "NM_UNDO")).
  { unfold nm_undo. destruct (json_get_string json (cs "file") SS_NAME_MAX) as [f|]; [|stay].
    destruct (json_get_string json (cs "user") SS_USER_MAX) as [u|]; [|stay]. pose proof (undo_stored f u now w Hs) as H.
    destruct (perform_undo f u now w) as [[[[x y] z]|e] w']; cbn [snd] in H; stay. }
  destruct (streq t (cs "NM_CHECKPOINT_CREATE")).
  { apply checkpoint_request_stored; [done|]. intros f g u. pose proof (create_checkpoint_stored f g u w Hs) as H.
    destruct (ss_create_checkpoint f g u w) as [[] w']; cbn [snd] in H; stay. }
  destruct (streq t (cs "NM_CHECKPOINT_VIEW")).
  { apply checkpoint_request_stored; [done|]. intros f g u. pose proof (read_checkpoint_stored f g w Hs) as H.
    destruct (ss_read_checkpoint f g w) as [[] w']; cbn [snd] in H; stay. }
  destruct (streq t (cs "NM_CHECKPOINT_REVERT")).
  { apply checkpoint_request_stored; [done|]. intros f g u. pose proof (revert_checkpoint_stored f g u now w Hs) as H.
    destruct (ss_revert_checkpoint f g u now w) as [[] w']; cbn [snd] in H; stay. }
  destruct (streq t (cs "NM_SYNC")) eqn:Et; [|stay]. apply bool_decide_eq_true in Et as ->. by apply sync_stored; [apply Hv|].
Qed.
End Commands.

(** ** Starting again *)

(** What [recount] makes of a record. *)
Definition recounted (t : tree) (f : ss_file) : ss_file :=
  if (word_count f =? 0)%Z || (char_count f =? 0)%Z then
    match t !! data_path f with
    | Some b => with_counts (Z.of_nat (count_words_in_text (c_str b))) (Z.of_nat (length b)) f
    | None => f
    end
  else f.

Lemma recount_recounted f d : quiet d -> recount f d = (recounted (files d) f, d).
Proof.
  intros Hq. unfold recount, recounted. destruct (_ || _)%bool; [|done]. unfold plain_call, next_fault. rewrite Hq. cbv beta iota zeta.
  destruct (files d !! data_path f); [|done]. by rewrite !Hq.
Qed.

(** What a restart makes of a record: unlocked, and counted afresh where a counter is zero. *)
Definition reloaded (t : tree) (f : ss_file) : ss_file := unlock (recounted t f).

Lemma recounted_unlock t f a u n : recounted t (with_lock a u n f) = with_lock a u n (recounted t f).
Proof. unfold recounted. cbn [word_count char_count data_path with_lock]. destruct (_ || _)%bool; [|done]. by destruct (t !! data_path f). Qed.

Lemma load_entry_stored w e st0 f :
  stored w -> f ∈ docs (w_state w) -> meta_ok f -> entry_name e = Some (name f) -> set_docs [] st0 = D ->
  load_entry e st0 (w_disk w) = (set_docs (insert_sorted (docs st0) (reloaded (files (w_disk w)) f)) st0, w_disk w).
Proof.
  intros Hs Hin Hm He Hd. unfold load_entry. rewrite He. set (file := fill_paths st0 (name f) (with_names (name f) [] zero_file)).
  pose proof (sd_names w Hs) as Hn. rewrite Forall_forall in Hn. destruct (Hn f Hin) as [_ Hp].
  pose proof (sd_docs w Hs) as [Hso Hl]. rewrite Forall_forall in Hl. specialize (Hl f Hin).
  assert (files_dir st0 = files_dir D /\ meta_dir st0 = meta_dir D /\ undo_dir st0 = undo_dir D) as (E1 & E2 & E3) by (by rewrite <- Hd).
  assert (data_path file = data_path f /\ meta_path file = meta_path f /\ undo_path file = undo_path f) as (P1 & P2 & P3).
  { destruct Hp as (-> & -> & ->). unfold file, fill_paths. cbn [data_path meta_path undo_path]. by rewrite E1, E2, E3. }
  assert (restore f file = with_lock false [] 0 f) as Hr by (apply ss_file_ext; try reflexivity; assumption).
  unfold load_meta_file, plain_call, next_fault. rewrite (sd_quiet w Hs). cbv beta iota zeta.
  rewrite P2, (meta_path_file f Hp Hl), (sd_meta w Hs). rewrite (proj2 (doc_map_lookup _ _ f Hso)) by (by split). cbn [fmap option_fmap option_map].
  fold (load_meta (meta_text f) file). rewrite load_meta_text, Hr by done. rewrite recount_recounted by apply Hs.
  by rewrite recounted_unlock.
Qed.

(** The entries of the metadata directory, in any order. *)
Definition lists_dir (t : tree) (es : list cstr) : Prop :=
  NoDup es /\ forall e, e ∈ es <-> e = cs "." \/ e = cs ".." \/ is_Some (t !! (dir ++ cs "/meta/" ++ e)).

Lemma entry_name_meta n : valid_filename n = true -> length n < SS_NAME_MAX -> entry_name (n ++ cs ".meta") = Some n.
Proof.
  intros Hv Hl. assert (last_dot (n ++ cs ".meta") = Some (n, cs ".meta")) as Hd.
  { unfold last_dot. rewrite rev_app_distr. cbn. repeat (rewrite bool_decide_false by done). rewrite bool_decide_true by done. cbn. by rewrite rev_involutive. }
  destruct n as [|c n]; [done|]. unfold entry_name. cbn [app] in *. rewrite Hd. case_bool_decide as Hc.
  - subst c. done.
  - change (streq (cs ".meta") (cs ".meta")) with true. cbv iota. f_equal. apply take_ge. unfold SS_NAME_MAX in *. lia.
Qed.

Lemma entries_are_documents w es :
  stored w -> lists_dir (files (w_disk w)) es -> omap entry_name es ≡ₚ map name (docs (w_state w)).
Proof.
  intros Hs [Hnd Hes]. pose proof (sd_docs w Hs) as [Hso Hl]. pose proof (sd_names w Hs) as Hn. rewrite Forall_forall in Hl, Hn.
  assert (forall e x, e ∈ es -> entry_name e = Some x -> e = x ++ cs ".meta" /\ exists f, f ∈ docs (w_state w) /\ name f = x) as Hfwd.
  { intros e x He Ex. apply Hes in He as [->|[->|[b Hb]]]; [done|done|].
    destruct (sd_only w Hs _ b Hb) as [n En]; [rewrite app_assoc; by eexists|]. rewrite En, (sd_meta w Hs) in Hb.
    unfold meta_file in En. apply app_inv_head, app_inv_head in En. subst e.
    apply fmap_Some in Hb as (f & Hf & _). apply doc_map_lookup in Hf as [Hf <-]; [|done].
    rewrite entry_name_meta in Ex by (by apply Hn || apply Hl). injection Ex as <-. split; [done|]. by exists f. }
  apply NoDup_Permutation.
  - clear -Hnd Hfwd. induction Hnd as [|e es He Hnd IH]; [constructor|]. cbn [omap list_omap].
    assert (NoDup (omap entry_name es)) as H by (apply IH; intros e' x He'; apply Hfwd; by right).
    destruct (entry_name e) as [x|] eqn:Ex; [|exact H]. constructor; [|exact H]. intros (e' & He' & Ex')%list_elem_of_omap.
    destruct (Hfwd e x ltac:(left) Ex) as [-> _]. destruct (Hfwd e' x ltac:(by right) Ex') as [-> _]. done.
  - pose proof (sorted_NoDup _ Hso) as H. by rewrite <- list_fmap_compose in H.
  - intros x. rewrite list_elem_of_omap. split.
    + intros (e & He & Ex). destruct (Hfwd e x He Ex) as (_ & f & Hf & <-). by apply list_elem_of_fmap_2.
    + intros (f & -> & Hf)%list_elem_of_fmap. exists (name f ++ cs ".meta"). split; [|apply entry_name_meta; [by apply Hn|by apply Hl]].
      apply Hes. right; right. change (is_Some (files (w_disk w) !! meta_file (name f))). rewrite (sd_meta w Hs).
      rewrite (proj2 (doc_map_lookup _ _ f Hso)) by (by split). by eexists.
Qed.

Lemma sorted_map g fs : (forall f, name (g f) = name f) -> sorted fs -> sorted (map g fs).
Proof.
  intros Hg. induction 1 as [|f fs Hs IH Hf]; simpl; constructor; [done|].
  apply Forall_fmap. eapply Forall_impl; [exact Hf|]. intros x Hx. unfold name_lt in *. cbn. by rewrite !Hg.
Qed.

Lemma reloaded_name t f : name (reloaded t f) = name f.
Proof. unfold reloaded, unlock, recounted. destruct (_ || _)%bool; [|done]. by destruct (t !! _). Qed.

(** Loading what is stored. *)
Lemma load_stored w es :
  stored w -> Forall meta_ok (docs (w_state w)) -> lists_dir (files (w_disk w)) es ->
  ss_state_load D (Some es) (w_disk w) =
    (true, set_docs (map (reloaded (files (w_disk w))) (docs (w_state w))) D, w_disk w).
Proof.
  intros Hs Hm Hes. pose proof (entries_are_documents w es Hs Hes) as He. pose proof (sd_docs w Hs) as [Hso _].
  assert (exists fs, omap entry_name es = map name fs /\ docs (w_state w) ≡ₚ fs) as (fs & Hfs & Hp).
  { apply Permutation_map_inv in He as (fs & E & Hp). exists fs. split; [done|by symmetry]. }
  rewrite Forall_forall in Hm. set (g := reloaded (files (w_disk w))).
  destruct (load_entries_insert (fun st => set_docs [] st = D) g fs es D (w_disk w)) as (l & E & Hl & Hpl); try done.
  - intros f. apply reloaded_name.
  - intros st e f Hst Hf En. assert (f ∈ docs (w_state w)) by (by rewrite Hp). by apply load_entry_stored; [| |apply Hm| |].
  - constructor.
  - cbn [docs ss_state_dirs map app]. rewrite <- Hfs, He. pose proof (sorted_NoDup _ Hso) as Hn. by rewrite <- list_fmap_compose in Hn.
  - unfold ss_state_load. rewrite E. assert (l = map g (docs (w_state w))) as ->; [|done].
    apply (StronglySorted_unique name_lt); [done|apply sorted_map; [intros f; apply reloaded_name|done]|]. cbn [docs ss_state_dirs app] in Hpl. rewrite Hpl. by rewrite Hp.
Qed.

(** ** Every reachable state *)

Section Run.
Context (rpc : cstr -> cstr -> cstr -> option cstr) (strerror : errno -> cstr).

(** A step of the server; a synchronisation has a document's name. *)
Inductive run_step : system -> system -> Prop :=
| run_client s s' : client_step s s' -> run_step s s'
| run_command w ts json now :
    sync_names_valid json -> run_step (w, ts) (process_nm_command rpc strerror json now w, ts).

(** What is stored is right, and the writers work on documents. *)
Definition run_ok (s : system) : Prop := stored (fst s) /\ map_Forall (fun _ t => view_ok (wr_view t)) (snd s).

Lemma run_ok_writer w ts i t p : map_Forall (fun _ t => view_ok (wr_view t)) ts -> ts !! i = Some t -> stored w -> run_ok (w, <[i := set_phase p t]> ts).
Proof. intros Ht Hi Hw. split; [done|]. apply map_Forall_insert_2; [|done]. exact (Ht i t Hi). Qed.

Lemma run_step_ok x x' : run_step x x' -> run_ok x -> run_ok x'.
Proof.
  intros [y y' Hstep|w ts json now Hv] [Hw Hts]; [|by split; [apply command_stored|]]. destruct Hstep as
    [w ts i f u n s v w' Hi E|w ts f u n w' E|w ts i t s now json s' w' Hi Hp E|w ts i t s now json w' Hi Hp E
    |w ts i t s Hi Hp|w ts i t Hi Hp|w ts i t Hi Hp|w ts f u now|w ts f u now|w ts tok u f op now b w' E]; cbn [fst snd] in *.
  - destruct (write_open_stored f u n w Hw) as [H1 H2]. rewrite E in H1, H2. split; [done|].
    apply map_Forall_insert_2; [|done]. by apply (H2 s v).
  - destruct (write_open_stored f u n w Hw) as [H1 _]. rewrite E in H1. by split.
  - apply run_ok_writer; [done|done|]. pose proof (write_message_stored (wr_file t) (wr_user t) (wr_view t) now json s w (Hts i t Hi) Hw) as H. by rewrite E in H.
  - apply run_ok_writer; [done|done|]. pose proof (write_message_stored (wr_file t) (wr_user t) (wr_view t) now json s w (Hts i t Hi) Hw) as H. by rewrite E in H.
  - by apply run_ok_writer.
  - apply run_ok_writer; [done|done|]. by apply stored_set_locks.
  - split; [by apply stored_lock_state|by apply map_Forall_delete].
  - split; [by apply read_stored|done].
  - split; [by apply stream_stored|done].
  - split; [by eapply stored_validate|done].
Qed.

Lemma run_steps_ok x x' : rtc run_step x x' -> run_ok x -> run_ok x'.
Proof. induction 1 as [|x y z Hs _ IH]; [done|]. intros H. apply IH. by eapply run_step_ok. Qed.
End Run.
End Restart.

(** The directories of a server that has run are there. *)
Lemma ensure_dirs_there paths t : Forall (fun p => nodes t !! p = Some true) paths -> ensure_dirs paths t = (true, t).
Proof. induction 1 as [|p paths Hp Hps IH]; [done|]. cbn [ensure_dirs]. unfold ensure_dir. by rewrite Hp, IH. Qed.

(** An empty storage directory is a good one to start from. *)
Lemma stored_empty dir w :
  length dir + 12 < 256 -> quiet (w_disk w) -> w_state w = ss_state_dirs dir ->
  (forall p b, files (w_disk w) !! p = Some b -> ~ in_meta dir p) -> stored dir w.
Proof.
  intros Hl Hq E Hf. split; rewrite ?E; [done|done| |constructor| |].
  - split; rewrite E; constructor.
  - intros n. destruct (files (w_disk w) !! meta_file dir n) as [b|] eqn:Eb; [|done]. exfalso. by apply (Hf _ _ Eb), meta_file_in.
  - intros p b Hp Hm. exfalso. by eapply Hf.
Qed.


(** ** A concrete run *)

Definition demo_fresh : world := mk_world (ss_state_dirs (cs "s")) (mk_disk ∅ [] []) [] [] [] [].
Definition demo_create : cstr := js "{'type':'NM_CREATE','file':'plan','owner':'ann'}".
Definition demo_created : world := process_nm_command no_rpc no_error demo_create 100 demo_fresh.
(** Ann opens a session on the new document. *)
Definition demo_opened : world := snd (write_open (cs "plan") (cs "ann") 0 demo_created).
Definition demo_meta_text : cstr := default [] (files (w_disk demo_opened) !! cs "s/meta/plan.meta").

Definition demo_readdir (p : cstr) : option (list cstr) :=
  if streq p (cs "s/meta") then Some [cs ".."; cs "plan.meta"; cs "."] else None.
Definition demo_tree : dir_tree :=
  mk_dirs (list_to_map (map (fun p => (cs p, true)) ["s"; "s/files"; "s/meta"; "s/undo"; "s/checkpoints"]%string)) [].

Lemma demo_files_eq : files (w_disk demo_opened) = <[cs "s/meta/plan.meta" := demo_meta_text]> (<[cs "s/files/plan" := []]> ∅).
Proof. apply (bool_decide_unpack _). vm_compute. reflexivity. Qed.

(** The record of the document, as far as its metadata file is concerned. *)
Definition demo_fields (f : ss_file) : list cstr * list Z :=
  ([owner f; last_access_user f], [created f; modified f; last_access f; word_count f; char_count f]).

Lemma demo_fields_ok fs : map demo_fields fs = [([cs "ann"; cs "ann"], [100; 100; 100; 0; 0]%Z)] -> Forall meta_ok fs.
Proof.
  destruct fs as [|f [|? ?]]; try discriminate. cbn [map demo_fields]. intros E. unfold demo_fields in E. injection E as E1 E2 E3 E4 E5 E6 E7.
  apply List.Forall_cons; [|apply List.Forall_nil]. split; rewrite ?E1, ?E2, ?E3, ?E4, ?E5, ?E6, ?E7.
  1,2: split; [repeat apply List.Forall_cons; try apply List.Forall_nil; split; intros ?; discriminate|vm_compute; lia].
  all: split; vm_compute; congruence.
Qed.

Lemma demo_lists : lists_dir (cs "s") (files (w_disk demo_opened)) [cs ".."; cs "plan.meta"; cs "."].
Proof.
  split; [apply (bool_decide_unpack (NoDup _)); vm_compute; reflexivity|]. intros e.
  rewrite demo_files_eq, !elem_of_cons, elem_of_nil. split.
  - intros [->|[->|[->|[]]]]; [by right; left|right; right|by left]. by eexists.
  - intros [->|[->|[b Hb]]]; [tauto|tauto|]. apply lookup_insert_Some in Hb as [[He _]|[_ Hb]].
    + right; left. by injection He.
    + apply lookup_insert_Some in Hb as [[He _]|[_ Hb]]; [discriminate|done].
Qed.

