(* ===== verification/NmState.v ===== *)
(** * [nm/nm_state.c]: the name manager's tables

    Servers, documents with their access lists and checkpoints, users, the location
    cache and the access requests.  An array with its count is the list of its used
    slots.  Documents are found through a hash table whose chains run through the
    [hash_next] fields of the document slots. *)

From S2P Require Import Prelude Keyed Cstr.

(** ** Data *)

Definition NM_MAX_SERVERS : nat := 32.
Definition NM_MAX_FILES : nat := 512.
Definition NM_MAX_USERS : nat := 512.
Definition NM_MAX_ACL : nat := 64.
Definition NM_MAX_CACHE : nat := 128.
Definition NM_MAX_REQUESTS : nat := 1024.
Definition NM_MAX_NAME : nat := 128.
Definition NM_MAX_USER : nat := 64.
Definition NM_MAX_CHECKPOINTS : nat := 128.
Definition NM_FILE_BUCKETS : nat := 1024.

Definition NM_PERM_READ : Z := 1.
Definition NM_PERM_WRITE : Z := 2.
Definition NM_REQUEST_PENDING : Z := 0.
Definition NM_REQUEST_APPROVED : Z := 1.
Definition NM_REQUEST_DENIED : Z := 2.

Record storage_server := mk_server {
  ss_id : cstr;
  ss_host : cstr;
  ss_ctrl_port : cstr;
  ss_data_port : cstr;
  ss_ctrl_fd : Z;
  ss_online : Z;
}.

Record file_acl_entry := mk_acl { acl_user : cstr; acl_perm : Z }.

Record checkpoint_entry := mk_checkpoint { ck_tag : cstr; ck_user : cstr; ck_timestamp : Z }.

Record file_entry := mk_file {
  f_name : cstr;
  f_owner : cstr;
  f_ss_index : Z;
  f_backup_index : Z;
  f_word_count : Z;
  f_char_count : Z;
  f_created : Z;
  f_modified : Z;
  f_last_access : Z;
  f_last_access_user : cstr;
  f_acl : list file_acl_entry;
  f_checkpoints : list checkpoint_entry;
  f_hash_next : Z;
}.

Record user_entry := mk_user { u_name : cstr; u_last_seen : Z }.

Record cache_entry := mk_cache { c_name : cstr; c_ss_index : Z; c_last_used : Z }.

Record access_request := mk_request {
  r_file : cstr;
  r_owner : cstr;
  r_requester : cstr;
  r_perm : Z;
  r_status : Z;
}.

Record nm_state := mk_nm {
  servers : list storage_server;
  next_primary_index : nat;
  next_backup_index : nat;
  nm_files : list file_entry;
  users : list user_entry;
  cache : list cache_entry;
  requests : list access_request;
  file_buckets : list Z;
}.

Definition set_servers (l : list storage_server) (s : nm_state) : nm_state :=
  mk_nm l (next_primary_index s) (next_backup_index s) (nm_files s) (users s) (cache s) (requests s) (file_buckets s).
Definition set_next (p b : nat) (s : nm_state) : nm_state :=
  mk_nm (servers s) p b (nm_files s) (users s) (cache s) (requests s) (file_buckets s).
Definition set_nm_files (l : list file_entry) (s : nm_state) : nm_state :=
  mk_nm (servers s) (next_primary_index s) (next_backup_index s) l (users s) (cache s) (requests s) (file_buckets s).
Definition set_users (l : list user_entry) (s : nm_state) : nm_state :=
  mk_nm (servers s) (next_primary_index s) (next_backup_index s) (nm_files s) l (cache s) (requests s) (file_buckets s).
Definition set_cache (l : list cache_entry) (s : nm_state) : nm_state :=
  mk_nm (servers s) (next_primary_index s) (next_backup_index s) (nm_files s) (users s) l (requests s) (file_buckets s).
Definition set_requests (l : list access_request) (s : nm_state) : nm_state :=
  mk_nm (servers s) (next_primary_index s) (next_backup_index s) (nm_files s) (users s) (cache s) l (file_buckets s).
Definition set_buckets (l : list Z) (s : nm_state) : nm_state :=
  mk_nm (servers s) (next_primary_index s) (next_backup_index s) (nm_files s) (users s) (cache s) (requests s) l.

Definition with_next (n : Z) (f : file_entry) : file_entry :=
  mk_file (f_name f) (f_owner f) (f_ss_index f) (f_backup_index f) (f_word_count f) (f_char_count f) (f_created f)
    (f_modified f) (f_last_access f) (f_last_access_user f) (f_acl f) (f_checkpoints f) n.
Definition with_location (p b : Z) (f : file_entry) : file_entry :=
  mk_file (f_name f) (f_owner f) p b (f_word_count f) (f_char_count f) (f_created f)
    (f_modified f) (f_last_access f) (f_last_access_user f) (f_acl f) (f_checkpoints f) (f_hash_next f).
Definition with_acl (l : list file_acl_entry) (f : file_entry) : file_entry :=
  mk_file (f_name f) (f_owner f) (f_ss_index f) (f_backup_index f) (f_word_count f) (f_char_count f) (f_created f)
    (f_modified f) (f_last_access f) (f_last_access_user f) l (f_checkpoints f) (f_hash_next f).
Definition with_checkpoints (l : list checkpoint_entry) (f : file_entry) : file_entry :=
  mk_file (f_name f) (f_owner f) (f_ss_index f) (f_backup_index f) (f_word_count f) (f_char_count f) (f_created f)
    (f_modified f) (f_last_access f) (f_last_access_user f) (f_acl f) l (f_hash_next f).
Definition with_metadata (w c m a : Z) (u : cstr) (f : file_entry) : file_entry :=
  mk_file (f_name f) (f_owner f) (f_ss_index f) (f_backup_index f) w c (f_created f)
    m a u (f_acl f) (f_checkpoints f) (f_hash_next f).

(** [clear_state] on a zeroed state. *)
Definition clear_state : nm_state := mk_nm [] 0 0 [] [] [] [] (replicate NM_FILE_BUCKETS (-1)%Z).

(** ** The hash table *)

Definition ULONG_MOD : Z := 18446744073709551616.

(** [hash = ((hash << 5) + hash) + c] in an [unsigned long]. *)
Definition file_hash_name (name : cstr) : Z :=
  foldl (fun hash c => ((hash * 32 + hash) + code c) `mod` ULONG_MOD)%Z 5381%Z name.

Definition bucket_of (name : cstr) : nat := Z.to_nat (file_hash_name name `mod` Z.of_nat NM_FILE_BUCKETS).

Definition bucket (s : nm_state) (b : nat) : Z := default (-1)%Z (file_buckets s !! b).
Definition hash_next (s : nm_state) (i : nat) : Z := default (-1)%Z (f_hash_next <$> nm_files s !! i).

Definition set_bucket (b : nat) (v : Z) (s : nm_state) : nm_state := set_buckets (<[b := v]> (file_buckets s)) s.
Definition set_hash_next (i : nat) (v : Z) (s : nm_state) : nm_state :=
  set_nm_files (alter (with_next v) i (nm_files s)) s.

Definition file_hash_insert (index : nat) (s : nm_state) : nm_state :=
  match nm_files s !! index with
  | None => s
  | Some file =>
      let b := bucket_of (f_name file) in
      set_bucket b (Z.of_nat index) (set_hash_next index (bucket s b) s)
  end.

(** [int *link]: a bucket or the [hash_next] of a slot. *)
Inductive link := LBucket (b : nat) | LNext (i : nat).

Definition deref (s : nm_state) (l : link) : Z := match l with LBucket b => bucket s b | LNext i => hash_next s i end.
Definition assign (l : link) (v : Z) (s : nm_state) : nm_state :=
  match l with LBucket b => set_bucket b v s | LNext i => set_hash_next i v s end.

Fixpoint hash_remove_loop (fuel : nat) (s : nm_state) (l : link) (index : nat) : nm_state :=
  match fuel with
  | O => s
  | S fuel =>
      if (deref s l <? 0)%Z then s
      else if (deref s l =? Z.of_nat index)%Z then assign l (hash_next s index) s
      else hash_remove_loop fuel s (LNext (Z.to_nat (deref s l))) index
  end.

Definition file_hash_remove (index : nat) (s : nm_state) : nm_state :=
  match nm_files s !! index with
  | None => s
  | Some file => hash_remove_loop (S (length (nm_files s))) s (LBucket (bucket_of (f_name file))) index
  end.

(** The loop of [find_file_index]; [Running] when it has not ended in [fuel] rounds. *)
Inductive search := Found (i : nat) | NotFound | Running.

Fixpoint find_file_loop (fuel : nat) (s : nm_state) (idx : Z) (name : cstr) : search :=
  match fuel with
  | O => if (idx <? 0)%Z then NotFound else Running
  | S fuel =>
      if (idx <? 0)%Z then NotFound
      else
        match nm_files s !! Z.to_nat idx with
        | None => NotFound
        | Some file => if streq (f_name file) name then Found (Z.to_nat idx) else find_file_loop fuel s (f_hash_next file) name
        end
  end.

Definition find_file_search (s : nm_state) (name : cstr) : search :=
  find_file_loop (length (nm_files s)) s (bucket s (bucket_of name)) name.

Definition find_file_index (s : nm_state) (name : cstr) : option nat :=
  match find_file_search s name with Found i => Some i | _ => None end.

Definition nm_find_file (s : nm_state) (name : cstr) : option file_entry :=
  i ← find_file_index s name; nm_files s !! i.

(** ** Documents *)

Inductive nm_errno := ENoSpc | EExist | ENoEnt | EAccess | EFail.
#[export] Instance nm_errno_eq_dec : EqDecision nm_errno.
Proof. solve_decision. Defined.

(** 0, or -1 with [errno]. *)
Inductive nm_res := NmOk | NmErr (e : nm_errno).
#[export] Instance nm_res_eq_dec : EqDecision nm_res.
Proof. solve_decision. Defined.

Definition new_entry (name owner : cstr) (ss_index backup_index now : Z) : file_entry :=
  mk_file (snprintf_s NM_MAX_NAME name) (snprintf_s NM_MAX_USER owner) ss_index backup_index 0 0 now now now
    (snprintf_s NM_MAX_USER owner) [] [] (-1).

(** The entry goes to the next slot, [file_count] is incremented, and the slot is indexed. *)
Definition append_entry (f : file_entry) (s : nm_state) : nm_state :=
  let s := set_nm_files (nm_files s ++ [f]) s in
  file_hash_insert (length (nm_files s) - 1) s.

Definition nm_add_file (name owner : cstr) (ss_index backup_index now : Z) (s : nm_state) : nm_res * nm_state :=
  if NM_MAX_FILES <=? length (nm_files s) then (NmErr ENoSpc, s)
  else
    match find_file_index s name with
    | Some _ => (NmErr EExist, s)
    | None =>
        (NmOk, append_entry (new_entry name owner ss_index backup_index now) s)
    end.

Definition nm_remove_file (name : cstr) (s : nm_state) : nm_res * nm_state :=
  match find_file_index s name with
  | None => (NmErr ENoEnt, s)
  | Some idx =>
      let s := file_hash_remove idx s in
      let last := length (nm_files s) - 1 in
      let s :=
        if idx =? last then s
        else
          let s := file_hash_remove last s in
          match nm_files s !! last with
          | None => s
          | Some file => file_hash_insert idx (set_nm_files (<[idx := file]> (nm_files s)) s)
          end in
      (NmOk, set_nm_files (take (length (nm_files s) - 1) (nm_files s)) s)
  end.

(** An update of the entry [nm_find_file] returns. *)
Definition update_file (name : cstr) (upd : file_entry -> file_entry) (s : nm_state) : nm_state :=
  match find_file_index s name with
  | Some i => set_nm_files (alter upd i (nm_files s)) s
  | None => s
  end.

Definition nm_update_file_location (name : cstr) (ss_index : Z) (s : nm_state) : nm_res * nm_state :=
  match nm_find_file s name with
  | None => (NmErr EFail, s)
  | Some f => (NmOk, update_file name (fun f => with_location ss_index (f_backup_index f) f) s)
  end.

Definition nm_update_file_metadata (name : cstr) (words chars modified last_access : Z) (last_user : cstr)
    (s : nm_state) : nm_res * nm_state :=
  match nm_find_file s name with
  | None => (NmErr EFail, s)
  | Some _ =>
      (NmOk, update_file name (fun f =>
         with_metadata words chars
           (if (modified =? 0)%Z then f_modified f else modified)
           (if (last_access =? 0)%Z then f_last_access f else last_access)
           (match last_user with [] => f_last_access_user f | _ => snprintf_s NM_MAX_USER last_user end) f) s)
  end.

(** ** Access lists *)

Definition find_acl (f : file_entry) (user : cstr) : option (nat * file_acl_entry) :=
  find_first (key_is acl_user user) (f_acl f).

Definition nm_grant_access (name user : cstr) (perm : Z) (s : nm_state) : nm_res * nm_state :=
  match nm_find_file s name with
  | None => (NmErr EFail, s)
  | Some f =>
      if streq (f_owner f) user then (NmOk, s)
      else
        match find_acl f user with
        | Some (i, e) =>
            (NmOk, update_file name (fun f =>
               with_acl (<[i := mk_acl (acl_user e) (Z.lor (acl_perm e) perm)]> (f_acl f)) f) s)
        | None =>
            if NM_MAX_ACL <=? length (f_acl f) then (NmErr ENoSpc, s)
            else (NmOk, update_file name (fun f =>
                    with_acl (f_acl f ++ [mk_acl (snprintf_s NM_MAX_USER user) (Z.lor perm NM_PERM_READ)]) f) s)
        end
  end.

Definition nm_remove_access (name user : cstr) (s : nm_state) : nm_res * nm_state :=
  match nm_find_file s name with
  | None => (NmErr EFail, s)
  | Some f =>
      match find_acl f user with
      | Some (i, _) => (NmOk, update_file name (fun f => with_acl (swap_remove i (f_acl f)) f) s)
      | None => (NmOk, s)
      end
  end.

Definition nm_check_access (name user : cstr) (perm : Z) (s : nm_state) : nm_res :=
  match nm_find_file s name with
  | None => NmErr EFail
  | Some f =>
      if streq (f_owner f) user then NmOk
      else
        match find_acl f user with
        | None => NmErr EAccess
        | Some (_, e) => if (Z.land (acl_perm e) perm =? perm)%Z then NmOk else NmErr EAccess
        end
  end.

(** ** Checkpoints *)

Definition file_find_checkpoint (f : file_entry) (tag : cstr) : option checkpoint_entry :=
  snd <$> find_first (key_is ck_tag tag) (f_checkpoints f).

Definition nm_file_add_checkpoint (name tag user : cstr) (timestamp : Z) (s : nm_state) : nm_res * nm_state :=
  match nm_find_file s name with
  | None => (NmErr ENoEnt, s)
  | Some f =>
      match file_find_checkpoint f tag with
      | Some _ => (NmErr EExist, s)
      | None =>
          if NM_MAX_CHECKPOINTS <=? length (f_checkpoints f) then (NmErr ENoSpc, s)
          else (NmOk, update_file name (fun f =>
                  with_checkpoints (f_checkpoints f ++
                    [mk_checkpoint (snprintf_s NM_MAX_NAME tag) (snprintf_s NM_MAX_USER user) timestamp]) f) s)
      end
  end.

(** ** Storage servers *)

Definition nm_find_server_by_id (s : nm_state) (id : cstr) : option nat :=
  fst <$> find_first (key_is ss_id id) (servers s).

Definition nm_get_server (s : nm_state) (index : Z) : option storage_server :=
  if (index <? 0)%Z then None else servers s !! Z.to_nat index.

(** The index of the server, [None] when the table is full. *)
Definition nm_register_server (id host ctrl_port data_port : cstr) (ctrl_fd : Z) (s : nm_state)
  : option nat * nm_state :=
  match find_first (key_is ss_id id) (servers s) with
  | Some (i, x) =>
      (Some i, set_servers (<[i := mk_server (ss_id x) (snprintf_s NM_MAX_NAME host) (snprintf_s 16 ctrl_port)
                                     (snprintf_s 16 data_port) ctrl_fd 1]> (servers s)) s)
  | None =>
      if NM_MAX_SERVERS <=? length (servers s) then (None, s)
      else (Some (length (servers s)),
            set_servers (servers s ++ [mk_server (snprintf_s NM_MAX_NAME id) (snprintf_s NM_MAX_NAME host)
                                         (snprintf_s 16 ctrl_port) (snprintf_s 16 data_port) ctrl_fd 1]) s)
  end.

Definition mark_down (x : storage_server) : storage_server :=
  mk_server (ss_id x) (ss_host x) (ss_ctrl_port x) (ss_data_port x) (-1) 0.

Definition nm_mark_server_down (index : Z) (s : nm_state) : nm_state :=
  if (index <? 0)%Z then s else set_servers (alter mark_down (Z.to_nat index) (servers s)) s.

Definition is_online (x : storage_server) : bool := (0 <=? ss_ctrl_fd x)%Z && negb (ss_online x =? 0)%Z.

(** The round-robin loop, [offset] rounds done and [n] left. *)
Fixpoint pick_loop (n offset start : nat) (exclude : option nat) (ss : list storage_server) : option nat :=
  match n with
  | O => None
  | S n =>
      let idx := (start + offset) mod length ss in
      if bool_decide (exclude = Some idx) then pick_loop n (S offset) start exclude ss
      else
        match ss !! idx with
        | Some x => if is_online x then Some idx else pick_loop n (S offset) start exclude ss
        | None => None
        end
  end.

Definition nm_pick_server (s : nm_state) : option nat * nm_state :=
  match servers s with
  | [] => (None, s)
  | ss =>
      match pick_loop (length ss) 0 (next_primary_index s mod length ss) None ss with
      | Some idx => (Some idx, set_next ((idx + 1) mod length ss) (next_backup_index s) s)
      | None => (None, s)
      end
  end.

Definition nm_pick_backup_server (exclude : Z) (s : nm_state) : option nat * nm_state :=
  match servers s with
  | [] => (None, s)
  | ss =>
      match pick_loop (length ss) 0 (next_backup_index s mod length ss)
              (if (exclude <? 0)%Z then None else Some (Z.to_nat exclude)) ss with
      | Some idx => (Some idx, set_next (next_primary_index s) ((idx + 1) mod length ss) s)
      | None => (None, s)
      end
  end.

(** ** Users *)

Definition nm_get_user (s : nm_state) (user : cstr) : option user_entry :=
  snd <$> find_first (key_is u_name user) (users s).

Definition nm_add_user (user : cstr) (now : Z) (s : nm_state) : nm_res * nm_state :=
  match find_first (key_is u_name user) (users s) with
  | Some (i, u) => (NmOk, set_users (<[i := mk_user (u_name u) now]> (users s)) s)
  | None =>
      if NM_MAX_USERS <=? length (users s) then (NmErr ENoSpc, s)
      else (NmOk, set_users (users s ++ [mk_user (snprintf_s NM_MAX_USER user) now]) s)
  end.

(** ** The location cache *)

Definition nm_cache_lookup (name : cstr) (now : Z) (s : nm_state) : option Z * nm_state :=
  match find_first (key_is c_name name) (cache s) with
  | Some (i, c) => (Some (c_ss_index c), set_cache (<[i := mk_cache (c_name c) (c_ss_index c) now]> (cache s)) s)
  | None => (None, s)
  end.

(** The loop that looks for the oldest entry. *)
Fixpoint oldest_loop (cs : list cache_entry) (i oldest : nat) (oldest_ts : Z) : nat :=
  match cs with
  | [] => oldest
  | c :: cs =>
      if (c_last_used c <? oldest_ts)%Z then oldest_loop cs (S i) i (c_last_used c)
      else oldest_loop cs (S i) oldest oldest_ts
  end.

Definition cache_evict (l : list cache_entry) : list cache_entry :=
  match l with
  | [] => []
  | c :: cs => swap_remove (oldest_loop cs 1 0 (c_last_used c)) l
  end.

Definition nm_cache_put (name : cstr) (ss_index now : Z) (s : nm_state) : nm_state :=
  match find_first (key_is c_name name) (cache s) with
  | Some (i, c) => set_cache (<[i := mk_cache (c_name c) ss_index now]> (cache s)) s
  | None =>
      let l := if NM_MAX_CACHE <=? length (cache s) then cache_evict (cache s) else cache s in
      set_cache (l ++ [mk_cache (snprintf_s NM_MAX_NAME name) ss_index now]) s
  end.

(** ** Lemmas: the chains of the hash table *)

(** [v] is the head of a list of slots linked by [next]. *)
Fixpoint chain (next : nat -> Z) (v : Z) (l : list nat) : Prop :=
  match l with
  | [] => (v < 0)%Z
  | i :: l => v = Z.of_nat i /\ chain next (next i) l
  end.

Lemma chain_ext next next' v l : (forall i, i ∈ l -> next i = next' i) -> chain next v l -> chain next' v l.
Proof.
  revert v. induction l as [|i l IH]; intros v H; [done|]. intros [-> Hc]. split; [done|].
  rewrite <- (H i) by left. apply IH; [|done]. intros j Hj. apply H. by right.
Qed.

(** Cutting a slot out of a chain behind its predecessor [p]. *)
Lemma chain_cut next v l1 p idx l2 :
  chain next v (l1 ++ p :: idx :: l2) -> NoDup (l1 ++ p :: idx :: l2) ->
  chain (fun j => if decide (j = p) then next idx else next j) v (l1 ++ p :: l2).
Proof.
  revert v. induction l1 as [|i l1 IH]; intros v; cbn [app chain].
  - intros (-> & -> & Hc) [Hp [Hi _]%NoDup_cons]%NoDup_cons. split; [done|]. rewrite decide_True by done.
    eapply chain_ext; [|exact Hc]. intros j Hj. rewrite decide_False; [done|]. intros ->. apply Hp. by right.
  - intros [-> Hc] [Hi Hnd]%NoDup_cons. split; [done|]. rewrite decide_False; [by apply IH|].
    intros ->. apply Hi. rewrite elem_of_app. right. left.
Qed.

Lemma bucket_of_lt n : bucket_of n < NM_FILE_BUCKETS.
Proof.
  unfold bucket_of. pose proof (Z.mod_pos_bound (file_hash_name n) (Z.of_nat NM_FILE_BUCKETS) ltac:(done)). lia.
Qed.

(** The table as lists of slots per bucket. *)
Record hash_rep (s : nm_state) (ch : nat -> list nat) : Prop := {
  hr_len : length (file_buckets s) = NM_FILE_BUCKETS;
  hr_chain : forall b, b < NM_FILE_BUCKETS -> chain (hash_next s) (bucket s b) (ch b);
  hr_nodup : forall b, NoDup (ch b);
  hr_disjoint : forall b c i, i ∈ ch b -> i ∈ ch c -> b = c;
  hr_slots : forall b i, i ∈ ch b -> i < length (nm_files s);
}.

Lemma hash_next_set i v s j :
  i < length (nm_files s) -> hash_next (set_hash_next i v s) j = if decide (j = i) then v else hash_next s j.
Proof.
  intros Hi. unfold hash_next, set_hash_next. cbn [nm_files set_nm_files]. destruct (decide (j = i)) as [->|Hne].
  - rewrite list_lookup_alter_eq. destruct (lookup_lt_is_Some_2 _ _ Hi) as [f ->]. done.
  - by rewrite list_lookup_alter_ne by done.
Qed.

Lemma bucket_set b v s c :
  b < length (file_buckets s) -> bucket (set_bucket b v s) c = if decide (c = b) then v else bucket s c.
Proof.
  intros Hb. unfold bucket, set_bucket. cbn [file_buckets set_buckets]. destruct (decide (c = b)) as [->|Hne].
  - by rewrite list_lookup_insert_eq.
  - by rewrite list_lookup_insert_ne by done.
Qed.

Lemma length_set_hash_next i v s : length (nm_files (set_hash_next i v s)) = length (nm_files s).
Proof. unfold set_hash_next. cbn [nm_files set_nm_files]. apply length_alter. Qed.

Lemma file_hash_insert_rep s ch idx f :
  hash_rep s ch -> nm_files s !! idx = Some f -> (forall b, idx ∉ ch b) ->
  hash_rep (file_hash_insert idx s) (fun b => if decide (b = bucket_of (f_name f)) then idx :: ch b else ch b).
Proof.
  intros [Hl Hc Hn Hd Hs] Hf Hni. unfold file_hash_insert. rewrite Hf. cbv zeta.
  pose proof (lookup_lt_Some _ _ _ Hf) as Hi. pose proof (bucket_of_lt (f_name f)) as Hb.
  set (b0 := bucket_of (f_name f)) in *. set (s1 := set_hash_next idx (bucket s b0) s).
  split.
  - unfold set_bucket. cbn [file_buckets set_buckets]. by rewrite length_insert.
  - intros b Hbl. rewrite bucket_set by (unfold s1, set_hash_next; cbn; by rewrite Hl).
    change (hash_next (set_bucket b0 (Z.of_nat idx) s1)) with (hash_next s1).
    assert (forall v l, idx ∉ l -> chain (hash_next s) v l -> chain (hash_next s1) v l) as Hx.
    { intros v l Hl'. apply chain_ext. intros j Hj. unfold s1. rewrite hash_next_set by done.
      rewrite decide_False; [done|]. by intros ->. }
    destruct (decide (b = b0)) as [->|Hne].
    + split; [done|]. unfold s1 at 2. rewrite hash_next_set, decide_True by done. by apply Hx, Hc.
    + change (bucket s1 b) with (bucket s b). by apply Hx, Hc.
  - intros b. destruct (decide (b = b0)); [|done]. by constructor.
  - intros b c i. destruct (decide (b = b0)) as [->|], (decide (c = b0)) as [->|]; try done.
    + intros [->|Hx]%elem_of_cons Hy; [by destruct (Hni c)|by apply (Hd _ _ i)].
    + intros Hy [->|Hx]%elem_of_cons; [by destruct (Hni b)|by apply (Hd _ _ i)].
    + by apply Hd.
  - intros b i. change (nm_files (set_bucket b0 (Z.of_nat idx) s1)) with (nm_files s1). unfold s1.
    rewrite length_set_hash_next. destruct (decide (b = b0)); [|by apply Hs].
    intros [->|Hx]%elem_of_cons; [done|by apply (Hs b)].
Qed.

(** Walking to the slot: the link that is assigned is the bucket or the predecessor. *)
Lemma hash_remove_loop_spec fuel s l lst idx :
  length lst < fuel -> chain (hash_next s) (deref s l) lst -> idx ∈ lst -> NoDup lst ->
  exists l1 l2, lst = l1 ++ idx :: l2 /\
    hash_remove_loop fuel s l idx =
      assign (match last l1 with None => l | Some p => LNext p end) (hash_next s idx) s.
Proof.
  revert l lst. induction fuel as [|fuel IH]; intros l lst Hf Hc Hin Hnd; [lia|]. cbn [hash_remove_loop].
  destruct lst as [|i lst]; [by apply elem_of_nil in Hin|]. destruct Hc as [-> Hc].
  destruct (Z.ltb_spec (Z.of_nat i) 0); [lia|]. destruct (Z.eqb_spec (Z.of_nat i) (Z.of_nat idx)) as [E|E].
  - assert (i = idx) as -> by lia. by exists [], lst.
  - apply elem_of_cons in Hin as [->|Hin]; [done|]. apply NoDup_cons in Hnd as [Hni Hnd].
    rewrite Nat2Z.id. simpl in Hf.
    destruct (IH (LNext i) lst) as (l1 & l2 & -> & ->); [lia|done|done|done|].
    exists (i :: l1), l2. split; [done|]. by destruct l1 as [|j l1 _] using rev_ind; [|rewrite app_comm_cons, !last_snoc].
Qed.

Lemma NoDup_below n l : NoDup l -> (forall i, i ∈ l -> i < n) -> length l <= n.
Proof.
  intros Hnd Hlt. rewrite <- (length_seq n 0). apply List.NoDup_incl_length; [by apply NoDup_ListNoDup|].
  intros i Hi. apply List.in_seq. split; [lia|]. apply Hlt. by apply list_elem_of_In.
Qed.

Definition without (idx : nat) (l : list nat) : list nat := List.filter (fun j => negb (j =? idx)) l.

Lemma elem_of_without idx l i : i ∈ without idx l <-> i ∈ l /\ i <> idx.
Proof. unfold without. rewrite !list_elem_of_In, List.filter_In, negb_true_iff, Nat.eqb_neq. done. Qed.

Lemma without_id idx l : idx ∉ l -> without idx l = l.
Proof.
  induction l as [|i l IH]; [done|]. rewrite not_elem_of_cons. intros [Hne Hni]. simpl.
  destruct (Nat.eqb_spec i idx); [done|]. simpl. by rewrite IH.
Qed.

Lemma without_middle idx l1 l2 : NoDup (l1 ++ idx :: l2) -> without idx (l1 ++ idx :: l2) = l1 ++ l2.
Proof.
  intros (N1 & N2 & [N3 N4]%NoDup_cons)%NoDup_app. unfold without. rewrite List.filter_app. simpl.
  rewrite Nat.eqb_refl. simpl. fold (without idx l1). fold (without idx l2).
  rewrite !without_id; [done|done|]. intros H. apply (N2 idx H). left.
Qed.

(** The slot leaves its chain; every [hash_next] but its predecessor's stays. *)
Lemma file_hash_remove_rep s ch idx f :
  hash_rep s ch -> nm_files s !! idx = Some f -> idx ∈ ch (bucket_of (f_name f)) ->
  hash_rep (file_hash_remove idx s) (fun b => without idx (ch b)) /\
  exists p v, file_hash_remove idx s = assign p v s.
Proof.
  intros [Hl Hc Hn Hd Hs] Hf Hin. unfold file_hash_remove. rewrite Hf.
  pose proof (bucket_of_lt (f_name f)) as Hb. set (b0 := bucket_of (f_name f)) in *.
  destruct (hash_remove_loop_spec (S (length (nm_files s))) s (LBucket b0) (ch b0) idx) as (l1 & l2 & E & ->);
    [|by apply Hc|done|done|].
  { pose proof (NoDup_below (length (nm_files s)) (ch b0) (Hn b0) (Hs b0)). lia. }
  split; [|by eexists _, _].
  assert (forall b, b <> b0 -> without idx (ch b) = ch b) as Hother.
  { intros b Hne. apply without_id. intros H. apply Hne. by apply (Hd _ _ idx). }
  assert (without idx (ch b0) = l1 ++ l2) as H0.
  { rewrite E. apply without_middle. rewrite <- E. apply Hn. }
  assert (chain (hash_next s) (bucket s b0) (l1 ++ idx :: l2)) as Hc0 by (rewrite <- E; by apply Hc).
  pose proof (Hn b0) as Hn0. rewrite E in Hn0.
  set (s' := assign _ _ s).
  assert (length (nm_files s') = length (nm_files s)) as Hlf.
  { unfold s'. destruct (last l1); cbn [assign]; [apply length_set_hash_next|done]. }
  assert (length (file_buckets s') = NM_FILE_BUCKETS) as Hlb.
  { unfold s'. destruct (last l1); cbn [assign]; [done|]. unfold set_bucket. cbn. by rewrite length_insert. }
  split; [done| | | |].
  - intros b Hbl. destruct l1 as [|p l1 _] using rev_ind; cbn [last assign] in s'.
    + unfold s'. rewrite bucket_set by (by rewrite Hl).
      change (hash_next (set_bucket b0 (hash_next s idx) s)) with (hash_next s).
      destruct (decide (b = b0)) as [->|Hne]; [|rewrite Hother by done; by apply Hc].
      rewrite H0. by destruct Hc0 as [_ Hc0].
    + unfold s'. rewrite last_snoc. cbn [assign].
      assert (p ∈ ch b0) as Hp by (rewrite E, !elem_of_app; left; right; by left).
      change (bucket (set_hash_next p (hash_next s idx) s) b) with (bucket s b).
      destruct (decide (b = b0)) as [->|Hne].
      * rewrite H0, <- app_assoc. rewrite <- app_assoc in Hc0, Hn0. cbn [app] in *.
        eapply chain_ext; [|apply (chain_cut _ _ _ _ _ _ Hc0 Hn0)]. intros j Hj. cbv beta.
        rewrite hash_next_set; [done|by eapply Hs].
      * rewrite Hother by done. eapply chain_ext; [|by apply Hc]. intros j Hj.
        rewrite hash_next_set by (by eapply Hs). rewrite decide_False; [done|].
        intros ->. apply Hne. by apply (Hd _ _ p).
  - intros b. unfold without. apply NoDup_ListNoDup, List.NoDup_filter, NoDup_ListNoDup, Hn.
  - intros b c i [Hi _]%elem_of_without [Hi' _]%elem_of_without. by apply (Hd _ _ i).
  - intros b i [Hi _]%elem_of_without. rewrite Hlf. by apply (Hs b).
Qed.

(** ** The table of documents as a finite map *)

(** What a document is, apart from its place in a chain. *)
Definition core (f : file_entry) : file_entry := with_next (-1) f.

Definition nm_map (s : nm_state) : gmap cstr file_entry := keyed f_name core (nm_files s).

(** The slots in [P], and no others, are in the chain of their document's bucket. *)
Definition indexed (s : nm_state) (P : nat -> Prop) : Prop :=
  exists ch, hash_rep s ch /\
    forall b i, i ∈ ch b <-> P i /\ exists f, nm_files s !! i = Some f /\ bucket_of (f_name f) = b.

(** The invariant: unique names, and every document in the chain of its bucket. *)
Record nm_ok (s : nm_state) : Prop := {
  nm_unique : NoDup (f_name <$> nm_files s);
  nm_bounded : length (nm_files s) <= NM_MAX_FILES;
  nm_hash : indexed s (fun _ => True);
}.

Lemma nm_map_lookup s n g :
  NoDup (f_name <$> nm_files s) ->
  nm_map s !! n = Some g <-> exists f, f ∈ nm_files s /\ f_name f = n /\ g = core f.
Proof.
  intros Hnd. unfold nm_map, keyed. rewrite <- elem_of_list_to_map.
  - rewrite list_elem_of_fmap. split.
    + intros (f & [= -> ->] & Hf). by exists f.
    + intros (f & Hf & <- & ->). by exists f.
  - by rewrite <- list_fmap_compose.
Qed.

Lemma unique_index s i j f g :
  NoDup (f_name <$> nm_files s) -> nm_files s !! i = Some f -> nm_files s !! j = Some g ->
  f_name f = f_name g -> i = j.
Proof.
  intros Hnd Hi Hj E. rewrite NoDup_alt in Hnd. apply (Hnd i j (f_name f)); rewrite list_lookup_fmap.
  - by rewrite Hi.
  - by rewrite Hj, E.
Qed.

(** The loop ends within its fuel, and finds the document of that name in the chain. *)
Lemma find_file_loop_spec fuel s v l name :
  chain (hash_next s) v l -> length l <= fuel -> (forall i, i ∈ l -> i < length (nm_files s)) ->
  match find_file_loop fuel s v name with
  | Found i => i ∈ l /\ exists f, nm_files s !! i = Some f /\ f_name f = name
  | NotFound => forall i f, i ∈ l -> nm_files s !! i = Some f -> f_name f <> name
  | Running => False
  end.
Proof.
  revert v l. induction fuel as [|fuel IH]; intros v l Hc Hl Hs; cbn [find_file_loop].
  - destruct l; [|simpl in Hl; lia]. simpl in Hc. destruct (Z.ltb_spec v 0); [|lia]. by intros i f []%elem_of_nil.
  - destruct l as [|i l].
    + simpl in Hc. destruct (Z.ltb_spec v 0); [|lia]. by intros i f []%elem_of_nil.
    + destruct Hc as [-> Hc]. destruct (Z.ltb_spec (Z.of_nat i) 0); [lia|]. rewrite Nat2Z.id.
      destruct (lookup_lt_is_Some_2 (nm_files s) i) as [f Hf]; [apply Hs; left|]. rewrite Hf.
      unfold streq. destruct (bool_decide (f_name f = name)) eqn:E.
      * apply bool_decide_eq_true in E. split; [left|by exists f].
      * apply bool_decide_eq_false in E. simpl in Hl.
        assert (hash_next s i = f_hash_next f) as Hn by (unfold hash_next; by rewrite Hf).
        rewrite Hn in Hc. specialize (IH (f_hash_next f) l Hc ltac:(lia)).
        assert (forall j, j ∈ l -> j < length (nm_files s)) as Hs' by (intros j Hj; apply Hs; by right).
        specialize (IH Hs'). destruct (find_file_loop fuel s (f_hash_next f) name) as [j| |]; [|intros j g|done].
        -- destruct IH as [Hj Hg]. split; [by right|done].
        -- intros [->|Hj]%elem_of_cons Hg; [congruence|by apply (IH j)].
Qed.

Lemma find_file_search_spec s name :
  nm_ok s ->
  match find_file_search s name with
  | Found i => exists f, nm_files s !! i = Some f /\ f_name f = name
  | NotFound => forall f, f ∈ nm_files s -> f_name f <> name
  | Running => False
  end.
Proof.
  intros [Hu Hb (ch & Hr & Hch)]. pose proof (bucket_of_lt name) as Hlt.
  pose proof (find_file_loop_spec (length (nm_files s)) s (bucket s (bucket_of name)) (ch (bucket_of name)) name
    (hr_chain _ _ Hr _ Hlt) (NoDup_below _ _ (hr_nodup _ _ Hr _) (hr_slots _ _ Hr _)) (hr_slots _ _ Hr _)) as H.
  unfold find_file_search. destruct (find_file_loop _ _ _ _) as [i| |]; [apply H| |done].
  intros f [i Hi]%list_elem_of_lookup_1 Hn. apply (H i f); [|done|done]. apply Hch. split; [done|]. exists f. by rewrite Hn.
Qed.

Lemma find_file_index_Some s name i :
  nm_ok s -> find_file_index s name = Some i <-> exists f, nm_files s !! i = Some f /\ f_name f = name.
Proof.
  intros Hok. pose proof (find_file_search_spec s name Hok) as H. unfold find_file_index.
  destruct (find_file_search s name) as [j| |]; [| |done].
  - destruct H as (g & Hg & Hn). split; [intros [= <-]; by exists g|]. intros (f & Hf & Hn').
    f_equal. eapply unique_index; [apply Hok|done..|congruence].
  - split; [done|]. intros (f & Hf & Hn). destruct (H f); [by eapply list_elem_of_lookup_2|done].
Qed.

Lemma find_file_index_None s name :
  nm_ok s -> find_file_index s name = None <-> forall f, f ∈ nm_files s -> f_name f <> name.
Proof.
  intros Hok. pose proof (find_file_search_spec s name Hok) as H. unfold find_file_index.
  destruct (find_file_search s name) as [j| |]; [|by split|done].
  destruct H as (g & Hg & Hn). split; [done|]. intros Hx. destruct (Hx g); [by eapply list_elem_of_lookup_2|done].
Qed.

Lemma nm_find_file_map s name : nm_ok s -> core <$> nm_find_file s name = nm_map s !! name.
Proof.
  intros Hok. unfold nm_find_file. destruct (find_file_index s name) as [i|] eqn:E.
  - apply find_file_index_Some in E as (f & Hf & Hn); [|done]. cbn [mbind option_bind]. rewrite Hf. symmetry.
    apply nm_map_lookup; [apply Hok|]. exists f. by split_and!; [eapply list_elem_of_lookup_2|..].
  - rewrite find_file_index_None in E by done. symmetry. apply eq_None_not_Some.
    intros [g (f & Hf & Hn & _)%nm_map_lookup]; [by apply (E f)|apply Hok].
Qed.

(** Two tables with the same documents up to the chains. *)
Definition same_docs (s s' : nm_state) : Prop := core <$> nm_files s' = core <$> nm_files s.

Lemma core_with_next v f : core (with_next v f) = core f.
Proof. done. Qed.

Lemma same_docs_assign p v s : same_docs s (assign p v s).
Proof.
  destruct p as [b|i]; [done|]. unfold same_docs. cbn [assign]. unfold set_hash_next. cbn [nm_files set_nm_files].
  apply list_eq. intros j. rewrite !list_lookup_fmap. destruct (decide (j = i)) as [->|Hne].
  - rewrite list_lookup_alter_eq. by destruct (nm_files s !! i).
  - by rewrite list_lookup_alter_ne by done.
Qed.

Lemma same_docs_insert idx s : same_docs s (file_hash_insert idx s).
Proof.
  unfold file_hash_insert. destruct (nm_files s !! idx); [|done].
  change (same_docs s (assign (LNext idx) (bucket s (bucket_of (f_name f))) s)). apply same_docs_assign.
Qed.

Lemma same_docs_lookup s s' i f :
  same_docs s s' -> nm_files s !! i = Some f -> exists f', nm_files s' !! i = Some f' /\ core f' = core f.
Proof.
  intros H Hf. assert ((core <$> nm_files s') !! i = Some (core f)) as E by (rewrite H, list_lookup_fmap, Hf; done).
  rewrite list_lookup_fmap in E. apply fmap_Some in E as (f' & Hf' & E). by exists f'.
Qed.

Lemma core_name f g : core f = core g -> f_name f = f_name g.
Proof. intros H. by apply (f_equal f_name) in H. Qed.

Lemma same_docs_length s s' : same_docs s s' -> length (nm_files s') = length (nm_files s).
Proof. intros H. apply (f_equal length) in H. by rewrite !length_fmap in H. Qed.

Lemma same_docs_sym s s' : same_docs s s' -> same_docs s' s.
Proof. unfold same_docs. congruence. Qed.

Lemma same_docs_names s s' : same_docs s s' -> f_name <$> nm_files s' = f_name <$> nm_files s.
Proof.
  intros H. assert (forall l : list file_entry, f_name <$> l = f_name <$> (core <$> l)) as E.
  { intros l. rewrite <- list_fmap_compose. by apply list_fmap_ext. }
  rewrite E, H, <- E. done.
Qed.

Lemma same_docs_map s s' : same_docs s s' -> nm_map s' = nm_map s.
Proof.
  intros H. unfold nm_map, keyed.
  assert (forall l : list file_entry, (fun f => (f_name f, core f)) <$> l = (fun f => (f_name f, core f)) <$> (core <$> l)) as E.
  { intros l. rewrite <- list_fmap_compose. by apply list_fmap_ext. }
  rewrite E, H, <- E. done.
Qed.

Lemma nm_map_perm s l :
  NoDup (f_name <$> nm_files s) -> (core <$> nm_files s) ≡ₚ l ->
  nm_map s = list_to_map ((fun f => (f_name f, f)) <$> l).
Proof.
  intros Hnd Hp. unfold nm_map, keyed. apply list_to_map_proper.
  - by rewrite <- list_fmap_compose.
  - rewrite <- Hp, <- list_fmap_compose. done.
Qed.

(** *** Indexed slots *)

Lemma indexed_weaken s P Q :
  (forall i, i < length (nm_files s) -> P i <-> Q i) -> indexed s P -> indexed s Q.
Proof.
  intros H (ch & Hr & Hch). exists ch. split; [done|]. intros b i. rewrite Hch. split.
  - intros [Hp (f & Hf & Hb)]. split; [|by exists f]. apply (H i); [by eapply lookup_lt_Some|done].
  - intros [Hq (f & Hf & Hb)]. split; [|by exists f]. apply (H i); [by eapply lookup_lt_Some|done].
Qed.

(** Slots out of every chain can be overwritten. *)
Lemma indexed_files s P l :
  (forall i, P i -> l !! i = nm_files s !! i) -> indexed s P -> indexed (set_nm_files l s) P.
Proof.
  intros H (ch & [Hl Hc Hn Hd Hs] & Hch). exists ch.
  assert (forall b i, i ∈ ch b -> l !! i = nm_files s !! i) as E by (intros b i [Hp _]%Hch; by apply H).
  split.
  - split; [done| |done|done|].
    + intros b Hb. eapply chain_ext; [|by apply Hc]. intros i Hi. unfold hash_next. cbn [nm_files set_nm_files].
      by rewrite (E b i Hi).
    + intros b i Hi. cbn [nm_files set_nm_files]. apply lookup_lt_is_Some. rewrite (E b i Hi).
      apply lookup_lt_is_Some. by apply (Hs b).
  - intros b i. rewrite Hch. cbn [nm_files set_nm_files]. split; intros [Hp Hf]; (split; [done|]).
    + by rewrite H.
    + by rewrite <- H.
Qed.

Lemma indexed_same s s' P ch :
  same_docs s s' -> hash_rep s' ch ->
  (forall b i, i ∈ ch b <-> P i /\ exists f, nm_files s !! i = Some f /\ bucket_of (f_name f) = b) -> indexed s' P.
Proof.
  intros Hsame Hr Hch. exists ch. split; [done|]. intros b i. rewrite Hch. apply and_iff_compat_l.
  assert (forall s s', same_docs s s' -> forall f, nm_files s !! i = Some f /\ bucket_of (f_name f) = b ->
            exists f', nm_files s' !! i = Some f' /\ bucket_of (f_name f') = b) as H.
  { clear. intros s s' Hs f [Hf Hb]. destruct (same_docs_lookup _ _ _ _ Hs Hf) as (f' & Hf' & E).
    exists f'. by rewrite (core_name _ _ E). }
  split; intros (f & Hf); [by apply (H s s' Hsame f)|by apply (H s' s (same_docs_sym _ _ Hsame) f)].
Qed.

Lemma indexed_insert s P idx :
  indexed s P -> ~ P idx -> idx < length (nm_files s) ->
  indexed (file_hash_insert idx s) (fun i => P i \/ i = idx).
Proof.
  intros (ch & Hr & Hch) Hp [f Hf]%lookup_lt_is_Some_2.
  eapply (indexed_same s); [apply same_docs_insert|eapply file_hash_insert_rep; [done..|]|].
  { by intros b [Hx _]%Hch. }
  intros b i. cbv beta. destruct (decide (b = bucket_of (f_name f))) as [->|Hne].
  - rewrite elem_of_cons, Hch. split.
    + intros [->|[Hi Hx]]; [split; [by right|by exists f]|split; [by left|done]].
    + intros [[Hi| ->] Hx]; [right; done|by left].
  - rewrite Hch. split; [intros [Hi Hx]; split; [by left|done]|].
    intros [[Hi| ->] Hx]; [done|]. destruct Hx as (g & Hg & Hgb). congruence.
Qed.

Lemma indexed_remove s P idx :
  indexed s P -> P idx -> idx < length (nm_files s) ->
  indexed (file_hash_remove idx s) (fun i => P i /\ i <> idx) /\ same_docs s (file_hash_remove idx s).
Proof.
  intros (ch & Hr & Hch) Hp [f Hf]%lookup_lt_is_Some_2.
  destruct (file_hash_remove_rep s ch idx f Hr Hf) as [Hr' (p & v & E)]; [apply Hch; split; [done|by exists f]|].
  assert (same_docs s (file_hash_remove idx s)) as Hs by (rewrite E; apply same_docs_assign).
  split; [|done]. eapply (indexed_same s); [done..|]. intros b i. rewrite elem_of_without, Hch. tauto.
Qed.

(** *** Adding and removing *)

Lemma append_entry_ok f s :
  nm_ok s -> length (nm_files s) < NM_MAX_FILES -> f_name f ∉ f_name <$> nm_files s ->
  nm_ok (append_entry f s) /\ core <$> nm_files (append_entry f s) = (core <$> nm_files s) ++ [core f].
Proof.
  intros Hok Hbd Hni. unfold append_entry. cbv zeta. cbn [nm_files set_nm_files]. rewrite length_app. cbn [length].
  replace (length (nm_files s) + 1 - 1) with (length (nm_files s)) by lia.
  set (s1 := set_nm_files (nm_files s ++ [f]) s).
  assert (length (nm_files s1) = S (length (nm_files s))) as Hlen by (unfold s1; cbn; rewrite length_app; simpl; lia).
  pose proof (same_docs_insert (length (nm_files s)) s1) as Hsame. split.
  - split.
    + rewrite (same_docs_names _ _ Hsame). unfold s1. cbn [nm_files set_nm_files]. rewrite fmap_app.
      apply NoDup_app. split_and!; [apply Hok| |apply NoDup_singleton]. by intros x Hx ->%list_elem_of_singleton.
    + rewrite (same_docs_length _ _ Hsame). lia.
    + eapply indexed_weaken; [|apply (indexed_insert s1 (fun i => i < length (nm_files s))); [|lia|lia]].
      * intros i. rewrite (same_docs_length _ _ Hsame). lia.
      * apply indexed_files; [intros i Hi; by rewrite lookup_app_l|].
        eapply indexed_weaken; [|apply (nm_hash _ Hok)]. done.
  - rewrite Hsame. unfold s1. cbn [nm_files set_nm_files]. by rewrite fmap_app.
Qed.

Lemma nm_map_snoc s s' f :
  nm_ok s -> f_name f ∉ f_name <$> nm_files s -> core <$> nm_files s' = (core <$> nm_files s) ++ [core f] ->
  nm_ok s' -> nm_map s' = <[f_name f := core f]> (nm_map s).
Proof.
  intros Hok Hni Hf Hok'. rewrite (nm_map_perm s' (core f :: (core <$> nm_files s))) by
    (apply Hok' || (rewrite Hf; symmetry; apply Permutation_cons_append)).
  cbn [fmap list_fmap list_to_map foldr]. unfold nm_map, keyed. by rewrite <- list_fmap_compose.
Qed.

Lemma nm_add_file_ok name owner p b now s :
  nm_ok s -> length name < NM_MAX_NAME ->
  let '(r, s') := nm_add_file name owner p b now s in
  match r with
  | NmOk => nm_ok s' /\ length (nm_files s) < NM_MAX_FILES /\ nm_map s !! name = None /\
            nm_map s' = <[name := core (new_entry name owner p b now)]> (nm_map s)
  | NmErr e => s' = s /\ (length (nm_files s) = NM_MAX_FILES /\ e = ENoSpc \/
                          length (nm_files s) < NM_MAX_FILES /\ is_Some (nm_map s !! name) /\ e = EExist)
  end.
Proof.
  intros Hok Hn. unfold nm_add_file. pose proof (nm_bounded _ Hok) as Hbd.
  destruct (Nat.leb_spec NM_MAX_FILES (length (nm_files s))); [split; [done|left; split; [lia|done]]|].
  rewrite <- (nm_find_file_map s name Hok). unfold nm_find_file.
  destruct (find_file_index s name) as [i|] eqn:E.
  { apply find_file_index_Some in E as (f & Hf & _); [|done]. split; [done|right]. cbn [mbind option_bind].
    rewrite Hf. by eauto. }
  rewrite find_file_index_None in E by done. set (f := new_entry name owner p b now).
  assert (f_name f = name) as Hfn by (change (snprintf_s NM_MAX_NAME name = name); by apply snprintf_s_id).
  assert (f_name f ∉ f_name <$> nm_files s) as Hni.
  { intros (g & Hg & Hin)%list_elem_of_fmap. apply (E g Hin). congruence. }
  destruct (append_entry_ok f s Hok) as [Hok' Hf]; [lia|done|]. split_and!; [done..|].
  by rewrite (nm_map_snoc s _ f Hok Hni Hf Hok'), Hfn.
Qed.

(** The table after the removal, without the chains. *)
Lemma nm_remove_file_files s idx name :
  nm_ok s -> find_file_index s name = Some idx ->
  let s' := snd (nm_remove_file name s) in
  fst (nm_remove_file name s) = NmOk /\ core <$> nm_files s' = swap_remove idx (core <$> nm_files s) /\
  indexed s' (fun _ => True).
Proof.
  intros Hok E. pose proof E as (f & Hf & Hn)%find_file_index_Some; [|done]. cbv zeta. unfold nm_remove_file.
  rewrite E. cbn [fst snd]. cbv zeta. set (n := length (nm_files s)).
  pose proof (lookup_lt_Some _ _ _ Hf) as Hidx. fold n in Hidx.
  destruct (indexed_remove s _ idx (nm_hash _ Hok) I Hidx) as [H1 S1]. set (s1 := file_hash_remove idx s) in *.
  pose proof (same_docs_length _ _ S1) as L1. fold n in L1. rewrite L1.
  destruct (Nat.eqb_spec idx (n - 1)) as [El|El].
  - split_and!; [done| |].
    + cbn [nm_files set_nm_files]. rewrite fmap_take, S1. unfold swap_remove.
      rewrite last_lookup, length_fmap, L1. fold n. replace (Nat.pred n) with idx by lia.
      rewrite list_lookup_fmap, Hf. cbn [fmap option_fmap option_map]. rewrite list_insert_id; [done|].
      by rewrite list_lookup_fmap, Hf.
    + eapply indexed_weaken; [|apply indexed_files; [|exact H1]].
      * cbn. intros i. rewrite length_take. lia.
      * intros i [_ Hi]. destruct (decide (i < n - 1)).
        -- by rewrite lookup_take_lt by lia.
        -- rewrite !lookup_ge_None_2; [done|lia|rewrite length_take; lia].
  - destruct (indexed_remove s1 _ (n - 1) H1) as [H2 S2]; [split; [done|lia]|lia|].
    set (s2 := file_hash_remove (n - 1) s1) in *. pose proof (same_docs_length _ _ S2) as L2.
    destruct (lookup_lt_is_Some_2 (nm_files s2) (n - 1)) as [g Hg]; [lia|]. rewrite Hg.
    set (s3 := set_nm_files (<[idx := g]> (nm_files s2)) s2).
    assert (length (nm_files s3) = n) as L3 by (unfold s3; cbn; rewrite length_insert; lia).
    pose proof (same_docs_insert idx s3) as S4. pose proof (same_docs_length _ _ S4) as L4. rewrite L4, L3.
    split_and!; [done| |].
    + cbn [nm_files set_nm_files]. rewrite fmap_take, S4. unfold s3. cbn [nm_files set_nm_files].
      rewrite list_fmap_insert, S2, S1. unfold swap_remove. rewrite last_lookup, length_fmap. fold n.
      replace (Nat.pred n) with (n - 1) by lia. rewrite <- S1, <- S2, list_lookup_fmap, Hg. done.
    + eapply indexed_weaken; [|apply indexed_files; [|apply (indexed_insert s3 (fun i => i <> idx /\ i <> n - 1)); [|lia|lia]]].
      * cbn. intros i. rewrite length_take, L4, L3. lia.
      * intros i Hi. cbv beta in Hi. destruct (decide (i < n - 1)).
        -- by rewrite lookup_take_lt by lia.
        -- rewrite !lookup_ge_None_2; [done|lia|rewrite length_take; lia].
      * apply indexed_files; [intros i Hi; by rewrite list_lookup_insert_ne by lia|].
        eapply indexed_weaken; [|exact H2]. intros i _. cbv beta. tauto.
Qed.

Lemma nm_remove_file_ok name s :
  nm_ok s ->
  let '(r, s') := nm_remove_file name s in
  match r with
  | NmOk => nm_ok s' /\ is_Some (nm_map s !! name) /\ nm_map s' = delete name (nm_map s)
  | NmErr e => s' = s /\ nm_map s !! name = None /\ e = ENoEnt
  end.
Proof.
  intros Hok. pose proof (nm_find_file_map s name Hok) as Hm. unfold nm_find_file in Hm.
  destruct (find_file_index s name) as [idx|] eqn:E.
  - destruct (nm_remove_file_files s idx name Hok E) as (R & F & I). destruct (nm_remove_file name s) as [r s'].
    cbn [fst snd] in *. subst r. apply find_file_index_Some in E as (f & Hf & Hn); [|done].
    pose proof (lookup_lt_Some _ _ _ Hf) as Hidx. cbn [mbind option_bind] in Hm. rewrite Hf in Hm.
    assert (core <$> nm_files s ≡ₚ core f :: (core <$> nm_files s')) as P.
    { rewrite F. apply swap_remove_perm. by rewrite list_lookup_fmap, Hf. }
    pose proof (nm_unique _ Hok) as Hu. assert (f_name <$> nm_files s = f_name <$> (core <$> nm_files s)) as En
      by (by rewrite <- list_fmap_compose). pose proof Hu as Hu'. rewrite En, P in Hu'. cbn [fmap list_fmap] in Hu'.
    rewrite <- list_fmap_compose in Hu'. apply NoDup_cons in Hu' as [Hni Hu'].
    pose proof (nm_map_perm s _ Hu P) as Em. cbn [fmap list_fmap list_to_map foldr] in Em.
    rewrite <- list_fmap_compose in Em. split_and!; [split; [done| |done]|rewrite <- Hm; by eauto|].
    + apply (f_equal length) in F. rewrite length_fmap, length_swap_remove, length_fmap in F by (by rewrite length_fmap).
      pose proof (nm_bounded _ Hok). lia.
    + rewrite Em. change (f_name (core f)) with (f_name f). rewrite Hn, delete_insert_id; [done|].
      apply not_elem_of_list_to_map_1. rewrite <- list_fmap_compose. by rewrite <- Hn.
  - unfold nm_remove_file. rewrite E. by rewrite <- Hm.
Qed.

(** ** Updating one document *)

(** An update that leaves the name and the chain alone. *)
Record local_update (upd : file_entry -> file_entry) : Prop := {
  lu_name : forall f, f_name (upd f) = f_name f;
  lu_next : forall f, f_hash_next (upd f) = f_hash_next f;
  lu_core : forall f, core (upd f) = upd (core f);
}.

Section Update.
Context (upd : file_entry -> file_entry) (Hupd : local_update upd).

Lemma alter_names idx (l : list file_entry) : f_name <$> alter upd idx l = f_name <$> l.
Proof using Hupd.
  apply list_eq. intros j. rewrite !list_lookup_fmap. destruct (decide (j = idx)) as [->|Hne].
  - rewrite list_lookup_alter_eq. destruct (l !! idx); cbn; [by rewrite lu_name|done].
  - by rewrite list_lookup_alter_ne.
Qed.

Lemma indexed_update s P idx : indexed s P -> indexed (set_nm_files (alter upd idx (nm_files s)) s) P.
Proof using Hupd.
  intros (ch & [Hbl Hc Hnd Hd Hs] & Hch). exists ch. split; [split; [done| |done|done|]|].
  - intros b Hb. eapply chain_ext; [|by apply Hc]. intros i _. unfold hash_next. cbn [nm_files set_nm_files].
    destruct (decide (i = idx)) as [->|Hne]; [|by rewrite list_lookup_alter_ne].
    rewrite list_lookup_alter_eq. destruct (nm_files s !! idx); [|done]. cbn. by rewrite lu_next.
  - intros b i Hi. cbn. rewrite length_alter. by apply (Hs b).
  - assert (forall (l : list file_entry) i b, (exists f, l !! i = Some f /\ bucket_of (f_name f) = b) <->
                (exists n, (f_name <$> l) !! i = Some n /\ bucket_of n = b)) as En.
    { intros l i b. rewrite list_lookup_fmap. split; [intros (g & -> & Hb); cbn; by eauto|].
      intros (n & (g & Hg & ->)%fmap_Some & Hb). by eauto. }
    intros b i. rewrite Hch, !En. cbn [nm_files set_nm_files]. by rewrite alter_names.
Qed.

Lemma alter_file_ok idx s :
  nm_ok s ->
  let s' := set_nm_files (alter upd idx (nm_files s)) s in
  nm_ok s' /\ core <$> nm_files s' = alter upd idx (core <$> nm_files s).
Proof using Hupd.
  intros Hok. split.
  - split; [cbn; rewrite alter_names; apply Hok|cbn; rewrite length_alter; apply Hok|].
    apply indexed_update, nm_hash, Hok.
  - cbn [nm_files set_nm_files]. apply list_fmap_alter, Forall_forall. intros f _. apply (lu_core _ Hupd).
Qed.

Lemma update_file_ok name s :
  nm_ok s -> nm_ok (update_file name upd s) /\ nm_map (update_file name upd s) = alter upd name (nm_map s).
Proof using Hupd.
  intros Hok. pose proof (nm_find_file_map s name Hok) as Hm. unfold update_file. unfold nm_find_file in Hm.
  destruct (find_file_index s name) as [idx|] eqn:E.
  - apply find_file_index_Some in E as (f & Hf & Hn); [|done]. destruct (alter_file_ok idx s Hok) as [Hok' Ha].
    split; [done|]. cbn [nm_files set_nm_files] in Ha.
    assert (core <$> alter upd idx (nm_files s) ≡ₚ upd (core f) :: delete idx (core <$> nm_files s)) as P1.
    { rewrite Ha, (delete_Permutation (alter upd idx (core <$> nm_files s)) idx (upd (core f))) by
        (by rewrite list_lookup_alter_eq, list_lookup_fmap, Hf).
      by rewrite delete_alter. }
    assert (core <$> nm_files s ≡ₚ core f :: delete idx (core <$> nm_files s)) as P0
      by (apply delete_Permutation; by rewrite list_lookup_fmap, Hf).
    rewrite (nm_map_perm _ _ (nm_unique _ Hok) P0).
    rewrite (nm_map_perm (set_nm_files (alter upd idx (nm_files s)) s) _ (nm_unique _ Hok') P1).
    cbn [fmap list_fmap list_to_map foldr]. rewrite (lu_name _ Hupd). change (f_name (core f)) with (f_name f).
    by rewrite Hn, alter_insert_eq.
  - split; [done|]. symmetry. apply map_eq. intros n. destruct (decide (n = name)) as [->|Hne].
    + rewrite lookup_alter_eq, <- Hm. done.
    + by rewrite lookup_alter_ne.
Qed.
End Update.

Lemma nm_ok_clear : nm_ok clear_state.
Proof.
  split; [constructor|cbn; lia|]. exists (fun _ => []). split; [split|].
  - by vm_compute.
  - intros b Hb. unfold bucket, clear_state. cbn [file_buckets]. by rewrite lookup_replicate_2.
  - constructor.
  - by intros b c i Hi%elem_of_nil.
  - by intros b i Hi%elem_of_nil.
  - intros b i. rewrite elem_of_nil. split; [done|]. intros [_ (f & Hf & _)]. by destruct i.
Qed.

(** The other tables do not matter. *)
Lemma nm_ok_same s s' :
  nm_files s' = nm_files s -> file_buckets s' = file_buckets s -> nm_ok s -> nm_ok s'.
Proof.
  intros Ef Eb [Hu Hb (ch & [Hl Hc Hn Hd Hs] & Hch)]. split; [by rewrite Ef|by rewrite Ef|].
  exists ch. split; [split|]; try done.
  - by rewrite Eb.
  - intros b Hb'. unfold bucket, hash_next. rewrite Ef, Eb. by apply Hc.
  - rewrite Ef. exact Hs.
  - rewrite Ef. exact Hch.
Qed.

(** What [nm_add_file] and [nm_remove_file] do to a finite map of documents. *)
Definition spec_add (name : cstr) (f : file_entry) (m : gmap cstr file_entry) : nm_res * gmap cstr file_entry :=
  if NM_MAX_FILES <=? size m then (NmErr ENoSpc, m)
  else match m !! name with Some _ => (NmErr EExist, m) | None => (NmOk, <[name := f]> m) end.

Definition spec_remove (name : cstr) (m : gmap cstr file_entry) : nm_res * gmap cstr file_entry :=
  match m !! name with Some _ => (NmOk, delete name m) | None => (NmErr ENoEnt, m) end.

(** C20: The name manager's table of documents (hash buckets, chains through the slots,
    the last slot moved into a freed one) is a finite map by name: look-ups in the chains
    end and find exactly the documents of the map, [nm_add_file] and [nm_remove_file] do
    what they do on the map with the same error codes, and keep the table well formed. *)
Theorem nm_table_refines_map name owner p b now s (Hok : nm_ok s) (Hn : length name < NM_MAX_NAME) :
  find_file_search s name <> Running /\
  core <$> nm_find_file s name = nm_map s !! name /\
  (let '(r, s') := nm_add_file name owner p b now s in
   nm_ok s' /\ (r, nm_map s') = spec_add name (core (new_entry name owner p b now)) (nm_map s)) /\
  (let '(r, s') := nm_remove_file name s in nm_ok s' /\ (r, nm_map s') = spec_remove name (nm_map s)).
Proof.
  split_and!.
  - intros E. pose proof (find_file_search_spec s name Hok) as H. by rewrite E in H.
  - by apply nm_find_file_map.
  - pose proof (nm_add_file_ok name owner p b now s Hok Hn) as H. destruct (nm_add_file _ _ _ _ _ s) as [[|e] s'].
    + destruct H as (Hok' & Hl & Hm & ->). split; [done|]. unfold spec_add.
      unfold nm_map in *. rewrite keyed_size, Hm by apply Hok. by destruct (Nat.leb_spec NM_MAX_FILES (length (nm_files s))); [lia|].
    + destruct H as [-> H]. split; [done|]. unfold spec_add. unfold nm_map in *. rewrite keyed_size by apply Hok.
      destruct (Nat.leb_spec NM_MAX_FILES (length (nm_files s))), H as [[Hl ->]|(Hl & [g Hg] & ->)]; [done|lia|lia|].
      by rewrite Hg.
  - pose proof (nm_remove_file_ok name s Hok) as H. destruct (nm_remove_file name s) as [[|e] s'].
    + destruct H as (Hok' & [g Hg] & ->). split; [done|]. unfold spec_remove. by rewrite Hg.
    + destruct H as (-> & Hg & ->). split; [done|]. unfold spec_remove. by rewrite Hg.
Qed.

(** ** Access lists *)

Inductive rights := ROwner | RAcl (perm : Z).

Definition rights_of (f : file_entry) (user : cstr) : option rights :=
  if streq (f_owner f) user then Some ROwner else RAcl <$> keyed acl_user acl_perm (f_acl f) !! user.

Definition nm_rights (s : nm_state) (name user : cstr) : option rights :=
  f ← nm_map s !! name; rights_of f user.

Definition granted (perm : Z) (r : option rights) : option rights :=
  Some match r with
       | Some ROwner => ROwner
       | Some (RAcl p) => RAcl (Z.lor p perm)
       | None => RAcl (Z.lor perm NM_PERM_READ)
       end.

Definition revoked (r : option rights) : option rights :=
  match r with Some ROwner => Some ROwner | _ => None end.

Definition allows (r : option rights) (perm : Z) : bool :=
  match r with
  | Some ROwner => true
  | Some (RAcl p) => (Z.land p perm =? perm)%Z
  | None => false
  end.

(** No user twice in a list, and no list over its array. *)
Definition acl_wf (f : file_entry) : Prop :=
  NoDup (acl_user <$> f_acl f) /\ length (f_acl f) <= NM_MAX_ACL.
Definition acl_ok (s : nm_state) : Prop := map_Forall (fun _ => acl_wf) (nm_map s).

Lemma nm_find_file_Some s name f :
  nm_ok s -> nm_find_file s name = Some f -> nm_map s !! name = Some (core f).
Proof. intros Hok Hf. by rewrite <- nm_find_file_map, Hf. Qed.

Lemma nm_find_file_None s name : nm_ok s -> nm_find_file s name = None -> nm_map s !! name = None.
Proof. intros Hok Hf. by rewrite <- nm_find_file_map, Hf. Qed.

Lemma find_acl_keyed f user :
  (fun r => acl_perm (snd r)) <$> find_acl f user = keyed acl_user acl_perm (f_acl f) !! user.
Proof. apply find_first_keyed. Qed.

Lemma nm_check_access_rights s name user perm :
  nm_ok s ->
  nm_check_access name user perm s =
    match nm_map s !! name with
    | None => NmErr EFail
    | Some f => if allows (rights_of f user) perm then NmOk else NmErr EAccess
    end.
Proof.
  intros Hok. unfold nm_check_access. destruct (nm_find_file s name) as [f|] eqn:E.
  - rewrite (nm_find_file_Some s name f Hok E). unfold rights_of. change (f_owner (core f)) with (f_owner f).
    change (f_acl (core f)) with (f_acl f). rewrite <- find_acl_keyed.
    destruct (streq _ _); [done|]. by destruct (find_acl f user) as [[i e]|].
  - by rewrite (nm_find_file_None s name Hok E).
Qed.

(** An update of one document's list, seen through the rights. *)
Lemma acl_update name user l chg s f :
  nm_ok s -> acl_ok s -> nm_find_file s name = Some f ->
  let upd := fun g => with_acl (chg (f_acl g)) g in
  chg (f_acl f) = l -> NoDup (acl_user <$> l) -> length l <= NM_MAX_ACL ->
  (forall u, u <> user -> keyed acl_user acl_perm l !! u = keyed acl_user acl_perm (f_acl f) !! u) ->
  nm_ok (update_file name upd s) /\ acl_ok (update_file name upd s) /\
  forall n u, nm_rights (update_file name upd s) n u =
    if decide (n = name /\ u = user)
    then (if streq (f_owner f) user then Some ROwner else RAcl <$> keyed acl_user acl_perm l !! user)
    else nm_rights s n u.
Proof.
  intros Hok Ha Hf upd Hl Hnd Hlen Hu. destruct (update_file_ok upd ltac:(by split) name s Hok) as [Hok' Hm].
  pose proof (nm_find_file_Some s name f Hok Hf) as Hfm. split_and!; [done| |].
  - intros n g. rewrite Hm. destruct (decide (n = name)) as [->|Hne].
    + rewrite lookup_alter_eq, Hfm. intros [= <-]. unfold acl_wf, upd. cbn. by rewrite Hl.
    + rewrite lookup_alter_ne by done. apply Ha.
  - intros n u. unfold nm_rights. rewrite Hm. destruct (decide (n = name)) as [->|Hne].
    + rewrite lookup_alter_eq, Hfm. unfold rights_of, upd. cbn. rewrite Hl.
      destruct (decide _) as [[_ ->]|Hx]; [done|]. rewrite Hu; [done|]. intros ->. by apply Hx.
    + rewrite lookup_alter_ne by done. rewrite decide_False; [done|]. by intros [-> _].
Qed.

Lemma nm_rights_found s name user f :
  nm_ok s -> nm_find_file s name = Some f ->
  nm_rights s name user =
    if streq (f_owner f) user then Some ROwner else (fun r => RAcl (acl_perm (snd r))) <$> find_acl f user.
Proof.
  intros Hok E. unfold nm_rights. rewrite (nm_find_file_Some s name f Hok E). cbn [mbind option_bind].
  unfold rights_of. cbn [core with_next f_owner f_acl]. rewrite <- find_acl_keyed, <- option_fmap_compose. done.
Qed.

Lemma nm_grant_access_ok name user perm s :
  nm_ok s -> acl_ok s -> length user < NM_MAX_USER ->
  let '(r, s') := nm_grant_access name user perm s in
  nm_ok s' /\ acl_ok s' /\
  match r with
  | NmOk => forall n u, nm_rights s' n u =
      if decide (n = name /\ u = user) then granted perm (nm_rights s n u) else nm_rights s n u
  | NmErr e => s' = s /\
      (nm_map s !! name = None \/
       exists f, nm_map s !! name = Some f /\ rights_of f user = None /\ length (f_acl f) = NM_MAX_ACL)
  end.
Proof.
  intros Hok Ha Hu. unfold nm_grant_access.
  destruct (nm_find_file s name) as [f|] eqn:E; [|by eauto 6 using nm_find_file_None].
  pose proof (nm_find_file_Some s name f Hok E) as Hm. pose proof (Ha _ _ Hm) as [Hnd Hlen]. cbn in Hnd, Hlen.
  pose proof (nm_rights_found s name user f Hok E) as Hr. destruct (streq (f_owner f) user) eqn:Eo.
  { split_and!; [done..|]. intros n u. destruct (decide _) as [[-> ->]|]; [|done]. by rewrite Hr. }
  destruct (find_acl f user) as [[i e]|] eqn:Ef; [|destruct (Nat.leb_spec NM_MAX_ACL (length (f_acl f)))].
  - pose proof (find_first_key _ _ _ _ _ Ef) as [Hi Hk].
    destruct (keyed_update acl_user acl_perm i e (mk_acl (acl_user e) (Z.lor (acl_perm e) perm)) _ Hnd Hi eq_refl)
      as [Hnd' Hky].
    destruct (acl_update name user _ (fun l => <[i := mk_acl (acl_user e) (Z.lor (acl_perm e) perm)]> l)
                s f Hok Ha E eq_refl Hnd') as (H1 & H2 & H3); [by rewrite length_insert| |].
    { intros u Hne. rewrite Hky. apply lookup_insert_ne. congruence. }
    split_and!; [done..|]. intros n u. rewrite H3, Eo, Hky, Hk, lookup_insert_eq.
    destruct (decide _) as [[-> ->]|]; [|done]. by rewrite Hr.
  - split_and!; [done..|]. right. exists (core f). split_and!; [done| |cbn; lia].
    unfold nm_rights in Hr. rewrite Hm in Hr. apply Hr.
  - pose proof Ef as Hnk. unfold find_acl in Hnk. apply find_first_key_None in Hnk.
    assert (snprintf_s NM_MAX_USER user = user) as Es by by apply snprintf_s_id. rewrite Es.
    destruct (keyed_snoc acl_user acl_perm (mk_acl user (Z.lor perm NM_PERM_READ)) _ Hnd Hnk) as [Hnd' Hky].
    destruct (acl_update name user _ (fun l => l ++ [mk_acl user (Z.lor perm NM_PERM_READ)])
                s f Hok Ha E eq_refl Hnd') as (H1 & H2 & H3); [rewrite length_app; cbn; lia| |].
    { intros u Hne. rewrite Hky. apply lookup_insert_ne. cbn. congruence. }
    split_and!; [done..|]. intros n u. rewrite H3, Eo, Hky. cbn [acl_user]. rewrite lookup_insert_eq.
    destruct (decide _) as [[-> ->]|]; [|done]. by rewrite Hr.
Qed.

Lemma nm_remove_access_ok name user s :
  nm_ok s -> acl_ok s ->
  let '(r, s') := nm_remove_access name user s in
  nm_ok s' /\ acl_ok s' /\
  match r with
  | NmOk => forall n u, nm_rights s' n u =
      if decide (n = name /\ u = user) then revoked (nm_rights s n u) else nm_rights s n u
  | NmErr e => s' = s /\ nm_map s !! name = None
  end.
Proof.
  intros Hok Ha. unfold nm_remove_access.
  destruct (nm_find_file s name) as [f|] eqn:E; [|by eauto 6 using nm_find_file_None].
  pose proof (nm_find_file_Some s name f Hok E) as Hm. pose proof (Ha _ _ Hm) as [Hnd Hlen]. cbn in Hnd, Hlen.
  pose proof (nm_rights_found s name user f Hok E) as Hr. destruct (find_acl f user) as [[i e]|] eqn:Ef.
  - pose proof (find_first_key _ _ _ _ _ Ef) as [Hi Hk].
    destruct (keyed_swap_remove acl_user acl_perm i e _ Hnd Hi) as [Hnd' Hky].
    destruct (acl_update name user _ (fun l => swap_remove i l) s f Hok Ha E eq_refl Hnd') as (H1 & H2 & H3).
    { rewrite length_swap_remove; [lia|by eapply lookup_lt_Some]. }
    { intros u Hne. rewrite Hky. apply lookup_delete_ne. congruence. }
    split_and!; [done..|]. intros n u. rewrite H3, Hky, Hk, lookup_delete_eq.
    destruct (decide _) as [[-> ->]|]; [|done]. rewrite Hr. by destruct (streq _ _).
  - split_and!; [done..|]. intros n u. destruct (decide _) as [[-> ->]|]; [|done]. rewrite Hr. by destruct (streq _ _).
Qed.

(** Between the two states only the access list of one document changes: the entry of that
    document is as it was in every other field, and so are all other documents, the servers
    and their turns, the users, the cache and the requests. *)
Record only_acl (name : cstr) (s s' : nm_state) : Prop := {
  oa_docs : exists f l, nm_map s !! name = Some f /\ nm_map s' = <[name := with_acl l f]> (nm_map s);
  oa_rest : set_nm_files (nm_files s) s' = s;
}.

Lemma only_acl_refl name s f : nm_ok s -> nm_find_file s name = Some f -> only_acl name s s.
Proof.
  intros Hok Hf. apply nm_find_file_Some in Hf; [|done]. split; [|by destruct s].
  exists (core f), (f_acl f). split; [done|]. replace (with_acl (f_acl f) (core f)) with (core f) by (by destruct f).
  by rewrite insert_id.
Qed.

Lemma only_acl_update name chg s f :
  nm_ok s -> nm_find_file s name = Some f -> only_acl name s (update_file name (fun g => with_acl (chg (f_acl g)) g) s).
Proof.
  intros Hok Hf. destruct (update_file_ok (fun g => with_acl (chg (f_acl g)) g) ltac:(by split) name s Hok) as [_ Hm].
  apply nm_find_file_Some in Hf; [|done]. split.
  - exists (core f), (chg (f_acl f)). split; [done|]. rewrite Hm. apply map_eq. intros n. destruct (decide (n = name)) as [->|Hne].
    + by rewrite lookup_alter_eq, Hf, lookup_insert_eq.
    + by rewrite lookup_alter_ne, lookup_insert_ne.
  - unfold update_file. destruct (find_file_index s name); by destruct s.
Qed.

Lemma grant_only_acl name user perm s :
  nm_ok s -> fst (nm_grant_access name user perm s) = NmOk -> only_acl name s (snd (nm_grant_access name user perm s)).
Proof.
  intros Hok. unfold nm_grant_access. destruct (nm_find_file s name) as [f|] eqn:E; [|done].
  destruct (streq _ _); [intros; by eapply only_acl_refl|]. destruct (find_acl f user) as [[i e]|].
  - intros _. exact (only_acl_update name (<[i := mk_acl (acl_user e) (Z.lor (acl_perm e) perm)]>) s f Hok E).
  - destruct (_ <=? _); [done|]. intros _.
    exact (only_acl_update name (fun l => l ++ [mk_acl (snprintf_s NM_MAX_USER user) (Z.lor perm NM_PERM_READ)]) s f Hok E).
Qed.

Lemma revoke_only_acl name user s :
  nm_ok s -> fst (nm_remove_access name user s) = NmOk -> only_acl name s (snd (nm_remove_access name user s)).
Proof.
  intros Hok. unfold nm_remove_access. destruct (nm_find_file s name) as [f|] eqn:E; [|done].
  destruct (find_acl f user) as [[i e]|]; intros _; [|by eapply only_acl_refl].
  exact (only_acl_update name (swap_remove i) s f Hok E).
Qed.

(** C30: Granting and revoking change one user's rights on one document and nothing else.  A
    granted permission is added to what the user had (with read access for a user who had
    none), a revoked user has none, the owner keeps everything, and every other user's rights
    on every document are as they were.  Apart from the access list of that document the
    state is the same: its other fields (owner, servers, counters, times, checkpoints), the
    other documents, the servers, the users, the cache and the access requests.  A grant or
    a revocation that fails changes nothing, and [nm_check_access] accepts exactly what the
    rights allow. *)
Theorem nm_access_spec name user perm s
  (Hok : nm_ok s) (Ha : acl_ok s) (Hu : length user < NM_MAX_USER) :
  (let '(r, s') := nm_grant_access name user perm s in
   nm_ok s' /\ acl_ok s' /\
   match r with
   | NmOk => only_acl name s s' /\ forall n u, nm_rights s' n u =
       if decide (n = name /\ u = user) then granted perm (nm_rights s n u) else nm_rights s n u
   | NmErr e => s' = s /\
       (nm_map s !! name = None \/
        exists f, nm_map s !! name = Some f /\ rights_of f user = None /\ length (f_acl f) = NM_MAX_ACL)
   end) /\
  (let '(r, s') := nm_remove_access name user s in
   nm_ok s' /\ acl_ok s' /\
   match r with
   | NmOk => only_acl name s s' /\ forall n u, nm_rights s' n u =
       if decide (n = name /\ u = user) then revoked (nm_rights s n u) else nm_rights s n u
   | NmErr e => s' = s /\ nm_map s !! name = None
   end) /\
  nm_check_access name user perm s =
    match nm_map s !! name with
    | None => NmErr EFail
    | Some f => if allows (nm_rights s name user) perm then NmOk else NmErr EAccess
    end.
Proof.
  split_and!.
  - pose proof (grant_only_acl name user perm s Hok) as Ho. pose proof (nm_grant_access_ok name user perm s Hok Ha Hu) as Hg.
    destruct (nm_grant_access name user perm s) as [[|e] s']; [|done]. destruct Hg as (G1 & G2 & G3). split_and!; auto.
  - pose proof (revoke_only_acl name user s Hok) as Ho. pose proof (nm_remove_access_ok name user s Hok Ha) as Hg.
    destruct (nm_remove_access name user s) as [[|e] s']; [|done]. destruct Hg as (G1 & G2 & G3). split_and!; auto.
  - rewrite nm_check_access_rights by done. unfold nm_rights. by destruct (nm_map s !! name).
Qed.

(** ** Choosing a server *)

Definition eligible (ex : option nat) (ss : list storage_server) (i : nat) : Prop :=
  ex <> Some i /\ exists x, ss !! i = Some x /\ is_online x = true.

Lemma pick_loop_spec n offset start ex ss :
  0 < length ss -> offset + n = length ss ->
  (forall j, j < offset -> ~ eligible ex ss ((start + j) mod length ss)) ->
  match pick_loop n offset start ex ss with
  | Some i => exists k, k < length ss /\ i = (start + k) mod length ss /\ eligible ex ss i /\
                forall j, j < k -> ~ eligible ex ss ((start + j) mod length ss)
  | None => forall j, j < length ss -> ~ eligible ex ss ((start + j) mod length ss)
  end.
Proof.
  intros Hs. revert offset. induction n as [|n IH]; intros offset Hn Hno; cbn [pick_loop].
  { intros j Hj. apply Hno. lia. }
  set (idx := (start + offset) mod length ss).
  assert (~ eligible ex ss idx ->
          forall j, j < S offset -> ~ eligible ex ss ((start + j) mod length ss)) as Hstep.
  { intros Hi j Hj. destruct (decide (j = offset)) as [->|]; [done|]. apply Hno. lia. }
  destruct (bool_decide_reflect (ex = Some idx)) as [He|He].
  { apply IH; [lia|]. apply Hstep. by intros [? _]. }
  destruct (lookup_lt_is_Some_2 ss idx) as [x Hx]; [apply Nat.mod_upper_bound; lia|]. rewrite Hx.
  destruct (is_online x) eqn:Eo.
  - exists offset. split_and!; [lia|done| |done]. split; [done|by exists x].
  - apply IH; [lia|]. apply Hstep. intros [_ (y & Hy & Ey)]. congruence.
Qed.

Lemma mod_cover start n i : i < n -> exists j, j < n /\ (start + j) mod n = i.
Proof.
  intros Hi. exists ((i + n - start mod n) mod n). split; [apply Nat.mod_upper_bound; lia|].
  rewrite Nat.Div0.add_mod_idemp_r, <- Nat.Div0.add_mod_idemp_l.
  pose proof (Nat.mod_upper_bound start n ltac:(lia)).
  replace (start mod n + (i + n - start mod n)) with (i + 1 * n) by lia.
  rewrite Nat.Div0.mod_add. by apply Nat.mod_small.
Qed.

(** The round robin from [start]: the first eligible server in cyclic order. *)
Definition first_eligible (start : nat) (ex : option nat) (ss : list storage_server) (r : option nat) : Prop :=
  match r with
  | Some i => eligible ex ss i /\ exists k, k < length ss /\ i = (start + k) mod length ss /\
                forall j, j < k -> ~ eligible ex ss ((start + j) mod length ss)
  | None => forall i, ~ eligible ex ss i
  end.

Lemma pick_loop_first start ex ss :
  0 < length ss -> first_eligible start ex ss (pick_loop (length ss) 0 (start mod length ss) ex ss).
Proof.
  intros Hs. pose proof (pick_loop_spec (length ss) 0 (start mod length ss) ex ss Hs eq_refl ltac:(lia)) as H.
  destruct (pick_loop _ _ _ _ _) as [i|]; cbn [first_eligible].
  - destruct H as (k & Hk & Hi & He & Hj). split; [done|]. exists k. split_and!; [done| |].
    + by rewrite Hi, Nat.Div0.add_mod_idemp_l.
    + intros j Hlt. rewrite <- Nat.Div0.add_mod_idemp_l. by apply Hj.
  - intros i He. assert (i < length ss) as Hi by (destruct He as [_ (x & Hx & _)]; by eapply lookup_lt_Some).
    destruct (mod_cover (start mod length ss) (length ss) i Hi) as (j & Hj & <-). by apply (H j).
Qed.

(** [nm_pick_server] called [k] times. *)
Fixpoint pick_many (k : nat) (s : nm_state) : list (option nat) * nm_state :=
  match k with
  | O => ([], s)
  | S k => let '(r, s) := nm_pick_server s in let '(rs, s) := pick_many k s in (r :: rs, s)
  end.

Lemma servers_set_next p b s : servers (set_next p b s) = servers s.
Proof. done. Qed.

Lemma nm_pick_server_all_online s :
  servers s <> [] -> Forall (fun x => is_online x = true) (servers s) ->
  nm_pick_server s =
    (Some (next_primary_index s mod length (servers s)),
     set_next ((next_primary_index s mod length (servers s) + 1) mod length (servers s)) (next_backup_index s) s).
Proof.
  intros Hne Hall. unfold nm_pick_server. destruct (servers s) as [|x l] eqn:E; [done|]. rewrite <- E in *.
  assert (0 < length (servers s)) as Hl by (rewrite E; simpl; lia).
  pose proof (pick_loop_first (next_primary_index s) None (servers s) Hl) as H.
  assert (forall j, eligible None (servers s) ((next_primary_index s + j) mod length (servers s))) as He.
  { intros j. split; [done|]. destruct (lookup_lt_is_Some_2 (servers s) ((next_primary_index s + j) mod length (servers s))) as [y Hy];
      [apply Nat.mod_upper_bound; lia|]. exists y. split; [done|]. by apply (Forall_lookup_1 _ _ _ _ Hall Hy). }
  destruct (pick_loop _ _ _ _ _) as [i|].
  - destruct H as [_ (k & _ & -> & Hk)]. destruct k as [|k]; [by rewrite Nat.add_0_r|].
    destruct (Hk 0); [lia|]. apply He.
  - destruct (H _ (He 0)).
Qed.

(** Both round robins pick the first eligible server in cyclic order from their own
    counter (online with a control connection, and not the excluded one for a backup),
    report failure only when no server is eligible, and otherwise move only their counter,
    past the server they picked. *)
Theorem nm_pick_spec s exclude :
  (let '(r, s') := nm_pick_server s in
   first_eligible (next_primary_index s) None (servers s) r /\
   s' = match r with
        | Some i => set_next ((i + 1) mod length (servers s)) (next_backup_index s) s
        | None => s
        end) /\
  (let '(r, s') := nm_pick_backup_server exclude s in
   first_eligible (next_backup_index s) (if (exclude <? 0)%Z then None else Some (Z.to_nat exclude)) (servers s) r /\
   s' = match r with
        | Some i => set_next (next_primary_index s) ((i + 1) mod length (servers s)) s
        | None => s
        end).
Proof.
  assert (forall ex i, ~ eligible ex [] i) as Hnil by by intros ex i [_ (x & Hx & _)].
  unfold nm_pick_server, nm_pick_backup_server. split.
  - destruct (servers s) as [|x l] eqn:E; [split; [intros i; apply Hnil|done]|]. rewrite <- E.
    pose proof (pick_loop_first (next_primary_index s) None (servers s) ltac:(rewrite E; simpl; lia)) as H.
    by destruct (pick_loop _ _ _ _ _).
  - destruct (servers s) as [|x l] eqn:E; [split; [intros i; apply Hnil|done]|]. rewrite <- E.
    pose proof (pick_loop_first (next_backup_index s) (if (exclude <? 0)%Z then None else Some (Z.to_nat exclude))
                  (servers s) ltac:(rewrite E; simpl; lia)) as H.
    by destruct (pick_loop _ _ _ _ _).
Qed.

(** While every server is online, [k] placements in a row go to consecutive servers in
    cyclic order: new documents are spread evenly over the servers. *)
Theorem nm_pick_round_robin k s
  (Hne : servers s <> []) (Hall : Forall (fun x => is_online x = true) (servers s)) :
  fst (pick_many k s) =
    (fun j => Some ((next_primary_index s + j) mod length (servers s))) <$> seq 0 k.
Proof.
  revert s Hne Hall. induction k as [|k IH]; intros s Hne Hall; [done|]. cbn [pick_many].
  rewrite nm_pick_server_all_online by done. set (s1 := set_next _ _ s).
  specialize (IH s1 Hne Hall). destruct (pick_many k s1) as [rs s2] eqn:E. cbn [fst] in *. subst rs.
  cbn [seq fmap list_fmap]. rewrite Nat.add_0_r. f_equal. rewrite <- fmap_S_seq, <- list_fmap_compose.
  apply list_fmap_ext. intros j x _. cbn. f_equal. change (servers s1) with (servers s).
  unfold s1. cbn [next_primary_index set_next].
  rewrite Nat.Div0.add_mod_idemp_l, <- Nat.add_assoc, Nat.Div0.add_mod_idemp_l. f_equal.
Qed.

(** ** The location cache *)

Definition cache_ok (s : nm_state) : Prop := NoDup (c_name <$> cache s) /\ length (cache s) <= NM_MAX_CACHE.
Definition cache_map (s : nm_state) : gmap cstr Z := keyed c_name c_ss_index (cache s).

Definition oldest_in (c : cache_entry) (l : list cache_entry) : Prop :=
  forall d, d ∈ l -> (c_last_used c <= c_last_used d)%Z.

Lemma oldest_loop_spec l1 l2 o c :
  l1 !! o = Some c -> oldest_in c l1 ->
  exists d, (l1 ++ l2) !! oldest_loop l2 (length l1) o (c_last_used c) = Some d /\ oldest_in d (l1 ++ l2).
Proof.
  revert l1 o c. induction l2 as [|x l2 IH]; intros l1 o c Ho Hmin; cbn [oldest_loop].
  { rewrite app_nil_r. by exists c. }
  replace (S (length l1)) with (length (l1 ++ [x])) by (rewrite length_app; simpl; lia).
  rewrite (cons_middle x l1 l2), (app_assoc l1 [x] l2). destruct (Z.ltb_spec (c_last_used x) (c_last_used c)).
  - apply IH; [by rewrite lookup_app_r, Nat.sub_diag|].
    intros d [Hd| ->%list_elem_of_singleton]%elem_of_app; [|lia]. specialize (Hmin d Hd). lia.
  - apply IH; [by apply lookup_app_l_Some|]. intros d [Hd| ->%list_elem_of_singleton]%elem_of_app; [by apply Hmin|lia].
Qed.

Lemma cache_evict_spec l :
  l <> [] -> exists i c, l !! i = Some c /\ oldest_in c l /\ cache_evict l = swap_remove i l.
Proof.
  destruct l as [|c l]; [done|]. intros _.
  destruct (oldest_loop_spec [c] l 0 c eq_refl) as (d & Hd & Ho).
  { by intros d ->%list_elem_of_singleton. }
  by eexists _, d.
Qed.

Lemma nm_cache_lookup_ok name now s :
  cache_ok s ->
  let '(r, s') := nm_cache_lookup name now s in
  cache_ok s' /\ r = cache_map s !! name /\ cache_map s' = cache_map s.
Proof.
  intros [Hnd Hlen]. unfold nm_cache_lookup, cache_map, cache_ok. rewrite <- (find_first_keyed c_name c_ss_index).
  destruct (find_first _ _) as [[i c]|] eqn:E; [|done]. apply find_first_key in E as [Hi Hk].
  destruct (keyed_touch c_name c_ss_index i c (mk_cache (c_name c) (c_ss_index c) now) _ Hi eq_refl eq_refl) as [E1 E2].
  cbn [cache set_cache]. by rewrite E1, E2, length_insert.
Qed.

Lemma nm_cache_put_full name idx now s :
  cache_ok s -> length name < NM_MAX_NAME -> name ∉ c_name <$> cache s -> NM_MAX_CACHE <= length (cache s) ->
  let s' := set_cache (cache_evict (cache s) ++ [mk_cache name idx now]) s in
  cache_ok s' /\
  exists c, c ∈ cache s /\ oldest_in c (cache s) /\
            cache_map s' = <[name := idx]> (delete (c_name c) (cache_map s)).
Proof.
  intros [Hnd Hlen] Hn Hni Hfull. cbv zeta. unfold cache_ok, cache_map. cbn [cache set_cache].
  destruct (cache_evict_spec (cache s)) as (i & c & Hi & Ho & ->).
  { intros Hx. rewrite Hx in *. cbn in *. unfold NM_MAX_CACHE in *. lia. }
  destruct (keyed_swap_remove c_name c_ss_index i c _ Hnd Hi) as [Hnd' Hk'].
  assert (name ∉ c_name <$> swap_remove i (cache s)) as Hni'.
  { intros Hx. apply Hni. rewrite (swap_remove_perm i c _ Hi). by right. }
  destruct (keyed_snoc c_name c_ss_index (mk_cache name idx now) _ Hnd' Hni') as [Hnd'' Hk''].
  split; [split; [done|]|].
  - rewrite length_app, length_swap_remove by (by eapply lookup_lt_Some). cbn. unfold NM_MAX_CACHE in *. lia.
  - exists c. split_and!; [by eapply list_elem_of_lookup_2|done|]. by rewrite Hk'', Hk'.
Qed.

Lemma nm_cache_put_ok name idx now s :
  cache_ok s -> length name < NM_MAX_NAME ->
  let s' := nm_cache_put name idx now s in
  cache_ok s' /\
  if decide (is_Some (cache_map s !! name) \/ length (cache s) < NM_MAX_CACHE)
  then cache_map s' = <[name := idx]> (cache_map s)
  else exists c, c ∈ cache s /\ oldest_in c (cache s) /\
                 cache_map s' = <[name := idx]> (delete (c_name c) (cache_map s)).
Proof.
  intros Hok Hn. pose proof Hok as [Hnd Hlen]. cbv zeta. unfold nm_cache_put.
  pose proof (find_first_keyed c_name c_ss_index name (cache s)) as Hf.
  destruct (find_first _ _) as [[i c]|] eqn:E.
  - apply find_first_key in E as [Hi Hk]. unfold cache_ok, cache_map. cbn [cache set_cache].
    destruct (keyed_update c_name c_ss_index i c (mk_cache (c_name c) idx now) _ Hnd Hi eq_refl) as [Hnd' ->].
    assert (is_Some (keyed c_name c_ss_index (cache s) !! name)) as Hin by (rewrite <- Hf; by eexists).
    rewrite length_insert, decide_True by (by left). by rewrite <- Hk.
  - pose proof E as Hni. apply find_first_key_None in Hni. rewrite (snprintf_s_id NM_MAX_NAME name) by done.
    assert (~ is_Some (cache_map s !! name)) as Hno by (unfold cache_map; rewrite <- Hf; by intros [? ?]).
    destruct (Nat.leb_spec NM_MAX_CACHE (length (cache s))).
    + rewrite decide_False by (intros [?|?]; [done|lia]). by apply nm_cache_put_full.
    + rewrite decide_True by (by right). unfold cache_ok, cache_map. cbn [cache set_cache].
      destruct (keyed_snoc c_name c_ss_index (mk_cache name idx now) _ Hnd Hni) as [Hnd' Hk'].
      split; [split; [done|]|done]. rewrite length_app. cbn. lia.
Qed.

(** The location cache never holds more than its 128 entries nor a document twice; a
    look-up answers what the cache knows and a [put] is seen by the next look-up; a [put]
    of a new document in a full cache evicts one entry, a least recently used one, and no
    other entry changes. *)
Lemma nm_cache_spec name idx now s (Hc : cache_ok s) (Hn : length name < NM_MAX_NAME) :
  (let '(r, s') := nm_cache_lookup name now s in
   cache_ok s' /\ r = cache_map s !! name /\ cache_map s' = cache_map s) /\
  (let s' := nm_cache_put name idx now s in
   cache_ok s' /\
   if decide (is_Some (cache_map s !! name) \/ length (cache s) < NM_MAX_CACHE)
   then cache_map s' = <[name := idx]> (cache_map s)
   else exists c, c ∈ cache s /\ oldest_in c (cache s) /\
                  cache_map s' = <[name := idx]> (delete (c_name c) (cache_map s))).
Proof. split; [by apply nm_cache_lookup_ok|by apply nm_cache_put_ok]. Qed.

(** ** Concrete tables *)

(** Two documents in one bucket, the first of them shared. *)
Definition demo_state : nm_state :=
  let s := snd (nm_add_file (cs "plan") (cs "ann") 0 1 7 clear_state) in
  let s := snd (nm_add_file (cs "notes") (cs "bob") 1 0 8 s) in
  snd (nm_grant_access (cs "plan") (cs "bob") NM_PERM_READ s).

Lemma demo_state_ok : nm_ok demo_state /\ acl_ok demo_state.
Proof.
  unfold demo_state.
  pose proof (nm_add_file_ok (cs "plan") (cs "ann") 0 1 7 clear_state nm_ok_clear ltac:(vm_compute; lia)) as H1.
  destruct (nm_add_file _ _ _ _ _ clear_state) as [r1 s1] eqn:E1. vm_compute in E1. injection E1 as <- Es1.
  destruct H1 as (Ok1 & _ & _ & M1).
  pose proof (nm_add_file_ok (cs "notes") (cs "bob") 1 0 8 s1 Ok1 ltac:(vm_compute; lia)) as H2. cbn [snd].
  destruct (nm_add_file _ _ _ _ _ s1) as [r2 s2] eqn:E2. rewrite <- Es1 in E2. vm_compute in E2.
  injection E2 as <- Es2. destruct H2 as (Ok2 & _ & _ & M2). cbn [snd].
  assert (acl_ok s2) as A2.
  { unfold acl_ok. rewrite M2, M1. repeat apply map_Forall_insert_2; [..|apply map_Forall_empty];
      split; cbn; [constructor|lia|constructor|lia]. }
  pose proof (nm_grant_access_ok (cs "plan") (cs "bob") NM_PERM_READ s2 Ok2 A2 ltac:(vm_compute; lia)) as H3.
  destruct (nm_grant_access _ _ _ s2) as [r3 s3]. by destruct H3 as (? & ? & _).
Qed.

Lemma nm_table_refines_map_witness :
  find_file_search demo_state (cs "plan") = Found 0 /\
  (let '(r, s') := nm_add_file (cs "plan") (cs "eve") 0 0 9 demo_state in
   nm_ok s' /\ (r, nm_map s') = spec_add (cs "plan") (core (new_entry (cs "plan") (cs "eve") 0 0 9)) (nm_map demo_state)) /\
  (let '(r, s') := nm_remove_file (cs "plan") demo_state in nm_ok s' /\ (r, nm_map s') = spec_remove (cs "plan") (nm_map demo_state)) /\
  fst (nm_remove_file (cs "plan") demo_state) = NmOk /\
  fst (nm_remove_file (cs "eve") demo_state) = NmErr ENoEnt.
Proof.
  destruct (nm_table_refines_map (cs "plan") (cs "eve") 0 0 9 demo_state (proj1 demo_state_ok) ltac:(vm_compute; lia))
    as (_ & _ & H1 & H2).
  split; [vm_compute; reflexivity|]. split; [exact H1|]. split; [exact H2|]. split; vm_compute; reflexivity.
Defined.

Lemma nm_access_spec_witness :
  nm_check_access (cs "plan") (cs "bob") NM_PERM_WRITE demo_state = NmErr EAccess /\
  (let '(r, s') := nm_grant_access (cs "plan") (cs "bob") NM_PERM_WRITE demo_state in
   nm_ok s' /\ acl_ok s' /\ r = NmOk /\ nm_check_access (cs "plan") (cs "bob") NM_PERM_WRITE s' = NmOk).
Proof.
  destruct demo_state_ok as [Hok Ha].
  destruct (nm_access_spec (cs "plan") (cs "bob") NM_PERM_WRITE demo_state Hok Ha ltac:(vm_compute; lia)) as (H & _ & _).
  split; [vm_compute; reflexivity|].
  assert (fst (nm_grant_access (cs "plan") (cs "bob") NM_PERM_WRITE demo_state) = NmOk /\
          nm_check_access (cs "plan") (cs "bob") NM_PERM_WRITE
            (snd (nm_grant_access (cs "plan") (cs "bob") NM_PERM_WRITE demo_state)) = NmOk) as [E1 E2].
  { split; vm_compute; reflexivity. }
  destruct (nm_grant_access (cs "plan") (cs "bob") NM_PERM_WRITE demo_state) as [r s'].
  destruct H as (H1 & H2 & _). exact (conj H1 (conj H2 (conj E1 E2))).
Defined.

Definition demo_server (id : cstr) : storage_server := mk_server id (cs "localhost") (cs "9001") (cs "9002") 5 1.
Definition demo_servers : nm_state := set_servers [demo_server (cs "ss1"); demo_server (cs "ss2"); demo_server (cs "ss3")] clear_state.

Lemma nm_pick_round_robin_witness :
  fst (pick_many 4 demo_servers) = [Some 0; Some 1; Some 2; Some 0].
Proof.
  rewrite (nm_pick_round_robin 4 demo_servers ltac:(done)).
  - vm_compute. reflexivity.
  - repeat constructor.
Defined.

