(* ===== verification/NmPersist.v ===== *)
(** * [nm/nm_state.c]: the state file of the name manager

    [nm_state_save] writes one line per server, document, checkpoint, access-list entry,
    user and access request; [nm_state_load] reads the lines back with [sscanf] and
    [strtok_r].  The path is an argument: the persist path of the state. *)

From S2P Require Import Prelude Keyed Cstr Fs NmState.

(** ** [sscanf] and [strtok_r] *)

(** [%<w>s], [%d], [%ld]; the format's blanks match any white space, as the
    conversions themselves skip it. *)
Inductive conv := CStr (w : nat) | CInt | CLong.
Inductive arg := AStr (s : cstr) | ANum (z : Z).

(** The arguments that were assigned. *)
Fixpoint sscanf (fmt : list conv) (s : cstr) : list arg :=
  match fmt with
  | [] => []
  | c :: fmt =>
      let s := drop_while is_space s in
      match c with
      | CStr w =>
          match take w (take_while (fun x => negb (is_space x)) s) with
          | [] => []
          | v => AStr v :: sscanf fmt (drop (length v) s)
          end
      | CInt =>
          match scan_number s with
          | None => []
          | Some _ => ANum (to_int (fst (strtol s))) :: sscanf fmt (snd (strtol s))
          end
      | CLong =>
          match scan_number s with
          | None => []
          | Some _ => ANum (fst (strtol s)) :: sscanf fmt (snd (strtol s))
          end
      end
  end.

Definition space : ascii := " "%char.

(** [strtok_r] with the delimiter " ", [acc] the token begun. *)
Fixpoint strtok_loop (s acc : cstr) : list cstr :=
  match s with
  | [] => match acc with [] => [] | _ => [acc] end
  | c :: s =>
      if bool_decide (c = space)
      then match acc with [] => strtok_loop s [] | _ => acc :: strtok_loop s [] end
      else strtok_loop s (acc ++ [c])
  end.
Definition strtok (s : cstr) : list cstr := strtok_loop s [].

(** ** Saving *)

(** Words with blanks between them. *)
Fixpoint spaced (ws : list cstr) : cstr :=
  match ws with
  | [] => []
  | [w] => w
  | w :: ws => w ++ space :: spaced ws
  end.

Definition server_line (x : storage_server) : cstr :=
  spaced [cs "SERVER"; ss_id x; ss_host x; ss_ctrl_port x; ss_data_port x; show_Z (ss_online x)].
Definition file_line (f : file_entry) : cstr :=
  spaced [cs "FILE"; f_name f; f_owner f; show_Z (f_ss_index f); show_Z (f_backup_index f);
          show_nonneg (f_word_count f); show_nonneg (f_char_count f); show_Z (f_created f);
          show_Z (f_modified f); show_Z (f_last_access f); f_last_access_user f;
          show_nonneg (Z.of_nat (length (f_acl f)))].
Definition checkpoint_line (n : cstr) (c : checkpoint_entry) : cstr :=
  spaced [cs "CHECKPOINT"; n; ck_tag c; ck_user c; show_Z (ck_timestamp c)].
Definition acl_line (e : file_acl_entry) : cstr := spaced [cs "ACL"; acl_user e; show_Z (acl_perm e)].
Definition user_line (u : user_entry) : cstr := spaced [cs "USER"; u_name u; show_Z (u_last_seen u)].
Definition request_line (r : access_request) : cstr :=
  spaced [cs "REQ"; r_file r; r_owner r; r_requester r; show_Z (r_perm r); show_Z (r_status r)].

Definition file_lines (f : file_entry) : list cstr :=
  file_line f :: (checkpoint_line (f_name f) <$> f_checkpoints f) ++ (acl_line <$> f_acl f).

Definition state_lines (s : nm_state) : list cstr :=
  cs "VERSION 1" :: (server_line <$> servers s) ++ (nm_files s ≫= file_lines) ++
  (user_line <$> users s) ++ (request_line <$> requests s) ++ [cs "END"].

(** What the calls of [write_line] print. *)
Definition lines_text (ls : list cstr) : cstr := ls ≫= (fun l => l ++ [newline]).

(** The results of [write_line], [fflush] and [fsync] are not looked at. *)
Definition nm_state_save (path : cstr) (s : nm_state) (d : disk) : bool * disk :=
  match path with
  | [] => (true, d)
  | _ =>
      let tmp := tmp_path path in
      let '(opened, d) := fopen_w tmp d in
      if negb opened then (false, d)
      else
        let '(_, d) := fwrite tmp (lines_text (state_lines s)) d in
        let '(_, d) := plain_call d in
        let '(_, d) := plain_call d in
        let '(renamed, d) := rename tmp path d in
        if renamed then (true, d) else (false, snd (unlink tmp d))
  end.

(** ** Loading *)

(** The state so far and the slot [current_file] points to. *)
Definition loading : Type := nm_state * option nat.

Definition load_server (line : cstr) (s : nm_state) : loading :=
  (match sscanf [CStr 127; CStr 127; CStr 15; CStr 15; CInt] (drop 7 line) with
   | [AStr id; AStr host; AStr cp; AStr dp; ANum online] =>
       if length (servers s) <? NM_MAX_SERVERS
       then set_servers (servers s ++ [mk_server id host cp dp (-1) online]) s
       else s
   | _ => s
   end, None).

(** The entry of a FILE line. *)
Definition parse_file (tokens : list cstr) : option file_entry :=
  let tok i := default [] (tokens !! i) in
  let tok_count := length tokens in
  if tok_count <? 10 then None
  else
    let '(p, b, idx) :=
      if tok_count =? 11 then (atoi (tok 2), atoi (tok 3), 4) else (atoi (tok 2), (-1)%Z, 3) in
    if idx + 7 <=? tok_count then
      Some (mk_file (snprintf_s NM_MAX_NAME (tok 0)) (snprintf_s NM_MAX_USER (tok 1)) p b
              (strtoull (tok idx)) (strtoull (tok (idx + 1))) (atol (tok (idx + 2))) (atol (tok (idx + 3)))
              (atol (tok (idx + 4))) (snprintf_s NM_MAX_USER (tok (idx + 5))) [] [] 0)
    else None.

Definition load_file (line : cstr) (st : loading) : loading :=
  let '(s, cur) := st in
  if NM_MAX_FILES <=? length (nm_files s) then (s, cur)
  else
    match parse_file (take 12 (strtok (snprintf_s 512 (drop 5 line)))) with
    | None => (s, None)
    | Some f => (append_entry f s, Some (length (nm_files s)))
    end.

Definition load_acl (line : cstr) (st : loading) : loading :=
  let '(s, cur) := st in
  match cur with
  | None => (s, cur)
  | Some i =>
      match nm_files s !! i with
      | None => (s, cur)
      | Some f =>
          if length (f_acl f) <? NM_MAX_ACL then
            let e :=
              match sscanf [CStr 63; CInt] (drop 4 line) with
              | [AStr u; ANum p] => mk_acl u p
              | AStr u :: _ => mk_acl u 0
              | _ => mk_acl [] 0
              end in
            (set_nm_files (alter (fun f => with_acl (f_acl f ++ [e]) f) i (nm_files s)) s, cur)
          else (s, cur)
      end
  end.

Definition load_checkpoint (line : cstr) (st : loading) : loading :=
  let '(s, cur) := st in
  match sscanf [CStr 127; CStr 127; CStr 63; CLong] (drop 11 line) with
  | [AStr n; AStr tag; AStr user; ANum ts] =>
      match nm_find_file s n with
      | Some f =>
          if length (f_checkpoints f) <? NM_MAX_CHECKPOINTS
          then (update_file n (fun f => with_checkpoints (f_checkpoints f ++
                  [mk_checkpoint (snprintf_s NM_MAX_NAME tag) (snprintf_s NM_MAX_USER user) ts]) f) s, cur)
          else (s, cur)
      | None => (s, cur)
      end
  | _ => (s, cur)
  end.

Definition load_request (line : cstr) (s : nm_state) : loading :=
  (if length (requests s) <? NM_MAX_REQUESTS
   then match sscanf [CStr 127; CStr 63; CStr 63; CInt; CInt] (drop 4 line) with
        | [AStr f; AStr o; AStr r; ANum perm; ANum status] =>
            set_requests (requests s ++ [mk_request f o r perm status]) s
        | _ => s
        end
   else s, None).

Definition load_user (line : cstr) (s : nm_state) : loading :=
  (if length (users s) <? NM_MAX_USERS
   then set_users (users s ++
          [match sscanf [CStr 63; CLong] (drop 5 line) with
           | [AStr n; ANum seen] => mk_user n seen
           | AStr n :: _ => mk_user n 0
           | _ => mk_user [] 0
           end]) s
   else s, None).

Definition load_line (line : cstr) (st : loading) : loading :=
  if starts_with (cs "SERVER ") line then load_server line (fst st)
  else if starts_with (cs "FILE ") line then load_file line st
  else if starts_with (cs "ACL ") line then load_acl line st
  else if starts_with (cs "CHECKPOINT ") line then load_checkpoint line st
  else if starts_with (cs "REQ ") line then load_request line (fst st)
  else if starts_with (cs "USER ") line then load_user line (fst st)
  else (fst st, None).

(** The [fgets] loop with its buffer of 512 bytes; each round consumes a character. *)
Fixpoint load_lines (fuel : nat) (text : cstr) (st : loading) : loading :=
  match fuel, text with
  | S n, _ :: _ =>
      let '(raw, rest) := fgets_line 511 text in
      load_lines n rest (load_line (fst (cut (c_str raw) newline)) st)
  | _, _ => st
  end.

Definition load_text_state (text : cstr) : nm_state := fst (load_lines (length text) text (clear_state, None)).

(** A read error ends the loop as the end of the file does. *)
Definition nm_state_load (path : cstr) (s : nm_state) (d : disk) : bool * nm_state * disk :=
  match path with
  | [] => (true, s, d)
  | _ =>
      let '(opened, d) := plain_call d in
      match opened, files d !! path with
      | true, Some b =>
          let '(f, d) := next_fault d in
          (true, load_text_state (match f with Fine => b | Fails k => take k b end), d)
      | _, _ => (false, s, d)
      end
  end.

(** [nm_state_init] *)
Definition nm_state_init (path : cstr) (d : disk) : nm_state * disk :=
  match snprintf_s 256 path with
  | [] => (clear_state, d)
  | path => let '(_, s, d) := nm_state_load path clear_state d in (s, d)
  end.

(** ** Words *)

Lemma spaced_cons2 w w' ws : spaced (w :: w' :: ws) = w ++ space :: spaced (w' :: ws).
Proof. done. Qed.

(** A field that survives: not empty, no white space, no NUL. *)
Definition word (w : cstr) : Prop := w <> [] /\ Forall (fun c => is_space c = false /\ c <> "000"%char) w.

Lemma word_plain w : word w -> plain w.
Proof. intros [_ H]. eapply Forall_impl; [exact H|]. intros c [Hs Hn]. split; [|done]. by intros ->. Qed.

Lemma word_digits ds : ds <> [] -> Forall (fun c => is_digit c = true) ds -> word ds.
Proof.
  intros Hne Hd. split; [done|]. eapply Forall_impl; [exact Hd|]. intros c Hc. simpl in Hc.
  split; [by apply is_digit_not_space|]. by intros ->.
Qed.

Lemma word_show_nonneg n : (0 <= n)%Z -> word (show_nonneg n).
Proof. intros Hn. destruct (show_nonneg_spec n Hn) as (_ & Hne & Hd). by apply word_digits. Qed.

Lemma word_show_Z z : word (show_Z z).
Proof.
  unfold show_Z. destruct (Z.ltb_spec z 0); [|by apply word_show_nonneg].
  destruct (word_show_nonneg (- z)) as [_ H1]; [lia|]. split; [done|]. by constructor.
Qed.
#[local] Hint Resolve word_plain word_show_nonneg word_show_Z : cowrite.

Lemma dec_loop_fuel f1 f2 n acc :
  (0 <= n < 10 ^ Z.of_nat f1)%Z -> (n < 10 ^ Z.of_nat f2)%Z -> f1 <> 0 -> f2 <> 0 ->
  dec_loop f1 n acc = dec_loop f2 n acc.
Proof.
  revert f2 n acc. induction f1 as [|f1 IH]; intros [|f2] n acc H1 H2 N1 N2; [done..|]. cbn [dec_loop].
  destruct (Z.ltb_spec n 10); [done|]. rewrite !Nat2Z.inj_succ, !Z.pow_succ_r in * by lia.
  assert (n `div` 10 < 10 ^ Z.of_nat f1)%Z by (apply Z.div_lt_upper_bound; lia).
  assert (n `div` 10 < 10 ^ Z.of_nat f2)%Z by (apply Z.div_lt_upper_bound; lia).
  assert (0 < n `div` 10)%Z by (apply Z.div_str_pos; lia).
  apply IH; [split; [lia|done]|done|..]; intros ->; simpl in *; lia.
Qed.

Lemma show_nonneg_digits k n : (0 <= n < 10 ^ Z.of_nat k)%Z -> k <> 0 -> length (show_nonneg n) <= k.
Proof.
  intros Hn Hk. unfold show_nonneg.
  rewrite (dec_loop_fuel _ k) by (try apply log2_fuel; lia || (split; [lia|apply log2_fuel; lia])).
  destruct (dec_loop_spec k n [] Hn Hk) as (ds & -> & _ & _ & _ & Hl). by rewrite app_nil_r.
Qed.

Lemma show_Z_digits k z : (- 10 ^ Z.of_nat k < z < 10 ^ Z.of_nat k)%Z -> k <> 0 -> length (show_Z z) <= S k.
Proof.
  intros Hz Hk. unfold show_Z. destruct (Z.ltb_spec z 0).
  - pose proof (show_nonneg_digits k (- z)). simpl. lia.
  - pose proof (show_nonneg_digits k z). lia.
Qed.

Lemma show_int_length z : (INT_MIN <= z <= INT_MAX)%Z -> length (show_Z z) <= 11.
Proof. intros. apply show_Z_digits; [|done]. unfold INT_MIN, INT_MAX in *. simpl. lia. Qed.

Lemma show_long_length z : (LONG_MIN <= z <= LONG_MAX)%Z -> length (show_Z z) <= 20.
Proof. intros. apply show_Z_digits; [|done]. unfold LONG_MIN, LONG_MAX in *. simpl. lia. Qed.

Lemma show_size_length n : (0 <= n < SIZE_MOD)%Z -> length (show_nonneg n) <= 20.
Proof. intros. apply show_nonneg_digits; [|done]. unfold SIZE_MOD in *. simpl. lia. Qed.

(** *** Reading words back *)

Definition ends (rest : cstr) : Prop := rest = [] \/ exists k, rest = space :: k.

Lemma drop_spaces_word w rest : word w -> drop_while is_space (w ++ rest) = w ++ rest.
Proof. intros [Hne Hw]. destruct w as [|c w]; [done|]. apply List.Forall_inv in Hw as [Hc _]. cbn. by rewrite Hc. Qed.

Lemma take_word w rest : word w -> ends rest -> take_while (fun x => negb (is_space x)) (w ++ rest) = w.
Proof.
  intros [_ Hw] Hr. rewrite take_while_app_stop; [done| |].
  - eapply Forall_impl; [exact Hw|]. intros c [Hc _]. cbv beta. by rewrite Hc.
  - intros x k ->. destruct Hr as [?|[j [= -> _]]]; [done|]. done.
Qed.

Lemma scan_show_Z z rest : ends rest -> (LONG_MIN <= z <= LONG_MAX)%Z ->
  is_Some (scan_number (show_Z z ++ rest)) /\ strtol (show_Z z ++ rest) = (z, rest).
Proof.
  intros Hr Hz. assert (forall x k, rest = x :: k -> is_digit x = false) as Hd.
  { intros x k ->. by destruct Hr as [?|[j [= -> _]]]. }
  split; [|by apply strtol_show_Z]. unfold show_Z. destruct (Z.ltb_spec z 0).
  - destruct (show_nonneg_spec (- z)) as (_ & Hne & Hds); [lia|]. cbn [app]. by rewrite scan_number_neg.
  - destruct (show_nonneg_spec z) as (_ & Hne & Hds); [lia|]. by rewrite scan_number_digits.
Qed.

(** A field and what its conversion assigns. *)
Inductive field_ok : conv -> cstr -> arg -> Prop :=
| field_str n w : word w -> length w <= n -> field_ok (CStr n) w (AStr w)
| field_int z : (INT_MIN <= z <= INT_MAX)%Z -> field_ok CInt (show_Z z) (ANum z)
| field_long z : (LONG_MIN <= z <= LONG_MAX)%Z -> field_ok CLong (show_Z z) (ANum z).
#[local] Hint Constructors field_ok : cowrite.

Lemma int_long z : (INT_MIN <= z <= INT_MAX)%Z -> (LONG_MIN <= z <= LONG_MAX)%Z.
Proof. unfold INT_MIN, INT_MAX, LONG_MIN, LONG_MAX. lia. Qed.

Lemma field_word c w a : field_ok c w a -> word w.
Proof. destruct 1; auto with cowrite. Qed.

Lemma sscanf_field c fmt w a rest :
  field_ok c w a -> ends rest -> sscanf (c :: fmt) (w ++ rest) = a :: sscanf fmt rest.
Proof.
  intros Hf Hr. cbn [sscanf]. rewrite drop_spaces_word by (by eapply field_word).
  destruct Hf as [n w Hw Hl|z Hz|z Hz].
  - rewrite take_word, take_ge by done. destruct w as [|x w]; [by destruct Hw|]. by rewrite drop_app_length.
  - destruct (scan_show_Z z rest Hr (int_long z Hz)) as [[x ->] ->]. cbn [fst snd]. by rewrite to_int_id.
  - destruct (scan_show_Z z rest Hr Hz) as [[x ->] ->]. done.
Qed.

Lemma sscanf_blank fmt s : sscanf fmt (space :: s) = sscanf fmt s.
Proof. by destruct fmt. Qed.

Inductive fields_ok : list conv -> list cstr -> list arg -> Prop :=
| fields_nil : fields_ok [] [] []
| fields_cons c w a cs ws vs : field_ok c w a -> fields_ok cs ws vs -> fields_ok (c :: cs) (w :: ws) (a :: vs).
#[local] Hint Constructors fields_ok : cowrite.

Lemma sscanf_spaced fmt ws vs : fields_ok fmt ws vs -> sscanf fmt (spaced ws) = vs.
Proof.
  induction 1 as [|c w a cs ws vs Hf Hs IH]; [done|]. destruct ws as [|w' ws].
  - inversion Hs; subst. cbn [spaced]. rewrite <- (app_nil_r w). rewrite (sscanf_field c [] w a) by (done || by left). done.
  - rewrite spaced_cons2, (sscanf_field c cs w a) by (done || (right; by eexists)).
    by rewrite sscanf_blank, IH.
Qed.

Lemma strtok_loop_word w acc rest :
  Forall (fun c => c <> space) w -> strtok_loop (w ++ rest) acc = strtok_loop rest (acc ++ w).
Proof.
  revert acc. induction w as [|c w IH]; intros acc Hw; [by rewrite app_nil_r|].
  apply List.Forall_cons_iff in Hw as [Hc Hw]. cbn [app strtok_loop]. rewrite bool_decide_false by done.
  by rewrite IH, <- app_assoc.
Qed.

Lemma word_no_blank w : word w -> Forall (fun c => c <> space) w.
Proof. intros [_ H]. eapply Forall_impl; [exact H|]. intros c [Hc _]. by intros ->. Qed.

Lemma strtok_spaced ws : Forall word ws -> strtok (spaced ws) = ws.
Proof.
  unfold strtok. induction 1 as [|w ws Hw Hws IH]; [done|]. pose proof (word_no_blank w Hw).
  destruct ws as [|w' ws].
  - cbn [spaced]. rewrite <- (app_nil_r w) at 1. rewrite strtok_loop_word by done. destruct w; [by destruct Hw|done].
  - rewrite spaced_cons2, strtok_loop_word by done. cbn [app strtok_loop]. rewrite bool_decide_true by done.
    destruct w; [by destruct Hw|]. by rewrite IH.
Qed.

Lemma plain_spaced ws : Forall word ws -> plain (spaced ws).
Proof.
  induction 1 as [|w ws Hw Hws IH]; [constructor|]. destruct ws as [|w' ws]; [cbn [spaced]; auto with cowrite|]. rewrite spaced_cons2.
  apply Forall_app. split; [by apply word_plain|]. by constructor.
Qed.

Definition total (ws : list cstr) : nat := sum_list_with (fun w => S (length w)) ws.

Lemma length_spaced ws : length (spaced ws) <= total ws.
Proof.
  unfold total. induction ws as [|w [|w' ws] IH]; [done|cbn; lia|].
  rewrite spaced_cons2, length_app. cbn [length sum_list_with] in *. lia.
Qed.

Lemma spaced_cons w ws : ws <> [] -> spaced (w :: ws) = (w ++ [space]) ++ spaced ws.
Proof. destruct ws; [done|]. intros _. rewrite spaced_cons2. by rewrite <- app_assoc. Qed.

(** *** The lines of a file *)

Definition short (l : cstr) : Prop := plain l /\ length l < 511.

Lemma load_lines_text ls st fuel :
  Forall short ls -> length (lines_text ls) <= fuel ->
  load_lines fuel (lines_text ls) st = foldl (fun st l => load_line l st) st ls.
Proof.
  intros Hs. revert st fuel. induction Hs as [|l ls [Hp Hl] Hs IH]; intros st fuel Hf; [by destruct fuel|].
  unfold lines_text in *. cbn [mbind list_bind foldl] in *. rewrite <- app_assoc in *. cbn [app] in *.
  destruct fuel as [|fuel]; [rewrite length_app in Hf; simpl in Hf; lia|].
  destruct (l ++ newline :: (ls ≫= (fun l => l ++ [newline]))) as [|c t] eqn:E; [by destruct l|].
  cbn [load_lines]. rewrite <- E, fgets_line_plain by done.
  rewrite c_str_id by (apply Forall_app; split; [by apply plain_no_nul|by constructor]).
  rewrite (cut_at l [] newline) by (eapply Forall_impl; [exact Hp|]; by intros x [Hx _]). cbn [fst].
  apply IH. apply (f_equal length) in E. rewrite length_app in E. cbn [length] in *. lia.
Qed.

(** ** What the state file can hold *)

Definition fits (n : nat) (w : cstr) : Prop := word w /\ length w < n.
Definition int_ok (z : Z) : Prop := (INT_MIN <= z <= INT_MAX)%Z.
Definition long_ok (z : Z) : Prop := (LONG_MIN <= z <= LONG_MAX)%Z.
Definition size_ok (z : Z) : Prop := (0 <= z < SIZE_MOD)%Z.

Definition server_ok (x : storage_server) : Prop :=
  fits NM_MAX_NAME (ss_id x) /\ fits NM_MAX_NAME (ss_host x) /\ fits 16 (ss_ctrl_port x) /\
  fits 16 (ss_data_port x) /\ int_ok (ss_online x).
Definition acl_entry_ok (e : file_acl_entry) : Prop := fits NM_MAX_USER (acl_user e) /\ int_ok (acl_perm e).
Definition checkpoint_ok (c : checkpoint_entry) : Prop :=
  fits NM_MAX_NAME (ck_tag c) /\ fits NM_MAX_USER (ck_user c) /\ long_ok (ck_timestamp c).
Definition user_ok (u : user_entry) : Prop := fits NM_MAX_USER (u_name u) /\ long_ok (u_last_seen u).
Definition request_ok (r : access_request) : Prop :=
  fits NM_MAX_NAME (r_file r) /\ fits NM_MAX_USER (r_owner r) /\ fits NM_MAX_USER (r_requester r) /\
  int_ok (r_perm r) /\ int_ok (r_status r).

Record entry_ok (f : file_entry) : Prop := {
  eo_name : fits NM_MAX_NAME (f_name f);
  eo_owner : fits NM_MAX_USER (f_owner f);
  eo_last_user : fits NM_MAX_USER (f_last_access_user f);
  eo_ss : int_ok (f_ss_index f);
  eo_backup : int_ok (f_backup_index f);
  eo_words : size_ok (f_word_count f);
  eo_chars : size_ok (f_char_count f);
  eo_created : long_ok (f_created f);
  eo_modified : long_ok (f_modified f);
  eo_access : long_ok (f_last_access f);
  eo_acl : Forall acl_entry_ok (f_acl f) /\ length (f_acl f) <= NM_MAX_ACL;
  eo_checkpoints : Forall checkpoint_ok (f_checkpoints f) /\ length (f_checkpoints f) <= NM_MAX_CHECKPOINTS;
}.

Record persistable (s : nm_state) : Prop := {
  ps_servers : Forall server_ok (servers s) /\ length (servers s) <= NM_MAX_SERVERS;
  ps_files : Forall entry_ok (nm_files s);
  ps_users : Forall user_ok (users s) /\ length (users s) <= NM_MAX_USERS;
  ps_requests : Forall request_ok (requests s) /\ length (requests s) <= NM_MAX_REQUESTS;
}.

(** *** Every line is short *)

Ltac literal := repeat constructor; by intros ?.

Lemma short_spaced ws : Forall word ws -> total ws <= 510 -> short (spaced ws).
Proof. intros Hw Ht. split; [by apply plain_spaced|]. pose proof (length_spaced ws). lia. Qed.

Lemma total_cons w ws : total (w :: ws) = S (length w) + total ws.
Proof. done. Qed.

Ltac solve_words := repeat (apply List.Forall_cons; [first [by auto with cowrite | split; [done|literal]]|]); apply List.Forall_nil.
Ltac unfold_bounds := unfold fits, int_ok, long_ok, size_ok, NM_MAX_NAME, NM_MAX_USER, NM_MAX_ACL, NM_MAX_CHECKPOINTS in *.
Ltac solve_short :=
  apply short_spaced; [solve_words|]; rewrite ?total_cons;
  change (total []) with 0; simpl length; lia.

Lemma short_server_line x : server_ok x -> short (server_line x).
Proof.
  unfold server_ok. intros ([] & [] & [] & [] & Ho). pose proof (show_int_length _ Ho). unfold_bounds. solve_short.
Qed.

Lemma short_checkpoint_line n c : fits NM_MAX_NAME n -> checkpoint_ok c -> short (checkpoint_line n c).
Proof.
  unfold checkpoint_ok. intros [] ([] & [] & Ht). pose proof (show_long_length _ Ht). unfold_bounds. solve_short.
Qed.

Lemma short_acl_line e : acl_entry_ok e -> short (acl_line e).
Proof. intros ([] & Hp). pose proof (show_int_length _ Hp). unfold_bounds. solve_short. Qed.

Lemma short_user_line u : user_ok u -> short (user_line u).
Proof. intros ([] & Hp). pose proof (show_long_length _ Hp). unfold_bounds. solve_short. Qed.

Lemma short_request_line r : request_ok r -> short (request_line r).
Proof.
  intros ([] & [] & [] & Hp & Hs). pose proof (show_int_length _ Hp). pose proof (show_int_length _ Hs).
  unfold_bounds. solve_short.
Qed.

Lemma file_line_words f : entry_ok f ->
  Forall word [f_name f; f_owner f; show_Z (f_ss_index f); show_Z (f_backup_index f);
               show_nonneg (f_word_count f); show_nonneg (f_char_count f); show_Z (f_created f);
               show_Z (f_modified f); show_Z (f_last_access f); f_last_access_user f;
               show_nonneg (Z.of_nat (length (f_acl f)))].
Proof.
  intros [[] [] [] _ _ [] [] _ _ _ _ _].
  repeat (apply List.Forall_cons; [first [assumption | apply word_show_Z | apply word_show_nonneg; lia]|]).
  apply List.Forall_nil.
Qed.

Lemma short_file_line f : entry_ok f -> short (file_line f).
Proof.
  intros Hf. unfold file_line. apply short_spaced.
  - apply List.Forall_cons; [split; [done|literal]|by apply file_line_words].
  - destruct Hf as [[_ ?] [_ ?] [_ ?] H1 H2 H3 H4 H5 H6 H7 [_ Ha] _]. rewrite !total_cons.
    pose proof (show_int_length _ H1). pose proof (show_int_length _ H2). pose proof (show_size_length _ H3).
    pose proof (show_size_length _ H4). pose proof (show_long_length _ H5). pose proof (show_long_length _ H6).
    pose proof (show_long_length _ H7). pose proof (show_size_length (Z.of_nat (length (f_acl f)))) as Hlen.
    unfold_bounds. change (total []) with 0. simpl length. unfold SIZE_MOD in *. lia.
Qed.

Lemma short_file_lines f : entry_ok f -> Forall short (file_lines f).
Proof.
  intros Hf. apply List.Forall_cons; [by apply short_file_line|]. destruct (eo_acl f Hf) as [Ha _].
  destruct (eo_checkpoints f Hf) as [Hc _]. apply Forall_app. split; apply Forall_fmap.
  - eapply Forall_impl; [exact Hc|]. intros c. apply short_checkpoint_line, Hf.
  - eapply Forall_impl; [exact Ha|]. apply short_acl_line.
Qed.

Lemma short_state_lines s : persistable s -> Forall short (state_lines s).
Proof.
  intros [[Hs _] Hf [Hu _] [Hr _]]. unfold state_lines. apply List.Forall_cons; [split; [literal|simpl; lia]|].
  rewrite !Forall_app. split_and!.
  - apply Forall_fmap. eapply Forall_impl; [exact Hs|]. apply short_server_line.
  - apply Forall_bind. eapply Forall_impl; [exact Hf|]. apply short_file_lines.
  - apply Forall_fmap. eapply Forall_impl; [exact Hu|]. apply short_user_line.
  - apply Forall_fmap. eapply Forall_impl; [exact Hr|]. apply short_request_line.
  - apply Forall_singleton. split; [literal|simpl; lia].
Qed.

(** ** Loading the lines back *)

Definition offline (x : storage_server) : storage_server :=
  mk_server (ss_id x) (ss_host x) (ss_ctrl_port x) (ss_data_port x) (-1) (ss_online x).

Ltac solve_fields :=
  repeat (apply fields_cons;
    [first [apply field_str; [assumption|unfold_bounds; lia] | apply field_int; assumption | apply field_long; assumption]|]);
  apply fields_nil.

Ltac tagged t := unfold t; rewrite spaced_cons by done.

Lemma load_server_line x s cur :
  server_ok x -> length (servers s) < NM_MAX_SERVERS ->
  load_line (server_line x) (s, cur) = (set_servers (servers s ++ [offline x]) s, None).
Proof.
  intros ([] & [] & [] & [] & Ho) Hl. tagged server_line.
  change (load_server (cs "SERVER " ++ spaced [ss_id x; ss_host x; ss_ctrl_port x; ss_data_port x; show_Z (ss_online x)]) s
          = (set_servers (servers s ++ [offline x]) s, None)).
  unfold load_server. rewrite drop_app_length' by done. erewrite sscanf_spaced.
  2: solve_fields.
  by destruct (Nat.ltb_spec (length (servers s)) NM_MAX_SERVERS); [|lia].
Qed.

Lemma load_user_line u s cur :
  user_ok u -> length (users s) < NM_MAX_USERS ->
  load_line (user_line u) (s, cur) = (set_users (users s ++ [u]) s, None).
Proof.
  intros ([] & Ho) Hl. tagged user_line.
  change (load_user (cs "USER " ++ spaced [u_name u; show_Z (u_last_seen u)]) s = (set_users (users s ++ [u]) s, None)).
  unfold load_user. rewrite drop_app_length' by done. erewrite sscanf_spaced.
  2: solve_fields.
  destruct (Nat.ltb_spec (length (users s)) NM_MAX_USERS); [|lia]. by destruct u.
Qed.

Lemma load_request_line r s cur :
  request_ok r -> length (requests s) < NM_MAX_REQUESTS ->
  load_line (request_line r) (s, cur) = (set_requests (requests s ++ [r]) s, None).
Proof.
  intros ([] & [] & [] & Hp & Hs) Hl. tagged request_line.
  change (load_request (cs "REQ " ++ spaced [r_file r; r_owner r; r_requester r; show_Z (r_perm r); show_Z (r_status r)]) s
          = (set_requests (requests s ++ [r]) s, None)).
  unfold load_request. rewrite drop_app_length' by done. erewrite sscanf_spaced.
  2: solve_fields.
  destruct (Nat.ltb_spec (length (requests s)) NM_MAX_REQUESTS); [|lia]. by destruct r.
Qed.

(** The entry of the FILE line, before its access list and checkpoints. *)
Definition bare (f : file_entry) : file_entry :=
  mk_file (f_name f) (f_owner f) (f_ss_index f) (f_backup_index f) (f_word_count f) (f_char_count f) (f_created f)
    (f_modified f) (f_last_access f) (f_last_access_user f) [] [] 0.

Lemma load_file_line f s cur :
  entry_ok f -> length (nm_files s) < NM_MAX_FILES ->
  load_line (file_line f) (s, cur) = (append_entry (bare f) s, Some (length (nm_files s))).
Proof.
  intros Hf Hl. pose proof (short_file_line f Hf) as [_ Hlen]. revert Hlen. tagged file_line.
  set (ws := [f_name f; _; _; _; _; _; _; _; _; _; _]). intros Hlen.
  change (load_file (cs "FILE " ++ spaced ws) (s, cur) = (append_entry (bare f) s, Some (length (nm_files s)))).
  unfold load_file. rewrite drop_app_length' by done. rewrite !length_app in Hlen. change (length (cs "FILE")) with 4 in Hlen.
  rewrite snprintf_s_id by lia. rewrite strtok_spaced by (by apply file_line_words).
  destruct (Nat.leb_spec NM_MAX_FILES (length (nm_files s))); [lia|].
  assert (parse_file (take 12 ws) = Some (bare f)) as ->; [|done].
  destruct Hf as [[_ ?] [_ ?] [_ ?] H1 H2 H3 H4 H5 H6 H7 _ _]. unfold parse_file, ws. simpl. unfold bare.
  rewrite !snprintf_s_id, !atoi_show_Z, !atol_show_Z, !strtoull_show by done. done.
Qed.

Lemma load_acl_line e s i f :
  acl_entry_ok e -> nm_files s !! i = Some f -> length (f_acl f) < NM_MAX_ACL ->
  load_line (acl_line e) (s, Some i) =
    (set_nm_files (alter (fun f => with_acl (f_acl f ++ [e]) f) i (nm_files s)) s, Some i).
Proof.
  intros ([] & Hp) Hi Hl. tagged acl_line.
  change (load_acl (cs "ACL " ++ spaced [acl_user e; show_Z (acl_perm e)]) (s, Some i) =
    (set_nm_files (alter (fun f => with_acl (f_acl f ++ [e]) f) i (nm_files s)) s, Some i)).
  unfold load_acl. rewrite Hi, drop_app_length' by done. erewrite sscanf_spaced.
  2: solve_fields.
  destruct (Nat.ltb_spec (length (f_acl f)) NM_MAX_ACL); [|lia]. by destruct e.
Qed.

Lemma load_checkpoint_line c s cur f :
  checkpoint_ok c -> fits NM_MAX_NAME (f_name f) -> nm_find_file s (f_name f) = Some f ->
  length (f_checkpoints f) < NM_MAX_CHECKPOINTS ->
  load_line (checkpoint_line (f_name f) c) (s, cur) =
    (update_file (f_name f) (fun f => with_checkpoints (f_checkpoints f ++ [c]) f) s, cur).
Proof.
  intros ([] & [] & Ht) [] Hf Hl. tagged checkpoint_line.
  change (load_checkpoint (cs "CHECKPOINT " ++ spaced [f_name f; ck_tag c; ck_user c; show_Z (ck_timestamp c)]) (s, cur) =
    (update_file (f_name f) (fun f => with_checkpoints (f_checkpoints f ++ [c]) f) s, cur)).
  unfold load_checkpoint. rewrite drop_app_length' by done. erewrite sscanf_spaced.
  2: solve_fields.
  lazy iota. rewrite Hf. destruct (Nat.ltb_spec (length (f_checkpoints f)) NM_MAX_CHECKPOINTS); [|lia].
  rewrite !snprintf_s_id by done. by destruct c.
Qed.

(** *** Sections of the file *)

Definition load_all (ls : list cstr) (st : loading) : loading := foldl (fun st l => load_line l st) st ls.

Lemma load_all_app ls ks st : load_all (ls ++ ks) st = load_all ks (load_all ls st).
Proof. apply foldl_app. Qed.

Lemma load_servers xs s cur :
  Forall server_ok xs -> length (servers s) + length xs <= NM_MAX_SERVERS ->
  exists cur', load_all (server_line <$> xs) (s, cur) = (set_servers (servers s ++ (offline <$> xs)) s, cur').
Proof.
  intros Hx. revert s cur. induction Hx as [|x xs Hx Hxs IH]; intros s cur Hl.
  - exists cur. cbn. rewrite app_nil_r. by destruct s.
  - simpl in Hl. destruct (IH (set_servers (servers s ++ [offline x]) s) None) as [cur' E].
    { cbn. rewrite length_app. simpl. lia. }
    exists cur'. cbn [fmap list_fmap load_all foldl]. rewrite load_server_line by (done || lia).
    etransitivity; [exact E|]. cbn [servers set_servers]. by rewrite <- app_assoc.
Qed.

Lemma load_users xs s cur :
  Forall user_ok xs -> length (users s) + length xs <= NM_MAX_USERS ->
  exists cur', load_all (user_line <$> xs) (s, cur) = (set_users (users s ++ xs) s, cur').
Proof.
  intros Hx. revert s cur. induction Hx as [|x xs Hx Hxs IH]; intros s cur Hl.
  - exists cur. cbn. rewrite app_nil_r. by destruct s.
  - simpl in Hl. destruct (IH (set_users (users s ++ [x]) s) None) as [cur' E].
    { cbn. rewrite length_app. simpl. lia. }
    exists cur'. cbn [fmap list_fmap load_all foldl]. rewrite load_user_line by (done || lia).
    etransitivity; [exact E|]. cbn [users set_users]. by rewrite <- app_assoc.
Qed.

Lemma load_requests xs s cur :
  Forall request_ok xs -> length (requests s) + length xs <= NM_MAX_REQUESTS ->
  exists cur', load_all (request_line <$> xs) (s, cur) = (set_requests (requests s ++ xs) s, cur').
Proof.
  intros Hx. revert s cur. induction Hx as [|x xs Hx Hxs IH]; intros s cur Hl.
  - exists cur. cbn. rewrite app_nil_r. by destruct s.
  - simpl in Hl. destruct (IH (set_requests (requests s ++ [x]) s) None) as [cur' E].
    { cbn. rewrite length_app. simpl. lia. }
    exists cur'. cbn [fmap list_fmap load_all foldl]. rewrite load_request_line by (done || lia).
    etransitivity; [exact E|]. cbn [requests set_requests]. by rewrite <- app_assoc.
Qed.

(** *** One document *)

Definition others (s : nm_state) :=
  (servers s, next_primary_index s, next_backup_index s, users s, cache s, requests s).

(** The documents loaded so far, chains apart; everything else as in [s0]. *)
Record loaded (s0 s : nm_state) (L : list file_entry) : Prop := {
  ld_ok : nm_ok s;
  ld_files : core <$> nm_files s = L;
  ld_others : others s = others s0;
}.

Lemma others_append f s : others (append_entry f s) = others s.
Proof. unfold append_entry, file_hash_insert. cbv zeta. by destruct (_ !! _). Qed.

Lemma loaded_last s0 s L g :
  loaded s0 s (L ++ [g]) -> exists f, nm_files s !! length L = Some f /\ core f = g.
Proof.
  intros [_ Hf _]. assert ((core <$> nm_files s) !! length L = Some g) as E.
  { rewrite Hf, lookup_app_r, Nat.sub_diag by done. done. }
  rewrite list_lookup_fmap in E. apply fmap_Some in E as (f & Hl & ->). by exists f.
Qed.

(** Changing the document loaded last. *)
Lemma loaded_alter s0 s L g upd :
  loaded s0 s (L ++ [g]) -> local_update upd ->
  loaded s0 (set_nm_files (alter upd (length L) (nm_files s)) s) (L ++ [upd g]).
Proof.
  intros [Hok Hf Ho] Hu. destruct (alter_file_ok upd Hu (length L) s Hok) as [Hok' Ha]. split; [done| |done].
  by rewrite Ha, Hf, alter_app_r_alt, Nat.sub_diag by done.
Qed.

Lemma load_checkpoints n cks s0 s cur L g :
  Forall checkpoint_ok cks -> fits NM_MAX_NAME n -> f_name g = n -> loaded s0 s (L ++ [g]) ->
  length (f_checkpoints g) + length cks <= NM_MAX_CHECKPOINTS ->
  exists s', load_all (checkpoint_line n <$> cks) (s, cur) = (s', cur) /\
             loaded s0 s' (L ++ [with_checkpoints (f_checkpoints g ++ cks) g]).
Proof.
  intros Hc Hn. revert s g. induction Hc as [|c cks Hc Hcs IH]; intros s g Hg Hs Hl.
  - exists s. rewrite app_nil_r. split; [done|]. by destruct g.
  - destruct (loaded_last s0 s L g Hs) as (f & Hf & Hfg). simpl in Hl.
    assert (f_name f = n) as Hfn by (rewrite <- Hg, <- Hfg; done).
    assert (find_file_index s n = Some (length L)) as Hi.
    { apply find_file_index_Some; [apply Hs|]. by exists f. }
    set (upd := fun f => with_checkpoints (f_checkpoints f ++ [c]) f).
    pose proof (loaded_alter s0 s L g upd Hs ltac:(by split)) as Hs'.
    destruct (IH _ (upd g) Hg Hs') as (s' & E & Hs''); [unfold upd; cbn; rewrite length_app; simpl; lia|].
    exists s'. split; [|unfold upd in Hs''; cbn in Hs''; by rewrite <- app_assoc in Hs''].
    cbn [fmap list_fmap load_all foldl]. rewrite <- Hfn at 1. rewrite load_checkpoint_line with (f := f).
    + rewrite Hfn. unfold update_file. rewrite Hi. exact E.
    + done.
    + by rewrite Hfn.
    + unfold nm_find_file. rewrite Hfn, Hi. done.
    + rewrite <- Hfg in Hl. cbn in Hl. lia.
Qed.

Lemma load_acls es s0 s L g :
  Forall acl_entry_ok es -> loaded s0 s (L ++ [g]) -> length (f_acl g) + length es <= NM_MAX_ACL ->
  exists s', load_all (acl_line <$> es) (s, Some (length L)) = (s', Some (length L)) /\
             loaded s0 s' (L ++ [with_acl (f_acl g ++ es) g]).
Proof.
  intros Hc. revert s g. induction Hc as [|c cks Hc Hcs IH]; intros s g Hs Hl.
  - exists s. rewrite app_nil_r. split; [done|]. by destruct g.
  - destruct (loaded_last s0 s L g Hs) as (f & Hf & Hfg). simpl in Hl.
    set (upd := fun f => with_acl (f_acl f ++ [c]) f).
    pose proof (loaded_alter s0 s L g upd Hs ltac:(by split)) as Hs'.
    destruct (IH _ (upd g) Hs') as (s' & E & Hs''); [unfold upd; cbn; rewrite length_app; simpl; lia|].
    exists s'. split; [|unfold upd in Hs''; cbn in Hs''; by rewrite <- app_assoc in Hs''].
    cbn [fmap list_fmap load_all foldl]. rewrite (load_acl_line c s (length L) f); [exact E|done|done|].
    rewrite <- Hfg in Hl. cbn in Hl. lia.
Qed.

Lemma load_document f s0 s cur L :
  entry_ok f -> loaded s0 s L -> length L < NM_MAX_FILES -> f_name f ∉ f_name <$> L ->
  exists s' cur', load_all (file_lines f) (s, cur) = (s', cur') /\ loaded s0 s' (L ++ [core f]).
Proof.
  intros Hf [Hok HL Ho] Hl Hni.
  assert (length (nm_files s) = length L) as El by (rewrite <- HL; by rewrite length_fmap).
  assert (f_name (bare f) ∉ f_name <$> nm_files s) as Hni'.
  { rewrite <- HL, <- list_fmap_compose in Hni. exact Hni. }
  destruct (append_entry_ok (bare f) s Hok ltac:(lia) Hni') as [Hok1 Hf1].
  assert (loaded s0 (append_entry (bare f) s) (L ++ [core (bare f)])) as H1.
  { split; [done|by rewrite Hf1, HL|by rewrite others_append]. }
  destruct (eo_checkpoints f Hf) as [Hc Hcl]. destruct (eo_acl f Hf) as [Ha Hal].
  destruct (load_checkpoints (f_name f) (f_checkpoints f) s0 _ (Some (length L)) L (core (bare f)) Hc (eo_name f Hf) eq_refl H1)
    as (s2 & E2 & H2); [cbn; lia|].
  destruct (load_acls (f_acl f) s0 s2 L _ Ha H2) as (s3 & E3 & H3); [cbn; lia|].
  exists s3, (Some (length L)). split; [|exact H3]. unfold file_lines.
  cbn [load_all foldl]. rewrite load_file_line, El by (done || lia).
  change (load_all ((checkpoint_line (f_name f) <$> f_checkpoints f) ++ (acl_line <$> f_acl f))
            (append_entry (bare f) s, Some (length L)) = (s3, Some (length L))).
  by rewrite load_all_app, E2.
Qed.

Lemma load_documents fs s0 s cur L :
  Forall entry_ok fs -> loaded s0 s L -> length L + length fs <= NM_MAX_FILES ->
  NoDup (f_name <$> (L ++ (core <$> fs))) ->
  exists s' cur', load_all (fs ≫= file_lines) (s, cur) = (s', cur') /\ loaded s0 s' (L ++ (core <$> fs)).
Proof.
  intros Hfs. revert s cur L. induction Hfs as [|f fs Hf Hfs IH]; intros s cur L HL Hl Hnd.
  - exists s, cur. cbn. by rewrite app_nil_r.
  - simpl in Hl. cbn [fmap list_fmap] in Hnd. rewrite cons_middle, app_assoc in Hnd.
    destruct (load_document f s0 s cur L Hf HL ltac:(lia)) as (s1 & cur1 & E1 & H1).
    { rewrite !fmap_app in Hnd. apply NoDup_app in Hnd as (Hnd & _ & _). apply NoDup_app in Hnd as (_ & Hd & _).
      intros Hin. apply (Hd _ Hin). cbn. left. }
    destruct (IH s1 cur1 _ H1) as (s2 & cur2 & E2 & H2); [rewrite length_app; simpl; lia|done|].
    exists s2, cur2. split; [|by rewrite <- app_assoc in H2]. cbn [mbind list_bind]. by rewrite load_all_app, E1.
Qed.

Lemma load_state_lines s :
  nm_ok s -> persistable s ->
  exists cur s', load_all (state_lines s) (clear_state, None) = (s', cur) /\
    nm_ok s' /\ core <$> nm_files s' = core <$> nm_files s /\
    others s' = (offline <$> servers s, 0, 0, users s, [], requests s).
Proof.
  intros Hok [[Hs Hsl] Hf [Hu Hul] [Hr Hrl]]. unfold state_lines.
  change (load_all (?l :: ?ls) (clear_state, None)) with (load_all ls (clear_state, None)).
  destruct (load_servers (servers s) clear_state None Hs Hsl) as [c1 E1]. cbn [servers clear_state app] in E1.
  set (s1 := set_servers (offline <$> servers s) clear_state) in *.
  destruct (load_documents (nm_files s) s1 s1 c1 [] Hf) as (s2 & c2 & E2 & [Ok2 F2 O2]).
  { split; [|done|done]. by apply (nm_ok_same clear_state), nm_ok_clear. }
  { apply Hok. }
  { cbn [app]. rewrite <- list_fmap_compose. apply Hok. }
  unfold others in O2. injection O2 as O2s O2p O2b O2u O2c O2r. cbn in O2p, O2b, O2u, O2c, O2r.
  destruct (load_users (users s) s2 c2 Hu) as [c3 E3]; [by rewrite O2u|]. rewrite O2u in E3. cbn [app] in E3.
  set (s3 := set_users (users s) s2) in *. assert (requests s3 = []) as R3 by done.
  destruct (load_requests (requests s) s3 c3 Hr) as [c4 E4]; [by rewrite R3|]. rewrite R3 in E4. cbn [app] in E4.
  exists None, (set_requests (requests s) s3). rewrite !load_all_app, E1, E2, E3, E4.
  split; [done|]. split_and!.
  - by apply (nm_ok_same s2).
  - exact F2.
  - unfold others, s3. cbn. by rewrite O2s, O2p, O2b, O2c.
Qed.

Lemma next_fault_eq t o p :
  next_fault (mk_disk t o p) = match o with [] => (Fine, mk_disk t [] p) | f :: o => (f, mk_disk t o p) end.
Proof. by destruct o. Qed.

Ltac run_calls :=
  unfold set_files; repeat (rewrite next_fault_eq; cbn [negb oracle files past fst snd]; rewrite ?lookup_insert_eq).

Lemma nm_state_save_quiet path s d :
  path <> [] -> length path < 256 -> quiet d ->
  exists d', nm_state_save path s d = (true, d') /\ quiet d' /\
    files d' = <[path := lines_text (state_lines s)]> (delete (tmp_path path) (files d)).
Proof.
  intros Hp Hl Hq. destruct d as [t o p]. unfold quiet in Hq. cbn in Hq. subst o.
  unfold nm_state_save, fopen_w, fwrite, plain_call, rename. destruct path as [|c path]; [done|].
  run_calls. eexists. split_and!; [done|done|]. cbn [files]. by rewrite insert_insert_eq, delete_insert_eq.
Qed.

Lemma save_then_load path s s0 d :
  path <> [] -> length path < 256 -> quiet d -> nm_ok s -> persistable s ->
  exists d' s', nm_state_save path s d = (true, d') /\ nm_state_load path s0 d' = (true, s', d') /\ quiet d' /\ nm_ok s' /\
    core <$> nm_files s' = core <$> nm_files s /\ others s' = (offline <$> servers s, 0, 0, users s, [], requests s).
Proof.
  intros Hp Hl Hd Hok Hs. destruct (nm_state_save_quiet path s d Hp Hl Hd) as (d1 & E & Hq & Hf).
  destruct (load_state_lines s Hok Hs) as (cur & s' & Es & Hok' & Hfs & Ho). exists d1, s'. split; [done|]. split_and!; try done.
  unfold nm_state_load. destruct path as [|c p]; [done|]. unfold plain_call, next_fault. rewrite Hq, Hf, lookup_insert_eq, Hq.
  assert (load_text_state (lines_text (state_lines s)) = s') as ->; [|done].
  unfold load_text_state. rewrite load_lines_text by (by apply short_state_lines || done).
  change (fst (load_all (state_lines s) (clear_state, None)) = s'). by rewrite Es.
Qed.

(** C29: Saving the name manager's state and loading it in a fresh process gives the state
    back: every server (without its connection), document with its counters, access list
    and checkpoints, user and access request, in the same order, and the table of documents
    is well formed.  The cache and the round-robin counters start afresh.  Every string must
    be a non-empty word without blanks, which the file format needs and the server does not
    check. *)
Theorem nm_state_save_load path s s0 d
  (Hp : path <> []) (Hl : length path < 256) (Hd : quiet d) (Hok : nm_ok s) (Hs : persistable s) :
  let '(saved, d1) := nm_state_save path s d in
  let '(loaded, s', d2) := nm_state_load path s0 d1 in
  saved = true /\ loaded = true /\ nm_ok s' /\
  core <$> nm_files s' = core <$> nm_files s /\ nm_map s' = nm_map s /\
  others s' = (offline <$> servers s, 0, 0, users s, [], requests s).
Proof.
  destruct (save_then_load path s s0 d Hp Hl Hd Hok Hs) as (d1 & s' & -> & -> & _ & Hok' & Hfs & Ho).
  split_and!; [done|done|done|done|by apply same_docs_map|done].
Qed.

(** *** What the format loses *)

(** A failed write is not noticed: the truncated file replaces the good one and the save
    reports success. *)
Lemma nm_state_save_hides_failed_write path s d k :
  path <> [] -> length path < 256 -> oracle d = [Fine; Fails k] ->
  fst (nm_state_save path s d) = true /\
  files (snd (nm_state_save path s d)) !! path = Some (take k (lines_text (state_lines s))).
Proof.
  intros Hp Hl Hq. destruct d as [t o p]. cbn in Hq. subst o.
  unfold nm_state_save, fopen_w, fwrite, plain_call, rename. destruct path as [|c path]; [done|].
  run_calls. split; [done|]. cbn [snd files]. by rewrite lookup_insert_eq.
Qed.

(** The names the server accepts may contain blanks; after a restart a document
    "plan eve" is a document "plan" owned by eve. *)
Lemma blank_in_name_changes_owner :
  let s := snd (nm_add_file (cs "plan eve") (cs "ann") 0 1 7 clear_state) in
  let s' := load_text_state (lines_text (state_lines s)) in
  valid_filename (cs "plan eve") = true /\
  nm_find_file s' (cs "plan eve") = None /\
  f_owner <$> nm_find_file s' (cs "plan") = Some (cs "eve").
Proof. vm_compute. auto. Qed.

(** ** A concrete state *)

Definition demo_saved : nm_state :=
  set_requests [mk_request (cs "plan") (cs "ann") (cs "eve") 1 0]
    (set_users [mk_user (cs "ann") 5; mk_user (cs "bob") 6]
      (set_servers [mk_server (cs "ss1") (cs "localhost") (cs "9001") (cs "9002") 5 1] demo_state)).

Definition demo_empty_disk : disk := mk_disk ∅ [] [].

Lemma nm_ok_tables s rs us xs : nm_ok s -> nm_ok (set_requests rs (set_users us (set_servers xs s))).
Proof. by apply nm_ok_same. Qed.

Lemma demo_saved_ok : nm_ok demo_saved.
Proof. unfold demo_saved. apply nm_ok_tables, demo_state_ok. Qed.

Lemma fits_dec n w :
  bool_decide (w <> [] /\ length w < n) && forallb (fun c => negb (is_space c) && negb (bool_decide (c = "000"%char))) w = true ->
  fits n w.
Proof.
  intros [[Hne Hl]%bool_decide_eq_true Hw]%andb_true_iff. split; [|done]. split; [done|].
  rewrite Forall_forall. rewrite List.forallb_forall in Hw. intros c Hc.
  apply list_elem_of_In in Hc. specialize (Hw c Hc). apply andb_true_iff in Hw as [H1%negb_true_iff H2%negb_true_iff].
  split; [done|]. by apply bool_decide_eq_false in H2.
Qed.

Ltac solve_field :=
  lazymatch goal with
  | |- fits _ _ => apply fits_dec; vm_compute; reflexivity
  | |- int_ok _ => split; vm_compute; discriminate
  | |- long_ok _ => split; vm_compute; discriminate
  | |- size_ok _ => split; vm_compute; [discriminate|reflexivity]
  end.

Lemma demo_saved_persistable : persistable demo_saved.
Proof.
  split.
  - split; [|vm_compute; lia]. apply Forall_singleton. split_and!; solve_field.
  - assert (nm_files demo_saved = [mk_file (cs "plan") (cs "ann") 0 1 0 0 7 7 7 (cs "ann") [mk_acl (cs "bob") 1] [] (-1);
                                   mk_file (cs "notes") (cs "bob") 1 0 0 0 8 8 8 (cs "bob") [] [] (-1)]) as ->
      by (vm_compute; reflexivity).
    apply List.Forall_cons; [|apply List.Forall_cons; [|apply List.Forall_nil]];
      (split; [solve_field..| |split; [apply List.Forall_nil|vm_compute; lia]]; (split; [|vm_compute; lia])).
    + apply Forall_singleton. split; solve_field.
    + apply List.Forall_nil.
  - split; [|vm_compute; lia]. apply List.Forall_cons; [|apply List.Forall_cons; [|apply List.Forall_nil]];
      split; solve_field.
  - split; [|vm_compute; lia]. apply Forall_singleton. split_and!; solve_field.
Qed.

Lemma nm_state_save_load_witness :
  let '(saved, d1) := nm_state_save (cs "nm.db") demo_saved demo_empty_disk in
  let '(loaded, s', d2) := nm_state_load (cs "nm.db") clear_state d1 in
  saved = true /\ loaded = true /\ nm_ok s' /\
  core <$> nm_files s' = core <$> nm_files demo_saved /\ nm_map s' = nm_map demo_saved /\
  others s' = (offline <$> servers demo_saved, 0, 0, users demo_saved, [], requests demo_saved).
Proof.
  exact (nm_state_save_load (cs "nm.db") demo_saved clear_state demo_empty_disk ltac:(discriminate)
           ltac:(vm_compute; lia) eq_refl demo_saved_ok demo_saved_persistable).
Defined.
