(* ===== verification/NmServer.v ===== *)
(** * [nm/nm_main.c]: the name manager's client requests

    The context is the name manager's tables and their file, its tickets, the users that
    are connected and the replication queue.  A command for a storage server is handed to
    [forward_command]; what comes back from the network is part of the environment, one
    answer per command ([None] when the server cannot be reached).  A handler answers with
    a value of [reply] and runs without interruption; the clock is read once per request. *)

From S2P Require Import Prelude Keyed Cstr Json Proto Fs NmState NmPersist.

(** ** The context *)

Definition TICKET_TTL : Z := 30.

Record ticket_entry := mk_ticket {
  n_token : cstr;
  n_file : cstr;
  n_user : cstr;
  n_op : cstr;
  n_expiry : Z;
  n_ss_index : Z;
}.

Record replication_task := mk_task {
  k_file : cstr;
  k_owner : cstr;
  k_primary : Z;
  k_backup : Z;
  k_assign : bool;
}.

Inductive peer_type := PeerUnused | PeerUnknown | PeerClient | PeerServer.
Record peer := mk_peer { p_fd : Z; p_type : peer_type; p_server_index : Z; p_user : cstr }.

Record nm_context := mk_ctx {
  x_state : nm_state;
  x_path : cstr;
  x_disk : disk;
  x_tickets : list ticket_entry;
  x_active : list cstr;
  x_queue : list replication_task;
  (** commands forwarded, with the control connection they went to *)
  x_forwarded : list (Z * cstr);
  (** the environment: answers of the storage servers, random tokens *)
  x_answers : list (option cstr);
  x_tokens : list cstr;
}.

Definition with_state (s : nm_state) (c : nm_context) : nm_context :=
  mk_ctx s (x_path c) (x_disk c) (x_tickets c) (x_active c) (x_queue c) (x_forwarded c) (x_answers c) (x_tokens c).
Definition with_disk (d : disk) (c : nm_context) : nm_context :=
  mk_ctx (x_state c) (x_path c) d (x_tickets c) (x_active c) (x_queue c) (x_forwarded c) (x_answers c) (x_tokens c).
Definition with_tickets (l : list ticket_entry) (c : nm_context) : nm_context :=
  mk_ctx (x_state c) (x_path c) (x_disk c) l (x_active c) (x_queue c) (x_forwarded c) (x_answers c) (x_tokens c).
Definition with_active (l : list cstr) (c : nm_context) : nm_context :=
  mk_ctx (x_state c) (x_path c) (x_disk c) (x_tickets c) l (x_queue c) (x_forwarded c) (x_answers c) (x_tokens c).
Definition with_queue (l : list replication_task) (c : nm_context) : nm_context :=
  mk_ctx (x_state c) (x_path c) (x_disk c) (x_tickets c) (x_active c) l (x_forwarded c) (x_answers c) (x_tokens c).

(** [nm_state_save]; its result is never looked at. *)
Definition save (c : nm_context) : nm_context :=
  with_disk (snd (nm_state_save (x_path c) (x_state c) (x_disk c))) c.

Definition in_state {A} (f : nm_state -> A * nm_state) (c : nm_context) : A * nm_context :=
  let '(a, s) := f (x_state c) in (a, with_state s c).

(** ** Connected users *)

Definition active_user_add (user : cstr) (c : nm_context) : nm_res * nm_context :=
  match user with
  | [] => (NmErr EFail, c)
  | _ =>
      if existsb (fun u => streq u user) (x_active c) then (NmErr EExist, c)
      else (NmOk, with_active (x_active c ++ [snprintf_s NM_MAX_USER user]) c)
  end.

Definition active_user_remove (user : cstr) (c : nm_context) : nm_context :=
  match user with
  | [] => c
  | _ =>
      match find_first (fun u => streq u user) (x_active c) with
      | Some (i, _) => with_active (remove_at i (x_active c)) c
      | None => c
      end
  end.

Definition username_in_use (user : cstr) (c : nm_context) : bool :=
  match user with [] => false | _ => existsb (fun u => streq u user) (x_active c) end.

(** ** Talking to the storage servers *)

(** The answer of the server, [None] for -1. *)
Definition forward_command (ss : option storage_server) (payload : cstr) (c : nm_context) : option cstr * nm_context :=
  match ss with
  | None => (None, c)
  | Some x =>
      (default None (head (x_answers c)),
       mk_ctx (x_state c) (x_path c) (x_disk c) (x_tickets c) (x_active c) (x_queue c)
         (x_forwarded c ++ [(ss_ctrl_fd x, payload)]) (tail (x_answers c)) (x_tokens c))
  end.

(** [while (i < len)] with [array_remove] of the expired entries. *)
Fixpoint ticket_prune_loop (now : Z) (l : list ticket_entry) : list ticket_entry :=
  match l with
  | [] => []
  | t :: l =>
      if negb (n_expiry t =? 0)%Z && (n_expiry t <? now)%Z then ticket_prune_loop now l
      else t :: ticket_prune_loop now l
  end.
Definition ticket_prune (now : Z) (c : nm_context) : nm_context :=
  with_tickets (ticket_prune_loop now (x_tickets c)) c.

Definition randutil_token (c : nm_context) : cstr * nm_context :=
  (default [] (head (x_tokens c)),
   mk_ctx (x_state c) (x_path c) (x_disk c) (x_tickets c) (x_active c) (x_queue c) (x_forwarded c) (x_answers c)
     (tail (x_tokens c))).

Definition ticket_payload (t : ticket_entry) : option cstr :=
  fit 512 (js "{'type':'NM_TICKET','token':'" ++ n_token t ++ js "','file':'" ++ n_file t ++
           js "','user':'" ++ n_user t ++ js "','op':'" ++ n_op t ++ js "','expiry':" ++ show_Z (n_expiry t) ++ js "}").

(** The token, [None] for -1. *)
Definition issue_ticket (ss : storage_server) (ss_index : Z) (file user op : cstr) (now : Z) (c : nm_context)
  : option cstr * nm_context :=
  let c := ticket_prune now c in
  let '(token, c) := randutil_token c in
  let entry := mk_ticket (snprintf_s 64 token) (snprintf_s NM_MAX_NAME file) (snprintf_s NM_MAX_USER user)
                 (snprintf_s 16 op) (now + TICKET_TTL) ss_index in
  match ticket_payload entry with
  | None => (None, c)
  | Some payload =>
      match forward_command (Some ss) payload c with
      | (None, c) => (None, c)
      | (Some response, c) =>
          if status_is_ok response then (Some (n_token entry), with_tickets (x_tickets c ++ [entry]) c) else (None, c)
      end
  end.

(** ** Access *)

Definition file_has_access (f : file_entry) (user : cstr) (perm : Z) : bool :=
  match user with
  | [] => false
  | _ =>
      if streq (f_owner f) user then true
      else
        match find_first (key_is acl_user user) (f_acl f) with
        | Some (_, e) => (Z.land (acl_perm e) perm =? perm)%Z
        | None => false
        end
  end.

(** [valid_checkpoint_tag]: the same loop as [valid_filename]. *)
Definition valid_checkpoint_tag (tag : cstr) : bool := valid_filename tag.

Definition find_access_request (s : nm_state) (file requester : cstr) : option (nat * access_request) :=
  find_first (fun r => streq (r_file r) file && streq (r_requester r) requester) (requests s).

Definition access_request_status_label (status : Z) : cstr :=
  cs (if (status =? NM_REQUEST_PENDING)%Z then "PENDING"
      else if (status =? NM_REQUEST_APPROVED)%Z then "APPROVED"
      else if (status =? NM_REQUEST_DENIED)%Z then "DENIED" else "UNKNOWN").

Definition access_request_type_label (perm : Z) : cstr :=
  cs (if (Z.land perm NM_PERM_WRITE =? 0)%Z then "READ" else "WRITE").

(** ** Choosing the replica *)

Definition server_is_available (ss : option storage_server) : bool :=
  match ss with Some x => is_online x | None => false end.

(** A candidate other than [primary_index], from slot [i] on. *)
Fixpoint candidate_loop (ss : list storage_server) (i : nat) (primary_index : Z) : option nat :=
  match ss with
  | [] => None
  | x :: ss =>
      if (Z.of_nat i =? primary_index)%Z then candidate_loop ss (S i) primary_index
      else if is_online x then Some i else candidate_loop ss (S i) primary_index
  end.
Definition has_backup_candidate (s : nm_state) (primary_index : Z) : bool :=
  match candidate_loop (servers s) 0 primary_index with Some _ => true | None => false end.

(** [file->ss_index = p; file->backup_index = b] through the pointer to slot [i]. *)
Definition set_location (i : nat) (p b : Z) (s : nm_state) : nm_state :=
  set_nm_files (alter (with_location p b) i (nm_files s)) s.

Definition drop_backup_only (i : nat) (s : nm_state) : nm_state :=
  match nm_files s !! i with
  | None => s
  | Some f => if (f_backup_index f <? 0)%Z then s else set_location i (f_ss_index f) (-1) s
  end.

Definition drop_file_backup (i : nat) (c : nm_context) : nm_context :=
  save (with_state (drop_backup_only i (x_state c)) c).

(** The second half of [select_storage_server]: fail over to the backup or drop it. *)
Definition select_backup (i : nat) (f : file_entry) (c : nm_context) : option (Z * storage_server) * nm_context :=
  if (f_backup_index f <? 0)%Z then (None, c)
  else
    match nm_get_server (x_state c) (f_backup_index f) with
    | Some x =>
        if is_online x
        then (Some (f_backup_index f, x), save (with_state (set_location i (f_backup_index f) (-1) (x_state c)) c))
        else (None, drop_file_backup i c)
    | None => (None, drop_file_backup i c)
    end.

(** The server's index and the server. *)
Definition select_storage_server (i : nat) (c : nm_context) : option (Z * storage_server) * nm_context :=
  match nm_files (x_state c) !! i with
  | None => (None, c)
  | Some f =>
      match nm_get_server (x_state c) (f_ss_index f) with
      | Some x => if is_online x then (Some (f_ss_index f, x), c) else select_backup i f c
      | None => select_backup i f c
      end
  end.

Definition mark_server_down (ss_index : Z) (c : nm_context) : nm_context :=
  with_state (nm_mark_server_down ss_index (x_state c)) c.

(** The loop of [obtain_ticket_for_file], [n] attempts left: the token with the server, or
    the error code. *)
Fixpoint obtain_loop (n : nat) (file_name user : cstr) (required_perm : Z) (op : cstr) (now : Z) (c : nm_context)
  : (cstr * storage_server + error_code) * nm_context :=
  match n with
  | O => (inr ERR_UNAVAILABLE, c)
  | S n =>
      match find_file_index (x_state c) file_name with
      | None => (inr ERR_NOTFOUND, c)
      | Some i =>
          match nm_files (x_state c) !! i with
          | None => (inr ERR_NOTFOUND, c)
          | Some f =>
              if negb (file_has_access f user required_perm) then (inr ERR_NOAUTH, c)
              else
                match select_storage_server i c with
                | (None, c) => (inr ERR_UNAVAILABLE, c)
                | (Some (ss_index, ss), c) =>
                    match issue_ticket ss ss_index file_name user op now c with
                    | (Some token, c) =>
                        (inl (token, ss), with_state (nm_cache_put file_name ss_index now (x_state c)) c)
                    | (None, c) => obtain_loop n file_name user required_perm op now (mark_server_down ss_index c)
                    end
                end
          end
      end
  end.

Definition obtain_ticket_for_file := obtain_loop 2.

(** ** Texts *)

(** A buffer of [MAX_JSON] bytes and its offset; [None] is the offset -1. *)
Definition json_append (buf : option cstr) (text : cstr) : option cstr :=
  b ← buf; if MAX_JSON - length b <=? length text then None else Some (b ++ text).

Definition quoted (s : cstr) : cstr := dquote :: s ++ [dquote].

Fixpoint access_loop (acl : list file_acl_entry) (perm : Z) (buf : option cstr) : option cstr :=
  match acl with
  | [] => buf
  | e :: acl =>
      if negb (Z.land (acl_perm e) perm =? perm)%Z then access_loop acl perm buf
      else
        match json_escape_string 256 (acl_user e) with
        | None => None
        | Some user_esc => access_loop acl perm (json_append buf (","%char :: quoted user_esc))
        end
  end.

(** [append_access_array]; the callers take a failure for "response too large". *)
Definition append_access_array (key : cstr) (f : file_entry) (perm : Z) (buf : option cstr) : option cstr :=
  let buf := json_append buf (quoted key ++ cs ":[") in
  match json_escape_string 256 (f_owner f) with
  | None => None
  | Some user_esc => json_append (access_loop (f_acl f) perm (json_append buf (quoted user_esc))) (cs "]")
  end.

Definition bad (code : error_code) (msg : cstr) (c : nm_context) : reply * nm_context := (RErr code msg, c).

(** Identifier and status of a replica in the listings. *)
Definition replica_texts (s : nm_state) (index : Z) : cstr * cstr :=
  match nm_get_server s index with
  | Some x => (default [] (json_escape_string 256 (ss_id x)), cs (if is_online x then "online" else "offline"))
  | None => ([], cs (if (0 <=? index)%Z then "unknown" else "none"))
  end.

Definition show_size (z : Z) : cstr := show_nonneg z.

(** One element of the VIEW reply. *)
Definition view_entry (s : nm_state) (f : file_entry) (long_format : bool) (buf : option cstr) : option (option cstr) :=
  name_esc ← json_escape_string 256 (f_name f);
  owner_esc ← json_escape_string 256 (f_owner f);
  last_user_esc ← json_escape_string 256 (f_last_access_user f);
  let '(primary_id, primary_status) := replica_texts s (f_ss_index f) in
  let '(backup_id, backup_status) := replica_texts s (f_backup_index f) in
  Some (if long_format then
          json_append (json_append (json_append buf
            (js "{'name':'" ++ name_esc ++ js "','owner':'" ++ owner_esc ++ js "','words':" ++ show_size (f_word_count f) ++ cs ","))
            (js "'chars':" ++ show_size (f_char_count f) ++ js ",'lastAccess':" ++ show_Z (f_last_access f) ++
             js ",'lastAccessUser':'" ++ last_user_esc ++ js "',"))
            (js "'primaryServer':'" ++ primary_id ++ js "','primaryStatus':'" ++ primary_status ++
             js "','backupServer':'" ++ backup_id ++ js "','backupStatus':'" ++ backup_status ++ js "'}")
        else json_append buf (js "{'name':'" ++ name_esc ++ js "'}")).

Fixpoint view_loop (fs : list file_entry) (s : nm_state) (user : cstr) (show_all long_format first : bool) (buf : option cstr)
  : option (option cstr) :=
  match fs with
  | [] => Some (json_append buf (cs "]"))
  | f :: fs =>
      if negb (show_all || file_has_access f user NM_PERM_READ) then view_loop fs s user show_all long_format first buf
      else
        match view_entry s f long_format (if first then buf else json_append buf (cs ",")) with
        | None => None
        | Some buf => view_loop fs s user show_all long_format false buf
        end
  end.

Definition handle_client_view (p : peer) (json : cstr) (c : nm_context) : reply * nm_context :=
  let flags := json_string_written json (cs "flags") 8 in
  match view_loop (nm_files (x_state c)) (x_state c) (p_user p) (has_char "a" flags) (has_char "l" flags) true
          (json_append (Some []) (js "'files':[")) with
  | None => bad ERR_INTERNAL (cs "encoding error") c
  | Some None => bad ERR_INTERNAL (cs "response too large") c
  | Some (Some extra) => (ROk extra, c)
  end.

Fixpoint users_loop (us : list user_entry) (first : bool) (buf : option cstr) : option (option cstr) :=
  match us with
  | [] => Some (json_append buf (cs "]"))
  | u :: us =>
      match json_escape_string 256 (u_name u) with
      | None => None
      | Some user_esc => users_loop us false (json_append (if first then buf else json_append buf (cs ",")) (quoted user_esc))
      end
  end.

Definition handle_client_list_users (c : nm_context) : reply * nm_context :=
  match users_loop (users (x_state c)) true (json_append (Some []) (js "'users':[")) with
  | None => bad ERR_INTERNAL (cs "encoding error") c
  | Some None => bad ERR_INTERNAL (cs "response too large") c
  | Some (Some extra) => (ROk extra, c)
  end.

(** The text of INFO, with the names escaped. *)
Definition info_text (s : nm_state) (f : file_entry) (name_esc owner_esc last_user_esc : cstr) : option cstr :=
  let '(primary_id, primary_status) := replica_texts s (f_ss_index f) in
  let '(backup_id, backup_status) := replica_texts s (f_backup_index f) in
  let buf := json_append (Some [])
    (js "'file':{'name':'" ++ name_esc ++ js "','owner':'" ++ owner_esc ++ js "','words':" ++ show_size (f_word_count f) ++ cs ",") in
  let buf := json_append buf
    (js "'chars':" ++ show_size (f_char_count f) ++ js ",'created':" ++ show_Z (f_created f) ++
     js ",'modified':" ++ show_Z (f_modified f) ++ cs ",") in
  let buf := json_append buf
    (js "'lastAccess':" ++ show_Z (f_last_access f) ++ js ",'lastAccessUser':'" ++ last_user_esc ++ js "',") in
  let buf := json_append buf
    (js "'primaryServer':'" ++ primary_id ++ js "','primaryStatus':'" ++ primary_status ++
     js "','backupServer':'" ++ backup_id ++ js "','backupStatus':'" ++ backup_status ++ js "',") in
  let buf := append_access_array (cs "readAccess") f NM_PERM_READ buf in
  let buf := append_access_array (cs "writeAccess") f NM_PERM_WRITE (json_append buf (cs ",")) in
  json_append buf (cs "}").

Definition handle_client_info (p : peer) (json : cstr) (c : nm_context) : reply * nm_context :=
  match json_get_string json (cs "file") NM_MAX_NAME with
  | None => bad ERR_BADREQ (cs "missing file") c
  | Some file_name =>
      match nm_find_file (x_state c) file_name with
      | None => bad ERR_NOTFOUND (cs "file not found") c
      | Some f =>
          if negb (file_has_access f (p_user p) NM_PERM_READ) then bad ERR_NOAUTH (cs "no read access") c
          else
            match json_escape_string 256 (f_name f), json_escape_string 256 (f_owner f),
                  json_escape_string 256 (f_last_access_user f) with
            | Some name_esc, Some owner_esc, Some last_user_esc =>
                match info_text (x_state c) f name_esc owner_esc last_user_esc with
                | Some extra => (ROk extra, c)
                | None => bad ERR_INTERNAL (cs "response too large") c
                end
            | _, _, _ => bad ERR_INTERNAL (cs "encoding error") c
            end
      end
  end.

(** ** Creating and deleting *)

(** The loop that looks for a server to hold the second copy, from slot [i] on, [n] slots
    left: the backup's index or -1. *)
Fixpoint create_backup_loop (n i : nat) (ss_index : Z) (payload : cstr) (c : nm_context) : Z * nm_context :=
  match n with
  | O => ((-1)%Z, c)
  | S n =>
      if (Z.of_nat i =? ss_index)%Z then create_backup_loop n (S i) ss_index payload c
      else
        let backup := nm_get_server (x_state c) (Z.of_nat i) in
        if negb (server_is_available backup) then create_backup_loop n (S i) ss_index payload c
        else
          match forward_command backup payload c with
          | (None, c) => create_backup_loop n (S i) ss_index payload c
          | (Some response, c) =>
              if bool_decide ((fst <$> parse_status response 16 0) = Some (cs "OK"))
              then (Z.of_nat i, c)
              else create_backup_loop n (S i) ss_index payload c
          end
  end.

Definition handle_client_create (p : peer) (json : cstr) (now : Z) (c : nm_context) : reply * nm_context :=
  match json_get_string json (cs "file") NM_MAX_NAME with
  | None => bad ERR_BADREQ (cs "missing file") c
  | Some file_name =>
      if negb (valid_filename file_name) then bad ERR_BADREQ (cs "invalid name") c
      else if bool_decide (p_user p = []) then bad ERR_NOAUTH (cs "anonymous user") c
      else
        match nm_find_file (x_state c) file_name with
        | Some _ => bad ERR_EXISTS (cs "file exists") c
        | None =>
            let '(picked, c) := in_state nm_pick_server c in
            match picked with
            | None => bad ERR_UNAVAILABLE (cs "no storage server") c
            | Some ss_index =>
                match nm_get_server (x_state c) (Z.of_nat ss_index) with
                | None => bad ERR_UNAVAILABLE (cs "server offline") c
                | Some ss =>
                    if (ss_ctrl_fd ss <? 0)%Z then bad ERR_UNAVAILABLE (cs "server offline") c
                    else
                      match fit 512 (js "{'type':'NM_CREATE','file':'" ++ file_name ++
                                     js "','owner':'" ++ p_user p ++ js "'}") with
                      | None => bad ERR_INTERNAL (cs "payload too large") c
                      | Some payload =>
                          match forward_command (Some ss) payload c with
                          | (None, c) =>
                              bad ERR_UNAVAILABLE (cs "server unreachable") (mark_server_down (Z.of_nat ss_index) c)
                          | (Some response, c) =>
                              if negb (status_is_ok response) then bad ERR_INTERNAL (cs "create failed") c
                              else
                                let '(backup_index, c) :=
                                  create_backup_loop (length (servers (x_state c))) 0 (Z.of_nat ss_index) payload c in
                                let '(r, c) := in_state (nm_add_file file_name (p_user p) (Z.of_nat ss_index) backup_index now) c in
                                match r with
                                | NmErr _ => bad ERR_INTERNAL (cs "state update failed") c
                                | NmOk =>
                                    let '(_, c) := in_state (nm_grant_access file_name (p_user p) (Z.lor NM_PERM_WRITE NM_PERM_READ)) c in
                                    let c := with_state (nm_cache_put file_name (Z.of_nat ss_index) now (x_state c)) c in
                                    (ROk (js "'op':'CREATE'"), save c)
                                end
                          end
                      end
                end
            end
        end
  end.

(** The document and the slot of a request; the answer when it is refused. *)
Definition find_for (p : peer) (file_name : cstr) (perm : Z) (denied : cstr) (s : nm_state)
  : nat * file_entry + reply :=
  match find_file_index s file_name with
  | None => inr (RErr ERR_NOTFOUND (cs "file not found"))
  | Some i =>
      match nm_files s !! i with
      | None => inr (RErr ERR_NOTFOUND (cs "file not found"))
      | Some f => if file_has_access f (p_user p) perm then inl (i, f) else inr (RErr ERR_NOAUTH denied)
      end
  end.

Definition handle_client_delete (p : peer) (json : cstr) (c : nm_context) : reply * nm_context :=
  match json_get_string json (cs "file") NM_MAX_NAME with
  | None => bad ERR_BADREQ (cs "missing file") c
  | Some file_name =>
      match find_for p file_name NM_PERM_WRITE (cs "no write access") (x_state c) with
      | inr r => (r, c)
      | inl (i, _) =>
          match select_storage_server i c with
          | (None, c) => bad ERR_UNAVAILABLE (cs "server offline") c
          | (Some (first_index, _), c) =>
              let '(again, c) := select_storage_server i c in
              let ss_index := match again with Some (k, _) => k | None => first_index end in
              match fit 256 (js "{'type':'NM_DELETE','file':'" ++ file_name ++ js "'}") with
              | None => bad ERR_INTERNAL (cs "payload too large") c
              | Some payload =>
                  match forward_command (snd <$> again) payload c with
                  | (None, c) => bad ERR_UNAVAILABLE (cs "server unreachable") (mark_server_down ss_index c)
                  | (Some response, c) =>
                      if negb (status_is_ok response) then bad ERR_INTERNAL (cs "delete failed") c
                      else
                        let backup_index := match nm_files (x_state c) !! i with Some f => f_backup_index f | None => (-1)%Z end in
                        let c := with_state (snd (nm_remove_file file_name (x_state c))) c in
                        let c :=
                          match nm_get_server (x_state c) backup_index with
                          | Some backup => if (ss_ctrl_fd backup <? 0)%Z then c else snd (forward_command (Some backup) payload c)
                          | None => c
                          end in
                        (ROk (js "'op':'DELETE'"), save c)
                  end
              end
          end
      end
  end.

(** ** Reading, streaming and writing: the client is sent to a storage server *)

Definition respond_with_endpoint (file_name : cstr) (ss : storage_server) (op token : cstr) (sentence_index : Z) : reply :=
  match json_escape_string 256 (ss_host ss), json_escape_string 64 (ss_data_port ss), json_escape_string 256 (ss_id ss),
        json_escape_string 256 file_name, json_escape_string 256 token with
  | Some host_esc, Some port_esc, Some server_id_esc, Some file_esc, Some token_esc =>
      let buf := json_append (Some [])
        (js "'op':'" ++ op ++ js "','file':'" ++ file_esc ++ js "','host':'" ++ host_esc ++ js "','port':'" ++ port_esc ++ js "',") in
      let buf := json_append buf (js "'server':'" ++ server_id_esc ++ js "','ticket':'" ++ token_esc ++ js "'") in
      let buf := if (0 <=? sentence_index)%Z then json_append buf (js ",'sentence':" ++ show_Z sentence_index) else buf in
      match buf with
      | Some extra => ROk extra
      | None => RErr ERR_INTERNAL (cs "response too large")
      end
  | _, _, _, _, _ => RErr ERR_INTERNAL (cs "encoding error")
  end.

(** The reply for the error of [obtain_ticket_for_file]. *)
Definition ticket_error (rc : error_code) (denied : cstr) : reply :=
  match rc with
  | ERR_NOAUTH => RErr ERR_NOAUTH denied
  | ERR_NOTFOUND => RErr ERR_NOTFOUND (cs "file not found")
  | _ => RErr ERR_UNAVAILABLE (cs "server offline")
  end.

Definition handle_lookup_common (p : peer) (json op : cstr) (required_perm : Z) (include_sentence : bool) (now : Z)
    (c : nm_context) : reply * nm_context :=
  match json_get_string json (cs "file") NM_MAX_NAME with
  | None => bad ERR_BADREQ (cs "missing file") c
  | Some file_name =>
      match obtain_ticket_for_file file_name (p_user p) required_perm op now c with
      | (inr rc, c) => (ticket_error rc (cs "access denied"), c)
      | (inl (token, ss), c) =>
          let sentence := if include_sentence then default 0%Z (json_get_int json (cs "sentence")) else (-1)%Z in
          (respond_with_endpoint file_name ss op token sentence, c)
      end
  end.

Definition handle_client_read (p : peer) (json : cstr) := handle_lookup_common p json (cs "READ") NM_PERM_READ false.
Definition handle_client_stream (p : peer) (json : cstr) := handle_lookup_common p json (cs "STREAM") NM_PERM_READ false.
Definition handle_client_write (p : peer) (json : cstr) := handle_lookup_common p json (cs "WRITE") NM_PERM_WRITE true.

(** ** Sharing *)

(** The document when the peer owns it. *)
Definition find_owned (p : peer) (file_name : cstr) (s : nm_state) : file_entry + reply :=
  match nm_find_file s file_name with
  | None => inr (RErr ERR_NOTFOUND (cs "file not found"))
  | Some f => if streq (f_owner f) (p_user p) then inl f else inr (RErr ERR_NOAUTH (cs "only owner"))
  end.

Definition wants_write (mode : cstr) : bool := has_char "W" mode || has_char "w" mode.
Definition mode_perm (mode : cstr) : Z := if wants_write mode then Z.lor NM_PERM_READ NM_PERM_WRITE else NM_PERM_READ.

Definition handle_client_addaccess (p : peer) (json : cstr) (c : nm_context) : reply * nm_context :=
  match json_get_string json (cs "file") NM_MAX_NAME, json_get_string json (cs "user") NM_MAX_USER,
        json_get_string json (cs "mode") 8 with
  | Some file_name, Some target, Some mode =>
      match find_owned p file_name (x_state c) with
      | inr r => (r, c)
      | inl _ =>
          match in_state (nm_grant_access file_name target (mode_perm mode)) c with
          | (NmErr _, c) => bad ERR_INTERNAL (cs "grant failed") c
          | (NmOk, c) => (ROk (js "'op':'ADDACCESS'"), save c)
          end
      end
  | _, _, _ => bad ERR_BADREQ (cs "missing fields") c
  end.

Definition handle_client_removeaccess (p : peer) (json : cstr) (c : nm_context) : reply * nm_context :=
  match json_get_string json (cs "file") NM_MAX_NAME, json_get_string json (cs "user") NM_MAX_USER with
  | Some file_name, Some target =>
      match find_owned p file_name (x_state c) with
      | inr r => (r, c)
      | inl _ =>
          let '(_, c) := in_state (nm_remove_access file_name target) c in
          (ROk (js "'op':'REMACCESS'"), save c)
      end
  | _, _ => bad ERR_BADREQ (cs "missing fields") c
  end.

(** The request of REQACCESS: the old one of the same user renewed, or a new one. *)
Definition put_request (file_name owner requester : cstr) (perm : Z) (s : nm_state) : option nm_state :=
  match find_access_request s file_name requester with
  | Some (i, r) =>
      Some (set_requests (<[i := mk_request (r_file r) (snprintf_s NM_MAX_USER owner) (r_requester r) perm NM_REQUEST_PENDING]>
                            (requests s)) s)
  | None =>
      if NM_MAX_REQUESTS <=? length (requests s) then None
      else Some (set_requests (requests s ++
                   [mk_request (snprintf_s NM_MAX_NAME file_name) (snprintf_s NM_MAX_USER owner)
                      (snprintf_s NM_MAX_USER requester) perm NM_REQUEST_PENDING]) s)
  end.

Definition handle_client_reqaccess (p : peer) (json : cstr) (c : nm_context) : reply * nm_context :=
  match json_get_string json (cs "file") NM_MAX_NAME, json_get_string json (cs "mode") 8 with
  | Some file_name, Some mode =>
      if negb (has_char "R" mode || has_char "r" mode || wants_write mode) then bad ERR_BADREQ (cs "invalid mode") c
      else
        match nm_find_file (x_state c) file_name with
        | None => bad ERR_NOTFOUND (cs "file not found") c
        | Some f =>
            if streq (f_owner f) (p_user p) then bad ERR_CONFLICT (cs "owner already has access") c
            else
              match nm_check_access file_name (p_user p) (mode_perm mode) (x_state c) with
              | NmOk => bad ERR_CONFLICT (cs "access already granted") c
              | NmErr _ =>
                  match put_request file_name (f_owner f) (p_user p) (mode_perm mode) (x_state c) with
                  | None => bad ERR_INTERNAL (cs "request limit reached") c
                  | Some s => (ROk (js "'op':'REQACCESS'"), save (with_state s c))
                  end
              end
        end
  | _, _ => bad ERR_BADREQ (cs "missing fields") c
  end.

Fixpoint requests_loop (rs : list access_request) (user : cstr) (want_sent first : bool) (buf : option cstr)
  : option (option cstr) :=
  match rs with
  | [] => Some buf
  | r :: rs =>
      if (if want_sent then negb (streq (r_requester r) user)
          else negb (streq (r_owner r) user) || negb (r_status r =? NM_REQUEST_PENDING)%Z)
      then requests_loop rs user want_sent first buf
      else
        let buf := if first then buf else json_append buf (cs ",") in
        match json_escape_string 256 (r_file r) with
        | None => None
        | Some file_esc =>
            let access := access_request_type_label (r_perm r) in
            if want_sent then
              match json_append buf (js "{'file':'" ++ file_esc ++ js "','access':'" ++ access ++
                                     js "','status':'" ++ access_request_status_label (r_status r) ++ js "'}") with
              | None => Some None
              | buf => requests_loop rs user want_sent false buf
              end
            else
              match json_escape_string 256 (r_requester r) with
              | None => None
              | Some user_esc =>
                  match json_append buf (js "{'file':'" ++ file_esc ++ js "','access':'" ++ access ++
                                         js "','user':'" ++ user_esc ++ js "'}") with
                  | None => Some None
                  | buf => requests_loop rs user want_sent false buf
                  end
              end
        end
  end.

Definition handle_client_viewreqs (p : peer) (json : cstr) (c : nm_context) : reply * nm_context :=
  match json_get_string json (cs "direction") 16 with
  | None => bad ERR_BADREQ (cs "missing direction") c
  | Some direction =>
      let want_sent := streq_nocase direction (cs "SENT") in
      let want_received := streq_nocase direction (cs "RECEIVED") in
      if negb want_sent && negb want_received then bad ERR_BADREQ (cs "invalid direction") c
      else
        match requests_loop (requests (x_state c)) (p_user p) want_sent true (json_append (Some []) (js "'requests':[")) with
        | None => bad ERR_INTERNAL (cs "encoding error") c
        | Some buf =>
            match json_append buf (cs "]") with
            | None => bad ERR_INTERNAL (cs "response too large") c
            | Some extra => (ROk extra, c)
            end
        end
  end.

Definition set_status (status : Z) (r : access_request) : access_request :=
  mk_request (r_file r) (r_owner r) (r_requester r) (r_perm r) status.

Definition handle_client_handlereq (p : peer) (json : cstr) (c : nm_context) : reply * nm_context :=
  match json_get_string json (cs "file") NM_MAX_NAME, json_get_string json (cs "user") NM_MAX_USER,
        json_get_string json (cs "action") 16 with
  | Some file_name, Some requester, Some action =>
      let approve := streq_nocase action (cs "APPROVE") in
      let deny := streq_nocase action (cs "DENY") in
      if negb approve && negb deny then bad ERR_BADREQ (cs "invalid action") c
      else
        match find_owned p file_name (x_state c) with
        | inr r => (r, c)
        | inl _ =>
            match find_access_request (x_state c) file_name requester with
            | None => bad ERR_NOTFOUND (cs "request not found") c
            | Some (i, req) =>
                if negb (r_status req =? NM_REQUEST_PENDING)%Z then bad ERR_CONFLICT (cs "request already handled") c
                else
                  let '(r, c) := if approve then in_state (nm_grant_access file_name requester (r_perm req)) c else (NmOk, c) in
                  match r with
                  | NmErr _ => bad ERR_INTERNAL (cs "grant failed") c
                  | NmOk =>
                      let status := if approve then NM_REQUEST_APPROVED else NM_REQUEST_DENIED in
                      let s := x_state c in
                      (ROk (js "'op':'HANDLEREQ'"),
                       save (with_state (set_requests (alter (set_status status) i (requests s)) s) c))
                  end
            end
        end
  | _, _, _ => bad ERR_BADREQ (cs "missing fields") c
  end.

(** ** Undo and checkpoints *)

(** The answer when the command for [ss] did not come through. *)
Definition unreachable (ss_index : Z) (c : nm_context) : reply * nm_context :=
  bad ERR_UNAVAILABLE (cs "server unreachable") (mark_server_down ss_index c).

Definition handle_client_undo (p : peer) (json : cstr) (c : nm_context) : reply * nm_context :=
  match json_get_string json (cs "file") NM_MAX_NAME with
  | None => bad ERR_BADREQ (cs "missing file") c
  | Some file_name =>
      match find_for p file_name NM_PERM_WRITE (cs "no write access") (x_state c) with
      | inr r => (r, c)
      | inl (i, _) =>
          match select_storage_server i c with
          | (None, c) => bad ERR_UNAVAILABLE (cs "server offline") c
          | (Some (ss_index, ss), c) =>
              match fit 512 (js "{'type':'NM_UNDO','file':'" ++ file_name ++ js "','user':'" ++ p_user p ++ js "'}") with
              | None => bad ERR_INTERNAL (cs "payload too large") c
              | Some payload =>
                  match forward_command (Some ss) payload c with
                  | (None, c) => unreachable ss_index c
                  | (Some response, c) =>
                      if status_is_ok response then (ROk (js "'op':'UNDO'"), c)
                      else bad ERR_CONFLICT (cs "undo not possible") c
                  end
              end
          end
      end
  end.

(** The payload of the three checkpoint commands. *)
Definition checkpoint_payload (kind file_name tag user : cstr) : cstr + reply :=
  match json_escape_string (NM_MAX_NAME * 2) file_name, json_escape_string (NM_MAX_NAME * 2) tag,
        json_escape_string (NM_MAX_USER * 2) user with
  | Some file_esc, Some tag_esc, Some user_esc =>
      match fit MAX_JSON (js "{'type':'" ++ kind ++ js "','file':'" ++ file_esc ++ js "','tag':'" ++ tag_esc ++
                          js "','user':'" ++ user_esc ++ js "'}") with
      | Some payload => inl payload
      | None => inr (RErr ERR_INTERNAL (cs "payload too large"))
      end
  | _, _, _ => inr (RErr ERR_INTERNAL (cs "encoding error"))
  end.

(** The primary with an open control connection. *)
Definition connected (s : nm_state) (index : Z) : option storage_server :=
  match nm_get_server s index with
  | Some x => if (ss_ctrl_fd x <? 0)%Z then None else Some x
  | None => None
  end.

(** The command repeated on the backup; its answer is only logged. *)
Definition forward_to_backup (primary_index backup_index : Z) (payload : cstr) (c : nm_context) : nm_context :=
  match connected (x_state c) backup_index with
  | Some backup => if (backup_index =? primary_index)%Z then c else snd (forward_command (Some backup) payload c)
  | None => c
  end.

Definition handle_client_checkpoint (p : peer) (json : cstr) (now : Z) (c : nm_context) : reply * nm_context :=
  match json_get_string json (cs "file") NM_MAX_NAME, json_get_string json (cs "tag") NM_MAX_NAME with
  | Some file_name, Some tag =>
      if negb (valid_checkpoint_tag tag) then bad ERR_BADREQ (cs "invalid tag") c
      else
        match find_for p file_name NM_PERM_WRITE (cs "no write access") (x_state c) with
        | inr r => (r, c)
        | inl (_, f) =>
            match file_find_checkpoint f tag with
            | Some _ => bad ERR_EXISTS (cs "checkpoint exists") c
            | None =>
                match connected (x_state c) (f_ss_index f) with
                | None => bad ERR_UNAVAILABLE (cs "primary offline") c
                | Some primary =>
                    match checkpoint_payload (cs "NM_CHECKPOINT_CREATE") file_name tag (p_user p) with
                    | inr r => (r, c)
                    | inl payload =>
                        match forward_command (Some primary) payload c with
                        | (None, c) => bad ERR_UNAVAILABLE (cs "primary unreachable") c
                        | (Some response, c) =>
                            if negb (status_is_ok response) then bad ERR_INTERNAL (cs "checkpoint failed") c
                            else
                              match nm_find_file (x_state c) file_name with
                              | None => bad ERR_NOTFOUND (cs "file missing") c
                              | Some f' =>
                                  match file_find_checkpoint f' tag with
                                  | Some _ => bad ERR_EXISTS (cs "checkpoint exists") c
                                  | None =>
                                      match in_state (nm_file_add_checkpoint file_name tag (p_user p) now) c with
                                      | (NmErr ENoSpc, c) => bad ERR_INTERNAL (cs "checkpoint limit reached") c
                                      | (NmErr _, c) => bad ERR_INTERNAL (cs "checkpoint metadata failed") c
                                      | (NmOk, c) =>
                                          (ROk (js "'op':'CHECKPOINT'"),
                                           forward_to_backup (f_ss_index f) (f_backup_index f) payload (save c))
                                      end
                                  end
                              end
                        end
                    end
                end
            end
        end
  | _, _ => bad ERR_BADREQ (cs "missing fields") c
  end.

(** The primary first, then the backup; the C code compares the two pointers. *)
Definition forward_to_available_server (primary backup : option (Z * storage_server)) (payload : cstr) (c : nm_context)
  : option cstr * nm_context :=
  let try_backup c :=
    match backup with
    | Some (j, y) =>
        if bool_decide (fst <$> primary = Some j) || (ss_ctrl_fd y <? 0)%Z then (None, c)
        else forward_command (Some y) payload c
    | None => (None, c)
    end in
  match primary with
  | Some (_, x) =>
      if (ss_ctrl_fd x <? 0)%Z then try_backup c
      else
        match forward_command (Some x) payload c with
        | (Some response, c) => (Some response, c)
        | (None, c) => try_backup c
        end
  | None => try_backup c
  end.

Definition indexed_server (s : nm_state) (index : Z) : option (Z * storage_server) :=
  x ← nm_get_server s index; Some (index, x).

Definition handle_client_viewcheckpoint (p : peer) (json : cstr) (c : nm_context) : reply * nm_context :=
  match json_get_string json (cs "file") NM_MAX_NAME, json_get_string json (cs "tag") NM_MAX_NAME with
  | Some file_name, Some tag =>
      if negb (valid_checkpoint_tag tag) then bad ERR_BADREQ (cs "invalid tag") c
      else
        match find_for p file_name NM_PERM_READ (cs "no read access") (x_state c) with
        | inr r => (r, c)
        | inl (_, f) =>
            match file_find_checkpoint f tag with
            | None => bad ERR_NOTFOUND (cs "checkpoint not found") c
            | Some _ =>
                let primary := indexed_server (x_state c) (f_ss_index f) in
                let backup := indexed_server (x_state c) (f_backup_index f) in
                match primary, backup with
                | None, None => bad ERR_UNAVAILABLE (cs "no storage available") c
                | _, _ =>
                    match checkpoint_payload (cs "NM_CHECKPOINT_VIEW") file_name tag (p_user p) with
                    | inr r => (r, c)
                    | inl payload =>
                        match forward_to_available_server primary backup payload c with
                        | (None, c) => bad ERR_UNAVAILABLE (cs "checkpoint unavailable") c
                        | (Some response, c) =>
                            if negb (status_is_ok response) then bad ERR_INTERNAL (cs "checkpoint view failed") c
                            else
                              match json_get_string_alloc response (cs "content") with
                              | None => bad ERR_INTERNAL (cs "missing content") c
                              | Some content =>
                                  match json_escape_dup content with
                                  | None => bad ERR_INTERNAL (cs "encoding error") c
                                  | Some escaped =>
                                      match fit MAX_JSON (js "'content':'" ++ escaped ++ js "'") with
                                      | None => bad ERR_INTERNAL (cs "response too large") c
                                      | Some extra => (ROk extra, c)
                                      end
                                  end
                              end
                        end
                    end
                end
            end
        end
  | _, _ => bad ERR_BADREQ (cs "missing fields") c
  end.

Definition handle_client_revert (p : peer) (json : cstr) (c : nm_context) : reply * nm_context :=
  match json_get_string json (cs "file") NM_MAX_NAME, json_get_string json (cs "tag") NM_MAX_NAME with
  | Some file_name, Some tag =>
      if negb (valid_checkpoint_tag tag) then bad ERR_BADREQ (cs "invalid tag") c
      else
        match find_for p file_name NM_PERM_WRITE (cs "no write access") (x_state c) with
        | inr r => (r, c)
        | inl (_, f) =>
            match file_find_checkpoint f tag with
            | None => bad ERR_NOTFOUND (cs "checkpoint not found") c
            | Some _ =>
                match connected (x_state c) (f_ss_index f) with
                | None => bad ERR_UNAVAILABLE (cs "primary offline") c
                | Some primary =>
                    match checkpoint_payload (cs "NM_CHECKPOINT_REVERT") file_name tag (p_user p) with
                    | inr r => (r, c)
                    | inl payload =>
                        match forward_command (Some primary) payload c with
                        | (None, c) => bad ERR_UNAVAILABLE (cs "primary unreachable") c
                        | (Some response, c) =>
                            if negb (status_is_ok response) then bad ERR_INTERNAL (cs "revert failed") c
                            else (ROk (js "'op':'REVERT'"),
                                  forward_to_backup (f_ss_index f) (f_backup_index f) payload c)
                        end
                    end
                end
            end
        end
  | _, _ => bad ERR_BADREQ (cs "missing fields") c
  end.

(** The text of the list, [inr] the message of the failure. *)
Fixpoint checkpoints_loop (cks : list checkpoint_entry) (first : bool) (buf : option cstr) : option cstr + cstr :=
  match cks with
  | [] => inl buf
  | k :: cks =>
      match json_escape_string (NM_MAX_NAME * 2) (ck_tag k), json_escape_string (NM_MAX_USER * 2) (ck_user k) with
      | Some tag_esc, Some user_esc =>
          let ts_buf := snprintf_s 32 (show_Z (ck_timestamp k)) in
          let buf := if first then buf else json_append buf (cs ",") in
          match json_append buf (js "{'tag':'" ++ tag_esc ++ js "','user':'" ++ user_esc ++
                                 js "','timestamp':'" ++ ts_buf ++ js "'}") with
          | None => inr (cs "response too large")
          | buf => checkpoints_loop cks false buf
          end
      | _, _ => inr (cs "encoding error")
      end
  end.

Definition handle_client_listcheckpoints (p : peer) (json : cstr) (c : nm_context) : reply * nm_context :=
  match json_get_string json (cs "file") NM_MAX_NAME with
  | None => bad ERR_BADREQ (cs "missing file") c
  | Some file_name =>
      match find_for p file_name NM_PERM_READ (cs "no read access") (x_state c) with
      | inr r => (r, c)
      | inl (_, f) =>
          match json_escape_string (NM_MAX_NAME * 2) file_name with
          | None => bad ERR_INTERNAL (cs "encoding error") c
          | Some file_esc =>
              match json_append (Some []) (js "'file':'" ++ file_esc ++ js "','checkpoints':[") with
              | None => bad ERR_INTERNAL (cs "response too large") c
              | buf =>
                  match checkpoints_loop (f_checkpoints f) true buf with
                  | inr msg => bad ERR_INTERNAL msg c
                  | inl buf =>
                      match json_append buf (cs "]") with
                      | None => bad ERR_INTERNAL (cs "response too large") c
                      | Some extra => (ROk extra, c)
                      end
                  end
              end
          end
      end
  end.

(** ** Executing a document *)

Definition is_exec_delim_char (x : ascii) : bool :=
  bool_decide (x = "."%char) || bool_decide (x = "!"%char) || bool_decide (x = "?"%char).

(** The loop of [flatten_exec_script]; [last] is [last_non_newline]. *)
Fixpoint flatten_loop (script : cstr) (last : option ascii) : cstr :=
  match script with
  | [] => []
  | x :: script =>
      if bool_decide (x = creturn) then flatten_loop script last
      else if bool_decide (x = newline) then
        match last with
        | Some l => if is_exec_delim_char l then flatten_loop script last else x :: flatten_loop script last
        | None => x :: flatten_loop script last
        end
      else x :: flatten_loop script (Some x)
  end.
Definition flatten_exec_script (script : cstr) : cstr := flatten_loop script None.

(** The READ request [ss_fetch_content] sends to the data port. *)
Definition fetch_payload (file user ticket : cstr) : option cstr :=
  file_esc ← json_escape_dup file;
  user_esc ← json_escape_dup user;
  ticket_esc ← json_escape_dup ticket;
  fit MAX_JSON (js "{'type':'READ','file':'" ++ file_esc ++ js "','user':'" ++ user_esc ++
                js "','ticket':'" ++ ticket_esc ++ js "'}").

Section Exec.
(** What the storage server answers on its data port, and what [sh] prints for a script. *)
Context (ask : storage_server -> cstr -> option cstr) (shell : cstr -> option cstr).

Definition ss_fetch_content (ss : storage_server) (file user ticket : cstr) : option cstr :=
  payload ← fetch_payload file user ticket;
  response ← ask ss payload;
  if status_is_ok response then json_get_string_alloc response (cs "content") else None.

Definition run_exec_commands (script : cstr) : option cstr := shell (flatten_exec_script script ++ [newline]).

Definition handle_client_exec (p : peer) (json : cstr) (now : Z) (c : nm_context) : reply * nm_context :=
  match json_get_string json (cs "file") NM_MAX_NAME with
  | None => bad ERR_BADREQ (cs "missing file") c
  | Some file_name =>
      match obtain_ticket_for_file file_name (p_user p) NM_PERM_READ (cs "READ") now c with
      | (inr rc, c) => (ticket_error rc (cs "no read access"), c)
      | (inl (token, ss), c) =>
          match ss_fetch_content ss file_name (p_user p) token with
          | None => bad ERR_UNAVAILABLE (cs "fetch failed") c
          | Some content =>
              match run_exec_commands content with
              | None => bad ERR_INTERNAL (cs "exec failed") c
              | Some output =>
                  match json_escape_dup output with
                  | None => bad ERR_INTERNAL (cs "encode failed") c
                  | Some escaped =>
                      match fit MAX_JSON (js "'op':'EXEC','output':'" ++ escaped ++ js "'") with
                      | None => bad ERR_INTERNAL (cs "response too large") c
                      | Some extra => (ROk extra, c)
                      end
                  end
              end
          end
      end
  end.

(** ** The dispatcher *)

(** [CLIENT_EXIT] answers and then ends the connection: the flag. *)
Definition handle_client_message (p : peer) (json : cstr) (now : Z) (c : nm_context) : reply * bool * nm_context :=
  let go (r : reply * nm_context) := (fst r, true, snd r) in
  match json_get_string json (cs "type") 64 with
  | None => go (bad ERR_BADREQ (cs "missing type") c)
  | Some type =>
      if streq type (cs "VIEW") then go (handle_client_view p json c)
      else if streq type (cs "LIST") then go (handle_client_list_users c)
      else if streq type (cs "INFO") then go (handle_client_info p json c)
      else if streq type (cs "CREATE") then go (handle_client_create p json now c)
      else if streq type (cs "DELETE") then go (handle_client_delete p json c)
      else if streq type (cs "READ") then go (handle_client_read p json now c)
      else if streq type (cs "WRITE") then go (handle_client_write p json now c)
      else if streq type (cs "STREAM") then go (handle_client_stream p json now c)
      else if streq type (cs "CHECKPOINT") then go (handle_client_checkpoint p json now c)
      else if streq type (cs "VIEWCHECKPOINT") then go (handle_client_viewcheckpoint p json c)
      else if streq type (cs "REVERT") then go (handle_client_revert p json c)
      else if streq type (cs "LISTCHECKPOINTS") then go (handle_client_listcheckpoints p json c)
      else if streq type (cs "ADDACCESS") then go (handle_client_addaccess p json c)
      else if streq type (cs "REMACCESS") then go (handle_client_removeaccess p json c)
      else if streq type (cs "REQACCESS") then go (handle_client_reqaccess p json c)
      else if streq type (cs "VIEWREQS") then go (handle_client_viewreqs p json c)
      else if streq type (cs "HANDLEREQ") then go (handle_client_handlereq p json c)
      else if streq type (cs "UNDO") then go (handle_client_undo p json c)
      else if streq type (cs "EXEC") then go (handle_client_exec p json now c)
      else if streq type (cs "CLIENT_EXIT") then (ROk (js "'op':'EXIT'"), false, c)
      else go (bad ERR_BADREQ (cs "unsupported type") c)
  end.
End Exec.
