(* ===== verification/NmFrame.v ===== *)
(** * What a client's request leaves alone

    A request names one document.  [framed] says what it does not touch, whatever it does to
    that document: the entries of all other documents with their servers, the users, the
    access requests for other documents, and the servers, which can only be marked down.
    The cache of locations may lose entries of other documents but does not change them. *)

From S2P Require Import Prelude Keyed Cstr Fs NmState NmPersist NmServer.

(** A server, or the same server after its connection was given up. *)
Definition marked (x y : storage_server) : Prop := y = x \/ y = mark_down x.

Definition other_requests (name : cstr) (l : list access_request) : list access_request :=
  List.filter (fun r => negb (streq (r_file r) name)) l.

Record framed (name : cstr) (s s' : nm_state) : Prop := {
  fr_ok : nm_ok s -> nm_ok s';
  fr_docs : nm_ok s -> forall n, n <> name -> nm_map s' !! n = nm_map s !! n;
  fr_users : users s' = users s;
  fr_servers : Forall2 marked (servers s) (servers s');
  fr_requests : other_requests name (requests s') = other_requests name (requests s);
  fr_cache : forall e, e ∈ cache s' -> c_name e = name \/ e ∈ cache s;
}.

Lemma marked_refl l : Forall2 marked l l.
Proof. induction l; constructor; [by left|done]. Qed.

Lemma marked_trans x y z : marked x y -> marked y z -> marked x z.
Proof. intros [->| ->] [->| ->]; first [by left|by right]. Qed.

#[export] Instance framed_preorder name : PreOrder (framed name).
Proof.
  split; [split; auto using marked_refl|]. intros s1 s2 s3 [A1 A2 A3 A4 A5 A6] [B1 B2 B3 B4 B5 B6]. split; try congruence; auto.
  - intros Hok n Hn. by rewrite B2, A2 by auto.
  - clear -A4 B4. revert B4. generalize (servers s3). induction A4 as [|x y l k H _ IH]; intros l3 B; inversion B; subst; constructor; eauto using marked_trans.
  - intros e He. destruct (B6 e He); auto.
Qed.

Section Frame.
Context (name : cstr).

(** Everything but the documents and the cache: only the turn of the servers changes. *)
Lemma framed_tables s s' :
  nm_files s' = nm_files s -> file_buckets s' = file_buckets s -> users s' = users s -> servers s' = servers s ->
  requests s' = requests s -> cache s' = cache s -> framed name s s'.
Proof using.
  intros E1 E2 E3 E4 E5 E6. split; [by apply nm_ok_same| |done|by rewrite E4; apply marked_refl|by rewrite E5|rewrite E6; auto].
  intros _ n _. unfold nm_map. by rewrite E1.
Qed.

Lemma framed_mark_down i s : framed name s (nm_mark_server_down i s).
Proof using.
  unfold nm_mark_server_down. destruct (i <? 0)%Z; [done|]. split; try done; auto.
  - by apply nm_ok_same.
  - cbn [servers set_servers]. apply Forall2_same_length_lookup. split; [by rewrite length_alter|]. intros j x y Hx Hy.
    destruct (decide (j = Z.to_nat i)) as [->|Hne].
    + rewrite list_lookup_alter_eq, Hx in Hy. right. by injection Hy.
    + rewrite list_lookup_alter_ne in Hy by done. left. congruence.
Qed.

Lemma framed_pick s : framed name s (snd (nm_pick_server s)).
Proof using. unfold nm_pick_server. destruct (servers s) eqn:E; [done|]. destruct (pick_loop _ _ _ _ _); [|done]. by apply framed_tables. Qed.

Lemma elem_of_evict e l : e ∈ cache_evict l -> e ∈ l.
Proof using.
  destruct l as [|x l]; [done|]. destruct (cache_evict_spec (x :: l)) as (i & y & Hi & _ & ->); [done|].
  pose proof (swap_remove_perm i y (x :: l) Hi) as Hp. intros He. rewrite Hp. by right.
Qed.

Lemma framed_cache_put idx now s : length name < NM_MAX_NAME -> framed name s (nm_cache_put name idx now s).
Proof using.
  intros Hn. unfold nm_cache_put. destruct (find_first _ _) as [[i x]|] eqn:E.
  - split; try done; auto using marked_refl; [by apply nm_ok_same|]. cbn [cache set_cache]. intros e He.
    apply find_first_Some in E as (_ & Hx & _). apply bool_decide_eq_true in Hx.
    apply list_elem_of_lookup in He as [j Hj]. apply list_lookup_insert_Some in Hj as [(_ & <- & _)|[_ Hj]]; [by left|].
    right. by eapply list_elem_of_lookup_2.
  - split; try done; auto using marked_refl; [by apply nm_ok_same|]. cbn [cache set_cache]. intros e [He|He]%elem_of_app.
    + right. destruct (_ <=? _); [by apply elem_of_evict|done].
    + apply list_elem_of_singleton in He as ->. left. by apply snprintf_s_id.
Qed.

Lemma framed_map s s' :
  (nm_ok s -> nm_ok s' /\ forall n, n <> name -> nm_map s' !! n = nm_map s !! n) ->
  users s' = users s -> servers s' = servers s -> requests s' = requests s -> cache s' = cache s -> framed name s s'.
Proof using.
  intros H E1 E2 E3 E4. split; [by apply H|by apply H|done|by rewrite E2; apply marked_refl|by rewrite E3|rewrite E4; auto].
Qed.

(** An update of the document's entry, found by its name. *)
Lemma framed_update upd s : local_update upd -> framed name s (update_file name upd s).
Proof using.
  intros Hu. apply framed_map; [|unfold update_file; by destruct (find_file_index s name)..].
  intros Hok. destruct (update_file_ok upd Hu name s Hok) as [H1 H2]. split; [done|]. intros n Hn. by rewrite H2, lookup_alter_ne.
Qed.

(** An update of the entry in its slot. *)
Lemma framed_slot upd i s :
  local_update upd -> (forall f, nm_files s !! i = Some f -> f_name f = name) ->
  framed name s (set_nm_files (alter upd i (nm_files s)) s).
Proof using.
  intros Hu Hi. destruct (nm_files s !! i) as [f|] eqn:Ef.
  - apply framed_map; try done. intros Hok. assert (find_file_index s name = Some i) as E.
    { apply find_file_index_Some; [done|]. exists f. auto. }
    destruct (framed_update upd s Hu) as [H1 H2 _ _ _ _]. unfold update_file in H1, H2. rewrite E in H1, H2. auto.
  - apply framed_tables; try done. cbn [nm_files set_nm_files]. apply list_eq. intros j. destruct (decide (j = i)) as [->|Hne].
    + by rewrite list_lookup_alter_eq, Ef.
    + by rewrite list_lookup_alter_ne.
Qed.

Lemma framed_location i p b s : (forall f, nm_files s !! i = Some f -> f_name f = name) -> framed name s (set_location i p b s).
Proof using. apply framed_slot. by split. Qed.

Lemma framed_drop_backup i s : (forall f, nm_files s !! i = Some f -> f_name f = name) -> framed name s (drop_backup_only i s).
Proof using.
  intros Hi. unfold drop_backup_only. destruct (nm_files s !! i) as [f|] eqn:E; [|done]. destruct (_ <? _)%Z; [done|].
  apply framed_location. rewrite E. exact Hi.
Qed.

Lemma framed_select i c :
  (forall f, nm_files (x_state c) !! i = Some f -> f_name f = name) ->
  framed name (x_state c) (x_state (snd (select_storage_server i c))).
Proof using.
  intros Hi. unfold select_storage_server. destruct (nm_files (x_state c) !! i) as [f|] eqn:E; [|done].
  assert (framed name (x_state c) (x_state (drop_file_backup i c))) as Hd by (apply framed_drop_backup; rewrite E; exact Hi).
  assert (framed name (x_state c) (x_state (snd (select_backup i f c)))) as Hb.
  { unfold select_backup. destruct (_ <? _)%Z; [done|]. destruct (nm_get_server _ _) as [x|]; [|exact Hd].
    destruct (is_online x); [|exact Hd]. apply framed_location. rewrite E. exact Hi. }
  destruct (nm_get_server _ _) as [x|]; [|done]. by destruct (is_online x).
Qed.

(** The choice of a server keeps the document in its slot. *)
Lemma select_slot i c f' :
  nm_files (x_state (snd (select_storage_server i c))) !! i = Some f' ->
  exists f, nm_files (x_state c) !! i = Some f /\ f_name f' = f_name f.
Proof using.
  assert (forall p b s, nm_files (set_location i p b s) !! i = Some f' -> exists f, nm_files s !! i = Some f /\ f_name f' = f_name f) as Hl.
  { intros p b s. cbn [set_location nm_files set_nm_files]. rewrite list_lookup_alter_eq. intros (f & Hf & ->)%fmap_Some. by exists f. }
  assert (nm_files (x_state (drop_file_backup i c)) !! i = Some f' -> exists f, nm_files (x_state c) !! i = Some f /\ f_name f' = f_name f) as Hd.
  { unfold drop_file_backup, drop_backup_only. cbn [save with_disk x_state with_state].
    destruct (nm_files (x_state c) !! i) eqn:E; [|by rewrite E]. destruct (_ <? _)%Z; [rewrite E; eauto|]. rewrite <- E. apply Hl. }
  unfold select_storage_server. destruct (nm_files (x_state c) !! i) as [f|] eqn:E; [|cbn [snd]; by rewrite E].
  assert (nm_files (x_state (snd (select_backup i f c))) !! i = Some f' -> exists f0, Some f = Some f0 /\ f_name f' = f_name f0) as Hb.
  { unfold select_backup. destruct (_ <? _)%Z; [cbn [snd]; rewrite E; eauto|]. destruct (nm_get_server _ _) as [x|]; [|exact Hd].
    destruct (is_online x); [|exact Hd]. cbn [snd save with_disk x_state with_state]. rewrite <- E. apply Hl. }
  destruct (nm_get_server _ _) as [x|]; [|exact Hb]. destruct (is_online x); [cbn [snd]; rewrite E; eauto|exact Hb].
Qed.

Lemma framed_add user p b now s : length name < NM_MAX_NAME -> framed name s (snd (nm_add_file name user p b now s)).
Proof using.
  intros Hn. assert (others (snd (nm_add_file name user p b now s)) = others s) as Ho.
  { unfold nm_add_file. destruct (_ <=? _); [done|]. destruct (find_file_index s name); [done|]. apply others_append. }
  injection Ho as O1 _ _ O2 O3 O4. apply framed_map; try done. intros Hok. pose proof (nm_add_file_ok name user p b now s Hok Hn) as H.
  destruct (nm_add_file name user p b now s) as [[|e] s']; cbn [snd]; [|by destruct H as [-> _]].
  destruct H as (H1 & _ & _ & H2). split; [done|]. intros n Hne. by rewrite H2, lookup_insert_ne.
Qed.

Lemma others_hash_insert j s : others (file_hash_insert j s) = others s.
Proof using. unfold file_hash_insert. by destruct (nm_files s !! j). Qed.

Lemma others_hash_remove j s : others (file_hash_remove j s) = others s.
Proof using.
  unfold file_hash_remove. destruct (nm_files s !! j) as [f|]; [|done].
  generalize (LBucket (bucket_of (f_name f))). generalize (S (length (nm_files s))).
  intros n. induction n as [|n IH]; intros l; [done|]. cbn [hash_remove_loop]. destruct (deref s l <? 0)%Z; [done|].
  destruct (deref s l =? Z.of_nat j)%Z; [by destruct l|apply IH].
Qed.

Lemma others_remove s : others (snd (nm_remove_file name s)) = others s.
Proof using.
  unfold nm_remove_file. destruct (find_file_index s name) as [i|]; [|done]. cbv zeta. cbn [snd].
  assert (forall l s, others (set_nm_files l s) = others s) as Hl by done. rewrite Hl.
  destruct (i =? _); [apply others_hash_remove|]. destruct (nm_files (file_hash_remove _ _) !! _).
  - by rewrite others_hash_insert, Hl, !others_hash_remove.
  - by rewrite !others_hash_remove.
Qed.

Lemma framed_remove s : framed name s (snd (nm_remove_file name s)).
Proof using.
  pose proof (others_remove s) as Ho. injection Ho as O1 _ _ O2 O3 O4. apply framed_map; try done.
  intros Hok. pose proof (nm_remove_file_ok name s Hok) as H.
  destruct (nm_remove_file name s) as [[|e] s']; cbn [snd]; [|by destruct H as [-> _]].
  destruct H as (H1 & _ & H2). split; [done|]. intros n Hne. by rewrite H2, lookup_delete_ne.
Qed.

Lemma framed_grant user perm s : framed name s (snd (nm_grant_access name user perm s)).
Proof using.
  unfold nm_grant_access. destruct (nm_find_file s name) as [f|]; [|done]. destruct (streq _ _); [done|].
  destruct (find_acl f user) as [[i e]|]; [by apply framed_update|]. destruct (_ <=? _); [done|by apply framed_update].
Qed.

Lemma framed_revoke user s : framed name s (snd (nm_remove_access name user s)).
Proof using.
  unfold nm_remove_access. destruct (nm_find_file s name) as [f|]; [|done].
  destruct (find_acl f user) as [[i e]|]; [by apply framed_update|done].
Qed.

Lemma framed_checkpoint tag user ts s : framed name s (snd (nm_file_add_checkpoint name tag user ts s)).
Proof using.
  unfold nm_file_add_checkpoint. destruct (nm_find_file s name) as [f|]; [|done]. destruct (file_find_checkpoint f tag); [done|].
  destruct (_ <=? _); [done|by apply framed_update].
Qed.

Lemma framed_requests l s : other_requests name l = other_requests name (requests s) -> framed name s (set_requests l s).
Proof using. intros E. split; try done; auto using marked_refl. by apply nm_ok_same. Qed.

Lemma other_requests_insert i r r' l :
  l !! i = Some r -> r_file r = name -> r_file r' = name -> other_requests name (<[i := r']> l) = other_requests name l.
Proof using.
  intros Hi Hr Hr'. rewrite <- (take_drop_middle l i r Hi) at 2. rewrite insert_take_drop by by eapply lookup_lt_Some.
  unfold other_requests. rewrite !List.filter_app. cbn [List.filter]. unfold streq.
  by rewrite Hr, Hr', bool_decide_eq_true_2.
Qed.

Lemma framed_put_request owner requester perm s s' :
  length name < NM_MAX_NAME -> put_request name owner requester perm s = Some s' -> framed name s s'.
Proof using.
  intros Hn. unfold put_request. destruct (find_access_request s name requester) as [[i r]|] eqn:E.
  - apply find_first_Some in E as (Hi & Hr & _). apply andb_true_iff in Hr as [Hr%bool_decide_eq_true _].
    intros [= <-]. apply framed_requests. by eapply other_requests_insert.
  - destruct (_ <=? _); [done|]. intros [= <-]. apply framed_requests. unfold other_requests. rewrite List.filter_app. cbn [List.filter r_file].
    rewrite snprintf_s_id by done. unfold streq. by rewrite bool_decide_eq_true_2, app_nil_r.
Qed.

Lemma framed_set_status st i r requester s :
  find_access_request s name requester = Some (i, r) -> framed name s (set_requests (alter (set_status st) i (requests s)) s).
Proof using.
  intros E. apply find_first_Some in E as (Hi & Hr & _). apply andb_true_iff in Hr as [Hr%bool_decide_eq_true _].
  apply framed_requests.
  assert (alter (set_status st) i (requests s) = <[i := set_status st r]> (requests s)) as ->; [|by eapply other_requests_insert].
  apply list_eq. intros j. destruct (decide (j = i)) as [->|Hne].
  - rewrite list_lookup_alter_eq, Hi, list_lookup_insert_eq by (by eapply lookup_lt_Some). done.
  - by rewrite list_lookup_alter_ne, list_lookup_insert_ne.
Qed.
End Frame.
