(* ===== verification/NmRequests.v ===== *)
(** * What the name manager's client requests may do

    Every request of a client keeps the tables well formed, and changes and commands only
    what the rights of the user on the document named in the request allow. *)

From S2P Require Import Prelude Keyed Cstr Json Proto Fs NmState NmPersist NmServer NmFrame.

(** ** What a request may change *)

(** A document apart from its chain and from where it is stored. *)
Definition erase (f : file_entry) : file_entry := with_location 0 0 (core f).
Definition docs (s : nm_state) : gmap cstr file_entry := keyed f_name erase (nm_files s).

Lemma docs_map s : docs s = with_location 0 0 <$> nm_map s.
Proof. unfold docs, nm_map, keyed. rewrite <- list_to_map_fmap, <- list_fmap_compose. done. Qed.

Lemma docs_lookup s name f : nm_map s !! name = Some f -> docs s !! name = Some (with_location 0 0 f).
Proof. intros E. by rewrite docs_map, lookup_fmap, E. Qed.

Lemma acl_ok_docs s : acl_ok s <-> map_Forall (fun _ => acl_wf) (docs s).
Proof. rewrite docs_map. unfold acl_ok. rewrite map_Forall_fmap. done. Qed.

(** The two copies of a document are on different servers. *)
Definition distinct (f : file_entry) : Prop := (f_backup_index f < 0)%Z \/ f_backup_index f <> f_ss_index f.
Definition replicas_ok (s : nm_state) : Prop := Forall distinct (nm_files s).

Definition tables_ok (s : nm_state) : Prop := nm_ok s /\ acl_ok s /\ cache_ok s /\ replicas_ok s.

(** Where a document is, which servers are up, which is next, and the cache. *)
Record quiet_change (s s' : nm_state) : Prop := {
  qc_ok : nm_ok s -> nm_ok s';
  qc_docs : docs s' = docs s;
  qc_cache : cache_ok s -> cache_ok s';
  qc_replicas : replicas_ok s -> replicas_ok s';
}.

Lemma tables_same_cache s s' :
  nm_ok s' -> acl_ok s' -> cache s' = cache s -> cache_ok s -> replicas_ok s' -> tables_ok s'.
Proof. intros H1 H2 E H3 H4. split; [done|split; [done|split; [|done]]]. unfold cache_ok. by rewrite E. Qed.

Lemma tables_ok_quiet s s' : tables_ok s -> quiet_change s s' -> tables_ok s'.
Proof.
  intros (H1 & H2 & H3 & H4) [Q1 Q2 Q3 Q4]. split_and!; [auto| |auto|auto]. apply acl_ok_docs. rewrite Q2. by apply acl_ok_docs.
Qed.

Lemma replicas_core s s' : core <$> nm_files s' = core <$> nm_files s -> replicas_ok s -> replicas_ok s'.
Proof.
  intros E H. unfold replicas_ok. change distinct with (distinct ∘ core). apply Forall_fmap. rewrite E. by apply Forall_fmap.
Qed.

#[export] Instance quiet_change_preorder : PreOrder quiet_change.
Proof.
  split; [by split|]. intros s1 s2 s3 [? E1 ? ?] [? E2 ? ?]. split; [auto|by rewrite E2|auto|auto].
Qed.

Lemma quiet_location i p b s : (b < 0)%Z \/ b <> p -> quiet_change s (set_location i p b s).
Proof.
  intros Hb. split; [|unfold docs, keyed, set_location; cbn [nm_files set_nm_files]|done|].
  - intros Hok. by apply (alter_file_ok (with_location p b) ltac:(by split)).
  - f_equal. apply list_eq. intros j. rewrite !list_lookup_fmap. destruct (decide (j = i)) as [->|Hne].
    + rewrite list_lookup_alter_eq. by destruct (nm_files s !! i).
    + by rewrite list_lookup_alter_ne.
  - unfold replicas_ok, set_location. cbn [nm_files set_nm_files]. intros H. by apply Forall_alter.
Qed.

Lemma quiet_tables s s' :
  nm_files s' = nm_files s -> file_buckets s' = file_buckets s -> (cache_ok s -> cache_ok s') -> quiet_change s s'.
Proof. intros Ef Eb Hc. split; [by apply nm_ok_same|unfold docs; by rewrite Ef|done|unfold replicas_ok; by rewrite Ef]. Qed.

Lemma quiet_mark_down i s : quiet_change s (nm_mark_server_down i s).
Proof. unfold nm_mark_server_down. destruct (i <? 0)%Z; [done|]. by apply quiet_tables. Qed.

Lemma quiet_pick s : quiet_change s (snd (nm_pick_server s)).
Proof.
  unfold nm_pick_server. destruct (servers s); [done|]. destruct (pick_loop _ _ _ _ _); [|done]. by apply quiet_tables.
Qed.

Lemma quiet_cache_put name idx now s : length name < NM_MAX_NAME -> quiet_change s (nm_cache_put name idx now s).
Proof.
  intros Hn. apply quiet_tables.
  - unfold nm_cache_put. by destruct (find_first _ _) as [[i x]|].
  - unfold nm_cache_put. by destruct (find_first _ _) as [[i x]|].
  - intros Hc. by apply nm_cache_put_ok.
Qed.

Lemma quiet_drop_backup i s : quiet_change s (drop_backup_only i s).
Proof.
  unfold drop_backup_only. destruct (nm_files s !! i) as [f|]; [|done].
  destruct (_ <? _)%Z; [done|]. apply quiet_location. by left.
Qed.

(** A quiet change during a request for the document [name]. *)
Definition calm (name : cstr) (s s' : nm_state) : Prop := quiet_change s s' /\ framed name s s'.

#[export] Instance calm_preorder name : PreOrder (calm name).
Proof. split; [by split|]. intros s1 s2 s3 [Q1 F1] [Q2 F2]. split; by etransitivity. Qed.

Lemma calm_mark_down name i s : calm name s (nm_mark_server_down i s).
Proof. split; [apply quiet_mark_down|apply framed_mark_down]. Qed.
Lemma calm_pick name s : calm name s (snd (nm_pick_server s)).
Proof. split; [apply quiet_pick|apply framed_pick]. Qed.
Lemma calm_cache_put name idx now s : length name < NM_MAX_NAME -> calm name s (nm_cache_put name idx now s).
Proof. intros. split; [by apply quiet_cache_put|by apply framed_cache_put]. Qed.

(** The steps that do not forward anything. *)
Definition silent (name : cstr) (c c' : nm_context) : Prop :=
  calm name (x_state c) (x_state c') /\ x_forwarded c' = x_forwarded c.

Lemma silent_refl name c : silent name c c.
Proof. by split. Qed.

Lemma silent_trans name c1 c2 c3 : silent name c1 c2 -> silent name c2 c3 -> silent name c1 c3.
Proof. intros [Q1 E1] [Q2 E2]. split; [by etransitivity|by rewrite E2]. Qed.

Lemma silent_state name s c : calm name (x_state c) s -> silent name c (with_state s c).
Proof. by split. Qed.

Lemma silent_save name c c' : silent name c c' -> silent name c (save c').
Proof. by intros []. Qed.

(** The slot is the document's. *)
Definition doc_slot (name : cstr) (i : nat) (c : nm_context) : Prop :=
  forall f, nm_files (x_state c) !! i = Some f -> f_name f = name.

Lemma slot_found name i c : nm_ok (x_state c) -> find_file_index (x_state c) name = Some i -> doc_slot name i c.
Proof. intros Hok Hi f Hf. apply find_file_index_Some in Hi as (g & Hg & <-); [|done]. congruence. Qed.

Lemma slot_select name i c : doc_slot name i c -> doc_slot name i (snd (select_storage_server i c)).
Proof. intros Hs f (g & Hg & ->)%select_slot. by apply Hs. Qed.

Lemma quiet_select i c : quiet_change (x_state c) (x_state (snd (select_storage_server i c))).
Proof.
  unfold select_storage_server. destruct (nm_files (x_state c) !! i) as [f|] eqn:E; [|done].
  assert (quiet_change (x_state c) (x_state (drop_file_backup i c))) as Hd by apply quiet_drop_backup.
  assert (quiet_change (x_state c) (x_state (snd (select_backup i f c)))) as Hb.
  { unfold select_backup. destruct (f_backup_index f <? 0)%Z; [done|]. destruct (nm_get_server _ _) as [x|]; [|exact Hd].
    destruct (is_online x); [|exact Hd]. apply quiet_location. by left. }
  destruct (nm_get_server _ _) as [x|]; [|done]. by destruct (is_online x).
Qed.

Lemma select_forwarded i c : x_forwarded (snd (select_storage_server i c)) = x_forwarded c.
Proof. unfold select_storage_server, select_backup, drop_file_backup. by repeat case_match. Qed.

Lemma silent_select name i c : doc_slot name i c -> silent name c (snd (select_storage_server i c)).
Proof. intros Hs. split; [split; [apply quiet_select|by apply framed_select]|apply select_forwarded]. Qed.

Definition ctx_ok (c : nm_context) : Prop := tables_ok (x_state c).

Definition may_read (f : file_entry) (u : cstr) : Prop := file_has_access f u NM_PERM_READ = true.
Definition may_write (f : file_entry) (u : cstr) : Prop := file_has_access f u NM_PERM_WRITE = true.

(** What the type of a request needs for a command to go out: nothing sends one, the document
    must be new, or the user must have the right. *)
Inductive need := NoCommand | NewDocument | Right (perm : Z).

Definition needs (type : cstr) : need :=
  if bool_decide (type ∈ [cs "READ"; cs "STREAM"; cs "EXEC"; cs "VIEWCHECKPOINT"]) then Right NM_PERM_READ
  else if bool_decide (type ∈ [cs "WRITE"; cs "DELETE"; cs "CHECKPOINT"; cs "REVERT"; cs "UNDO"]) then Right NM_PERM_WRITE
  else if streq type (cs "CREATE") then NewDocument
  else NoCommand.

(** The commands user [u] can cause for the document [name] with a request of type [ty]. *)
Definition commanded (ty u name : cstr) (m : gmap cstr file_entry) : Prop :=
  match needs ty with
  | NoCommand => False
  | NewDocument => m !! name = None /\ u <> []
  | Right perm => exists f, m !! name = Some f /\ file_has_access f u perm = true
  end.

(** The changes user [u] can make to the document [name] with one request of type [ty]. *)
Inductive authorised (ty u name : cstr) (m : gmap cstr file_entry) : gmap cstr file_entry -> Prop :=
| au_same : authorised ty u name m m
| au_create f : ty = cs "CREATE" -> m !! name = None -> u <> [] -> f_owner f = u -> f_acl f = [] -> f_checkpoints f = [] ->
    authorised ty u name m (<[name := f]> m)
| au_delete f : ty = cs "DELETE" -> m !! name = Some f -> may_write f u -> authorised ty u name m (delete name m)
| au_share f l : ty ∈ [cs "ADDACCESS"; cs "REMACCESS"; cs "HANDLEREQ"] -> m !! name = Some f -> f_owner f = u ->
    authorised ty u name m (<[name := with_acl l f]> m)
| au_grant_checkpoint f k : ty = cs "CHECKPOINT" -> m !! name = Some f -> may_write f u ->
    authorised ty u name m (<[name := with_checkpoints (f_checkpoints f ++ [k]) f]> m).

Record outcome (ty u name : cstr) (c c' : nm_context) : Prop := {
  oc_ok : ctx_ok c';
  oc_docs : authorised ty u name (docs (x_state c)) (docs (x_state c'));
  oc_frame : framed name (x_state c) (x_state c');
  oc_sent : x_forwarded c' = x_forwarded c \/ commanded ty u name (docs (x_state c));
}.

Lemma ctx_ok_quiet c c' : ctx_ok c -> quiet_change (x_state c) (x_state c') -> ctx_ok c'.
Proof. apply tables_ok_quiet. Qed.

Lemma ctx_ok_calm name c c' : ctx_ok c -> calm name (x_state c) (x_state c') -> ctx_ok c'.
Proof. intros Hc [Q _]. by eapply ctx_ok_quiet. Qed.

Lemma outcome_silent ty u name c c' : ctx_ok c -> silent name c c' -> outcome ty u name c c'.
Proof. intros Hc [[Q F] E]. split; [by eapply ctx_ok_quiet|rewrite (qc_docs _ _ Q); constructor|done|by left]. Qed.

Lemma outcome_refl ty u name c : ctx_ok c -> outcome ty u name c c.
Proof. intros Hc. apply outcome_silent; [done|apply silent_refl]. Qed.

(** A change that is not seen, and commands for which the user has rights. *)
Lemma outcome_quiet ty u name c c' :
  ctx_ok c -> calm name (x_state c) (x_state c') -> commanded ty u name (docs (x_state c)) -> outcome ty u name c c'.
Proof. intros Hc [Q F] Hd. split; [by eapply ctx_ok_quiet|rewrite (qc_docs _ _ Q); constructor|done|by right]. Qed.

Lemma find_docs s name i f :
  nm_ok s -> find_file_index s name = Some i -> nm_files s !! i = Some f ->
  nm_find_file s name = Some f /\ docs s !! name = Some (erase f).
Proof.
  intros Hok Hi Hf. assert (nm_find_file s name = Some f) as E by (unfold nm_find_file; rewrite Hi; exact Hf).
  split; [done|]. apply docs_lookup. by apply nm_find_file_Some.
Qed.

Lemma found_docs s name f : nm_ok s -> nm_find_file s name = Some f -> docs s !! name = Some (erase f).
Proof. intros Hok E. apply docs_lookup. by apply nm_find_file_Some. Qed.

Lemma missing_docs s name : nm_ok s -> nm_find_file s name = None -> docs s !! name = None.
Proof. intros Hok E. rewrite docs_map, lookup_fmap, nm_find_file_None; done. Qed.

Lemma commanded_access ty u name s i f perm :
  nm_ok s -> find_file_index s name = Some i -> nm_files s !! i = Some f -> file_has_access f u perm = true ->
  needs ty = Right perm -> commanded ty u name (docs s).
Proof. intros Hok Hi Hf Ha Hp. unfold commanded. rewrite Hp. exists (erase f). split; [by eapply find_docs|done]. Qed.

Lemma find_for_inl p name perm denied s i f :
  find_for p name perm denied s = inl (i, f) ->
  find_file_index s name = Some i /\ nm_files s !! i = Some f /\ file_has_access f (p_user p) perm = true.
Proof.
  unfold find_for. destruct (find_file_index s name) as [j|]; [|done]. destruct (nm_files s !! j) as [g|] eqn:E; [|done].
  destruct (file_has_access g (p_user p) perm) eqn:Ea; [|done]. intros [= <- <-]. done.
Qed.

Lemma forward_state ss payload c : x_state (snd (forward_command ss payload c)) = x_state c.
Proof. by destruct ss. Qed.

Lemma issue_ticket_state ss i f u op now c : x_state (snd (issue_ticket ss i f u op now c)) = x_state c.
Proof.
  unfold issue_ticket. destruct (randutil_token _) as [t c1] eqn:E1.
  assert (x_state c1 = x_state c) as <- by (by injection E1 as <- <-).
  destruct (ticket_payload _) as [pl|]; [|done]. pose proof (forward_state (Some ss) pl c1) as Hf.
  destruct (forward_command (Some ss) pl c1) as [[r|] c2]; [|done]. by destruct (status_is_ok r).
Qed.

(** *** Tickets *)

Lemma obtain_loop_spec ty n name user perm op now c :
  ctx_ok c -> length name < NM_MAX_NAME -> needs ty = Right perm ->
  let c' := snd (obtain_loop n name user perm op now c) in
  calm name (x_state c) (x_state c') /\ (x_forwarded c' = x_forwarded c \/ commanded ty user name (docs (x_state c))).
Proof.
  intros Hc Hn Hp. revert c Hc. induction n as [|n IH]; intros c Hc; cbn [obtain_loop]; [by split; [|left]|].
  destruct (find_file_index (x_state c) name) as [i|] eqn:Ei; [|by split; [|left]].
  destruct (nm_files (x_state c) !! i) as [f|] eqn:Ef; [|by split; [|left]].
  destruct (file_has_access f user perm) eqn:Ea; cbn [negb]; [|by split; [|left]].
  pose proof (commanded_access ty user name _ i f perm (proj1 Hc) Ei Ef Ea Hp) as Hcmd.
  pose proof (silent_select name i c (slot_found _ _ _ (proj1 Hc) Ei)) as [Q1 _]. destruct (select_storage_server i c) as [[[k ss]|] c1]; cbn [snd] in Q1;
    [|by split; [|right]].
  pose proof (issue_ticket_state ss k name user op now c1) as E2.
  destruct (issue_ticket ss k name user op now c1) as [[token|] c2]; cbn [snd] in *.
  - split; [|by right]. cbn [x_state with_state]. rewrite E2. etransitivity; [exact Q1|by apply calm_cache_put].
  - assert (calm name (x_state c) (x_state (mark_server_down k c2))) as Q2.
    { cbn [mark_server_down x_state with_state]. rewrite E2. etransitivity; [exact Q1|apply calm_mark_down]. }
    destruct (IH (mark_server_down k c2)) as [Q3 _]; [by eapply ctx_ok_calm|].
    split; [by etransitivity|by right].
Qed.

Lemma obtain_outcome ty name user perm op now c :
  ctx_ok c -> length name < NM_MAX_NAME -> needs ty = Right perm ->
  outcome ty user name c (snd (obtain_ticket_for_file name user perm op now c)).
Proof.
  intros Hc Hn Hp. destruct (obtain_loop_spec ty 2 name user perm op now c Hc Hn Hp) as [Q [E|Hd]].
  - by apply outcome_silent.
  - by apply outcome_quiet.
Qed.

(** *** Changes to one document *)

Lemma docs_update name upd f s :
  nm_ok s -> nm_find_file s name = Some f -> local_update upd ->
  (forall g, with_location 0 0 (upd g) = upd (with_location 0 0 g)) -> (forall g, distinct g -> distinct (upd g)) ->
  let s' := update_file name upd s in
  nm_ok s' /\ docs s' = <[name := upd (erase f)]> (docs s) /\ cache s' = cache s /\ (replicas_ok s -> replicas_ok s').
Proof.
  intros Hok Hf Hu Hc Hd. destruct (update_file_ok upd Hu name s Hok) as [Hok' Hm]. split_and!; [done| | |].
  - rewrite !docs_map, Hm. apply nm_find_file_Some in Hf; [|done]. apply map_eq. intros n.
    destruct (decide (n = name)) as [->|Hne].
    + rewrite lookup_insert_eq, lookup_fmap, lookup_alter_eq, Hf. cbn. by rewrite Hc.
    + rewrite lookup_insert_ne, !lookup_fmap, lookup_alter_ne by done. done.
  - unfold update_file. by destruct (find_file_index s name).
  - unfold update_file. destruct (find_file_index s name); [|done]. unfold replicas_ok. cbn [nm_files set_nm_files].
    intros H. apply Forall_alter; [done|]. intros g _. apply Hd.
Qed.

Lemma acl_ok_insert s s' name f :
  acl_ok s -> docs s' = <[name := f]> (docs s) -> acl_wf f -> acl_ok s'.
Proof. rewrite !acl_ok_docs. intros Ha -> Hf. by apply map_Forall_insert_2. Qed.

Lemma grant_outcome name user perm f s :
  tables_ok s -> length user < NM_MAX_USER -> nm_find_file s name = Some f ->
  let s' := snd (nm_grant_access name user perm s) in
  tables_ok s' /\ exists l, docs s' = <[name := with_acl l (erase f)]> (docs s).
Proof.
  intros Ht Hu Hf. pose proof Ht as (Hok & Ha & Hc & Hr). cbv zeta. pose proof (nm_grant_access_ok name user perm s Hok Ha Hu) as H.
  assert (docs s = <[name := with_acl (f_acl f) (erase f)]> (docs s)) as Hsame.
  { symmetry. apply insert_id. rewrite (found_docs s name f Hok Hf). by destruct f. }
  unfold nm_grant_access in *. rewrite Hf in *. destruct (streq _ _); [by split; [|eauto]|].
  destruct (find_acl f user) as [[i e]|].
  - destruct (docs_update name (fun f => with_acl (<[i := mk_acl (acl_user e) (Z.lor (acl_perm e) perm)]> (f_acl f)) f) f s
                Hok Hf ltac:(by split) ltac:(done) ltac:(done)) as (_ & Hd & Hca & Hrep).
    split; [|eexists; exact Hd]. destruct H as (? & ? & _). by apply (tables_same_cache s); auto.
  - destruct (NM_MAX_ACL <=? length (f_acl f)); [by split; [|eauto]|].
    destruct (docs_update name (fun f => with_acl (f_acl f ++ [mk_acl (snprintf_s NM_MAX_USER user) (Z.lor perm NM_PERM_READ)]) f) f s
                Hok Hf ltac:(by split) ltac:(done) ltac:(done)) as (_ & Hd & Hca & Hrep).
    split; [|eexists; exact Hd]. destruct H as (? & ? & _). by apply (tables_same_cache s); auto.
Qed.

Lemma revoke_outcome name user f s :
  tables_ok s -> nm_find_file s name = Some f ->
  let s' := snd (nm_remove_access name user s) in
  tables_ok s' /\ exists l, docs s' = <[name := with_acl l (erase f)]> (docs s).
Proof.
  intros Ht Hf. pose proof Ht as (Hok & Ha & Hc & Hr). cbv zeta. pose proof (nm_remove_access_ok name user s Hok Ha) as H.
  assert (docs s = <[name := with_acl (f_acl f) (erase f)]> (docs s)) as Hsame.
  { symmetry. apply insert_id. rewrite (found_docs s name f Hok Hf). by destruct f. }
  unfold nm_remove_access in *. rewrite Hf in *. destruct (find_acl f user) as [[i e]|]; [|by split; [|eauto]].
  destruct (docs_update name (fun f => with_acl (swap_remove i (f_acl f)) f) f s Hok Hf ltac:(by split) ltac:(done) ltac:(done))
    as (_ & Hd & Hca & Hrep).
  split; [|eexists; exact Hd]. destruct H as (? & ? & _). by apply (tables_same_cache s); auto.
Qed.

Lemma checkpoint_outcome name tag user ts f s :
  tables_ok s -> nm_find_file s name = Some f ->
  let '(r, s') := nm_file_add_checkpoint name tag user ts s in
  tables_ok s' /\
  (s' = s \/ exists k, docs s' = <[name := with_checkpoints (f_checkpoints f ++ [k]) (erase f)]> (docs s)).
Proof.
  intros Ht Hf. pose proof Ht as (Hok & Ha & Hc & Hr). unfold nm_file_add_checkpoint. rewrite Hf. destruct (file_find_checkpoint f tag); [by split; [|left]|].
  destruct (NM_MAX_CHECKPOINTS <=? _); [by split; [|left]|].
  set (k := mk_checkpoint _ _ _).
  destruct (docs_update name (fun f => with_checkpoints (f_checkpoints f ++ [k]) f) f s Hok Hf ltac:(by split) ltac:(done) ltac:(done))
    as (Hok' & Hd & Hca & Hrep).
  split; [|right; by exists k]. apply (tables_same_cache s); auto.
  eapply acl_ok_insert; [done|exact Hd|]. apply acl_ok_docs in Ha.
  apply (map_Forall_lookup_1 _ _ name (erase f) Ha). by apply found_docs.
Qed.

Lemma add_outcome name user p b now s :
  tables_ok s -> length name < NM_MAX_NAME -> length user < NM_MAX_USER -> (b < 0)%Z \/ b <> p ->
  let '(r, s') := nm_add_file name user p b now s in
  tables_ok s' /\
  match r with
  | NmErr _ => s' = s
  | NmOk => docs s !! name = None /\ exists f, f_owner f = user /\ f_acl f = [] /\ f_checkpoints f = [] /\ docs s' = <[name := f]> (docs s) /\
              forall perm, snd (nm_grant_access name user perm s') = s'
  end.
Proof.
  intros Ht Hn Hu Hb. pose proof Ht as (Hok & Ha & Hc & Hr). pose proof (nm_add_file_ok name user p b now s Hok Hn) as H.
  assert (cache (snd (nm_add_file name user p b now s)) = cache s) as Hca.
  { unfold nm_add_file. destruct (_ <=? _); [done|]. destruct (find_file_index s name); [done|].
    exact (f_equal (fun x => snd (fst x)) (others_append (new_entry name user p b now) s)). }
  assert (replicas_ok (snd (nm_add_file name user p b now s))) as Hrep.
  { unfold nm_add_file. destruct (Nat.leb_spec NM_MAX_FILES (length (nm_files s))); [done|].
    destruct (find_file_index s name) eqn:Ef; [done|]. cbn [snd].
    apply (replicas_core (set_nm_files (nm_files s ++ [new_entry name user p b now]) s)).
    - unfold append_entry. apply same_docs_insert.
    - unfold replicas_ok. cbn [nm_files set_nm_files]. apply Forall_app. split; [done|]. by apply Forall_singleton. }
  destruct (nm_add_file name user p b now s) as [[|e] s']; cbn [snd] in Hca, Hrep;
    [|destruct H as [-> _]; by split_and!].
  destruct H as (Hok' & _ & Hni & Hm). set (f := new_entry name user p b now) in *.
  assert (f_owner f = user) as Ho by (by apply snprintf_s_id).
  assert (docs s' = <[name := with_location 0 0 (core f)]> (docs s)) as Hd by (by rewrite !docs_map, Hm, fmap_insert).
  split; [apply (tables_same_cache s); auto|].
  - eapply acl_ok_insert; [done|exact Hd|]. split; [constructor|cbn; lia].
  - split; [by rewrite docs_map, lookup_fmap, Hni|]. exists (with_location 0 0 (core f)). split_and!; [exact Ho|done|done|exact Hd|].
    intros perm. unfold nm_grant_access. destruct (nm_find_file s' name) as [g|] eqn:E; [|done].
    apply nm_find_file_Some in E; [|done]. rewrite Hm, lookup_insert_eq in E.
    assert (core f = core g) as Ec by congruence. apply (f_equal f_owner) in Ec.
    assert (f_owner g = user) as -> by (rewrite <- Ho; by symmetry).
    unfold streq. by rewrite bool_decide_true.
Qed.

Lemma cache_remove_file name s : cache (snd (nm_remove_file name s)) = cache s.
Proof. exact (f_equal (fun x => snd (fst x)) (others_remove name s)). Qed.

Lemma replicas_remove name s : nm_ok s -> replicas_ok s -> replicas_ok (snd (nm_remove_file name s)).
Proof.
  intros Hok Hr. destruct (find_file_index s name) as [i|] eqn:E; [|unfold nm_remove_file; by rewrite E].
  destruct (nm_remove_file_files s i name Hok E) as (_ & Hf & _).
  apply find_file_index_Some in E as (f & Hi & _); [|done].
  assert (core <$> nm_files s ≡ₚ core f :: (core <$> nm_files (snd (nm_remove_file name s)))) as Hp.
  { rewrite Hf. apply swap_remove_perm. by rewrite list_lookup_fmap, Hi. }
  assert (Forall distinct (core <$> nm_files s)) as Hc by (by apply Forall_fmap).
  rewrite Hp in Hc. apply List.Forall_inv_tail in Hc. rewrite Forall_fmap in Hc. exact Hc.
Qed.

Lemma remove_outcome name s :
  tables_ok s ->
  let s' := snd (nm_remove_file name s) in
  tables_ok s' /\ docs s' = delete name (docs s).
Proof.
  intros Ht. pose proof Ht as (Hok & Ha & Hc & Hr). cbv zeta. pose proof (nm_remove_file_ok name s Hok) as H.
  pose proof (replicas_remove name s Hok Hr) as Hrep.
  pose proof (cache_remove_file name s) as Hca.
  destruct (nm_remove_file name s) as [[|e] s']; cbn [snd] in Hca, Hrep |- *.
  - destruct H as (Hok' & _ & Hm). assert (docs s' = delete name (docs s)) as Hd by (by rewrite !docs_map, Hm, fmap_delete).
    split; [apply (tables_same_cache s); auto|done].
    apply acl_ok_docs. rewrite Hd. apply acl_ok_docs in Ha. by apply map_Forall_delete.
  - destruct H as (-> & Hm & _). split; [done|]. rewrite delete_id; [done|]. by rewrite docs_map, lookup_fmap, Hm.
Qed.

(** ** The handlers *)

Definition req_file (json : cstr) : cstr := default [] (json_get_string json (cs "file") NM_MAX_NAME).

Lemma req_file_length json : length (req_file json) < NM_MAX_NAME.
Proof.
  unfold req_file. destruct (json_get_string json (cs "file") NM_MAX_NAME) as [n|] eqn:E; [|cbn; unfold NM_MAX_NAME; lia].
  by apply json_get_string_length in E.
Qed.

Section Handlers.
Context (p : peer) (json : cstr) (now : Z) (c : nm_context).
Context (Hc : ctx_ok c) (Hu : length (p_user p) < NM_MAX_USER).

Notation outcome ty c' := (outcome ty (p_user p) (req_file json) c c').

Lemma refused ty code msg : outcome ty (snd (bad code msg c)).
Proof using Hc. by apply outcome_refl. Qed.

Lemma get_file name : json_get_string json (cs "file") NM_MAX_NAME = Some name -> req_file json = name.
Proof using. unfold req_file. by intros ->. Qed.

Lemma view_outcome : outcome (cs "VIEW") (snd (handle_client_view p json c)).
Proof using Hc. unfold handle_client_view. by destruct (view_loop _ _ _ _ _ _ _) as [[?|]|]; apply outcome_refl. Qed.

Lemma list_users_outcome : outcome (cs "LIST") (snd (handle_client_list_users c)).
Proof using Hc. unfold handle_client_list_users. by destruct (users_loop _ _ _) as [[?|]|]; apply outcome_refl. Qed.

Lemma info_outcome : outcome (cs "INFO") (snd (handle_client_info p json c)).
Proof using Hc.
  assert (snd (handle_client_info p json c) = c) as ->; [|by apply outcome_refl].
  unfold handle_client_info, bad. repeat (case_match; try done).
Qed.

Lemma viewreqs_outcome : outcome (cs "VIEWREQS") (snd (handle_client_viewreqs p json c)).
Proof using Hc.
  assert (snd (handle_client_viewreqs p json c) = c) as ->; [|by apply outcome_refl].
  unfold handle_client_viewreqs, bad. repeat (case_match; try done).
Qed.

Lemma listcheckpoints_outcome : outcome (cs "LISTCHECKPOINTS") (snd (handle_client_listcheckpoints p json c)).
Proof using Hc.
  assert (snd (handle_client_listcheckpoints p json c) = c) as ->; [|by apply outcome_refl].
  unfold handle_client_listcheckpoints, bad. repeat (case_match; try done).
Qed.

Lemma lookup_outcome ty op perm sentence :
  needs ty = Right perm -> outcome ty (snd (handle_lookup_common p json op perm sentence now c)).
Proof using Hc.
  intros Hp. unfold handle_lookup_common. destruct (json_get_string json (cs "file") NM_MAX_NAME) as [name|] eqn:E;
    [|apply refused].
  pose proof (obtain_outcome ty name (p_user p) perm op now c Hc (json_get_string_length _ _ _ _ E) Hp) as H.
  apply get_file in E as <-. by destruct (obtain_ticket_for_file _ _ _ _ _ _) as [[[token ss]|rc] c'].
Qed.

Lemma read_outcome : outcome (cs "READ") (snd (handle_client_read p json now c)).
Proof using Hc. by apply lookup_outcome. Qed.

Lemma stream_outcome : outcome (cs "STREAM") (snd (handle_client_stream p json now c)).
Proof using Hc. by apply lookup_outcome. Qed.

Lemma write_outcome : outcome (cs "WRITE") (snd (handle_client_write p json now c)).
Proof using Hc. by apply lookup_outcome. Qed.

Lemma exec_outcome ask shell : outcome (cs "EXEC") (snd (handle_client_exec ask shell p json now c)).
Proof using Hc.
  unfold handle_client_exec. destruct (json_get_string json (cs "file") NM_MAX_NAME) as [name|] eqn:E; [|apply refused].
  pose proof (obtain_outcome (cs "EXEC") name (p_user p) NM_PERM_READ (cs "READ") now c Hc (json_get_string_length _ _ _ _ E)
                eq_refl) as H.
  apply get_file in E as <-. destruct (obtain_ticket_for_file _ _ _ _ _ _) as [[[token ss]|rc] c']; [|done].
  assert (forall x : reply * nm_context, snd x = c' -> outcome (cs "EXEC") (snd x)) as Hx by (by intros x ->).
  apply Hx. unfold bad. repeat (case_match; try done).
Qed.

Lemma commanded_for ty name i f perm denied :
  find_for p name perm denied (x_state c) = inl (i, f) -> needs ty = Right perm ->
  commanded ty (p_user p) name (docs (x_state c)) /\ doc_slot name i c.
Proof using Hc.
  intros (Hi & Hf & Ha)%find_for_inl Hn. split; [by eapply commanded_access; [apply Hc|..]|]. apply slot_found; [apply Hc|done].
Qed.

Lemma undo_outcome : outcome (cs "UNDO") (snd (handle_client_undo p json c)).
Proof using Hc.
  unfold handle_client_undo. destruct (json_get_string json (cs "file") NM_MAX_NAME) as [name|] eqn:E; [|apply refused].
  apply get_file in E as <-. destruct (find_for _ _ _ _ _) as [[i f]|r] eqn:Ef; [|by apply outcome_refl].
  pose proof (commanded_for (cs "UNDO") _ _ _ _ _ Ef eq_refl) as [Hcmd Hslot]. pose proof (silent_select _ i c Hslot) as [Q _].
  destruct (select_storage_server i c) as [[[k ss]|] c1]; cbn [snd] in Q; [|by apply outcome_quiet].
  destruct (fit 512 _) as [payload|]; [|by apply outcome_quiet].
  pose proof (forward_state (Some ss) payload c1) as E2. destruct (forward_command (Some ss) payload c1) as [[r|] c2]; cbn [snd] in E2.
  - rewrite <- E2 in Q. by destruct (status_is_ok r); apply outcome_quiet.
  - apply outcome_quiet; [done| |done]. cbn. rewrite E2. etransitivity; [exact Q|apply calm_mark_down].
Qed.

Lemma forward_backup_state i j payload c' : x_state (forward_to_backup i j payload c') = x_state c'.
Proof using.
  unfold forward_to_backup. destruct (connected _ _) as [b|]; [|done]. by destruct (_ =? _)%Z.
Qed.

Lemma revert_outcome : outcome (cs "REVERT") (snd (handle_client_revert p json c)).
Proof using Hc.
  unfold handle_client_revert. destruct (json_get_string json (cs "file") NM_MAX_NAME) as [name|] eqn:E; [|apply refused].
  apply get_file in E as <-. destruct (json_get_string json (cs "tag") NM_MAX_NAME) as [tag|]; [|apply refused].
  destruct (valid_checkpoint_tag tag); cbn [negb]; [|apply refused].
  destruct (find_for _ _ _ _ _) as [[i f]|r] eqn:Ef; [|by apply outcome_refl].
  pose proof (commanded_for (cs "REVERT") _ _ _ _ _ Ef eq_refl) as [Hcmd _].
  destruct (file_find_checkpoint f tag); [|apply refused]. destruct (connected _ _) as [primary|]; [|apply refused].
  destruct (checkpoint_payload _ _ _ _) as [payload|r]; [|by apply outcome_refl].
  pose proof (forward_state (Some primary) payload c) as E2.
  destruct (forward_command (Some primary) payload c) as [[r|] c2]; cbn [snd] in E2.
  - destruct (status_is_ok r); cbn [negb]; apply outcome_quiet; try done; cbn [snd bad].
    + by rewrite forward_backup_state, E2.
    + by rewrite E2.
  - apply outcome_quiet; [done| |done]. by rewrite <- E2.
Qed.

Lemma forward_available_state primary backup payload c' :
  x_state (snd (forward_to_available_server primary backup payload c')) = x_state c'.
Proof using.
  unfold forward_to_available_server.
  assert (forall c', x_state (snd (match backup with
    | Some (j, y) => if bool_decide (fst <$> primary = Some j) || (ss_ctrl_fd y <? 0)%Z then (None, c')
                     else forward_command (Some y) payload c'
    | None => (None, c') end)) = x_state c') as Hb.
  { intros c1. destruct backup as [[j y]|]; [|done]. by destruct (_ || _). }
  destruct primary as [[j x]|]; [|apply Hb]. destruct (_ <? _)%Z; [apply Hb|].
  pose proof (forward_state (Some x) payload c') as E2.
  destruct (forward_command (Some x) payload c') as [[r|] c2]; [done|]. cbn [snd] in E2. by rewrite Hb.
Qed.

Lemma viewcheckpoint_outcome : outcome (cs "VIEWCHECKPOINT") (snd (handle_client_viewcheckpoint p json c)).
Proof using Hc.
  unfold handle_client_viewcheckpoint. destruct (json_get_string json (cs "file") NM_MAX_NAME) as [name|] eqn:E; [|apply refused].
  apply get_file in E as <-. destruct (json_get_string json (cs "tag") NM_MAX_NAME) as [tag|]; [|apply refused].
  destruct (valid_checkpoint_tag tag); cbn [negb]; [|apply refused].
  destruct (find_for _ _ _ _ _) as [[i f]|r] eqn:Ef; [|by apply outcome_refl].
  pose proof (commanded_for (cs "VIEWCHECKPOINT") _ _ _ _ _ Ef eq_refl) as [Hcmd _].
  destruct (file_find_checkpoint f tag); [|apply refused]. cbv zeta.
  set (primary := indexed_server _ (f_ss_index f)). set (backup := indexed_server _ (f_backup_index f)).
  assert (outcome (cs "VIEWCHECKPOINT") (snd (match checkpoint_payload (cs "NM_CHECKPOINT_VIEW") (req_file json) tag (p_user p) with
    | inr r => (r, c)
    | inl payload =>
        match forward_to_available_server primary backup payload c with
        | (None, c) => bad ERR_UNAVAILABLE (cs "checkpoint unavailable") c
        | (Some response, c) =>
            if negb (status_is_ok response) then bad ERR_INTERNAL (cs "checkpoint view failed") c
            else
              match json_get_string_alloc response (cs "content") with
              | None => bad ERR_INTERNAL (cs "missing content") c
              | Some content =>
                  match json_escape_dup content with
                  | None => bad ERR_INTERNAL (cs "encoding error") c
                  | Some escaped =>
                      match fit MAX_JSON (js "'content':'" ++ escaped ++ js "'") with
                      | None => bad ERR_INTERNAL (cs "response too large") c
                      | Some extra => (ROk extra, c)
                      end
                  end
              end
        end
    end))) as H; [|by destruct primary, backup; [..|apply refused]].
  destruct (checkpoint_payload _ _ _ _) as [payload|r]; [|by apply outcome_refl].
  pose proof (forward_available_state primary backup payload c) as E2.
  destruct (forward_to_available_server _ _ _ _) as [r c2]. cbn [snd] in E2.
  assert (forall x : reply * nm_context, snd x = c2 -> outcome (cs "VIEWCHECKPOINT") (snd x)) as Hx.
  { intros x ->. apply outcome_quiet; [done|by rewrite E2|done]. }
  apply Hx. unfold bad. repeat (case_match; try done).
Qed.

(** *** Sharing *)

Lemma find_owned_inl name f :
  find_owned p name (x_state c) = inl f -> nm_find_file (x_state c) name = Some f /\ f_owner f = p_user p.
Proof using.
  unfold find_owned. destruct (nm_find_file _ name) as [g|]; [|done].
  destruct (streq (f_owner g) (p_user p)) eqn:E; [|done]. intros [= ->]. split; [done|]. by apply bool_decide_eq_true in E.
Qed.

(** A change of the access list of an owned document. *)
Lemma share_outcome ty name f s c' :
  ty ∈ [cs "ADDACCESS"; cs "REMACCESS"; cs "HANDLEREQ"] -> framed name (x_state c) s ->
  req_file json = name -> nm_find_file (x_state c) name = Some f -> f_owner f = p_user p ->
  tables_ok s /\ (exists l, docs s = <[name := with_acl l (erase f)]> (docs (x_state c))) ->
  x_state c' = s -> x_forwarded c' = x_forwarded c -> outcome ty c'.
Proof using Hc.
  intros Hty Hfr <- Hf Ho [Hok [l Hl]] <- Hs. split; [done| |done|by left]. rewrite Hl. apply au_share; [done| |done].
  by apply found_docs; [apply Hc|].
Qed.

Lemma addaccess_outcome : outcome (cs "ADDACCESS") (snd (handle_client_addaccess p json c)).
Proof using Hc.
  unfold handle_client_addaccess. destruct (json_get_string json (cs "file") NM_MAX_NAME) as [name|] eqn:E; [|apply refused].
  destruct (json_get_string json (cs "user") NM_MAX_USER) as [target|] eqn:Et; [|apply refused].
  destruct (json_get_string json (cs "mode") 8) as [mode|]; [|apply refused].
  apply get_file in E. destruct (find_owned _ _ _) as [f|r] eqn:Ef; [|by apply outcome_refl].
  apply find_owned_inl in Ef as [Hf Ho]. pose proof (grant_outcome name target (mode_perm mode) f (x_state c) Hc (json_get_string_length _ _ _ _ Et) Hf) as Hg.
  pose proof (framed_grant name target (mode_perm mode) (x_state c)) as Hfr.
  unfold in_state. destruct (nm_grant_access _ _ _ _) as [r s]; cbn [snd] in *.
  destruct r; by eapply share_outcome; [left|..].
Qed.

Lemma removeaccess_outcome : outcome (cs "REMACCESS") (snd (handle_client_removeaccess p json c)).
Proof using Hc.
  unfold handle_client_removeaccess. destruct (json_get_string json (cs "file") NM_MAX_NAME) as [name|] eqn:E; [|apply refused].
  destruct (json_get_string json (cs "user") NM_MAX_USER) as [target|] eqn:Et; [|apply refused].
  apply get_file in E. destruct (find_owned _ _ _) as [f|r] eqn:Ef; [|by apply outcome_refl].
  apply find_owned_inl in Ef as [Hf Ho]. pose proof (revoke_outcome name target f (x_state c) Hc Hf) as Hg.
  pose proof (framed_revoke name target (x_state c)) as Hfr.
  unfold in_state. destruct (nm_remove_access _ _ _) as [r s]; cbn [snd] in *. by eapply share_outcome; [right; left|..].
Qed.

Lemma grant_requests name user perm s : requests (snd (nm_grant_access name user perm s)) = requests s.
Proof using.
  unfold nm_grant_access, update_file. destruct (nm_find_file s name) as [f|]; [|done]. destruct (streq _ _); [done|].
  destruct (find_acl f user) as [[i e]|]; [by destruct (find_file_index s name)|]. destruct (_ <=? _); [done|].
  by destruct (find_file_index s name).
Qed.

Lemma quiet_requests l s : quiet_change s (set_requests l s).
Proof using. by apply quiet_tables. Qed.

Lemma reqaccess_outcome : outcome (cs "REQACCESS") (snd (handle_client_reqaccess p json c)).
Proof using Hc.
  unfold handle_client_reqaccess. destruct (json_get_string json (cs "file") NM_MAX_NAME) as [name|] eqn:E; [|apply refused].
  destruct (json_get_string json (cs "mode") 8) as [mode|]; [|apply refused].
  destruct (negb _); [apply refused|]. destruct (nm_find_file _ _) as [f|]; [|apply refused].
  destruct (streq _ _); [apply refused|]. destruct (nm_check_access _ _ _ _); [apply refused|].
  destruct (put_request _ _ _ _ _) as [s|] eqn:Ep; [|apply refused]. cbn [snd].
  pose proof (framed_put_request _ _ _ _ _ _ (json_get_string_length _ _ _ _ E) Ep) as Hfr. apply get_file in E as <-.
  apply outcome_silent; [done|]. apply silent_save, silent_state. split; [|done]. unfold put_request in Ep.
  destruct (find_access_request _ _ _) as [[i r]|]; [injection Ep as <-; apply quiet_requests|].
  destruct (_ <=? _); [done|]. injection Ep as <-. apply quiet_requests.
Qed.

Lemma handlereq_outcome : outcome (cs "HANDLEREQ") (snd (handle_client_handlereq p json c)).
Proof using Hc.
  unfold handle_client_handlereq. destruct (json_get_string json (cs "file") NM_MAX_NAME) as [name|] eqn:E; [|apply refused].
  destruct (json_get_string json (cs "user") NM_MAX_USER) as [target|] eqn:Et; [|apply refused].
  destruct (json_get_string json (cs "action") 16) as [action|]; [|apply refused]. cbv zeta.
  destruct (negb _ && negb _); [apply refused|].
  apply get_file in E. destruct (find_owned _ _ _) as [f|r] eqn:Ef; [|by apply outcome_refl].
  apply find_owned_inl in Ef as [Hf Ho]. destruct (find_access_request _ _ _) as [[i req]|] eqn:Er; [|apply refused].
  destruct (negb _); [apply refused|]. destruct (streq_nocase action (cs "APPROVE")).
  - pose proof (grant_outcome name target (r_perm req) f (x_state c) Hc (json_get_string_length _ _ _ _ Et) Hf) as Hg.
    pose proof (framed_grant name target (r_perm req) (x_state c)) as Hfr.
    unfold in_state. destruct (nm_grant_access _ _ _ _) as [[|e] s] eqn:Eg; cbn [snd] in *; [|by eapply share_outcome; [do 2 right; left|..]].
    assert (find_access_request s name target = Some (i, req)) as Er'.
    { unfold find_access_request. assert (requests s = requests (x_state c)) as ->; [|done].
      change s with (snd (NmOk, s)). rewrite <- Eg. apply grant_requests. }
    eapply share_outcome; [do 2 right; left| |done|done|done| |done|done].
    { etransitivity; [exact Hfr|by eapply framed_set_status]. }
    set (s' := set_requests _ _). pose proof (quiet_requests (alter (set_status NM_REQUEST_APPROVED) i (requests s)) s) as Q.
    destruct Hg as [Hs Hl]. split; [exact (ctx_ok_quiet (with_state s c) (with_state s' c) Hs Q)|].
    destruct Hl as [l Hl]. exists l. rewrite <- Hl. exact (qc_docs _ _ Q).
  - cbn [snd]. subst name. apply outcome_silent; [done|]. apply silent_save, silent_state. split; [apply quiet_requests|].
    by eapply framed_set_status.
Qed.

(** *** Creating, deleting, checkpoints *)

Lemma create_backup_state n i k payload c' : x_state (snd (create_backup_loop n i k payload c')) = x_state c'.
Proof using.
  revert i c'. induction n as [|n IH]; intros i c'; cbn [create_backup_loop]; [done|].
  destruct (_ =? _)%Z; [apply IH|]. destruct (negb _); [apply IH|].
  pose proof (forward_state (nm_get_server (x_state c') (Z.of_nat i)) payload c') as E2.
  destruct (forward_command _ _ _) as [[r|] c2]; cbn [snd] in E2; [|by rewrite IH].
  destruct (bool_decide _); [done|by rewrite IH].
Qed.

Lemma create_backup_other n i k payload c' :
  (fst (create_backup_loop n i k payload c') < 0)%Z \/ fst (create_backup_loop n i k payload c') <> k.
Proof using.
  revert i c'. induction n as [|n IH]; intros i c'; cbn [create_backup_loop]; [by left|].
  destruct (Z.eqb_spec (Z.of_nat i) k) as [|Hne]; [apply IH|]. destruct (negb _); [apply IH|].
  destruct (forward_command _ _ _) as [[r|] c2]; [|apply IH]. destruct (bool_decide _); [by right|apply IH].
Qed.

Lemma create_outcome : outcome (cs "CREATE") (snd (handle_client_create p json now c)).
Proof using Hc Hu.
  unfold handle_client_create. destruct (json_get_string json (cs "file") NM_MAX_NAME) as [name|] eqn:E; [|apply refused].
  pose proof (json_get_string_length _ _ _ _ E) as Hn. apply get_file in E as <-.
  destruct (negb _); [apply refused|]. destruct (bool_decide_reflect (p_user p = [])) as [|Hne]; [apply refused|].
  destruct (nm_find_file _ _) eqn:Ef; [apply refused|].
  pose proof (missing_docs _ _ (proj1 Hc) Ef) as Hmiss.
  assert (commanded (cs "CREATE") (p_user p) (req_file json) (docs (x_state c))) as Hcmd by done.
  pose proof (calm_pick (req_file json) (x_state c)) as Qp. unfold in_state at 1. destruct (nm_pick_server (x_state c)) as [[k|] s1]; cbn [snd] in Qp.
  2: { by apply outcome_quiet. }
  set (c1 := with_state s1 c). assert (calm (req_file json) (x_state c) (x_state c1)) as Q1 by exact Qp.
  destruct (nm_get_server _ _) as [ss|]; [|by apply outcome_quiet].
  destruct (_ <? _)%Z; [by apply outcome_quiet|]. destruct (fit 512 _) as [payload|]; [|by apply outcome_quiet].
  pose proof (forward_state (Some ss) payload c1) as E2. destruct (forward_command (Some ss) payload c1) as [[r|] c2]; cbn [snd] in E2.
  2: { apply outcome_quiet; [done| |done]. cbn. rewrite E2. etransitivity; [exact Q1|apply calm_mark_down]. }
  destruct (status_is_ok r); cbn [negb]; [|apply outcome_quiet; [done|by rewrite <- E2 in Q1|done]].
  pose proof (create_backup_state (length (servers (x_state c2))) 0 (Z.of_nat k) payload c2) as E3.
  pose proof (create_backup_other (length (servers (x_state c2))) 0 (Z.of_nat k) payload c2) as Hb.
  destruct (create_backup_loop _ _ _ _ _) as [b c3]. cbn [fst snd] in E3, Hb. rewrite <- E2, <- E3 in Q1.
  pose proof (ctx_ok_calm _ c c3 Hc Q1) as O. pose proof (framed_add (req_file json) (p_user p) (Z.of_nat k) b now (x_state c3) Hn) as F4.
  pose proof (add_outcome (req_file json) (p_user p) (Z.of_nat k) b now (x_state c3) O Hn Hu Hb) as Ha.
  unfold in_state. destruct (nm_add_file _ _ _ _ _ _) as [[|e] s4].
  2: { destruct Ha as [_ ->]. by apply outcome_quiet. }
  destruct Ha as [Hok4 (Hm & f & Ho & Hal & Hck & Hd & Hg)]. cbn [snd] in F4. cbn [x_state with_state].
  specialize (Hg (Z.lor NM_PERM_WRITE NM_PERM_READ)). destruct (nm_grant_access _ _ _ s4) as [g s5]. cbn [snd] in Hg. subst s5.
  cbn [x_state with_state]. destruct (calm_cache_put (req_file json) (Z.of_nat k) now s4 Hn) as [Q5 F5].
  destruct Q1 as [Q1 F1]. split; [|cbn [snd save with_disk x_state with_state]..|by right].
  - exact (ctx_ok_quiet (with_state s4 c) (with_state _ c) Hok4 Q5).
  - rewrite (qc_docs _ _ Q5), Hd, (qc_docs _ _ Q1). by constructor.
  - etransitivity; [exact F1|]. by etransitivity.
Qed.

Lemma delete_outcome : outcome (cs "DELETE") (snd (handle_client_delete p json c)).
Proof using Hc.
  unfold handle_client_delete. destruct (json_get_string json (cs "file") NM_MAX_NAME) as [name|] eqn:E; [|apply refused].
  apply get_file in E as <-. destruct (find_for _ _ _ _ _) as [[i f]|r] eqn:Ef; [|by apply outcome_refl].
  pose proof (commanded_for (cs "DELETE") _ _ _ _ _ Ef eq_refl) as [Hcmd Hslot]. apply find_for_inl in Ef as (Hi & Hf & Ha).
  destruct (find_docs _ _ _ _ (proj1 Hc) Hi Hf) as [_ Hdf].
  pose proof (slot_select _ i c Hslot) as Hslot1. pose proof (silent_select _ i c Hslot) as [Q1 _]. destruct (select_storage_server i c) as [[[k1 ss1]|] c1]; cbn [snd] in Q1, Hslot1;
    [|by apply outcome_quiet].
  pose proof (silent_select _ i c1 Hslot1) as [Q2 _]. destruct (select_storage_server i c1) as [again c2]. cbn [snd] in Q2. cbv zeta.
  assert (calm (req_file json) (x_state c) (x_state c2)) as Q by (by etransitivity). clear Q1 Q2 Hslot1 c1.
  set (k := match again with Some (k, _) => k | None => k1 end).
  destruct (fit 256 _) as [payload|]; [|by apply outcome_quiet].
  pose proof (forward_state (snd <$> again) payload c2) as E3.
  destruct (forward_command (snd <$> again) payload c2) as [[r|] c3]; cbn [snd] in E3.
  2: { apply outcome_quiet; [done| |done]. cbn. rewrite E3. etransitivity; [exact Q|apply calm_mark_down]. }
  rewrite <- E3 in Q. destruct (status_is_ok r); cbn [negb]; [|by apply outcome_quiet].
  set (b := match nm_files (x_state c3) !! i with Some f => f_backup_index f | None => (-1)%Z end).
  pose proof (ctx_ok_calm _ c c3 Hc Q) as O. destruct Q as [Q F].
  set (s4 := snd (nm_remove_file (req_file json) (x_state c3))).
  destruct (remove_outcome (req_file json) _ O) as [Hok4 Hd4]. pose proof (framed_remove (req_file json) (x_state c3)) as F4. fold s4 in Hok4, Hd4, F4.
  set (c5 := match nm_get_server _ b with Some _ => _ | None => _ end).
  assert (x_state c5 = s4) as E5.
  { unfold c5. destruct (nm_get_server _ b) as [bk|]; [|done]. by destruct (_ <? _)%Z. }
  split; [|cbn [snd save with_disk x_state]..|by right].
  - unfold ctx_ok. cbn [snd save with_disk x_state]. by rewrite E5.
  - rewrite E5, Hd4, (qc_docs _ _ Q). by apply (au_delete _ _ _ _ (erase f)).
  - rewrite E5. by etransitivity.
Qed.

Lemma checkpoint_request_outcome : outcome (cs "CHECKPOINT") (snd (handle_client_checkpoint p json now c)).
Proof using Hc.
  unfold handle_client_checkpoint. destruct (json_get_string json (cs "file") NM_MAX_NAME) as [name|] eqn:E; [|apply refused].
  apply get_file in E as <-. destruct (json_get_string json (cs "tag") NM_MAX_NAME) as [tag|]; [|apply refused].
  destruct (valid_checkpoint_tag tag); cbn [negb]; [|apply refused].
  destruct (find_for _ _ _ _ _) as [[i f]|r] eqn:Ef; [|by apply outcome_refl].
  pose proof (commanded_for (cs "CHECKPOINT") _ _ _ _ _ Ef eq_refl) as [Hcmd _]. apply find_for_inl in Ef as (Hi & Hf & Ha).
  destruct (find_docs _ _ _ _ (proj1 Hc) Hi Hf) as [Hff Hdf].
  destruct (file_find_checkpoint f tag); [apply refused|]. destruct (connected _ _) as [primary|]; [|apply refused].
  destruct (checkpoint_payload _ _ _ _) as [payload|r]; [|by apply outcome_refl].
  pose proof (forward_state (Some primary) payload c) as E2.
  destruct (forward_command (Some primary) payload c) as [[r|] c2]; cbn [snd] in E2.
  2: { apply outcome_quiet; [done|by rewrite <- E2|done]. }
  assert (calm (req_file json) (x_state c) (x_state c2)) as Q by (by rewrite E2).
  destruct (status_is_ok r); cbn [negb]; [|by apply outcome_quiet].
  rewrite E2 at 1. rewrite Hff. destruct (file_find_checkpoint f tag); [by apply outcome_quiet|].
  pose proof (checkpoint_outcome (req_file json) tag (p_user p) now f (x_state c) Hc Hff) as Hk.
  pose proof (framed_checkpoint (req_file json) tag (p_user p) now (x_state c)) as F3.
  unfold in_state. rewrite E2. destruct (nm_file_add_checkpoint _ _ _ _ _) as [res s3].
  destruct Hk as [Hok3 Hd3].
  assert (forall x : reply * nm_context, x_state (snd x) = s3 -> outcome (cs "CHECKPOINT") (snd x)) as Hx.
  { intros x Ex. split; [unfold ctx_ok; by rewrite Ex|rewrite Ex|by rewrite Ex|by right].
    destruct Hd3 as [->|[k ->]]; [constructor|]. by apply (au_grant_checkpoint _ _ _ _ (erase f)). }
  apply Hx. destruct res as [|[]]; try done. cbn [snd]. by rewrite forward_backup_state.
Qed.
End Handlers.

Definition req_type (json : cstr) : cstr := default [] (json_get_string json (cs "type") 64).

(** One branch of the dispatch on the type of a request. *)
Ltac request_case lem :=
  match goal with
  | |- context [streq ?type ?x] =>
      let E := fresh in destruct (streq type x) eqn:E; [apply bool_decide_eq_true in E as ->; by apply lem|clear E]
  end.

Lemma request_outcome ask shell p json now c :
  ctx_ok c -> length (p_user p) < NM_MAX_USER ->
  outcome (req_type json) (p_user p) (req_file json) c (snd (handle_client_message ask shell p json now c)).
Proof.
  intros Hc Hu. unfold req_type, handle_client_message.
  destruct (json_get_string json (cs "type") 64) as [type|]; [|by apply outcome_refl].
  cbv zeta. cbn [default from_option id].
  request_case view_outcome.
  request_case list_users_outcome.
  request_case info_outcome.
  request_case create_outcome.
  request_case delete_outcome.
  request_case read_outcome.
  request_case write_outcome.
  request_case stream_outcome.
  request_case checkpoint_request_outcome.
  request_case viewcheckpoint_outcome.
  request_case revert_outcome.
  request_case listcheckpoints_outcome.
  request_case addaccess_outcome.
  request_case removeaccess_outcome.
  request_case reqaccess_outcome.
  request_case viewreqs_outcome.
  request_case handlereq_outcome.
  request_case undo_outcome.
  request_case exec_outcome.
  case_match; by apply outcome_refl.
Qed.

(** C11: Whatever a connected client sends, the name manager answers and its tables stay well formed:
    the document table with its hash chains, the access lists and the cache.  The request
    touches only the document it names: every other document keeps its whole entry, and so
    do the users and the access requests for other documents; servers can only be marked
    down, and cached locations of other documents only be dropped.  What happens to that
    document, and what the storage servers are told to do, depends on the type of the
    request and the rights of the connected user: only CREATE makes a document, which must be
    new, and its creator owns it; only DELETE removes one and only CHECKPOINT adds a
    checkpoint, by a user with write access; only ADDACCESS, REMACCESS and HANDLEREQ change
    the access list, by its owner.  A command or a ticket goes out only for READ, STREAM,
    EXEC and VIEWCHECKPOINT by a user with read access, for WRITE, DELETE, CHECKPOINT,
    REVERT and UNDO by a user with write access, and for CREATE by a named user where no
    document has that name. *)
Theorem nm_requests_authorised ask shell p json now c
  (Hc : ctx_ok c) (Hu : length (p_user p) < NM_MAX_USER) :
  let c' := snd (handle_client_message ask shell p json now c) in
  ctx_ok c' /\
  framed (req_file json) (x_state c) (x_state c') /\
  authorised (req_type json) (p_user p) (req_file json) (docs (x_state c)) (docs (x_state c')) /\
  (x_forwarded c' = x_forwarded c \/ commanded (req_type json) (p_user p) (req_file json) (docs (x_state c))).
Proof.
  cbv zeta. by destruct (request_outcome ask shell p json now c Hc Hu).
Qed.

(** ** A concrete context *)

Definition demo_ctx (queue : list replication_task) (answers : list (option cstr)) : nm_context :=
  mk_ctx (set_servers [mk_server (cs "ss1") (cs "localhost") (cs "9001") (cs "9002") 5 1;
                       mk_server (cs "ss2") (cs "localhost") (cs "9003") (cs "9004") 6 1;
                       mk_server (cs "ss3") (cs "localhost") (cs "9005") (cs "9006") 7 1] demo_state)
    (cs "nm.db") demo_empty_disk [] [cs "ann"] queue [] answers [cs "t1"; cs "t2"].

Lemma demo_ctx_files queue answers :
  nm_files (x_state (demo_ctx queue answers)) =
    [mk_file (cs "plan") (cs "ann") 0 1 0 0 7 7 7 (cs "ann") [mk_acl (cs "bob") 1] [] (-1);
     mk_file (cs "notes") (cs "bob") 1 0 0 0 8 8 8 (cs "bob") [] [] (-1)].
Proof. vm_compute. reflexivity. Qed.

Lemma tables_servers l s : nm_ok s -> acl_ok s -> nm_ok (set_servers l s) /\ acl_ok (set_servers l s).
Proof. intros Hok Ha. split; [by apply (nm_ok_same s)|exact Ha]. Qed.

Lemma demo_ctx_ok queue answers : ctx_ok (demo_ctx queue answers).
Proof.
  destruct demo_state_ok as [Hok Ha]. split_and!.
  - by apply tables_servers.
  - by apply tables_servers.
  - split; vm_compute; [constructor|lia].
  - unfold replicas_ok. rewrite demo_ctx_files.
    apply List.Forall_cons; [by right|]. apply List.Forall_cons; [by right|]. constructor.
Qed.

Definition demo_ann : peer := mk_peer 9 PeerClient (-1) (cs "ann").

Lemma nm_requests_authorised_witness :
  let json := js "{'type':'ADDACCESS','file':'plan','user':'eve','mode':'R'}" in
  let c := demo_ctx [] [] in
  let c' := snd (handle_client_message (fun _ _ => None) (fun _ => None) demo_ann json 100 c) in
  ctx_ok c' /\ authorised (cs "ADDACCESS") (cs "ann") (req_file json) (docs (x_state c)) (docs (x_state c')) /\
  nm_check_access (cs "plan") (cs "eve") NM_PERM_READ (x_state c) = NmErr EAccess /\
  nm_check_access (cs "plan") (cs "eve") NM_PERM_READ (x_state c') = NmOk.
Proof.
  cbv zeta.
  destruct (nm_requests_authorised (fun _ _ => None) (fun _ => None) demo_ann
              (js "{'type':'ADDACCESS','file':'plan','user':'eve','mode':'R'}") 100 (demo_ctx [] [])
              (demo_ctx_ok [] []) ltac:(vm_compute; lia)) as (H1 & _ & H2 & _).
  split; [exact H1|]. split; [exact H2|]. split; vm_compute; reflexivity.
Defined.
