(* ===== verification/NmReplica.v ===== *)
(** * [nm/nm_main.c]: replicas, storage servers and connections

    The replication queue and its worker, the messages of the storage servers, the
    handshake of a new connection, and what happens when a connection is lost. *)

From S2P Require Import Prelude Keyed Cstr Json Proto Fs NmState NmPersist NmServer NmRequests.

(** ** The replication queue *)

(** A task that makes [task] superfluous. *)
Definition same_task (task existing : replication_task) : bool :=
  streq (k_file existing) (k_file task) &&
  ((k_assign existing && k_assign task) ||
   (negb (k_assign existing) && negb (k_assign task) &&
    (k_primary existing =? k_primary task)%Z && (k_backup existing =? k_backup task)%Z)).

(** [true] for 0. *)
Definition schedule_replication (file_name owner : cstr) (primary_index backup_index : Z) (assign_mode : bool)
    (c : nm_context) : bool * nm_context :=
  if bool_decide (file_name = []) then (false, c)
  else if (primary_index <? 0)%Z then (false, c)
  else if negb assign_mode && (backup_index <? 0)%Z then (false, c)
  else
    let task := mk_task (snprintf_s NM_MAX_NAME file_name) (snprintf_s NM_MAX_USER owner) primary_index backup_index assign_mode in
    if existsb (same_task task) (x_queue c) then (true, c) else (true, with_queue (x_queue c ++ [task]) c).

Definition try_assign_backup (file_name : cstr) (c : nm_context) : nm_context :=
  if bool_decide (file_name = []) then c
  else
    match nm_find_file (x_state c) file_name with
    | None => c
    | Some f =>
        if (0 <=? f_backup_index f)%Z || (f_ss_index f <? 0)%Z then c
        else snd (schedule_replication file_name (snprintf_s NM_MAX_USER (f_owner f)) (f_ss_index f) (-1) true c)
    end.

Definition handle_replication_failure (task : replication_task) (attempted_backup : Z) (c : nm_context) : nm_context :=
  let '(need_assign, c) :=
    match find_file_index (x_state c) (k_file task) with
    | None => (k_assign task, c)
    | Some i =>
        match nm_files (x_state c) !! i with
        | None => (k_assign task, c)
        | Some f =>
            if negb (k_assign task) && (f_backup_index f =? attempted_backup)%Z then
              let c := drop_file_backup i c in
              (match nm_files (x_state c) !! i with
               | Some f => if (f_backup_index f <? 0)%Z && (0 <=? f_ss_index f)%Z then true else k_assign task
               | None => k_assign task
               end, c)
            else (k_assign task, c)
        end
    end in
  if need_assign then try_assign_backup (k_file task) c else c.

Definition sync_payload (file_name owner : cstr) (primary : storage_server) (ticket : cstr) : option cstr :=
  file_esc ← json_escape_string (NM_MAX_NAME * 2) file_name;
  owner_esc ← json_escape_string (NM_MAX_USER * 2) owner;
  host_esc ← json_escape_string 256 (ss_host primary);
  port_esc ← json_escape_string 64 (ss_data_port primary);
  ticket_esc ← json_escape_string 64 ticket;
  fit MAX_JSON (js "{'type':'NM_SYNC','file':'" ++ file_esc ++ js "','owner':'" ++ owner_esc ++
                js "','sourceHost':'" ++ host_esc ++ js "','sourcePort':'" ++ port_esc ++
                js "','ticket':'" ++ ticket_esc ++ js "'}").

Definition replicate_file_to_backup (file_name owner : cstr) (primary_index backup_index now : Z) (c : nm_context)
  : bool * nm_context :=
  if (primary_index <? 0)%Z || (backup_index <? 0)%Z || (primary_index =? backup_index)%Z then (false, c)
  else
    match nm_get_server (x_state c) primary_index, nm_get_server (x_state c) backup_index with
    | Some primary, Some backup =>
        if negb (is_online primary) || negb (is_online backup) then (false, c)
        else
          match issue_ticket primary primary_index file_name owner (cs "READ") now c with
          | (None, c) => (false, c)
          | (Some ticket, c) =>
              match sync_payload file_name owner primary ticket with
              | None => (false, c)
              | Some payload =>
                  match forward_command (Some backup) payload c with
                  | (None, c) => (false, c)
                  | (Some response, c) =>
                      (bool_decide ((fst <$> parse_status response 16 0) = Some (cs "OK")), c)
                  end
              end
          end
    | _, _ => (false, c)
    end.

(** One round of [replication_worker]; [None] when there is nothing to do. *)
Definition replication_round (now : Z) (c : nm_context) : option nm_context :=
  match x_queue c with
  | [] => None
  | task :: queue =>
      let c := with_queue queue c in
      Some match nm_find_file (x_state c) (k_file task) with
           | None => c
           | Some f =>
               let owner := snprintf_s NM_MAX_USER (f_owner f) in
               let current_primary := f_ss_index f in
               if (current_primary <? 0)%Z || negb (current_primary =? k_primary task)%Z then c
               else if negb (k_assign task) && negb (f_backup_index f =? k_backup task)%Z then c
               else
                 let target :=
                   if k_assign task then Z.of_nat <$> candidate_loop (servers (x_state c)) 0 current_primary
                   else Some (k_backup task) in
                 match target with
                 | None => c
                 | Some target_backup =>
                     let '(ok, c) := replicate_file_to_backup (k_file task) owner current_primary target_backup now c in
                     if negb ok then handle_replication_failure task target_backup c
                     else
                       match find_file_index (x_state c) (k_file task) with
                       | None => c
                       | Some i =>
                           match nm_files (x_state c) !! i with
                           | Some updated =>
                               if (f_ss_index updated =? current_primary)%Z && k_assign task
                               then save (with_state (set_location i (f_ss_index updated) target_backup (x_state c)) c)
                               else c
                           | None => c
                           end
                       end
                 end
           end
  end.

(** ** Messages of the storage servers *)

(** [last_user] is not initialised: when the message has no such text it is [garbage]. *)
Definition handle_ss_file_update (garbage : cstr) (json : cstr) (c : nm_context) : nm_context :=
  match json_get_string json (cs "file") NM_MAX_NAME with
  | None => c
  | Some file_name =>
      let last_user := default garbage (json_get_string json (cs "lastAccessUser") NM_MAX_USER) in
      let count key := match json_get_int json key with Some n => if (0 <=? n)%Z then n else 0%Z | None => 0%Z end in
      let words := count (cs "words") in
      let chars := count (cs "chars") in
      let modified := default 0%Z (json_get_int json (cs "modified")) in
      let last_access := default 0%Z (json_get_int json (cs "lastAccess")) in
      match nm_find_file (x_state c) file_name with
      | None => c
      | Some f =>
          let prev_modified := f_modified f in
          let c := save (with_state (snd (nm_update_file_metadata file_name words chars modified last_access last_user (x_state c))) c) in
          let modified_now := match nm_find_file (x_state c) file_name with Some g => f_modified g | None => prev_modified end in
          let owner := snprintf_s NM_MAX_USER (f_owner f) in
          let primary_index := f_ss_index f in
          let backup_index := f_backup_index f in
          if negb (modified_now =? prev_modified)%Z && (0 <=? backup_index)%Z then
            let '(queued, c) := schedule_replication file_name owner primary_index backup_index false c in
            if queued then c
            else handle_replication_failure
                   (mk_task (snprintf_s NM_MAX_NAME file_name) (snprintf_s NM_MAX_USER owner) primary_index backup_index false)
                   backup_index c
          else if (backup_index <? 0)%Z && (0 <=? primary_index)%Z && has_backup_candidate (x_state c) primary_index
          then snd (schedule_replication file_name owner primary_index (-1) true c)
          else c
      end
  end.

(** [true] for 0; other messages end the connection. *)
Definition handle_server_message (garbage json : cstr) (c : nm_context) : bool * nm_context :=
  match json_get_string json (cs "type") 64 with
  | Some type => if streq type (cs "SS_FILE_UPDATE") then (true, handle_ss_file_update garbage json c) else (false, c)
  | None => (false, c)
  end.

(** ** Connections *)

Definition with_role (t : peer_type) (i : Z) (u : cstr) (p : peer) : peer := mk_peer (p_fd p) t i u.

Definition assign_missing (c : nm_context) : nm_context :=
  foldl (fun c f => if (f_backup_index f <? 0)%Z then try_assign_backup (f_name f) c else c) c (nm_files (x_state c)).

Definition handle_ss_register (p : peer) (json : cstr) (c : nm_context) : reply * peer * nm_context :=
  match json_get_string json (cs "ssId") 64, json_get_string json (cs "host") 64,
        json_get_string json (cs "ctrlPort") 16, json_get_string json (cs "dataPort") 16 with
  | Some id, Some host, Some ctrl_port, Some data_port =>
      match in_state (nm_register_server id host ctrl_port data_port (p_fd p)) c with
      | (None, c) => (RErr ERR_INTERNAL (cs "too many servers"), p, c)
      | (Some idx, c) =>
          (ROk (js "'role':'SS'"), with_role PeerServer (Z.of_nat idx) (p_user p) p, assign_missing c)
      end
  | _, _, _, _ => (RErr ERR_BADREQ (cs "invalid register payload"), p, c)
  end.

Definition handle_handshake (p : peer) (json : cstr) (now : Z) (c : nm_context) : reply * peer * nm_context :=
  match json_get_string json (cs "type") 64 with
  | None => (RErr ERR_BADREQ (cs "missing type"), p, c)
  | Some type =>
      if streq type (cs "SS_REGISTER") then handle_ss_register p json c
      else if streq type (cs "CLIENT_HELLO") then
        match json_get_string json (cs "user") NM_MAX_USER with
        | None => (RErr ERR_BADREQ (cs "missing user"), p, c)
        | Some requested_user =>
            if username_in_use requested_user c then (RErr ERR_CONFLICT (cs "username already in use"), p, c)
            else
              match active_user_add requested_user c with
              | (NmErr _, c) => (RErr ERR_INTERNAL (cs "failed to register user"), p, c)
              | (NmOk, c) =>
                  let u := snprintf_s NM_MAX_USER requested_user in
                  let '(_, c) := in_state (nm_add_user u now) c in
                  (ROk (js "'role':'CLIENT'"), with_role PeerClient (-1) u p, c)
              end
        end
      else (RErr ERR_BADREQ (cs "unknown handshake"), p, c)
  end.

(** The answer, if any, whether the connection goes on, the peer and the context. *)
Definition dispatch_message (ask : storage_server -> cstr -> option cstr) (shell : cstr -> option cstr)
    (garbage : cstr) (p : peer) (json : cstr) (now : Z) (c : nm_context) : option reply * bool * peer * nm_context :=
  match p_type p with
  | PeerUnused => (None, false, p, c)
  | PeerUnknown => let '(r, p, c) := handle_handshake p json now c in (Some r, true, p, c)
  | PeerClient => let '(r, go, c) := handle_client_message ask shell p json now c in (Some r, go, p, c)
  | PeerServer => let '(go, c) := handle_server_message garbage json c in (None, go, p, c)
  end.

(** ** A connection is lost *)

(** The first half of the loop body: the new state and [file_dirty]. *)
Definition failover_slot (i : nat) (down : Z) (s : nm_state) : nm_state * bool :=
  match nm_files s !! i with
  | None => (s, false)
  | Some f =>
      let '(s, dirty) :=
        if (f_ss_index f =? down)%Z then
          (if (0 <=? f_backup_index f)%Z then
             if server_is_available (nm_get_server s (f_backup_index f))
             then set_location i (f_backup_index f) (-1) s
             else drop_backup_only i s
           else s, true)
        else (s, false) in
      match nm_files s !! i with
      | None => (s, dirty)
      | Some f => if (f_backup_index f =? down)%Z then (drop_backup_only i s, true) else (s, dirty)
      end
  end.

(** [n] slots left, from slot [i] on: the state, [state_dirty] and the documents that need a
    new backup. *)
Fixpoint failover_loop (n i : nat) (down : Z) (s : nm_state) (state_dirty : bool) (pending : list cstr)
  : nm_state * bool * list cstr :=
  match n with
  | O => (s, state_dirty, pending)
  | S n =>
      let '(s, file_dirty) := failover_slot i down s in
      let pending :=
        match nm_files s !! i with
        | Some f =>
            if file_dirty && (f_backup_index f <? 0)%Z && (0 <=? f_ss_index f)%Z && has_backup_candidate s (f_ss_index f) &&
               (length pending <? NM_MAX_FILES)
            then pending ++ [snprintf_s NM_MAX_NAME (f_name f)] else pending
        | None => pending
        end in
      failover_loop n (S i) down s (state_dirty || file_dirty) pending
  end.

Definition handle_server_down (server_index : Z) (c : nm_context) : nm_context :=
  let s := nm_mark_server_down server_index (x_state c) in
  let '(s, state_dirty, pending) := failover_loop (length (nm_files s)) 0 server_index s false [] in
  let c := with_state s c in
  let c := if state_dirty then save c else c in
  foldl (fun c name => try_assign_backup name c) c pending.

Definition handle_server_disconnect (p : peer) (c : nm_context) : nm_context :=
  match p_type p with
  | PeerClient => active_user_remove (p_user p) c
  | PeerServer => if (0 <=? p_server_index p)%Z then handle_server_down (p_server_index p) c else c
  | PeerUnused | PeerUnknown => c
  end.

(** ** Fail-over *)

(** What the loss of server [down] makes of a document: its copy takes over when that is
    reachable; a copy that is not, or that was on the lost server, is forgotten. *)
Definition failed_over (s : nm_state) (down : Z) (f : file_entry) : file_entry :=
  if (f_ss_index f =? down)%Z then
    if (0 <=? f_backup_index f)%Z then
      if server_is_available (nm_get_server s (f_backup_index f)) then with_location (f_backup_index f) (-1) f
      else with_location down (-1) f
    else f
  else if (f_backup_index f =? down)%Z then with_location (f_ss_index f) (-1) f else f.

Definition involved (down : Z) (f : file_entry) : bool := (f_ss_index f =? down)%Z || (f_backup_index f =? down)%Z.

Definition wants_backup (s : nm_state) (f : file_entry) : bool :=
  (f_backup_index f <? 0)%Z && (0 <=? f_ss_index f)%Z && has_backup_candidate s (f_ss_index f).

Definition pending_of (s : nm_state) (down : Z) (l : list file_entry) : list cstr :=
  f_name <$> List.filter (fun f => involved down f && wants_backup s (failed_over s down f)) l.

Lemma pending_of_cons s down f l : pending_of s down (f :: l) = pending_of s down [f] ++ pending_of s down l.
Proof. unfold pending_of. rewrite <- fmap_app, <- List.filter_app. done. Qed.

Lemma failed_over_name s down f : f_name (failed_over s down f) = f_name f.
Proof. unfold failed_over. repeat case_match; done. Qed.

Lemma failed_over_owner s down f : f_owner (failed_over s down f) = f_owner f.
Proof. unfold failed_over. repeat case_match; done. Qed.

Lemma set_nm_files_id s : set_nm_files (nm_files s) s = s.
Proof. by destruct s. Qed.

Lemma set_location_insert i p b s f :
  nm_files s !! i = Some f -> set_location i p b s = set_nm_files (<[i := with_location p b f]> (nm_files s)) s.
Proof.
  intros Hf. unfold set_location. f_equal. apply list_eq. intros j. destruct (decide (j = i)) as [->|Hne].
  - rewrite list_lookup_alter_eq, list_lookup_insert_eq by (by eapply lookup_lt_Some). by rewrite Hf.
  - by rewrite list_lookup_alter_ne, list_lookup_insert_ne.
Qed.

Lemma failover_slot_spec i down s f :
  (0 <= down)%Z -> server_is_available (nm_get_server s down) = false -> nm_files s !! i = Some f ->
  failover_slot i down s = (set_nm_files (<[i := failed_over s down f]> (nm_files s)) s, involved down f).
Proof.
  intros Hd Ha Hf. unfold failover_slot, failed_over, involved, drop_backup_only. rewrite Hf.
  assert (forall g, f_backup_index g = (-1)%Z -> (f_backup_index g =? down)%Z = false) as Hm by (intros g ->; lia).
  assert (i < length (nm_files s)) as Hi by (by eapply lookup_lt_Some).
  assert (set_nm_files (<[i := f]> (nm_files s)) s = s) as Hid by (rewrite list_insert_id by done; apply set_nm_files_id).
  destruct (Z.eqb_spec (f_ss_index f) down) as [E|E]; cbn [orb].
  - destruct (Z.leb_spec 0 (f_backup_index f)) as [Hb|Hb].
    + destruct (server_is_available (nm_get_server s (f_backup_index f))) eqn:Eb.
      * rewrite (set_location_insert _ _ _ _ _ Hf). cbn [nm_files set_nm_files].
        rewrite list_lookup_insert_eq by done. by rewrite Hm.
      * replace (f_backup_index f <? 0)%Z with false by lia. rewrite (set_location_insert _ _ _ _ _ Hf), E.
        cbn [nm_files set_nm_files]. rewrite list_lookup_insert_eq by done. by rewrite Hm.
    + rewrite Hf. replace (f_backup_index f =? down)%Z with false by lia. by rewrite Hid.
  - rewrite Hf. destruct (Z.eqb_spec (f_backup_index f) down) as [Eb|Eb]; [|by rewrite Hid].
    replace (f_backup_index f <? 0)%Z with false by lia. by rewrite (set_location_insert _ _ _ _ _ Hf).
Qed.

Lemma failover_loop_spec n i down s d p :
  (0 <= down)%Z -> server_is_available (nm_get_server s down) = false ->
  i + n = length (nm_files s) -> i + n <= NM_MAX_FILES -> length p <= i ->
  Forall (fun f => length (f_name f) < NM_MAX_NAME) (nm_files s) ->
  failover_loop n i down s d p =
    (set_nm_files (take i (nm_files s) ++ (failed_over s down <$> drop i (nm_files s))) s,
     d || existsb (involved down) (drop i (nm_files s)), p ++ pending_of s down (drop i (nm_files s))).
Proof.
  intros Hd. revert i s d p. induction n as [|n IH]; intros i s d p Ha Hi Hm Hp Hn; cbn [failover_loop].
  - rewrite drop_ge, take_ge by lia. cbn. by rewrite !app_nil_r, set_nm_files_id, orb_false_r.
  - destruct (lookup_lt_is_Some_2 (nm_files s) i) as [f Hf]; [lia|].
    rewrite (failover_slot_spec i down s f) by done. set (g := failed_over s down f).
    set (s1 := set_nm_files _ s). assert (forall x, nm_get_server s1 x = nm_get_server s x) as Hg by done.
    assert (nm_files s1 = <[i := g]> (nm_files s)) as Hs1 by done. rewrite Hs1, list_lookup_insert_eq by lia.
    assert (length (f_name f) < NM_MAX_NAME) as Hnf by (rewrite Forall_lookup in Hn; eauto).
    assert (snprintf_s NM_MAX_NAME (f_name g) = f_name f) as -> by (unfold g; rewrite failed_over_name; by apply snprintf_s_id).
    set (q := if involved down f && _ && _ && _ && _ then _ else p).
    assert (q = p ++ pending_of s down [f]) as Hq.
    { unfold q, pending_of, wants_backup. cbn [List.filter]. rewrite !andb_assoc. fold g.
      change (has_backup_candidate s1) with (has_backup_candidate s).
      replace (length p <? NM_MAX_FILES) with true by (symmetry; apply Nat.ltb_lt; lia). rewrite andb_true_r.
      lazymatch goal with |- (if ?b then _ else _) = _ => destruct b end; [done|symmetry; apply app_nil_r]. }
    rewrite (IH (S i) s1).
    + rewrite Hq. rewrite (drop_S _ _ _ Hf), (take_S_r (nm_files s1) i g).
      2: { by rewrite Hs1, list_lookup_insert_eq by lia. }
      rewrite Hs1, take_insert_ge, drop_insert_lt by lia.
      change (pending_of s1) with (pending_of s). rewrite (pending_of_cons _ _ f (drop _ _)), <- !app_assoc, <- orb_assoc. reflexivity.
    + done.
    + rewrite Hs1, length_insert. lia.
    + lia.
    + rewrite Hq, length_app. unfold pending_of. cbn [List.filter]. lazymatch goal with |- context [if ?b then _ else _] => destruct b end; cbn; lia.
    + rewrite Hs1. apply Forall_insert; [done|]. unfold g. by rewrite failed_over_name.
Qed.

Lemma quiet_failover_slot i down s : quiet_change s (fst (failover_slot i down s)).
Proof.
  unfold failover_slot. destruct (nm_files s !! i) as [f|]; [|done].
  set (r := if (f_ss_index f =? down)%Z then _ else _).
  assert (quiet_change s (fst r)) as Q.
  { unfold r. destruct (_ =? _)%Z; [|done]. cbn [fst]. destruct (_ <=? _)%Z; [|done].
    destruct (server_is_available _); [apply quiet_location; by left|apply quiet_drop_backup]. }
  destruct r as [s1 d]. cbn [fst] in Q. destruct (nm_files s1 !! i) as [g|]; [|done].
  destruct (_ =? _)%Z; [|done]. cbn [fst]. etransitivity; [exact Q|apply quiet_drop_backup].
Qed.

Lemma quiet_failover_loop n i down s d p : quiet_change s (fst (fst (failover_loop n i down s d p))).
Proof.
  revert i s d p. induction n as [|n IH]; intros i s d p; cbn [failover_loop]; [done|].
  pose proof (quiet_failover_slot i down s) as Q. destruct (failover_slot i down s) as [s1 d1].
  etransitivity; [exact Q|apply IH].
Qed.

(** A task that assigns a new copy of the document is queued. *)
Definition has_assign (q : list replication_task) (name : cstr) : bool := existsb (fun t => k_assign t && streq (k_file t) name) q.

(** The task that assigns a new copy of the document: for its owner and its primary. *)
Definition assign_task (f : file_entry) : replication_task :=
  mk_task (f_name f) (snprintf_s NM_MAX_USER (f_owner f)) (f_ss_index f) (-1) true.

(** Asking for new copies of the documents [l], in order: at the end of the queue, and not for a
    document for which an assign task, whatever its primary, is queued already. *)
Definition asked_for (l : list file_entry) (q : list replication_task) : list replication_task :=
  q ++ (assign_task <$> List.filter (fun f => negb (has_assign q (f_name f))) l).

Lemma has_assign_app q q' name : has_assign (q ++ q') name = has_assign q name || has_assign q' name.
Proof. apply existsb_app. Qed.

Lemma asked_for_cons f l q : f_name f ∉ (f_name <$> l) -> asked_for (f :: l) q = asked_for l (asked_for [f] q).
Proof.
  intros Hf. unfold asked_for. cbn [List.filter]. destruct (has_assign q (f_name f)); cbn [negb fmap list_fmap]; [by rewrite app_nil_r|].
  rewrite <- app_assoc. cbn [app]. do 3 f_equal. revert Hf. induction l as [|g l IH]; [done|]. cbn [fmap list_fmap List.filter].
  intros [Hne Hl]%not_elem_of_cons. assert (has_assign (q ++ [assign_task f]) (f_name g) = has_assign q (f_name g)) as ->.
  { rewrite has_assign_app. unfold has_assign at 2. cbn. unfold streq. by rewrite bool_decide_false, !orb_false_r. }
  destruct (negb _); cbn [fmap list_fmap]; by rewrite IH.
Qed.

(** Only the queue changes, and only at its end. *)
Record queues (c c' : nm_context) : Prop := {
  qu_state : x_state c' = x_state c;
  qu_disk : x_disk c' = x_disk c;
  qu_queue : x_queue c `prefix_of` x_queue c';
}.

#[export] Instance queues_preorder : PreOrder queues.
Proof.
  split; [by split|]. intros c1 c2 c3 [E1 D1 Q1] [E2 D2 Q2]. split; [by rewrite E2|by rewrite D2|by etransitivity].
Qed.

Lemma schedule_queues file owner p b assign c : queues c (snd (schedule_replication file owner p b assign c)).
Proof.
  unfold schedule_replication. do 3 (case_match; [done|]). destruct (existsb _ _); [done|].
  split; [done|done|]. cbn. apply prefix_app_r. done.
Qed.

Lemma try_assign_queues name c : queues c (try_assign_backup name c).
Proof.
  unfold try_assign_backup. case_match; [done|]. destruct (nm_find_file _ _) as [f|]; [|done].
  case_match; [done|]. apply schedule_queues.
Qed.

Lemma try_assign_names names c : queues c (foldl (fun c name => try_assign_backup name c) c names).
Proof.
  revert c. induction names as [|n names IH]; intros c; [done|]. etransitivity; [apply (try_assign_queues n)|apply IH].
Qed.

(** A document that needs a copy, and can be asked for by its name. *)
Definition needy (f : file_entry) : Prop :=
  f_name f <> [] /\ length (f_name f) < NM_MAX_NAME /\ (f_backup_index f < 0)%Z /\ (0 <= f_ss_index f)%Z.

Lemma try_assign_needy f c :
  needy f -> nm_find_file (x_state c) (f_name f) = Some f -> x_queue (try_assign_backup (f_name f) c) = asked_for [f] (x_queue c).
Proof.
  intros (Hne & Hn & Hb & Hp) Hf. unfold try_assign_backup, schedule_replication. rewrite bool_decide_false, Hf by done.
  replace (0 <=? f_backup_index f)%Z with false by lia. replace (f_ss_index f <? 0)%Z with false by lia. cbn [orb negb andb].
  rewrite (snprintf_s_id NM_MAX_NAME) by done.
  assert (snprintf_s NM_MAX_USER (snprintf_s NM_MAX_USER (f_owner f)) = snprintf_s NM_MAX_USER (f_owner f)) as ->.
  { apply snprintf_s_id. pose proof (length_snprintf_s NM_MAX_USER (f_owner f)). unfold NM_MAX_USER in *. lia. }
  fold (assign_task f). assert (existsb (same_task (assign_task f)) (x_queue c) = has_assign (x_queue c) (f_name f)) as ->.
  { unfold has_assign. induction (x_queue c) as [|t q IH]; [done|]. cbn [existsb]. rewrite IH. f_equal. unfold same_task. cbn.
    rewrite andb_true_r, andb_false_r, orb_false_r. apply andb_comm. }
  unfold asked_for. cbn [List.filter]. by destruct (has_assign _ _); cbn; rewrite ?app_nil_r.
Qed.

Lemma try_assign_all l c :
  NoDup (f_name <$> l) -> (forall f, f ∈ l -> needy f /\ nm_find_file (x_state c) (f_name f) = Some f) ->
  let c' := foldl (fun c name => try_assign_backup name c) c (f_name <$> l) in
  queues c c' /\ x_queue c' = asked_for l (x_queue c).
Proof.
  cbv zeta. revert c. induction l as [|f l IH]; intros c Hnd Hl; cbn [fmap list_fmap foldl].
  - split; [done|]. unfold asked_for. cbn. by rewrite app_nil_r.
  - apply NoDup_cons in Hnd as [Hf Hnd]. destruct (Hl f) as [H1 H2]; [left|]. pose proof (try_assign_queues (f_name f) c) as Q.
    destruct (IH (try_assign_backup (f_name f) c) Hnd) as [Qs E].
    { intros g Hg. rewrite (qu_state _ _ Q). apply Hl. by right. }
    split; [by etransitivity|]. rewrite asked_for_cons by done. by rewrite <- (try_assign_needy f c).
Qed.

Lemma mark_down_unavailable down s : (0 <= down)%Z -> server_is_available (nm_get_server (nm_mark_server_down down s) down) = false.
Proof.
  intros Hd. unfold nm_mark_server_down, nm_get_server. replace (down <? 0)%Z with false by lia. cbn [servers set_servers].
  rewrite list_lookup_alter_eq. by destruct (servers s !! _).
Qed.

(** After the loss of [down] no document has its copy there, and one whose only place it was
    keeps it for the server's return. *)
Lemma failed_over_clear s down f :
  (0 <= down)%Z -> server_is_available (nm_get_server s down) = false ->
  let g := failed_over s down f in
  f_backup_index g <> down /\ (f_ss_index g = down -> (f_backup_index g < 0)%Z) /\
  (f_ss_index f = down -> server_is_available (nm_get_server s (f_backup_index f)) = true ->
   (0 <= f_backup_index f)%Z -> f_ss_index g = f_backup_index f /\ (f_backup_index g < 0)%Z).
Proof.
  intros Hd Ha. unfold failed_over. destruct (Z.eqb_spec (f_ss_index f) down) as [E|E].
  - destruct (Z.leb_spec 0 (f_backup_index f)) as [Hb|Hb]; [|cbn; by split_and!; [lia| |lia]].
    destruct (server_is_available (nm_get_server s (f_backup_index f))) eqn:Eb; cbn; split_and!; try done; lia.
  - destruct (Z.eqb_spec (f_backup_index f) down); cbn; split_and!; done || lia.
Qed.

Lemma find_by_slot s i f : nm_ok s -> nm_files s !! i = Some f -> nm_find_file s (f_name f) = Some f.
Proof.
  intros Hok Hf. unfold nm_find_file. assert (find_file_index s (f_name f) = Some i) as ->; [|exact Hf].
  apply find_file_index_Some; [done|]. by exists f.
Qed.

(** Names that fit their buffers and are not empty. *)
Definition named (f : file_entry) : Prop := f_name f <> [] /\ length (f_name f) < NM_MAX_NAME.

(** The documents that are asked for after the loss of [down]. *)
Definition orphaned (s : nm_state) (down : Z) (l : list file_entry) : list file_entry :=
  List.filter (wants_backup s) (failed_over s down <$> List.filter (involved down) l).

Lemma pending_orphaned s down l : pending_of s down l = f_name <$> orphaned s down l.
Proof.
  unfold pending_of, orphaned. induction l as [|f l IH]; [done|]. cbn [List.filter]. destruct (involved down f); cbn [andb]; [|exact IH].
  cbn [fmap list_fmap List.filter]. destruct (wants_backup s _); cbn [fmap list_fmap]; [|exact IH].
  by rewrite failed_over_name, IH.
Qed.

Lemma orphaned_sublist s down l : (f_name <$> orphaned s down l) `sublist_of` (f_name <$> l).
Proof.
  rewrite <- pending_orphaned. unfold pending_of. induction l as [|f l IH]; [done|]. cbn [List.filter].
  destruct (_ && _); by constructor.
Qed.

Lemma server_down_spec down c (Hc : ctx_ok c) (Hd : (0 <= down)%Z) (Hn : Forall named (nm_files (x_state c))) :
  let s := nm_mark_server_down down (x_state c) in
  let c' := handle_server_down down c in
  x_state c' = set_nm_files (failed_over s down <$> nm_files (x_state c)) s /\
  quiet_change (x_state c) (x_state c') /\ x_queue c' = asked_for (orphaned s down (nm_files (x_state c))) (x_queue c) /\
  x_disk c' = (if existsb (involved down) (nm_files (x_state c))
               then snd (nm_state_save (x_path c) (x_state c') (x_disk c)) else x_disk c).
Proof.
  cbv zeta. unfold handle_server_down. set (s := nm_mark_server_down down (x_state c)).
  assert (nm_files s = nm_files (x_state c)) as Hs by (unfold s, nm_mark_server_down; by destruct (down <? 0)%Z).
  pose proof (quiet_mark_down down (x_state c)) as Q1. fold s in Q1.
  pose proof (quiet_failover_loop (length (nm_files s)) 0 down s false []) as Q2.
  assert (length (nm_files s) <= NM_MAX_FILES) as Hb by (rewrite Hs; apply (nm_bounded _ (proj1 Hc))).
  assert (Forall (fun f => length (f_name f) < NM_MAX_NAME) (nm_files s)) as Hl.
  { rewrite Hs. eapply Forall_impl; [exact Hn|by intros ? []]. }
  pose proof (failover_loop_spec (length (nm_files s)) 0 down s false [] Hd (mark_down_unavailable _ _ Hd) eq_refl
    Hb (Nat.le_0_l _) Hl) as E. rewrite E in *. clear E Hb Hl.
  rewrite drop_0, take_0, Hs in *. cbn [app fst orb] in *. set (s' := set_nm_files _ s) in *.
  set (c1 := if existsb _ _ then _ else _).
  assert (x_state c1 = s') as E1 by (unfold c1; by destruct (existsb _ _)).
  assert (x_queue c1 = x_queue c) as E2 by (unfold c1; by destruct (existsb _ _)).
  assert (quiet_change (x_state c) s') as Q by (by etransitivity). pose proof (qc_ok _ _ Q (proj1 Hc)) as Hok.
  rewrite pending_orphaned. destruct (try_assign_all (orphaned s down (nm_files (x_state c))) c1) as [Qs Ha].
  - eapply sublist_NoDup; [|apply orphaned_sublist]. apply (nm_unique _ (proj1 Hc)).
  - intros g Hg%list_elem_of_In. unfold orphaned in Hg. apply filter_In in Hg as [Hg Hw].
    apply list_elem_of_In, list_elem_of_fmap in Hg as (f & -> & Hf%list_elem_of_In). apply filter_In in Hf as [Hf%list_elem_of_In _].
    unfold wants_backup in Hw. bool_to_prop. pose proof (proj1 (Forall_forall _ _) Hn f Hf) as [Hne Hlen].
    split; [split_and!; by rewrite ?failed_over_name|]. rewrite E1.
    assert (failed_over s down f ∈ nm_files s') as Hin by (by apply list_elem_of_fmap_2).
    apply list_elem_of_lookup in Hin as [i Hi]. by eapply find_by_slot.
  - rewrite (qu_state _ _ Qs), (qu_disk _ _ Qs), E1. rewrite <- E2. split_and!; [done|done|exact Ha|].
    unfold c1. by destruct (existsb _ _).
Qed.

(** C21: When the connection of a storage server is lost (and every document has a name that fits
    its buffer), every document of which it held the primary and whose copy is on a reachable
    server moves to that copy, and a copy that is not reachable, or was on the lost server, is
    forgotten; nothing else changes in the tables, which stay well formed.  No document then
    has its copy on the lost server.  The new tables are saved when a document was involved.
    Each document involved that is left without a copy while some other server could take one
    is queued for a new one, made from its new primary for its owner: behind the tasks that were
    queued already, in the order of the table, and unless an assign task for the document was
    queued already (that one may be for the lost primary, see [stale_task_hides_new]); nothing else
    is queued. *)
Theorem nm_failover down c (Hc : ctx_ok c) (Hd : (0 <= down)%Z) (Hn : Forall named (nm_files (x_state c))) :
  let s := nm_mark_server_down down (x_state c) in
  let c' := handle_server_down down c in
  x_state c' = set_nm_files (failed_over s down <$> nm_files (x_state c)) s /\
  ctx_ok c' /\ docs (x_state c') = docs (x_state c) /\
  (forall f, f ∈ nm_files (x_state c) ->
     let g := failed_over s down f in
     f_backup_index g <> down /\ (f_ss_index g = down -> (f_backup_index g < 0)%Z) /\
     (f_ss_index f = down -> server_is_available (nm_get_server s (f_backup_index f)) = true ->
      f_ss_index g = f_backup_index f) /\
     (involved down f = false -> g = f)) /\
  (exists new, x_queue c' = x_queue c ++ new /\
     forall t, t ∈ new <-> exists f, f ∈ nm_files (x_state c) /\ involved down f = true /\
       let g := failed_over s down f in
       wants_backup s g = true /\ has_assign (x_queue c) (f_name f) = false /\
       t = mk_task (f_name f) (snprintf_s NM_MAX_USER (f_owner f)) (f_ss_index g) (-1) true) /\
  x_queue c' = asked_for (orphaned s down (nm_files (x_state c))) (x_queue c) /\
  x_disk c' = (if existsb (involved down) (nm_files (x_state c))
               then snd (nm_state_save (x_path c) (x_state c') (x_disk c)) else x_disk c).
Proof.
  cbv zeta. destruct (server_down_spec down c Hc Hd Hn) as (Es & Q & Hq & Hk).
  set (s := nm_mark_server_down down (x_state c)) in *. set (c' := handle_server_down down c) in *.
  pose proof (tables_ok_quiet _ _ Hc Q) as Hc'. split_and!; [done|done|apply Q| | |done|done].
  - intros f Hf. pose proof (mark_down_unavailable down (x_state c) Hd) as Hav.
    destruct (failed_over_clear s down f Hd Hav) as (H1 & H2 & H3). split_and!; [done|done| |].
    + intros Ef Eb. apply H3; [done|done|]. unfold nm_get_server in Eb. destruct (Z.ltb_spec (f_backup_index f) 0); [done|lia].
    + unfold involved, failed_over. intros Hi. apply orb_false_iff in Hi as [-> ->]. done.
  - eexists. split; [exact Hq|]. intros t. rewrite list_elem_of_fmap. unfold orphaned. split.
    + intros (g & -> & Hg%list_elem_of_In). apply filter_In in Hg as [Hg Ha]. apply filter_In in Hg as [Hg Hw].
      apply list_elem_of_In, list_elem_of_fmap in Hg as (f & -> & Hf%list_elem_of_In). apply filter_In in Hf as [Hf%list_elem_of_In Hi].
      rewrite failed_over_name in Ha. exists f. split_and!; [done|done|done|by apply negb_true_iff|]. unfold assign_task.
      by rewrite failed_over_name, failed_over_owner.
    + intros (f & Hf & Hi & Hw & Ha & ->). exists (failed_over s down f). split; [unfold assign_task; by rewrite failed_over_name, failed_over_owner|].
      apply list_elem_of_In, filter_In. split; [|by rewrite failed_over_name, Ha]. apply filter_In. split; [|done].
      apply list_elem_of_In, list_elem_of_fmap_2, list_elem_of_In, filter_In. split; [by apply list_elem_of_In|done].
Qed.

(** ** The replication worker *)

(** The ticket with which the copy of the document is fetched. *)
Definition copy_ticket (file owner : cstr) (p now : Z) (c : nm_context) : ticket_entry :=
  mk_ticket (snprintf_s 64 (default [] (head (x_tokens c)))) (snprintf_s NM_MAX_NAME file) (snprintf_s NM_MAX_USER owner)
    (cs "READ") (now + TICKET_TTL) p.

(** The primary was given a ticket for reading the document, and took it; the new copy's server, told
    where to fetch it and with which ticket, reported success. *)
Definition copied (file owner : cstr) (p b now : Z) (c c' : nm_context) : Prop :=
  p <> b /\ exists primary backup r1 r2 rest ticket payload,
    nm_get_server (x_state c) p = Some primary /\ is_online primary = true /\
    nm_get_server (x_state c) b = Some backup /\ is_online backup = true /\
    x_answers c = Some r1 :: Some r2 :: rest /\ status_is_ok r1 = true /\
    (fst <$> parse_status r2 16 0) = Some (cs "OK") /\
    ticket_payload (copy_ticket file owner p now c) = Some ticket /\
    sync_payload file owner primary (n_token (copy_ticket file owner p now c)) = Some payload /\
    x_forwarded c' = x_forwarded c ++ [(ss_ctrl_fd primary, ticket); (ss_ctrl_fd backup, payload)].

(** What issuing a ticket leaves alone, and what it sends. *)
Lemma issue_ticket_frame ss i file user op now c :
  let entry := mk_ticket (snprintf_s 64 (default [] (head (x_tokens c)))) (snprintf_s NM_MAX_NAME file) (snprintf_s NM_MAX_USER user)
                 (snprintf_s 16 op) (now + TICKET_TTL) i in
  let '(r, c') := issue_ticket ss i file user op now c in
  x_state c' = x_state c /\ x_queue c' = x_queue c /\ x_path c' = x_path c /\ x_disk c' = x_disk c /\
  (forall token, r = Some token -> token = n_token entry /\ exists r1 payload,
     ticket_payload entry = Some payload /\ head (x_answers c) = Some (Some r1) /\ status_is_ok r1 = true /\ x_answers c' = tail (x_answers c) /\
     x_forwarded c' = x_forwarded c ++ [(ss_ctrl_fd ss, payload)]).
Proof.
  unfold issue_ticket. destruct (randutil_token (ticket_prune now c)) as [t c1] eqn:E1. injection E1 as <- <-.
  cbv zeta. cbn [ticket_prune x_tokens with_tickets].
  destruct (ticket_payload _) as [pl|] eqn:Epl; [|by split_and!].
  cbn [forward_command]. destruct (head (x_answers c)) as [[r1|]|] eqn:Eh; cbn -[status_is_ok];
    rewrite ?Eh; cbn -[status_is_ok]; [|by split_and!..].
  destruct (status_is_ok r1) eqn:Eo; [|by split_and!]. split_and!; try done. intros token [= <-]. split; [done|]. by exists r1, pl.
Qed.

Lemma replicate_spec file owner p b now c :
  let '(ok, c') := replicate_file_to_backup file owner p b now c in
  x_state c' = x_state c /\ x_queue c' = x_queue c /\ x_path c' = x_path c /\ x_disk c' = x_disk c /\
  (ok = true -> copied file owner p b now c c').
Proof.
  unfold replicate_file_to_backup. destruct (_ || _) eqn:E0; [by split_and!|].
  destruct (nm_get_server (x_state c) p) as [primary|] eqn:Ep; [|by split_and!].
  destruct (nm_get_server (x_state c) b) as [backup|] eqn:Eb; [|by split_and!].
  destruct (negb _ || negb _) eqn:E1; [by split_and!|].
  pose proof (issue_ticket_frame primary p file owner (cs "READ") now c) as Hi.
  destruct (issue_ticket _ _ _ _ _ _ _) as [[token|] c1]; [|by destruct Hi as (? & ? & ? & ? & _)].
  destruct Hi as (Hs & Hq & Hp & Hd & Ht). destruct (Ht token eq_refl) as (Etok & r1 & pl & Hpl & Hh & Ho & Ha & Hfw). clear Ht.
  destruct (sync_payload _ _ _ _) as [payload|] eqn:Epl; [|by split_and!].
  cbn [forward_command]. destruct (default None (head (x_answers c1))) as [r2|] eqn:E2; cbn -[parse_status]; [|by split_and!].
  split_and!; try done. intros Hok%bool_decide_eq_true. bool_to_prop. split; [done|].
  destruct (x_answers c) as [|a l]; [done|]. cbn in Hh, Ha. injection Hh as ->. rewrite Ha in E2.
  destruct l as [|[a|] l]; try done. cbn in E2. injection E2 as ->.
  exists primary, backup, r1, r2, l, pl, payload. rewrite Hfw, <- app_assoc. rewrite Etok in Epl. by split_and!.
Qed.

(** Where a round sends the copy. *)
Definition round_target (task : replication_task) (f : file_entry) (c : nm_context) : option Z :=
  if k_assign task then Z.of_nat <$> candidate_loop (servers (x_state c)) 0 (f_ss_index f) else Some (k_backup task).

Lemma candidate_loop_spec ss i p k :
  candidate_loop ss i p = Some k ->
  i <= k /\ Z.of_nat k <> p /\ (exists x, ss !! (k - i) = Some x /\ is_online x = true) /\
  forall j x, i <= j < k -> Z.of_nat j <> p -> ss !! (j - i) = Some x -> is_online x = false.
Proof.
  revert i. induction ss as [|y ss IH]; intros i H; [done|]. cbn in H.
  assert ((Z.of_nat i = p \/ is_online y = false) -> candidate_loop ss (S i) p = Some k ->
    i <= k /\ Z.of_nat k <> p /\ (exists x, (y :: ss) !! (k - i) = Some x /\ is_online x = true) /\
    forall j x, i <= j < k -> Z.of_nat j <> p -> (y :: ss) !! (j - i) = Some x -> is_online x = false) as Hgo.
  { intros Hy Hk. destruct (IH (S i) Hk) as (Hle & Hne & (x & Hx & Ho) & Hall). split_and!; [lia|done| |].
    - exists x. split; [|done]. replace (k - i) with (S (k - S i)) by lia. done.
    - intros j z Hj Hjp Hz. destruct (decide (j = i)) as [->|Hji].
      + rewrite Nat.sub_diag in Hz. injection Hz as <-. by destruct Hy.
      + apply (Hall j z); [lia|done|]. by replace (j - i) with (S (j - S i)) in Hz by lia. }
  destruct (Z.eqb_spec (Z.of_nat i) p) as [E|E]; [apply Hgo; auto|].
  destruct (is_online y) eqn:Eo; [|apply Hgo; auto]. injection H as <-. split_and!; [lia|done| |lia].
  exists y. by rewrite Nat.sub_diag.
Qed.

(** The tables after the location of one document changed. *)
Lemma candidate_loop_none ss i p :
  candidate_loop ss i p = None -> forall j x, ss !! j = Some x -> Z.of_nat (i + j) <> p -> is_online x = false.
Proof.
  revert i. induction ss as [|y ss IH]; intros i H j x Hj Hp; [done|]. cbn in H.
  destruct (Z.eqb_spec (Z.of_nat i) p) as [E|E].
  - destruct j as [|j]; [rewrite Nat.add_0_r in Hp; done|]. eapply (IH (S i)); [done|exact Hj|]. by rewrite Nat.add_succ_comm.
  - destruct (is_online y) eqn:Eo; [done|]. destruct j as [|j]; [by injection Hj as <-|].
    eapply (IH (S i)); [done|exact Hj|]. by rewrite Nat.add_succ_comm.
Qed.

(** [b] is the first online server other than [p]. *)
Definition first_other (ss : list storage_server) (p b : Z) : Prop :=
  b <> p /\ exists k x, b = Z.of_nat k /\ ss !! k = Some x /\ is_online x = true /\
    forall j y, j < k -> Z.of_nat j <> p -> ss !! j = Some y -> is_online y = false.
Definition none_other (ss : list storage_server) (p : Z) : Prop :=
  forall j x, ss !! j = Some x -> Z.of_nat j <> p -> is_online x = false.

Lemma first_other_loop ss p b : first_other ss p b -> candidate_loop ss 0 p = Some (Z.to_nat b).
Proof.
  intros (Hb & k & x & -> & Hk & Ho & Hall). rewrite Nat2Z.id. destruct (candidate_loop ss 0 p) as [k'|] eqn:E.
  - apply candidate_loop_spec in E as (_ & Hne & (x' & Hx' & Ho') & Hall'). rewrite Nat.sub_0_r in Hx'. f_equal.
    destruct (lt_eq_lt_dec k k') as [[Hlt|Heq]|Hlt]; [|by subst k'|].
    + specialize (Hall' k x). rewrite Nat.sub_0_r in Hall'. rewrite Hall' in Ho; [done|lia|done|done].
    + rewrite (Hall k' x') in Ho'; done.
  - rewrite (candidate_loop_none _ _ _ E k x) in Ho; done.
Qed.
Lemma none_other_loop ss p : none_other ss p -> candidate_loop ss 0 p = None.
Proof.
  intros H. destruct (candidate_loop ss 0 p) as [k|] eqn:E; [|done].
  apply candidate_loop_spec in E as (_ & Hne & (x & Hx & Ho) & _). rewrite Nat.sub_0_r in Hx. by rewrite (H k x) in Ho.
Qed.

Lemma location_map name i p b f s :
  nm_ok s -> find_file_index s name = Some i -> nm_files s !! i = Some f ->
  nm_map (set_location i p b s) = <[name := with_location p b (core f)]> (nm_map s).
Proof.
  intros Hok Hi Hf. destruct (update_file_ok (with_location p b) ltac:(by split) name s Hok) as [_ Hm].
  unfold update_file in Hm. rewrite Hi in Hm. unfold set_location. rewrite Hm.
  assert (nm_map s !! name = Some (core f)) as Hl.
  { apply nm_find_file_Some; [done|]. unfold nm_find_file. by rewrite Hi. }
  apply map_eq. intros n. destruct (decide (n = name)) as [->|Hne].
  - by rewrite lookup_alter_eq, lookup_insert_eq, Hl.
  - by rewrite lookup_alter_ne, lookup_insert_ne.
Qed.

Lemma find_slot s name f :
  nm_find_file s name = Some f -> exists i, find_file_index s name = Some i /\ nm_files s !! i = Some f.
Proof. unfold nm_find_file. destruct (find_file_index s name) as [i|]; [|done]. intros H. by exists i. Qed.

(** The place of the document after an attempt to copy it failed, and the queue. *)
Definition after_failure (task : replication_task) (f : file_entry) : file_entry :=
  if k_assign task then f else with_location (f_ss_index f) (-1) f.
Definition failure_queue (task : replication_task) (f : file_entry) (q : list replication_task) : list replication_task :=
  if k_assign task && (0 <=? f_backup_index f)%Z then q else asked_for [after_failure task f] q.

Lemma found_name s name f : nm_ok s -> nm_find_file s name = Some f -> f_name f = name.
Proof.
  intros Hok Hf. destruct (find_slot _ _ _ Hf) as (i & Hi & Hs). apply find_file_index_Some in Hi as (g & Hg & <-); [congruence|done].
Qed.

Lemma replication_failure_spec task b f c :
  nm_ok (x_state c) -> nm_find_file (x_state c) (k_file task) = Some f -> named f -> (0 <= f_ss_index f)%Z ->
  (k_assign task = false -> f_backup_index f = b /\ (0 <= b)%Z) ->
  let c' := handle_replication_failure task b c in
  nm_map (x_state c') = <[k_file task := core (after_failure task f)]> (nm_map (x_state c)) /\ x_queue c' = failure_queue task f (x_queue c).
Proof.
  intros Hok Hf [Hne Hn] Hp Hb. cbv zeta. unfold handle_replication_failure, after_failure, failure_queue.
  destruct (find_slot _ _ _ Hf) as (i & Hi & Hs). rewrite Hi, Hs. pose proof (found_name _ _ _ Hok Hf) as Hname.
  destruct (k_assign task) eqn:Ea; cbn [negb andb].
  - split.
    + rewrite (qu_state _ _ (try_assign_queues (k_file task) c)). symmetry. apply insert_id. rewrite <- nm_find_file_map, Hf by done. done.
    + rewrite <- Hname. destruct (Z.leb_spec 0 (f_backup_index f)) as [H0|H0].
      * unfold try_assign_backup. rewrite bool_decide_false, Hname, Hf by done. by replace (0 <=? f_backup_index f)%Z with true by lia.
      * rewrite (try_assign_needy f); [|by split_and!|by rewrite Hname]. unfold after_failure. by rewrite Ea.
  - destruct (Hb eq_refl) as [Hb1 Hb0]. replace (f_backup_index f =? b)%Z with true by lia.
    assert (drop_backup_only i (x_state c) = set_location i (f_ss_index f) (-1) (x_state c)) as Ed.
    { unfold drop_backup_only. rewrite Hs. by replace (f_backup_index f <? 0)%Z with false by lia. }
    set (c1 := drop_file_backup i c).
    assert (x_state c1 = set_location i (f_ss_index f) (-1) (x_state c)) as E1 by exact Ed.
    assert (nm_files (x_state c1) !! i = Some (with_location (f_ss_index f) (-1) f)) as Hs1.
    { rewrite E1. unfold set_location. cbn. by rewrite list_lookup_alter_eq, Hs. }
    rewrite Hs1. cbn [f_backup_index f_ss_index with_location Z.ltb Z.compare andb].
    replace (0 <=? f_ss_index f)%Z with true by lia.
    pose proof (quiet_location i (f_ss_index f) (-1) (x_state c) (or_introl eq_refl)) as Q. rewrite <- E1 in Q.
    pose proof (find_by_slot _ _ _ (qc_ok _ _ Q Hok) Hs1) as Hff. split.
    + rewrite (qu_state _ _ (try_assign_queues (k_file task) c1)), E1. by apply location_map.
    + change (x_queue c) with (x_queue c1). unfold after_failure. rewrite Ea, <- Hname.
      apply (try_assign_needy (with_location (f_ss_index f) (-1) f)); [|exact Hff]. by split_and!; cbn; [..|lia|].
Qed.

Lemma replication_failure_quiet task b c : quiet_change (x_state c) (x_state (handle_replication_failure task b c)).
Proof.
  unfold handle_replication_failure. set (r := match find_file_index _ _ with Some _ => _ | None => _ end).
  assert (quiet_change (x_state c) (x_state (snd r))) as Q.
  { unfold r. destruct (find_file_index _ _) as [i|]; [|done]. destruct (nm_files _ !! i) as [f|]; [|done].
    destruct (_ && _); [|done]. apply quiet_drop_backup. }
  destruct r as [need c1]. cbn [snd] in Q. destruct need; [|done].
  by rewrite (qu_state _ _ (try_assign_queues (k_file task) c1)).
Qed.

Lemma replication_round_quiet now c c' : replication_round now c = Some c' -> quiet_change (x_state c) (x_state c').
Proof.
  unfold replication_round. destruct (x_queue c) as [|task queue]; [done|]. set (c0 := with_queue queue c).
  assert (quiet_change (x_state c) (x_state c0)) as Q0 by (change (x_state c0) with (x_state c); done).
  intros [= <-]. destruct (nm_find_file _ _) as [f|] eqn:Ef; [|exact Q0].
  destruct (_ || negb _); [exact Q0|]. destruct (_ && negb _); [exact Q0|].
  set (target := if k_assign task then _ else _). destruct target as [b|] eqn:Et; [|exact Q0].
  pose proof (replicate_spec (k_file task) (snprintf_s NM_MAX_USER (f_owner f)) (f_ss_index f) b now c0) as Hr.
  destruct (replicate_file_to_backup _ _ _ _ _ _) as [ok c1]. destruct Hr as (Es & _).
  assert (quiet_change (x_state c) (x_state c1)) as Q by (by rewrite Es).
  destruct ok; cbn [negb]; [|etransitivity; [exact Q|apply replication_failure_quiet]].
  destruct (find_file_index (x_state c1) _) as [i|]; [|exact Q]. destruct (nm_files _ !! i) as [g|]; [|exact Q].
  destruct (Z.eqb_spec (f_ss_index g) (f_ss_index f)) as [E|]; [|exact Q]. destruct (k_assign task); [|exact Q].
  etransitivity; [exact Q|]. cbn [andb x_state save with_disk with_state]. apply quiet_location. right.
  unfold target in Et. apply fmap_Some in Et as (k & Hk & ->). apply candidate_loop_spec in Hk as (_ & Hk & _). by rewrite E.
Qed.

(** The task is for the document as it is: its primary is the one of the task, and the copy to bring
    up to date is still the document's. *)
Definition current (task : replication_task) (f : file_entry) : Prop :=
  (0 <= f_ss_index f)%Z /\ k_primary task = f_ss_index f /\ (k_assign task = false -> f_backup_index f = k_backup task).

Lemma idle_round now task queue c :
  x_queue c = task :: queue ->
  match nm_find_file (x_state c) (k_file task) with
  | None => True
  | Some f => ~ current task f \/ (k_assign task = true /\ none_other (servers (x_state c)) (f_ss_index f))
  end ->
  replication_round now c = Some (with_queue queue c).
Proof.
  intros Hq H. unfold replication_round. rewrite Hq. cbn [x_state with_queue]. destruct (nm_find_file _ _) as [f|]; [|done].
  destruct (Z.ltb_spec (f_ss_index f) 0) as [|H0]; [done|]. destruct (Z.eqb_spec (f_ss_index f) (k_primary task)) as [Hp|]; [|done]. cbn [orb negb].
  destruct H as [H|[-> Hno]]; [|cbn [negb andb]; by rewrite none_other_loop].
  destruct (k_assign task) eqn:Ea; cbn [negb andb]; [destruct H; split_and!; congruence|].
  destruct (Z.eqb_spec (f_backup_index f) (k_backup task)); [destruct H; by split_and!|done].
Qed.

(** A task that is current, with the server it goes to. *)
Lemma busy_round now task queue c f b :
  ctx_ok c -> x_queue c = task :: queue -> nm_find_file (x_state c) (k_file task) = Some f -> named f -> current task f ->
  (if k_assign task then first_other (servers (x_state c)) (f_ss_index f) b else b = k_backup task /\ (0 <= b)%Z) ->
  let '(ok, c1) := replicate_file_to_backup (k_file task) (snprintf_s NM_MAX_USER (f_owner f)) (f_ss_index f) b now (with_queue queue c) in
  exists c', replication_round now c = Some c' /\
    nm_map (x_state c') =
      <[k_file task := if ok then with_location (f_ss_index f) b (core f) else core (after_failure task f)]> (nm_map (x_state c)) /\
    x_queue c' = (if ok then queue else failure_queue task f queue).
Proof.
  intros Hc Hq Hf Hn (Hp0 & Hp & Hcur) Hb. set (c0 := with_queue queue c).
  pose proof (replicate_spec (k_file task) (snprintf_s NM_MAX_USER (f_owner f)) (f_ss_index f) b now c0) as Hr.
  destruct (replicate_file_to_backup _ _ _ _ _ c0) as [ok c1] eqn:Erep. destruct Hr as (Es & Eq & _ & _ & _).
  change (x_state c0) with (x_state c) in Es. change (x_queue c0) with queue in Eq.
  unfold replication_round. rewrite Hq. fold c0. change (x_state c0) with (x_state c). rewrite Hf, Hp.
  replace (f_ss_index f <? 0)%Z with false by lia. rewrite Z.eqb_refl. cbn [orb negb].
  assert (negb (k_assign task) && negb (f_backup_index f =? k_backup task)%Z = false) as ->.
  { destruct (k_assign task); [done|]. by rewrite Hcur, Z.eqb_refl. }
  assert ((if k_assign task then Z.of_nat <$> candidate_loop (servers (x_state c)) 0 (f_ss_index f) else Some (k_backup task)) = Some b) as ->.
  { destruct (k_assign task); [|by destruct Hb as [-> _]]. rewrite (first_other_loop _ _ _ Hb). destruct Hb as (_ & k & _ & -> & _).
    cbn. by rewrite Nat2Z.id. }
  rewrite Erep. eexists. split; [done|]. destruct ok; cbn [negb].
  - destruct (find_slot _ _ _ Hf) as (i & Hi & Hs). rewrite Es, Hi, Hs, Z.eqb_refl. cbn [andb].
    destruct (k_assign task) eqn:Ea; cbn [x_state x_queue save with_disk with_state]; (split; [|exact Eq]).
    + apply (location_map _ _ _ _ f); [apply Hc|done|done].
    + rewrite Es. symmetry. apply insert_id. rewrite <- nm_find_file_map, Hf by apply Hc. cbn.
      destruct Hb as [-> _]. rewrite <- (Hcur eq_refl). by destruct f.
  - rewrite <- Es in Hf. rewrite <- Es, <- Eq. apply (replication_failure_spec task b f c1); try done; [rewrite Es; apply Hc|].
    intros Ea. rewrite Ea in Hb. destruct Hb as [-> Hb0]. split; [by apply Hcur|done].
Qed.

(** C22: One round of the replication worker, for a task that names a copy unless it assigns a new
    one, when names fit their buffers.  Nothing but the queue changes when the document is gone,
    has another primary by now or (for a task that brings a copy up to date) another copy, or
    when a new copy is wanted and no server is online but the primary.  Otherwise the copy goes to
    the first online server other than the primary, or to the server of the existing copy.  The
    tables record it only after the primary took a fresh ticket for reading the document as its
    owner, and the copying server, told where to fetch the document and with that ticket, reported
    success.  If not, a copy that could not be brought up to date is forgotten, and a document that
    has no copy then is queued for a new one, made from its primary, behind the rest of the queue
    (unless an assign task for it is there already).  No other document changes and the two
    replicas stay on different servers. *)
Theorem nm_replication_round now task queue c
  (Hc : ctx_ok c) (Hq : x_queue c = task :: queue) (Ht : k_assign task = false -> (0 <= k_backup task)%Z)
  (Hn : forall f, nm_find_file (x_state c) (k_file task) = Some f -> named f) :
  exists c', replication_round now c = Some c' /\ ctx_ok c' /\ docs (x_state c') = docs (x_state c) /\
  match nm_find_file (x_state c) (k_file task) with
  | None => c' = with_queue queue c
  | Some f =>
      (~ current task f \/ (k_assign task = true /\ none_other (servers (x_state c)) (f_ss_index f)) -> c' = with_queue queue c) /\
      forall b, current task f ->
        (if k_assign task then first_other (servers (x_state c)) (f_ss_index f) b else b = k_backup task) ->
        let owner := snprintf_s NM_MAX_USER (f_owner f) in
        let '(ok, c1) := replicate_file_to_backup (k_file task) owner (f_ss_index f) b now (with_queue queue c) in
        (ok = true -> copied (k_file task) owner (f_ss_index f) b now c c1) /\
        nm_map (x_state c') =
          <[k_file task := with_location (f_ss_index f)
                             (if ok then b else if k_assign task then f_backup_index f else (-1)%Z) (core f)]> (nm_map (x_state c)) /\
        x_queue c' =
          if ok || k_assign task && (0 <=? f_backup_index f)%Z || has_assign queue (k_file task) then queue
          else queue ++ [mk_task (k_file task) owner (f_ss_index f) (-1) true]
  end.
Proof.
  destruct (replication_round now c) as [c'|] eqn:Er; [|unfold replication_round in Er; by rewrite Hq in Er].
  exists c'. pose proof (replication_round_quiet _ _ _ Er) as Q. split; [done|]. split; [by eapply ctx_ok_quiet|]. split; [apply Q|].
  pose proof (idle_round now task queue c Hq) as Hidle. pose proof (fun f b => busy_round now task queue c f b Hc Hq) as Hbusy. rewrite Er in Hidle, Hbusy.
  destruct (nm_find_file _ _) as [f|] eqn:Ef; [|by pose proof (Hidle I) as [= ->]]. split; [intros H; by pose proof (Hidle H) as [= ->]|].
  intros b Hcur Hb. cbv zeta. specialize (Hbusy f b eq_refl (Hn f eq_refl) Hcur).
  pose proof (replicate_spec (k_file task) (snprintf_s NM_MAX_USER (f_owner f)) (f_ss_index f) b now (with_queue queue c)) as Hr.
  destruct (replicate_file_to_backup _ _ _ _ _ _) as [ok c1]. destruct Hr as (_ & _ & _ & _ & Hcp). split; [exact Hcp|].
  destruct Hbusy as (c2 & [= <-] & Hm & Hqq). { destruct (k_assign task); [done|]. split; [done|]. subst b. auto. }
  rewrite Hm, Hqq. unfold after_failure, failure_queue, asked_for, after_failure. pose proof (found_name _ _ _ (proj1 Hc) Ef) as Hname.
  destruct ok; cbn [orb]; [done|]. split; [destruct (k_assign task); [by destruct f|done]|].
  destruct (k_assign task); cbn [andb]; [destruct (0 <=? f_backup_index f)%Z; cbn [orb]; [done|]|]; cbn [List.filter f_name with_location];
    rewrite Hname; destruct (has_assign queue (k_file task)); cbn [negb fmap list_fmap]; rewrite ?app_nil_r; try done; unfold assign_task; cbn; by rewrite Hname.
Qed.

(** *** The worker comes to rest *)

(** Rounds of the worker's loop, as long as there are tasks, with the clock's readings. *)
Fixpoint replication_rounds (clock : list Z) (c : nm_context) : nm_context :=
  match clock with
  | [] => c
  | now :: clock => match replication_round now c with Some c => replication_rounds clock c | None => c end
  end.

(** A task that brings a copy up to date can become one that assigns a new copy. *)
Definition work (q : list replication_task) : nat := sum_list_with (fun t => if k_assign t then 1 else 2) q.

(** The next task assigns a copy, and the attempt fails. *)
Definition assign_fails (now : Z) (c : nm_context) : Prop :=
  exists task queue f b, x_queue c = task :: queue /\ k_assign task = true /\
    nm_find_file (x_state c) (k_file task) = Some f /\ round_target task f c = Some b /\
    fst (replicate_file_to_backup (k_file task) (snprintf_s NM_MAX_USER (f_owner f)) (f_ss_index f) b now
           (with_queue queue c)) = false.

Lemma try_assign_work name c : work (x_queue (try_assign_backup name c)) <= work (x_queue c) + 1.
Proof.
  unfold try_assign_backup. case_match; [lia|]. destruct (nm_find_file _ _) as [f|]; [|lia]. case_match; [lia|].
  unfold schedule_replication. do 3 (case_match; [cbn; lia|]). destruct (existsb _ _); cbn [snd x_queue with_queue]; [lia|].
  unfold work. rewrite sum_list_with_app. cbn. lia.
Qed.

Lemma replication_failure_work task b c : work (x_queue (handle_replication_failure task b c)) <= work (x_queue c) + 1.
Proof.
  unfold handle_replication_failure. set (r := match find_file_index _ _ with Some _ => _ | None => _ end).
  assert (x_queue (snd r) = x_queue c) as E.
  { unfold r. destruct (find_file_index _ _) as [i|]; [|done]. destruct (nm_files _ !! i) as [f|]; [|done].
    by destruct (_ && _). }
  destruct r as [need c1]. cbn [snd] in E. rewrite <- E. destruct need; [apply try_assign_work|lia].
Qed.

Lemma replication_round_work now c c' :
  replication_round now c = Some c' -> work (x_queue c') < work (x_queue c) \/ assign_fails now c.
Proof.
  unfold replication_round. destruct (x_queue c) as [|task queue] eqn:Eq; [done|]. set (c0 := with_queue queue c).
  assert (work queue < work (task :: queue)) as Hlt by (unfold work; cbn; destruct (k_assign task); lia).
  change (x_state c0) with (x_state c). intros [= <-].
  destruct (nm_find_file _ _) as [f|] eqn:Ef; [|by left].
  destruct (_ || negb _); [by left|]. destruct (_ && negb _); [by left|].
  fold (round_target task f c). destruct (round_target task f c) as [b|] eqn:Et; [|by left].
  pose proof (replicate_spec (k_file task) (snprintf_s NM_MAX_USER (f_owner f)) (f_ss_index f) b now c0) as Hr.
  destruct (replicate_file_to_backup _ _ _ _ _ _) as [[] c1] eqn:Er; destruct Hr as (_ & E1 & _);
    change (x_queue c0) with queue in E1; cbn [negb].
  - left. rewrite <- E1 in Hlt |- *. destruct (find_file_index _ _) as [i|]; [|exact Hlt].
    destruct (nm_files _ !! i) as [g|]; [|exact Hlt]. destruct (_ && _); exact Hlt.
  - destruct (k_assign task) eqn:Ea; [right|left].
    + exists task, queue, f, b. split_and!; try done. fold c0. by rewrite Er.
    + pose proof (replication_failure_work task b c1) as Hw. rewrite E1 in Hw. cbn [negb] in *.
      unfold work in *. cbn. rewrite Ea. lia.
Qed.

(** C23: The replication worker comes to rest.  Whatever the storage servers answer, after at
    most two rounds per queued task the queue is empty, unless an attempt to place a new
    copy on an online server fails. *)
Theorem nm_replication_terminates (clock : nat -> Z) c :
  exists n, n <= work (x_queue c) /\
    let c' := replication_rounds (clock <$> seq 0 n) c in x_queue c' = [] \/ exists now, assign_fails now c'.
Proof.
  cut (forall w i c, work (x_queue c) <= w -> exists n, n <= work (x_queue c) /\
    let c' := replication_rounds (clock <$> seq i n) c in x_queue c' = [] \/ exists now, assign_fails now c'); [eauto|].
  clear c. intros w. induction w as [w IH] using lt_wf_ind. intros i c Hw.
  destruct (replication_round (clock i) c) as [c1|] eqn:Er.
  - destruct (replication_round_work _ _ _ Er) as [Hlt|Hf]; [|exists 0; split; [lia|right; by exists (clock i)]].
    destruct (IH (work (x_queue c1)) ltac:(lia) (S i) c1 (Nat.le_refl _)) as (n & Hn & H).
    exists (S n). split; [lia|]. cbn [seq fmap list_fmap replication_rounds]. by rewrite Er.
  - exists 0. split; [lia|]. left. change (x_queue c = []). unfold replication_round in Er. by destruct (x_queue c).
Qed.

(** The exception does happen: a new copy that no server takes is asked for over and over,
    without a pause. *)
Definition retrying (t : replication_task) (c : nm_context) : Prop :=
  x_queue c = [t] /\ x_answers c = [] /\ k_assign t = true /\ k_file t <> [] /\ length (k_file t) < NM_MAX_NAME /\
  exists f b, nm_find_file (x_state c) (k_file t) = Some f /\ (f_backup_index f < 0)%Z /\ (0 <= f_ss_index f)%Z /\
    t = mk_task (k_file t) (snprintf_s NM_MAX_USER (f_owner f)) (f_ss_index f) (-1) true /\ round_target t f c = Some b.

Lemma replicate_no_answer file owner p b now c :
  x_answers c = [] ->
  let '(ok, c') := replicate_file_to_backup file owner p b now c in ok = false /\ x_answers c' = [].
Proof.
  intros Ha. unfold replicate_file_to_backup. destruct (_ || _); [done|].
  destruct (nm_get_server _ p) as [x|]; [|done]. destruct (nm_get_server _ b) as [y|]; [|done]. destruct (negb _ || negb _); [done|].
  unfold issue_ticket. destruct (randutil_token _) as [tk c1] eqn:E1. injection E1 as <- <-.
  destruct (ticket_payload _); [|done]. cbn. rewrite Ha. done.
Qed.

Lemma replication_retries_forever t c now : retrying t c -> exists c', replication_round now c = Some c' /\ retrying t c'.
Proof.
  intros (Hq & Ha & Has & Hne & Hn & f & b & Hf & Hb & Hp & Ht & Htg).
  unfold replication_round. rewrite Hq. set (c0 := with_queue [] c). change (x_state c0) with (x_state c). rewrite Hf.
  assert (k_primary t = f_ss_index f) as Hpr by (by rewrite Ht). rewrite Hpr, Z.eqb_refl, Has.
  replace (f_ss_index f <? 0)%Z with false by lia. cbn [orb negb andb].
  unfold round_target in Htg. rewrite Has in Htg. rewrite Htg.
  pose proof (replicate_spec (k_file t) (snprintf_s NM_MAX_USER (f_owner f)) (f_ss_index f) b now c0) as Hr.
  pose proof (replicate_no_answer (k_file t) (snprintf_s NM_MAX_USER (f_owner f)) (f_ss_index f) b now c0 Ha) as Hr'.
  destruct (replicate_file_to_backup _ _ _ _ _ _) as [ok c1]. destruct Hr as (Es & Eq & _), Hr' as [-> Ha1]. cbn [negb].
  eexists. split; [done|]. change (x_state c0) with (x_state c) in Es. change (x_queue c0) with (@nil replication_task) in Eq.
  assert (handle_replication_failure t b c1 = with_queue [t] c1) as ->.
  { unfold handle_replication_failure. rewrite Has. rewrite <- Es in Hf. destruct (find_slot _ _ _ Hf) as (i & -> & ->).
    cbn [negb andb]. unfold try_assign_backup. rewrite bool_decide_false, Hf by done.
    replace (0 <=? f_backup_index f)%Z with false by lia. replace (f_ss_index f <? 0)%Z with false by lia. cbn [orb].
    unfold schedule_replication. rewrite bool_decide_false, Eq by done.
    replace (f_ss_index f <? 0)%Z with false by lia. cbn [negb andb existsb snd app].
    rewrite snprintf_s_id by done. do 2 f_equal. rewrite Ht at 2. f_equal. apply snprintf_s_id.
    pose proof (length_snprintf_s NM_MAX_USER (f_owner f)). unfold NM_MAX_USER in *. lia. }
  split_and!; try done. exists f, b. cbn [x_state with_queue]. rewrite Es. split_and!; try done.
  unfold round_target. rewrite Has. cbn [x_state with_queue]. by rewrite Es.
Qed.

(** A queued task for an earlier primary keeps a new one from being queued, and is then
    dropped: the document stays without a copy. *)
Lemma stale_task_hides_new t c f now :
  x_queue c = [t] -> k_assign t = true -> k_primary t <> f_ss_index f -> k_file t <> [] -> length (k_file t) < NM_MAX_NAME ->
  nm_find_file (x_state c) (k_file t) = Some f -> (f_backup_index f < 0)%Z -> (0 <= f_ss_index f)%Z ->
  try_assign_backup (k_file t) c = c /\ replication_round now c = Some (with_queue [] c).
Proof.
  intros Hq Ha Hpr Hne Hn Hf Hb Hp. split.
  - unfold try_assign_backup, schedule_replication. rewrite bool_decide_false, Hf by done.
    replace (0 <=? f_backup_index f)%Z with false by lia. replace (f_ss_index f <? 0)%Z with false by lia.
    cbn [orb negb andb]. rewrite Hq. cbn [existsb]. unfold same_task. cbn [k_file k_assign].
    rewrite snprintf_s_id, Ha by done. unfold streq. rewrite bool_decide_true by done. done.
  - unfold replication_round. rewrite Hq. change (x_state (with_queue [] c)) with (x_state c). rewrite Hf.
    replace (f_ss_index f =? k_primary t)%Z with false by lia. by rewrite orb_true_r.
Qed.

(** ** The concrete context again *)

Lemma demo_ctx_named queue answers : Forall named (nm_files (x_state (demo_ctx queue answers))).
Proof.
  rewrite demo_ctx_files. apply List.Forall_cons; [|apply List.Forall_cons; [|constructor]];
    (split; [discriminate|vm_compute; lia]).
Qed.

(** Server 0 is lost: the document it kept moves to server 1, the other loses its copy. *)
Lemma nm_failover_witness :
  let c := demo_ctx [] [] in
  let c' := handle_server_down 0 c in
  ctx_ok c' /\ docs (x_state c') = docs (x_state c) /\
  ((fun f => (f_name f, f_ss_index f, f_backup_index f)) <$> nm_files (x_state c')) =
    [(cs "plan", 1, -1)%Z; (cs "notes", 1, -1)%Z] /\
  x_queue c' = [mk_task (cs "plan") (cs "ann") 1 (-1) true; mk_task (cs "notes") (cs "bob") 1 (-1) true].
Proof.
  cbv zeta.
  destruct (nm_failover 0 (demo_ctx [] []) (demo_ctx_ok [] []) ltac:(lia) (demo_ctx_named [] [])) as (H1 & H2 & H3 & _).
  split; [exact H2|]. split; [exact H3|]. split; vm_compute; reflexivity.
Defined.

(** Then server 2 takes a copy of the document. *)
Definition demo_lost : nm_context :=
  let c := handle_server_down 0 (demo_ctx [] []) in
  mk_ctx (x_state c) (x_path c) (x_disk c) (x_tickets c) (x_active c) (x_queue c) (x_forwarded c)
    [Some (js "{'status':'OK'}"); Some (js "{'status':'OK'}")] (x_tokens c).

Lemma demo_lost_ok : ctx_ok demo_lost.
Proof.
  destruct (server_down_spec 0 (demo_ctx [] []) (demo_ctx_ok [] []) ltac:(lia) (demo_ctx_named [] [])) as (_ & Q & _).
  exact (ctx_ok_quiet (demo_ctx [] []) demo_lost (demo_ctx_ok [] []) Q).
Qed.

Lemma nm_replication_round_witness :
  exists c', replication_round 100 demo_lost = Some c' /\ ctx_ok c' /\ docs (x_state c') = docs (x_state demo_lost) /\
  (option_map (fun c => (fun f => (f_name f, f_ss_index f, f_backup_index f)) <$> nm_files (x_state c))
     (replication_round 100 demo_lost)) = Some [(cs "plan", 1, 2)%Z; (cs "notes", 1, -1)%Z] /\
  (option_map x_queue (replication_round 100 demo_lost)) = Some [mk_task (cs "notes") (cs "bob") 1 (-1) true].
Proof.
  destruct (nm_replication_round 100 (mk_task (cs "plan") (cs "ann") 1 (-1) true)
              [mk_task (cs "notes") (cs "bob") 1 (-1) true] demo_lost
              demo_lost_ok ltac:(vm_compute; reflexivity) ltac:(discriminate)
              ltac:(intros f Hf; vm_compute in Hf; injection Hf as <-; split; [discriminate|vm_compute; lia])) as (c' & H1 & H2 & H3 & _).
  exists c'. split; [exact H1|]. split; [exact H2|]. split; [exact H3|]. split; vm_compute; reflexivity.
Defined.
