(* ===== verification/NmSystem.v ===== *)
(** * [nm/nm_main.c]: the name manager as a whole

    The connection slots, the loop of a connection's thread and the background threads, as
    a machine whose steps are the handlers; what holds in every state it reaches. *)

From S2P Require Import Prelude Keyed Cstr Json Proto Fs NmState NmPersist NmServer NmRequests NmReplica.

(** ** The slots and the threads *)

Definition MAX_PEERS : nat := 256.

Record nm_system := mk_sys { y_ctx : nm_context; y_peers : list peer }.

Definition peer_reset_fields : peer := mk_peer (-1) PeerUnused (-1) [].

Definition is_unused (p : peer) : bool := match p_type p with PeerUnused => true | _ => false end.

Definition allocate_peer (ps : list peer) : option nat := fst <$> find_first is_unused ps.

(** The body of [main]'s loop; without a free slot the connection is closed again. *)
Definition accept_connection (fd : Z) (y : nm_system) : nm_system :=
  match allocate_peer (y_peers y) with
  | None => y
  | Some i => mk_sys (y_ctx y) (<[i := mk_peer fd PeerUnknown (-1) []]> (y_peers y))
  end.

(** [handle_server_disconnect], [peer_close] and the [peer_reset] after the loop. *)
Definition end_connection (i : nat) (p : peer) (y : nm_system) : nm_system :=
  mk_sys (handle_server_disconnect p (y_ctx y)) (<[i := peer_reset_fields]> (y_peers y)).

(** The answer fits the buffer of [send_ok]; otherwise nothing is sent and the handler returns
    -1. *)
Definition answered (r : option reply) : bool :=
  match r with Some r => match reply_json r with Some _ => true | None => false end | None => true end.

(** The loop body of [peer_thread_main]: a message is received, or nothing any more.  A message
    without a type is an answer to a command; those are part of the context. *)
Definition peer_receive (ask : storage_server -> cstr -> option cstr) (shell : cstr -> option cstr) (garbage : cstr)
    (i : nat) (msg : option cstr) (now : Z) (y : nm_system) : nm_system :=
  match y_peers y !! i with
  | None => y
  | Some p =>
      match msg with
      | None => end_connection i p y
      | Some json =>
          match json_get_string json (cs "type") 64 with
          | None => y
          | Some _ =>
              let '(r, go, p, c) := dispatch_message ask shell garbage p json now (y_ctx y) in
              let y := mk_sys c (<[i := p]> (y_peers y)) in
              if go && answered r then y else end_connection i p y
          end
      end
  end.

(** The answers the storage servers will give and the random tokens. *)
Definition with_environment (answers : list (option cstr)) (tokens : list cstr) (c : nm_context) : nm_context :=
  mk_ctx (x_state c) (x_path c) (x_disk c) (x_tickets c) (x_active c) (x_queue c) (x_forwarded c) answers tokens.

Inductive nm_step : nm_system -> nm_system -> Prop :=
| st_accept fd y : nm_step y (accept_connection fd y)
| st_receive ask shell garbage i msg now y : nm_step y (peer_receive ask shell garbage i msg now y)
| st_replicate now c c' ps : replication_round now c = Some c' -> nm_step (mk_sys c ps) (mk_sys c' ps)
| st_prune now c ps : nm_step (mk_sys c ps) (mk_sys (ticket_prune now c) ps)
| st_environment answers tokens c ps : nm_step (mk_sys c ps) (mk_sys (with_environment answers tokens c) ps).

(** [main], once the slots are set up. *)
Definition nm_start (c : nm_context) : nm_system := mk_sys c (replicate MAX_PEERS peer_reset_fields).

(** ** Nothing but the handshake and the end of a connection changes who is connected *)

(** Nor does anything change where the state is kept. *)
Definition same_active (c c' : nm_context) : Prop := (x_active c', x_path c') = (x_active c, x_path c).

Lemma same_active_list c c' : same_active c c' -> x_active c' = x_active c.
Proof. by intros [= ? _]. Qed.
Lemma same_active_path c c' : same_active c c' -> x_path c' = x_path c.
Proof. by intros [= _ ?]. Qed.

Lemma forward_active ss payload c : same_active c (snd (forward_command ss payload c)).
Proof. by destruct ss. Qed.

Lemma in_state_active {A} (f : nm_state -> A * nm_state) c : same_active c (snd (in_state f c)).
Proof. unfold in_state. by destruct (f (x_state c)). Qed.

Lemma select_active i c : same_active c (snd (select_storage_server i c)).
Proof.
  unfold select_storage_server, select_backup, drop_file_backup. by repeat case_match.
Qed.

Lemma issue_ticket_active ss i f u op now c : same_active c (snd (issue_ticket ss i f u op now c)).
Proof.
  unfold issue_ticket. destruct (randutil_token _) as [t c1] eqn:E1. injection E1 as <- <-.
  destruct (ticket_payload _) as [pl|]; [|done].
  match goal with |- context [forward_command ?a ?b ?c] => pose proof (forward_active a b c) as Hf; destruct (forward_command a b c) as [[r|] c2] end;
    [|done]. by destruct (status_is_ok r).
Qed.

Lemma create_backup_active n i k payload c : same_active c (snd (create_backup_loop n i k payload c)).
Proof.
  revert i c. induction n as [|n IH]; intros i c; cbn [create_backup_loop]; [done|].
  destruct (_ =? _)%Z; [apply IH|]. destruct (negb _); [apply IH|].
  pose proof (forward_active (nm_get_server (x_state c) (Z.of_nat i)) payload c) as H.
  destruct (forward_command _ _ _) as [[r|] c2]; [|etransitivity; [apply IH|exact H]].
  destruct (bool_decide _); [exact H|etransitivity; [apply IH|exact H]].
Qed.

(** Follows a handler from command to command. *)
Ltac follow :=
  unfold same_active in *;
  repeat first
    [ done
    | match goal with
      | |- context [forward_command ?a ?b ?c] =>
          let H := fresh "H" in pose proof (forward_active a b c) as H; unfold same_active in H;
          destruct (forward_command a b c) as [[?|] ?]; cbn [snd] in H
      | |- context [in_state ?f ?c] =>
          let H := fresh "H" in pose proof (in_state_active f c) as H; unfold same_active in H;
          destruct (in_state f c) as [? ?]; cbn [snd] in H
      | |- context [create_backup_loop ?n ?i ?k ?p ?c] =>
          let H := fresh "H" in pose proof (create_backup_active n i k p c) as H; unfold same_active in H;
          destruct (create_backup_loop n i k p c) as [? ?]; cbn [snd] in H
      | |- context [select_storage_server ?i ?c] =>
          let H := fresh "H" in pose proof (select_active i c) as H; unfold same_active in H;
          destruct (select_storage_server i c) as [[[? ?]|] ?]; cbn [snd] in H
      | |- context [match ?x with _ => _ end] =>
          lazymatch x with context [match _ with _ => _ end] => fail | _ => destruct x end
      end
    | progress cbn [fst snd x_active x_path with_state with_disk with_tickets mark_server_down save bad unreachable] ];
  cbn [x_active x_path with_state with_disk with_tickets mark_server_down save] in *; try congruence.

Lemma obtain_active n name user perm op now c : same_active c (snd (obtain_loop n name user perm op now c)).
Proof.
  revert c. induction n as [|n IH]; intros c; cbn [obtain_loop]; [done|].
  destruct (find_file_index _ _) as [i|]; [|done]. destruct (nm_files _ !! i) as [f|]; [|done].
  destruct (negb _); [done|]. pose proof (select_active i c) as H1.
  destruct (select_storage_server i c) as [[[k ss]|] c1]; [|exact H1].
  pose proof (issue_ticket_active ss k name user op now c1) as H2.
  destruct (issue_ticket _ _ _ _ _ _ _) as [[token|] c2]; cbn [snd] in *; unfold same_active in *.
  - cbn. congruence.
  - rewrite IH. cbn. congruence.
Qed.

Lemma lookup_active p json op perm sentence now c : same_active c (snd (handle_lookup_common p json op perm sentence now c)).
Proof.
  unfold handle_lookup_common. destruct (json_get_string _ _ _) as [name|]; [|done].
  pose proof (obtain_active 2 name (p_user p) perm op now c) as H. unfold obtain_ticket_for_file.
  destruct (obtain_loop _ _ _ _ _ _ _) as [[[token ss]|rc] c1]; exact H.
Qed.

Lemma exec_active ask shell p json now c : same_active c (snd (handle_client_exec ask shell p json now c)).
Proof.
  unfold handle_client_exec. destruct (json_get_string _ _ _) as [name|]; [|done].
  pose proof (obtain_active 2 name (p_user p) NM_PERM_READ (cs "READ") now c) as H. unfold obtain_ticket_for_file.
  destruct (obtain_loop _ _ _ _ _ _ _) as [[[token ss]|rc] c1]; follow.
Qed.

Lemma request_active ask shell p json now c : same_active c (snd (handle_client_message ask shell p json now c)).
Proof.
  unfold handle_client_message. destruct (json_get_string json (cs "type") 64) as [type|]; [|done].
  cbv zeta. case_match; [unfold handle_client_view; follow|].
  case_match; [unfold handle_client_list_users; follow|].
  case_match; [unfold handle_client_info; follow|].
  case_match; [unfold handle_client_create; follow|].
  case_match; [unfold handle_client_delete; follow|].
  case_match; [apply lookup_active|].
  case_match; [apply lookup_active|].
  case_match; [apply lookup_active|].
  case_match; [unfold handle_client_checkpoint, forward_to_backup; follow|].
  case_match; [unfold handle_client_viewcheckpoint, forward_to_available_server; follow|].
  case_match; [unfold handle_client_revert, forward_to_backup; follow|].
  case_match; [unfold handle_client_listcheckpoints; follow|].
  case_match; [unfold handle_client_addaccess; follow|].
  case_match; [unfold handle_client_removeaccess; follow|].
  case_match; [unfold handle_client_reqaccess; follow|].
  case_match; [unfold handle_client_viewreqs; follow|].
  case_match; [unfold handle_client_handlereq; follow|].
  case_match; [unfold handle_client_undo; follow|].
  case_match; [apply exec_active|].
  by case_match.
Qed.

Lemma schedule_active file owner p b assign c : same_active c (snd (schedule_replication file owner p b assign c)).
Proof. unfold schedule_replication. by repeat case_match. Qed.

Lemma try_assign_active name c : same_active c (try_assign_backup name c).
Proof.
  unfold try_assign_backup. case_match; [done|]. destruct (nm_find_file _ _) as [f|]; [|done].
  case_match; [done|]. apply schedule_active.
Qed.

Lemma fold_active {A} (f : nm_context -> A -> nm_context) l c :
  (forall c x, same_active c (f c x)) -> same_active c (foldl f c l).
Proof.
  intros Hf. revert c. induction l as [|x l IH]; intros c; cbn; [done|]. etransitivity; [apply IH|apply Hf].
Qed.

Lemma server_down_active i c : same_active c (handle_server_down i c).
Proof.
  unfold handle_server_down. destruct (failover_loop _ _ _ _ _ _) as [[s d] pending].
  etransitivity; [apply fold_active; intros; apply try_assign_active|]. by destruct d.
Qed.

Lemma failure_active task b c : same_active c (handle_replication_failure task b c).
Proof.
  unfold handle_replication_failure. set (r := match find_file_index _ _ with Some _ => _ | None => _ end).
  assert (same_active c (snd r)) as E.
  { unfold r. destruct (find_file_index _ _) as [i|]; [|done]. destruct (nm_files _ !! i) as [f|]; [|done].
    by destruct (_ && _). }
  destruct r as [need c1]. destruct need; [|exact E]. etransitivity; [apply try_assign_active|exact E].
Qed.

Lemma round_active now c c' : replication_round now c = Some c' -> same_active c c'.
Proof.
  unfold replication_round. destruct (x_queue c) as [|task queue]; [done|]. set (c0 := with_queue queue c).
  change (x_state c0) with (x_state c). intros [= <-]. destruct (nm_find_file _ _) as [f|]; [|done].
  destruct (_ || _); [done|]. destruct (_ && _); [done|]. destruct (if k_assign task then _ else _) as [b|]; [|done].
  set (r := replicate_file_to_backup _ _ _ _ _ _). assert (same_active c (snd r)) as E.
  { unfold r, replicate_file_to_backup. destruct (_ || _); [done|].
    destruct (nm_get_server _ (f_ss_index f)) as [x|]; [|done]. destruct (nm_get_server _ b) as [z|]; [|done].
    destruct (_ || _); [done|].
    match goal with |- context [issue_ticket ?a ?b ?c ?d ?e ?f ?g] =>
      pose proof (issue_ticket_active a b c d e f g) as H; destruct (issue_ticket a b c d e f g) as [[tk|] c1] end; [|exact H].
    cbn [snd] in H. change (same_active c c1) in H. follow. }
  destruct r as [[] c1]; cbn [negb]; [|etransitivity; [apply failure_active|exact E]].
  destruct (find_file_index _ _) as [i|]; [|exact E]. destruct (nm_files _ !! i) as [g|]; [|exact E]. by destruct (_ && _).
Qed.

Lemma update_active garbage json c : same_active c (handle_ss_file_update garbage json c).
Proof.
  unfold handle_ss_file_update. destruct (json_get_string _ _ _) as [name|]; [|done]. cbv zeta.
  destruct (nm_find_file _ _) as [f|]; [|done].
  set (c1 := save _). assert (same_active c c1) as E by done. clearbody c1.
  destruct (_ && _).
  - match goal with |- context [schedule_replication ?a ?b ?c ?d ?e ?f] =>
      pose proof (schedule_active a b c d e f) as H; destruct (schedule_replication a b c d e f) as [[] c2] end;
      cbn [snd] in H; [by etransitivity|]. etransitivity; [apply failure_active|by etransitivity].
  - destruct (_ && _); [|done]. by etransitivity; [apply schedule_active|].
Qed.

(** ** The tables stay well formed *)

Lemma ctx_queues c c' : queues c c' -> ctx_ok c -> ctx_ok c'.
Proof. intros [E _ _]. unfold ctx_ok. by rewrite E. Qed.

Lemma schedule_ok file owner p b assign c : ctx_ok c -> ctx_ok (snd (schedule_replication file owner p b assign c)).
Proof. apply ctx_queues, schedule_queues. Qed.

Lemma metadata_ok name w ch m a u s : tables_ok s -> tables_ok (snd (nm_update_file_metadata name w ch m a u s)).
Proof.
  intros Ht. pose proof Ht as (Hok & Ha & Hc & Hr). unfold nm_update_file_metadata.
  destruct (nm_find_file s name) as [f|] eqn:Ef; [|done]. cbn [snd].
  set (upd := fun f => with_metadata w ch _ _ _ f).
  destruct (docs_update name upd f s Hok Ef ltac:(by split) ltac:(done) ltac:(done)) as (Hok' & Hd & Hca & Hrep).
  apply (tables_same_cache s); try done; [|by apply Hrep].
  eapply acl_ok_insert; [exact Ha|exact Hd|]. rewrite acl_ok_docs in Ha. exact (Ha _ _ (found_docs s name f Hok Ef)).
Qed.

Lemma failure_ok task b c : ctx_ok c -> ctx_ok (handle_replication_failure task b c).
Proof. intros Hc. eapply ctx_ok_quiet; [exact Hc|apply replication_failure_quiet]. Qed.

Lemma update_ok garbage json c : ctx_ok c -> ctx_ok (handle_ss_file_update garbage json c).
Proof.
  intros Hc. unfold handle_ss_file_update. destruct (json_get_string _ _ _) as [name|]; [|done]. cbv zeta.
  destruct (nm_find_file _ _) as [f|]; [|done].
  set (c1 := save _). assert (ctx_ok c1) as Hc1 by (by apply metadata_ok). clearbody c1.
  destruct (_ && _).
  - match goal with |- context [schedule_replication ?a ?b ?c ?d ?e ?f] =>
      pose proof (schedule_ok a b c d e f Hc1) as H; destruct (schedule_replication a b c d e f) as [[] c2] end; [done|].
    by apply failure_ok.
  - destruct (_ && _); [|done]. by apply schedule_ok.
Qed.

Lemma quiet_server_down i c : quiet_change (x_state c) (x_state (handle_server_down i c)).
Proof.
  unfold handle_server_down. set (s := nm_mark_server_down i (x_state c)).
  pose proof (quiet_failover_loop (length (nm_files s)) 0 i s false []) as Q.
  destruct (failover_loop _ _ _ _ _ _) as [[s1 d] pending]. cbn [fst] in Q.
  set (c1 := if d then _ else _). assert (x_state c1 = s1) as E by (unfold c1; by destruct d).
  rewrite (qu_state _ _ (try_assign_names pending c1)), E. etransitivity; [apply quiet_mark_down|exact Q].
Qed.

Lemma register_ok p json c :
  ctx_ok c -> let '(_, p', c') := handle_ss_register p json c in
  ctx_ok c' /\ same_active c c' /\ p_user p' = p_user p /\ (p' = p \/ p_type p' = PeerServer).
Proof.
  intros Hc. assert (ctx_ok c /\ same_active c c /\ p_user p = p_user p /\ (p = p \/ p_type p = PeerServer)) as Hid
    by (split_and!; [done|done|done|by left]).
  unfold handle_ss_register.
  destruct (json_get_string json (cs "ssId") 64) as [id|]; [|exact Hid].
  destruct (json_get_string json (cs "host") 64) as [host|]; [|exact Hid].
  destruct (json_get_string json (cs "ctrlPort") 16) as [cp|]; [|exact Hid].
  destruct (json_get_string json (cs "dataPort") 16) as [dp|]; [|exact Hid].
  unfold in_state. destruct (nm_register_server id host cp dp (p_fd p) (x_state c)) as [[idx|] s] eqn:E.
  - assert (quiet_change (x_state c) s) as Q.
    { unfold nm_register_server in E. destruct (find_first _ _) as [[i x]|]; [injection E as <- <-; by apply quiet_tables|].
      destruct (_ <=? _); [done|]. injection E as <- <-. by apply quiet_tables. }
    set (c1 := with_state s c). assert (queues c1 (assign_missing c1) /\ same_active c1 (assign_missing c1)) as [Hq Ha].
    { unfold assign_missing. split; [|apply fold_active; intros d f; case_match; [apply try_assign_active|done]].
      assert (forall l d, queues d (foldl (fun c f => if (f_backup_index f <? 0)%Z then try_assign_backup (f_name f) c else c) d l)) as H.
      { intros l. induction l as [|f l IH]; intros d; cbn; [done|]. etransitivity; [|apply IH].
        case_match; [apply try_assign_queues|done]. }
      apply H. }
    split_and!; [|exact Ha|done|by right]. eapply ctx_queues; [exact Hq|]. by eapply (ctx_ok_quiet c).
  - assert (s = x_state c) as ->.
    { unfold nm_register_server in E. destruct (find_first _ _) as [[i x]|]; [done|]. destruct (_ <=? _); [|done]. by injection E as <-. }
    split_and!; [exact Hc|done|done|by left].
Qed.

(** ** One session per user *)

Definition session (p : peer) : list cstr := match p_type p with PeerClient => [p_user p] | _ => [] end.
Definition sessions (ps : list peer) : list cstr := ps ≫= session.

Definition user_ok (p : peer) : Prop :=
  length (p_user p) < NM_MAX_USER /\ (p_type p = PeerClient -> p_user p <> []).

Record sys_ok (y : nm_system) : Prop := {
  so_ctx : ctx_ok (y_ctx y);
  so_sessions : sessions (y_peers y) ≡ₚ x_active (y_ctx y);
  so_unique : NoDup (x_active (y_ctx y));
  so_users : Forall user_ok (y_peers y);
  so_slots : length (y_peers y) = MAX_PEERS;
}.

Lemma sessions_at ps i p : ps !! i = Some p -> sessions ps ≡ₚ session p ++ sessions (delete i ps).
Proof. intros Hp. unfold sessions. rewrite (delete_Permutation ps i p Hp) at 1. done. Qed.

Lemma sessions_insert ps i p q : ps !! i = Some p -> sessions (<[i := q]> ps) ≡ₚ session q ++ sessions (delete i ps).
Proof.
  intros Hp. rewrite (sessions_at (<[i := q]> ps) i q) by (apply list_lookup_insert_eq; by eapply lookup_lt_Some).
  by rewrite !delete_take_drop, take_insert_ge, drop_insert_lt by lia.
Qed.

(** What a message makes of its connection and of the users that are connected. *)
Inductive dispatched (p p' : peer) (l : list cstr) : list cstr -> Prop :=
| di_same : session p' = session p -> dispatched p p' l l
| di_hello u : session p = [] -> session p' = [u] -> u ∉ l -> dispatched p p' l (l ++ [u]).

Lemma add_user_ok u now c : ctx_ok c -> ctx_ok (snd (in_state (nm_add_user u now) c)).
Proof.
  intros Hc. unfold in_state. destruct (nm_add_user u now _) as [r s] eqn:Es. cbn [snd]. eapply (ctx_ok_quiet c); [done|].
  cbn [x_state with_state]. unfold nm_add_user in Es.
  destruct (find_first _ _) as [[i w]|]; [injection Es as <- <-; by apply quiet_tables|].
  destruct (_ <=? _); injection Es as <- <-; [done|by apply quiet_tables].
Qed.

Lemma hello_ok u now c :
  ctx_ok c -> length u < NM_MAX_USER ->
  match active_user_add u c with
  | (NmOk, c1) => u <> [] /\ u ∉ x_active c /\ x_active c1 = x_active c ++ [u] /\ ctx_ok (snd (in_state (nm_add_user u now) c1)) /\
                  x_active (snd (in_state (nm_add_user u now) c1)) = x_active c1
  | (NmErr _, c1) => c1 = c
  end.
Proof.
  intros Hc Hu. unfold active_user_add. destruct u as [|x u]; [done|]. set (v := x :: u) in *. assert (v <> []) as Hv by done. clearbody v.
  destruct (existsb _ _) eqn:E; [done|]. split_and!; [done| |cbn [x_active with_active]; by rewrite snprintf_s_id| |by apply same_active_list, in_state_active].
  - intros Hin%list_elem_of_In. assert (existsb (fun w => streq w v) (x_active c) = true) as Ht; [|congruence].
    apply existsb_exists. exists v. split; [done|]. by apply bool_decide_eq_true.
  - by apply add_user_ok.
Qed.

Lemma handshake_ok p json now c :
  ctx_ok c -> user_ok p -> session p = [] ->
  let '(_, p', c') := handle_handshake p json now c in
  ctx_ok c' /\ user_ok p' /\ dispatched p p' (x_active c) (x_active c').
Proof.
  intros Hc Hp Hs. assert (ctx_ok c /\ user_ok p /\ dispatched p p (x_active c) (x_active c)) as Hid
    by (split_and!; [done|done|by constructor]).
  unfold handle_handshake. destruct (json_get_string json (cs "type") 64) as [type|]; [|exact Hid].
  destruct (streq type (cs "SS_REGISTER")).
  { pose proof (register_ok p json c Hc) as H. destruct (handle_ss_register p json c) as [[r p'] c'].
    destruct H as (H1 & H2 & H3 & H4). split; [done|]. rewrite (same_active_list _ _ H2). destruct H4 as [->|H4]; [by apply Hid|].
    split; [|apply di_same; rewrite Hs; unfold session; by rewrite H4].
    split; [rewrite H3; apply Hp|by rewrite H4]. }
  destruct (streq type (cs "CLIENT_HELLO")); [|exact Hid].
  destruct (json_get_string json (cs "user") NM_MAX_USER) as [u|] eqn:Eu; [|exact Hid].
  apply json_get_string_length in Eu. destruct (username_in_use u c); [exact Hid|].
  pose proof (hello_ok u now c Hc Eu) as H. destruct (active_user_add u c) as [[|e] c1]; [|by subst].
  destruct H as (Hne & Hni & E1 & H1 & E2). rewrite snprintf_s_id by done.
  destruct (in_state (nm_add_user u now) c1) as [r c2]. cbn [snd] in *. split; [done|]. split.
  - by split.
  - rewrite E2, E1. by apply (di_hello _ _ _ u).
Qed.

Lemma dispatch_ok ask shell garbage p json now c :
  ctx_ok c -> user_ok p ->
  let '(_, _, p', c') := dispatch_message ask shell garbage p json now c in
  ctx_ok c' /\ user_ok p' /\ dispatched p p' (x_active c) (x_active c').
Proof.
  intros Hc Hp. unfold dispatch_message. destruct (p_type p) eqn:Ep.
  - split_and!; [done|done|by constructor].
  - assert (session p = []) as Hs by (unfold session; by rewrite Ep).
    pose proof (handshake_ok p json now c Hc Hp Hs) as H. by destruct (handle_handshake p json now c) as [[r p'] c'].
  - destruct (request_outcome ask shell p json now c Hc (proj1 Hp)) as [H1 _ _].
    pose proof (request_active ask shell p json now c) as H2.
    destruct (handle_client_message ask shell p json now c) as [[r go] c']. cbn [snd] in *.
    split_and!; [done|done|]. rewrite (same_active_list _ _ H2). by constructor.
  - unfold handle_server_message. assert (dispatched p p (x_active c) (x_active c)) as Hid by (by constructor).
    destruct (json_get_string json (cs "type") 64) as [type|]; [|done]. destruct (streq _ _); [|done].
    split_and!; [by apply update_ok|done|]. rewrite (same_active_list _ _ (update_active garbage json c)). by constructor.
Qed.

Lemma active_user_remove_ok u c :
  ctx_ok c -> ctx_ok (active_user_remove u c) /\
  (u <> [] -> u ∈ x_active c -> x_active c ≡ₚ u :: x_active (active_user_remove u c)).
Proof.
  intros Hc. unfold active_user_remove. destruct u as [|a u]; [done|]. set (v := a :: u). clearbody v.
  destruct (find_first _ _) as [[i x]|] eqn:E.
  - split; [exact Hc|]. intros _ _. apply find_first_Some in E as (Hi & Hx & _).
    apply bool_decide_eq_true in Hx as ->. cbn [x_active with_active]. rewrite remove_at_delete. by apply delete_Permutation.
  - split; [done|]. intros _ Hin. apply find_first_None in E. rewrite Forall_forall in E.
    specialize (E v Hin). by apply bool_decide_eq_false in E.
Qed.

Lemma disconnect_ok p c :
  ctx_ok c -> user_ok p -> (forall u, u ∈ session p -> u ∈ x_active c) ->
  ctx_ok (handle_server_disconnect p c) /\ x_active c ≡ₚ session p ++ x_active (handle_server_disconnect p c).
Proof.
  intros Hc [_ Hu] Hs. unfold handle_server_disconnect, session in *. destruct (p_type p).
  - done.
  - done.
  - destruct (active_user_remove_ok (p_user p) c Hc) as [H1 H2]. split; [done|]. apply H2; [by apply Hu|].
    apply Hs. by apply list_elem_of_singleton.
  - destruct (_ <=? _)%Z; [|done]. split; [eapply ctx_ok_quiet; [exact Hc|apply quiet_server_down]|].
    by rewrite (same_active_list _ _ (server_down_active (p_server_index p) c)).
Qed.

(** A slot and the context change together. *)
Lemma sys_ok_slot y i p p' c :
  sys_ok y -> y_peers y !! i = Some p -> ctx_ok c -> user_ok p' -> dispatched p p' (x_active (y_ctx y)) (x_active c) ->
  sys_ok (mk_sys c (<[i := p']> (y_peers y))).
Proof.
  intros [H1 H2 H3 H4 H5] Hp Hc Hu Hd. pose proof (sessions_at _ _ _ Hp) as S1. pose proof (sessions_insert _ _ _ p' Hp) as S2.
  split; cbn [y_ctx y_peers]; [done| | |by apply Forall_insert|by rewrite length_insert].
  - rewrite S2. inversion Hd as [E Ea|u E E' Hu' Ea].
    + by rewrite E, <- S1.
    + rewrite E', <- H2, S1, E. cbn. apply Permutation_cons_append.
  - inversion Hd as [E Ea|u E E' Hu' Ea]; [done|]. apply NoDup_app. split_and!; [done| |apply NoDup_singleton].
    intros x Hx ->%list_elem_of_singleton. done.
Qed.

Lemma sys_ok_end i p y : sys_ok y -> y_peers y !! i = Some p -> sys_ok (end_connection i p y).
Proof.
  intros Hy Hp. pose proof Hy as [H1 H2 H3 H4 H5]. pose proof (sessions_at _ _ _ Hp) as S1.
  pose proof (sessions_insert _ _ _ peer_reset_fields Hp) as S2.
  destruct (disconnect_ok p (y_ctx y) H1) as [Hc Hperm].
  - rewrite Forall_lookup in H4. by eapply H4.
  - intros u Hu. rewrite <- H2, S1. apply elem_of_app. by left.
  - unfold end_connection. split; cbn [y_ctx y_peers]; [done| | | |by rewrite length_insert].
    + rewrite S2. cbn [app session peer_reset_fields p_type]. apply (Permutation_app_inv_l (session p)).
      by rewrite <- S1, H2.
    + rewrite Hperm in H3. by apply NoDup_app in H3 as (_ & _ & ?).
    + apply Forall_insert; [done|]. split; [cbn; unfold NM_MAX_USER; lia|done].
Qed.

Lemma nm_step_ok y y' : nm_step y y' -> sys_ok y -> sys_ok y'.
Proof.
  intros [fd z|ask shell garbage i msg now z|now c c' ps Hr|now c ps|answers tokens c ps] Hy.
  - unfold accept_connection. destruct (allocate_peer (y_peers z)) as [i|] eqn:E; [|done].
    unfold allocate_peer in E. apply fmap_Some in E as ([j p] & E & ->). apply find_first_Some in E as (Hp & Hu & _).
    eapply sys_ok_slot; [exact Hy|exact Hp|apply Hy|split; [cbn; unfold NM_MAX_USER; lia|done]|].
    apply di_same. unfold is_unused, session in *. by destruct (p_type p).
  - unfold peer_receive. destruct (y_peers z !! i) as [p|] eqn:Hp; [|done].
    destruct msg as [json|]; [|by apply sys_ok_end]. destruct (json_get_string json (cs "type") 64); [|done].
    assert (user_ok p) as Hu by (pose proof (so_users _ Hy) as H; rewrite Forall_lookup in H; by eapply H).
    pose proof (dispatch_ok ask shell garbage p json now (y_ctx z) (so_ctx _ Hy) Hu) as Hd.
    destruct (dispatch_message _ _ _ _ _ _ _) as [[[r go] p'] c']. destruct Hd as (H1 & H2 & H3).
    pose proof (sys_ok_slot z i p p' c' Hy Hp H1 H2 H3) as Hy'. destruct (_ && _); [done|].
    apply sys_ok_end; [done|]. cbn. apply list_lookup_insert_eq. by eapply lookup_lt_Some.
  - destruct Hy as [H1 H2 H3 H4 H5]. cbn in *. pose proof (same_active_list _ _ (round_active _ _ _ Hr)) as Ha.
    split; cbn; [|by rewrite Ha|by rewrite Ha|done|done]. eapply ctx_ok_quiet; [exact H1|by eapply replication_round_quiet].
  - by destruct Hy.
  - by destruct Hy.
Qed.

Lemma sys_ok_start c : ctx_ok c -> x_active c = [] -> sys_ok (nm_start c).
Proof.
  intros Hc Ha. assert (forall n, sessions (replicate n peer_reset_fields) = []) as Hnil by (intros n; by induction n).
  unfold nm_start. split; cbn [y_ctx y_peers]; [done|by rewrite Hnil, Ha|rewrite Ha; constructor| |apply length_replicate].
  apply Forall_replicate. split; [cbn; unfold NM_MAX_USER; lia|done].
Qed.

Lemma nm_steps_ok y y' : rtc nm_step y y' -> sys_ok y -> sys_ok y'.
Proof. induction 1 as [|x z w Hs _ IH]; [done|]. intros H0. apply IH. by eapply nm_step_ok. Qed.

(** *** The state file stays the same *)

Lemma dispatch_path ask shell garbage p json now c :
  ctx_ok c -> let '(_, _, _, c') := dispatch_message ask shell garbage p json now c in x_path c' = x_path c.
Proof.
  intros Hc. unfold dispatch_message. destruct (p_type p) eqn:Ep.
  - done.
  - unfold handle_handshake. destruct (json_get_string json (cs "type") 64) as [type|]; [|done].
    destruct (streq type (cs "SS_REGISTER")).
    { pose proof (register_ok p json c Hc) as H. destruct (handle_ss_register p json c) as [[r p'] c']. by apply same_active_path, H. }
    destruct (streq type (cs "CLIENT_HELLO")); [|done]. destruct (json_get_string json (cs "user") NM_MAX_USER) as [u|]; [|done].
    destruct (username_in_use u c); [done|]. assert (x_path (snd (active_user_add u c)) = x_path c) as E1.
    { unfold active_user_add. by repeat case_match. }
    destruct (active_user_add u c) as [[|e] c1]; [|done]. cbn [snd] in E1.
    pose proof (same_active_path _ _ (in_state_active (nm_add_user (snprintf_s NM_MAX_USER u) now) c1)) as E2.
    destruct (in_state (nm_add_user (snprintf_s NM_MAX_USER u) now) c1) as [r c2]. cbn [snd] in *. congruence.
  - pose proof (request_active ask shell p json now c) as H.
    destruct (handle_client_message ask shell p json now c) as [[r go] c']. by apply same_active_path in H.
  - unfold handle_server_message. destruct (json_get_string json (cs "type") 64) as [type|]; [|done]. destruct (streq _ _); [|done].
    apply (same_active_path _ _ (update_active garbage json c)).
Qed.

Lemma end_connection_path i p y : x_path (y_ctx (end_connection i p y)) = x_path (y_ctx y).
Proof.
  unfold end_connection, handle_server_disconnect. cbn [y_ctx]. destruct (p_type p); try done.
  - unfold active_user_remove. by repeat case_match.
  - destruct (_ <=? _)%Z; [|done]. apply (same_active_path _ _ (server_down_active (p_server_index p) (y_ctx y))).
Qed.

Lemma nm_step_path y y' : nm_step y y' -> sys_ok y -> x_path (y_ctx y') = x_path (y_ctx y).
Proof.
  intros [fd z|ask shell garbage i msg now z|now c c' ps Hr|now c ps|answers tokens c ps] Hy; [| | |done|done].
  - unfold accept_connection. by destruct (allocate_peer _).
  - unfold peer_receive. destruct (y_peers z !! i) as [p|]; [|done].
    destruct msg as [json|]; [|apply end_connection_path]. destruct (json_get_string json (cs "type") 64); [|done].
    pose proof (dispatch_path ask shell garbage p json now (y_ctx z) (so_ctx _ Hy)) as Hd.
    destruct (dispatch_message _ _ _ _ _ _ _) as [[[r go] p'] c']. destruct (_ && _); [done|]. by rewrite end_connection_path.
  - by apply same_active_path, (round_active now).
Qed.

Lemma nm_steps_path y y' : rtc nm_step y y' -> sys_ok y -> x_path (y_ctx y') = x_path (y_ctx y).
Proof.
  induction 1 as [|x z w Hs _ IH]; [done|]. intros H0. rewrite IH by (by eapply nm_step_ok). by apply nm_step_path.
Qed.

(** In every state the name manager reaches, however connections, messages, hang-ups, the
    replication worker and the ticket pruner interleave, its tables are well formed, no two
    connections are sessions of the same user, and the list of connected users is exactly
    the users of the open client connections, so a name is free again when its session
    ends. *)
Theorem nm_sessions_exclusive c y (Hc : ctx_ok c) (Ha : x_active c = []) (Hr : rtc nm_step (nm_start c) y) :
  ctx_ok (y_ctx y) /\
  (forall i j p q, y_peers y !! i = Some p -> y_peers y !! j = Some q -> p_type p = PeerClient -> p_type q = PeerClient ->
     p_user p = p_user q -> i = j) /\
  (forall u, u ∈ x_active (y_ctx y) <-> exists p, p ∈ y_peers y /\ p_type p = PeerClient /\ p_user p = u).
Proof.
  assert (sys_ok y) as [H1 H2 H3 H4 H5] by (eapply nm_steps_ok; [exact Hr|by apply sys_ok_start]).
  split; [done|]. split.
  - intros i j p q Hp Hq Tp Tq E. destruct (decide (i = j)) as [|Hne]; [done|exfalso].
    rewrite <- H2, (sessions_at _ _ _ Hp) in H3. unfold session in H3 at 1. rewrite Tp in H3.
    apply NoDup_cons in H3 as [Hni _]. apply Hni. unfold sessions. apply list_elem_of_bind. exists q.
    split; [unfold session; rewrite Tq, E; by apply list_elem_of_singleton|].
    apply list_elem_of_lookup. destruct (decide (j < i)).
    + exists j. by rewrite list_lookup_delete_lt.
    + exists (j - 1). rewrite list_lookup_delete_ge by lia. by replace (S (j - 1)) with j by lia.
  - intros u. rewrite <- H2. unfold sessions. rewrite list_elem_of_bind. split.
    + intros (p & Hu & Hp). unfold session in Hu. destruct (p_type p) eqn:Ep; try (by apply not_elem_of_nil in Hu).
      apply list_elem_of_singleton in Hu as ->. by exists p.
    + intros (p & Hp & Tp & <-). exists p. split; [|done]. unfold session. rewrite Tp. by apply list_elem_of_singleton.
Qed.

(** ** Concrete runs *)

Definition demo_start : nm_context := mk_ctx clear_state (cs "nm.db") demo_empty_disk [] [] [] [] [] [].

Lemma demo_start_ok : ctx_ok demo_start.
Proof.
  split_and!; [apply nm_ok_clear|apply map_Forall_empty|split; [constructor|cbn; lia]|constructor].
Qed.

Definition demo_receive (i : nat) (text : String.string) (y : nm_system) : nm_system :=
  peer_receive (fun _ _ => None) (fun _ => None) [] i (Some (js text)) 100 y.

(** Two clients connect; the second asks for the name of the first, then for another one. *)
Definition demo_sessions : nm_system :=
  let y := accept_connection 7 (nm_start demo_start) in
  let y := demo_receive 0 "{'type':'CLIENT_HELLO','user':'ann'}" y in
  let y := accept_connection 8 y in
  let y := demo_receive 1 "{'type':'CLIENT_HELLO','user':'ann'}" y in
  demo_receive 1 "{'type':'CLIENT_HELLO','user':'bob'}" y.

Lemma demo_sessions_reached : rtc nm_step (nm_start demo_start) demo_sessions.
Proof.
  unfold demo_sessions, demo_receive. cbv zeta.
  eapply rtc_l; [apply (st_accept 7)|]. eapply rtc_l; [apply st_receive|]. eapply rtc_l; [apply (st_accept 8)|].
  eapply rtc_l; [apply st_receive|]. eapply rtc_l; [apply st_receive|]. apply rtc_refl.
Qed.

Lemma nm_sessions_exclusive_witness :
  ctx_ok (y_ctx demo_sessions) /\ x_active (y_ctx demo_sessions) = [cs "ann"; cs "bob"] /\
  take 3 (y_peers demo_sessions) = [mk_peer 7 PeerClient (-1) (cs "ann"); mk_peer 8 PeerClient (-1) (cs "bob"); peer_reset_fields].
Proof.
  destruct (nm_sessions_exclusive demo_start demo_sessions demo_start_ok eq_refl demo_sessions_reached) as [H _].
  split; [exact H|]. split; vm_compute; reflexivity.
Defined.

(** A storage server connects again before its old connection is given up: the end of the old
    connection marks the server as down, though its new connection is open. *)
Definition demo_reconnect : nm_system :=
  let register := "{'type':'SS_REGISTER','ssId':'ss1','host':'h','ctrlPort':'1','dataPort':'2'}"%string in
  let y := accept_connection 7 (nm_start demo_start) in
  let y := demo_receive 0 register y in
  let y := accept_connection 8 y in
  let y := demo_receive 1 register y in
  peer_receive (fun _ _ => None) (fun _ => None) [] 0 None 100 y.

Lemma reconnected_server_marked_down :
  take 2 (y_peers demo_reconnect) = [peer_reset_fields; mk_peer 8 PeerServer 0 []] /\
  servers (x_state (y_ctx demo_reconnect)) = [mk_server (cs "ss1") (cs "h") (cs "1") (cs "2") (-1) 0].
Proof. split; vm_compute; reflexivity. Qed.
