(* ===== verification/NmThreads.v ===== *)
(** * [nm/nm_main.c]: the handlers as their threads run them

    Every connection is served by a thread of its own, and the tables are guarded by a lock that
    a handler takes and drops several times: around a command to a storage server it never
    holds it.  Here a handler is a program of steps; a step is a critical section, or one
    access to the tables that the code makes without the lock, and says which of the two it is.
    What a step does when another thread is in the tables at the same time is not its concern:
    [NmConcurrent] runs the programs with the lock.  Run alone, the programs are the handlers of
    [NmServer] and [NmReplica]. *)

From S2P Require Import Prelude Keyed Cstr Json Proto Fs NmState NmPersist NmServer NmRequests NmReplica NmSystem.

(** ** Programs *)

(** How a step gets at the tables, which the state lock guards. *)
Inductive access :=
| Locked     (** between [STATE_LOCK] and [STATE_UNLOCK] *)
| Bare       (** at the tables, without the lock *)
| Own        (** not at the tables, but at what has a lock of its own: tickets, users, queue, answers *)
| Surplus.   (** a [STATE_UNLOCK] by a thread that does not hold the lock *)

#[export] Instance access_eq_dec : EqDecision access.
Proof. solve_decision. Defined.

Inductive prog (A : Type) : Type :=
| Ret (a : A)
| Atomic (l : access) {B : Set} (f : nm_context -> B * nm_context) (k : B -> prog A).
Arguments Ret {A} a.
Arguments Atomic {A} l {B} f k.

Fixpoint prog_bind {A B} (k : A -> prog B) (t : prog A) : prog B :=
  match t with
  | Ret a => k a
  | Atomic l f h => Atomic l f (fun x => prog_bind k (h x))
  end.
#[export] Instance prog_mbind : MBind prog := fun A B k t => prog_bind k t.

Definition atomic {A : Set} (l : access) (f : nm_context -> A * nm_context) : prog A := Atomic l f Ret.
Definition get {A : Set} (l : access) (f : nm_context -> A) : prog A := atomic l (fun c => (f c, c)).
Definition act (l : access) (f : nm_context -> nm_context) : prog unit := atomic l (fun c => (tt, f c)).

(** Nobody else runs in between. *)
Fixpoint run {A} (t : prog A) (c : nm_context) : A * nm_context :=
  match t with
  | Ret a => (a, c)
  | Atomic _ f k => let '(b, c) := f c in run (k b) c
  end.

(** ** Commands for the storage servers *)

(** A server is a pointer into the table, whose slots are never given up: the slot's number.
    Other threads run while the command is under way. *)
Definition send_command (server : Z) (payload : cstr) (c : nm_context) : bool * nm_context :=
  match nm_get_server (x_state c) server with
  | None => (false, c)
  | Some x =>
      (true, mk_ctx (x_state c) (x_path c) (x_disk c) (x_tickets c) (x_active c) (x_queue c)
               (x_forwarded c ++ [(ss_ctrl_fd x, payload)]) (x_answers c) (x_tokens c))
  end.
Definition receive_answer (c : nm_context) : option cstr * nm_context :=
  (default None (head (x_answers c)),
   mk_ctx (x_state c) (x_path c) (x_disk c) (x_tickets c) (x_active c) (x_queue c) (x_forwarded c)
     (tail (x_answers c)) (x_tokens c)).
Definition forward (server : Z) (payload : cstr) : prog (option cstr) :=
  sent ← atomic Bare (send_command server payload);
  if sent : bool then atomic Own receive_answer else Ret None.

Definition push_ticket (t : ticket_entry) (c : nm_context) : nm_context := with_tickets (x_tickets c ++ [t]) c.

Definition issue_ticket_steps (server : Z) (file user op : cstr) (now : Z) : prog (option cstr) :=
  _ ← act Own (ticket_prune now);
  token ← atomic Own randutil_token;
  let entry := mk_ticket (snprintf_s 64 token) (snprintf_s NM_MAX_NAME file) (snprintf_s NM_MAX_USER user)
                 (snprintf_s 16 op) (now + TICKET_TTL) server in
  match ticket_payload entry with
  | None => Ret None
  | Some payload =>
      answer ← forward server payload;
      match answer with
      | None => Ret None
      | Some response =>
          if status_is_ok response then _ ← act Own (push_ticket entry); Ret (Some (n_token entry)) else Ret None
      end
  end.

(** Under the lock: the document, the user's right on it, and the server that has it. *)
Definition choose_server (file_name user : cstr) (perm : Z) (c : nm_context) : (Z + error_code) * nm_context :=
  match find_file_index (x_state c) file_name with
  | None => (inr ERR_NOTFOUND, c)
  | Some i =>
      match nm_files (x_state c) !! i with
      | None => (inr ERR_NOTFOUND, c)
      | Some f =>
          if negb (file_has_access f user perm) then (inr ERR_NOAUTH, c)
          else
            match select_storage_server i c with
            | (None, c) => (inr ERR_UNAVAILABLE, c)
            | (Some (server, _), c) => (inl server, c)
            end
      end
  end.

Definition cache_put (file_name : cstr) (server now : Z) (c : nm_context) : nm_context :=
  with_state (nm_cache_put file_name server now (x_state c)) c.

Fixpoint obtain_steps (n : nat) (file_name user : cstr) (perm : Z) (op : cstr) (now : Z) : prog (cstr * Z + error_code) :=
  match n with
  | O => Ret (inr ERR_UNAVAILABLE)
  | S n =>
      chosen ← atomic Locked (choose_server file_name user perm);
      match chosen with
      | inr rc => Ret (inr rc)
      | inl server =>
          issued ← issue_ticket_steps server file_name user op now;
          match issued with
          | Some token => _ ← act Locked (cache_put file_name server now); Ret (inl (token, server))
          | None => _ ← act Locked (mark_server_down server); obtain_steps n file_name user perm op now
          end
      end
  end.

(** ** The clients' requests *)

Definition refuse (code : error_code) (msg : cstr) : prog reply := Ret (RErr code msg).

Definition lookup_steps (p : peer) (json op : cstr) (perm : Z) (include_sentence : bool) (now : Z) : prog reply :=
  match json_get_string json (cs "file") NM_MAX_NAME with
  | None => refuse ERR_BADREQ (cs "missing file")
  | Some file_name =>
      obtained ← obtain_steps 2 file_name (p_user p) perm op now;
      match obtained with
      | inr rc => Ret (ticket_error rc (cs "access denied"))
      | inl (token, server) =>
          ss ← get Bare (fun c => nm_get_server (x_state c) server);
          match ss with
          | None => Ret (ticket_error ERR_UNAVAILABLE (cs "access denied"))
          | Some ss =>
              let sentence := if include_sentence then default 0%Z (json_get_int json (cs "sentence")) else (-1)%Z in
              Ret (respond_with_endpoint file_name ss op token sentence)
          end
      end
  end.

(** The first critical section of [handle_client_create]: the slot of the server. *)
Definition place_document (file_name : cstr) (c : nm_context) : (Z + reply) * nm_context :=
  match nm_find_file (x_state c) file_name with
  | Some _ => (inr (RErr ERR_EXISTS (cs "file exists")), c)
  | None =>
      let '(picked, c) := in_state nm_pick_server c in
      match picked with
      | None => (inr (RErr ERR_UNAVAILABLE (cs "no storage server")), c)
      | Some server =>
          match connected (x_state c) (Z.of_nat server) with
          | None => (inr (RErr ERR_UNAVAILABLE (cs "server offline")), c)
          | Some _ => (inl (Z.of_nat server), c)
          end
      end
  end.

Fixpoint create_backup_steps (n i : nat) (server : Z) (payload : cstr) : prog Z :=
  match n with
  | O => Ret (-1)%Z
  | S n =>
      if (Z.of_nat i =? server)%Z then create_backup_steps n (S i) server payload
      else
        available ← get Bare (fun c => server_is_available (nm_get_server (x_state c) (Z.of_nat i)));
        if negb available then create_backup_steps n (S i) server payload
        else
          answer ← forward (Z.of_nat i) payload;
          match answer with
          | None => create_backup_steps n (S i) server payload
          | Some response =>
              if bool_decide ((fst <$> parse_status response 16 0) = Some (cs "OK")) then Ret (Z.of_nat i)
              else create_backup_steps n (S i) server payload
          end
  end.

(** The last critical section of [handle_client_create]. *)
Definition enter_document (file_name user : cstr) (server backup_index now : Z) (c : nm_context) : reply * nm_context :=
  match in_state (nm_add_file file_name user server backup_index now) c with
  | (NmErr _, c) => (RErr ERR_INTERNAL (cs "state update failed"), c)
  | (NmOk, c) =>
      let '(_, c) := in_state (nm_grant_access file_name user (Z.lor NM_PERM_WRITE NM_PERM_READ)) c in
      (ROk (js "'op':'CREATE'"), save (cache_put file_name server now c))
  end.

Definition create_steps (p : peer) (json : cstr) (now : Z) : prog reply :=
  match json_get_string json (cs "file") NM_MAX_NAME with
  | None => refuse ERR_BADREQ (cs "missing file")
  | Some file_name =>
      if negb (valid_filename file_name) then refuse ERR_BADREQ (cs "invalid name")
      else if bool_decide (p_user p = []) then refuse ERR_NOAUTH (cs "anonymous user")
      else
        placed ← atomic Locked (place_document file_name);
        match placed with
        | inr r => Ret r
        | inl server =>
            match fit 512 (js "{'type':'NM_CREATE','file':'" ++ file_name ++ js "','owner':'" ++ p_user p ++ js "'}") with
            | None => refuse ERR_INTERNAL (cs "payload too large")
            | Some payload =>
                answer ← forward server payload;
                match answer with
                | None => _ ← act Locked (mark_server_down server); refuse ERR_UNAVAILABLE (cs "server unreachable")
                | Some response =>
                    if negb (status_is_ok response) then refuse ERR_INTERNAL (cs "create failed")
                    else
                      server_count ← get Locked (fun c => length (servers (x_state c)));
                      backup_index ← create_backup_steps server_count 0 server payload;
                      atomic Locked (enter_document file_name (p_user p) server backup_index now)
                end
            end
        end
  end.

(** Under the lock: the document's slot and its server, for [handle_client_delete], which looks
    for the server twice. *)
Definition choose_for_delete (p : peer) (file_name : cstr) (c : nm_context) : (nat * Z * bool + reply) * nm_context :=
  match find_for p file_name NM_PERM_WRITE (cs "no write access") (x_state c) with
  | inr r => (inr r, c)
  | inl (i, _) =>
      match select_storage_server i c with
      | (None, c) => (inr (RErr ERR_UNAVAILABLE (cs "server offline")), c)
      | (Some (first_index, _), c) =>
          match select_storage_server i c with
          | (None, c) => (inl (i, first_index, false), c)
          | (Some (server, _), c) => (inl (i, server, true), c)
          end
      end
  end.

(** [file->backup_index] through the pointer from before the command: the slot may hold
    another document by now, or lie behind the table's end, where an entry from before is left. *)
Definition backup_in_slot (stale : Z) (i : nat) (c : nm_context) : Z :=
  match nm_files (x_state c) !! i with Some f => f_backup_index f | None => stale end.

(** After the command has been answered the lock is not taken again, but it is released: that
    [STATE_UNLOCK] frees the lock of whoever holds it, or does nothing. *)
Definition delete_steps (stale : Z) (p : peer) (json : cstr) : prog reply :=
  match json_get_string json (cs "file") NM_MAX_NAME with
  | None => refuse ERR_BADREQ (cs "missing file")
  | Some file_name =>
      chosen ← atomic Locked (choose_for_delete p file_name);
      match chosen with
      | inr r => Ret r
      | inl (i, server, found) =>
          match fit 256 (js "{'type':'NM_DELETE','file':'" ++ file_name ++ js "'}") with
          | None => refuse ERR_INTERNAL (cs "payload too large")
          | Some payload =>
              answer ← (if found : bool then forward server payload else Ret None);
              match answer with
              | None => _ ← act Locked (mark_server_down server); refuse ERR_UNAVAILABLE (cs "server unreachable")
              | Some response =>
                  if negb (status_is_ok response) then refuse ERR_INTERNAL (cs "delete failed")
                  else
                    backup_index ← get Bare (backup_in_slot stale i);
                    _ ← act Bare (fun c => with_state (snd (nm_remove_file file_name (x_state c))) c);
                    _ ← act Surplus id;
                    backup ← get Bare (fun c => connected (x_state c) backup_index);
                    _ ← (match backup with Some _ => forward backup_index payload | None => Ret None end);
                    _ ← act Bare save;
                    Ret (ROk (js "'op':'DELETE'"))
              end
          end
      end
  end.

Definition choose_for_undo (p : peer) (file_name : cstr) (c : nm_context) : (Z + reply) * nm_context :=
  match find_for p file_name NM_PERM_WRITE (cs "no write access") (x_state c) with
  | inr r => (inr r, c)
  | inl (i, _) =>
      match select_storage_server i c with
      | (None, c) => (inr (RErr ERR_UNAVAILABLE (cs "server offline")), c)
      | (Some (server, _), c) => (inl server, c)
      end
  end.

Definition undo_steps (p : peer) (json : cstr) : prog reply :=
  match json_get_string json (cs "file") NM_MAX_NAME with
  | None => refuse ERR_BADREQ (cs "missing file")
  | Some file_name =>
      chosen ← atomic Locked (choose_for_undo p file_name);
      match chosen with
      | inr r => Ret r
      | inl server =>
          match fit 512 (js "{'type':'NM_UNDO','file':'" ++ file_name ++ js "','user':'" ++ p_user p ++ js "'}") with
          | None => refuse ERR_INTERNAL (cs "payload too large")
          | Some payload =>
              answer ← forward server payload;
              match answer with
              | None => _ ← act Locked (mark_server_down server); refuse ERR_UNAVAILABLE (cs "server unreachable")
              | Some response =>
                  if status_is_ok response then Ret (ROk (js "'op':'UNDO'"))
                  else refuse ERR_CONFLICT (cs "undo not possible")
              end
          end
      end
  end.

(** Under the lock, for the checkpoint commands: the two servers of the document.  CHECKPOINT
    wants a tag that is free, the others one that is there. *)
Definition find_checkpointed (p : peer) (file_name tag : cstr) (perm : Z) (denied : cstr) (fresh : bool) (s : nm_state)
  : Z * Z + reply :=
  match find_for p file_name perm denied s with
  | inr r => inr r
  | inl (_, f) =>
      match file_find_checkpoint f tag with
      | Some _ => if fresh then inr (RErr ERR_EXISTS (cs "checkpoint exists")) else inl (f_ss_index f, f_backup_index f)
      | None => if fresh then inl (f_ss_index f, f_backup_index f) else inr (RErr ERR_NOTFOUND (cs "checkpoint not found"))
      end
  end.

(** The command repeated on the backup; its answer is only logged. *)
Definition backup_steps (primary_index backup_index : Z) (payload : cstr) : prog unit :=
  backup ← get Bare (fun c => connected (x_state c) backup_index);
  match backup with
  | Some _ => if (backup_index =? primary_index)%Z then Ret tt else _ ← forward backup_index payload; Ret tt
  | None => Ret tt
  end.

(** The last critical section of [handle_client_checkpoint]. *)
Definition enter_checkpoint (file_name tag user : cstr) (now : Z) (c : nm_context) : option reply * nm_context :=
  match nm_find_file (x_state c) file_name with
  | None => (Some (RErr ERR_NOTFOUND (cs "file missing")), c)
  | Some f =>
      match file_find_checkpoint f tag with
      | Some _ => (Some (RErr ERR_EXISTS (cs "checkpoint exists")), c)
      | None =>
          match in_state (nm_file_add_checkpoint file_name tag user now) c with
          | (NmErr ENoSpc, c) => (Some (RErr ERR_INTERNAL (cs "checkpoint limit reached")), c)
          | (NmErr _, c) => (Some (RErr ERR_INTERNAL (cs "checkpoint metadata failed")), c)
          | (NmOk, c) => (None, save c)
          end
      end
  end.

(** What CHECKPOINT and REVERT share: the command goes to the primary, and [finish] goes on when it
    has been carried out. *)
Definition primary_steps (p : peer) (kind file_name tag failed : cstr) (primary_index : Z) (finish : cstr -> prog reply)
  : prog reply :=
  primary ← get Bare (fun c => connected (x_state c) primary_index);
  match primary with
  | None => refuse ERR_UNAVAILABLE (cs "primary offline")
  | Some _ =>
      match checkpoint_payload kind file_name tag (p_user p) with
      | inr r => Ret r
      | inl payload =>
          answer ← forward primary_index payload;
          match answer with
          | None => refuse ERR_UNAVAILABLE (cs "primary unreachable")
          | Some response => if negb (status_is_ok response) then refuse ERR_INTERNAL failed else finish payload
          end
      end
  end.

Definition checkpoint_steps (p : peer) (json : cstr) (now : Z) : prog reply :=
  match json_get_string json (cs "file") NM_MAX_NAME, json_get_string json (cs "tag") NM_MAX_NAME with
  | Some file_name, Some tag =>
      if negb (valid_checkpoint_tag tag) then refuse ERR_BADREQ (cs "invalid tag")
      else
        found ← get Locked (fun c => find_checkpointed p file_name tag NM_PERM_WRITE (cs "no write access") true (x_state c));
        match found with
        | inr r => Ret r
        | inl (primary_index, backup_index) =>
            primary_steps p (cs "NM_CHECKPOINT_CREATE") file_name tag (cs "checkpoint failed") primary_index (fun payload =>
              failure ← atomic Locked (enter_checkpoint file_name tag (p_user p) now);
              match failure with
              | Some r => Ret r
              | None => _ ← backup_steps primary_index backup_index payload; Ret (ROk (js "'op':'CHECKPOINT'"))
              end)
        end
  | _, _ => refuse ERR_BADREQ (cs "missing fields")
  end.

Definition revert_steps (p : peer) (json : cstr) : prog reply :=
  match json_get_string json (cs "file") NM_MAX_NAME, json_get_string json (cs "tag") NM_MAX_NAME with
  | Some file_name, Some tag =>
      if negb (valid_checkpoint_tag tag) then refuse ERR_BADREQ (cs "invalid tag")
      else
        found ← get Locked (fun c => find_checkpointed p file_name tag NM_PERM_WRITE (cs "no write access") false (x_state c));
        match found with
        | inr r => Ret r
        | inl (primary_index, backup_index) =>
            primary_steps p (cs "NM_CHECKPOINT_REVERT") file_name tag (cs "revert failed") primary_index (fun payload =>
              _ ← backup_steps primary_index backup_index payload; Ret (ROk (js "'op':'REVERT'")))
        end
  | _, _ => refuse ERR_BADREQ (cs "missing fields")
  end.

(** [forward_to_available_server]; the connections are looked at when their turn comes. *)
Definition try_backup_steps (primary backup : option Z) (payload : cstr) : prog (option cstr) :=
  match backup with
  | Some j =>
      y ← get Bare (fun c => connected (x_state c) j);
      match y with
      | Some _ => if bool_decide (primary = Some j) then Ret None else forward j payload
      | None => Ret None
      end
  | None => Ret None
  end.
Definition forward_available_steps (primary backup : option Z) (payload : cstr) : prog (option cstr) :=
  match primary with
  | Some i =>
      x ← get Bare (fun c => connected (x_state c) i);
      match x with
      | Some _ =>
          answer ← forward i payload;
          match answer with Some response => Ret (Some response) | None => try_backup_steps primary backup payload end
      | None => try_backup_steps primary backup payload
      end
  | None => try_backup_steps primary backup payload
  end.

Definition present (index : Z) (c : nm_context) : option Z := fst <$> indexed_server (x_state c) index.

Definition viewcheckpoint_steps (p : peer) (json : cstr) : prog reply :=
  match json_get_string json (cs "file") NM_MAX_NAME, json_get_string json (cs "tag") NM_MAX_NAME with
  | Some file_name, Some tag =>
      if negb (valid_checkpoint_tag tag) then refuse ERR_BADREQ (cs "invalid tag")
      else
        found ← get Locked (fun c => find_checkpointed p file_name tag NM_PERM_READ (cs "no read access") false (x_state c));
        match found with
        | inr r => Ret r
        | inl (primary_index, backup_index) =>
            primary ← get Bare (present primary_index);
            backup ← get Bare (present backup_index);
            match primary, backup with
            | None, None => refuse ERR_UNAVAILABLE (cs "no storage available")
            | _, _ =>
                match checkpoint_payload (cs "NM_CHECKPOINT_VIEW") file_name tag (p_user p) with
                | inr r => Ret r
                | inl payload =>
                    answer ← forward_available_steps primary backup payload;
                    match answer with
                    | None => refuse ERR_UNAVAILABLE (cs "checkpoint unavailable")
                    | Some response =>
                        if negb (status_is_ok response) then refuse ERR_INTERNAL (cs "checkpoint view failed")
                        else
                          match json_get_string_alloc response (cs "content") with
                          | None => refuse ERR_INTERNAL (cs "missing content")
                          | Some content =>
                              match json_escape_dup content with
                              | None => refuse ERR_INTERNAL (cs "encoding error")
                              | Some escaped =>
                                  match fit MAX_JSON (js "'content':'" ++ escaped ++ js "'") with
                                  | None => refuse ERR_INTERNAL (cs "response too large")
                                  | Some extra => Ret (ROk extra)
                                  end
                              end
                          end
                    end
                end
            end
        end
  | _, _ => refuse ERR_BADREQ (cs "missing fields")
  end.

Section Threads.
Context (ask : storage_server -> cstr -> option cstr) (shell : cstr -> option cstr).

(** From the answer of the data port on, nothing is shared. *)
Definition exec_reply (file_name user token : cstr) (ss : storage_server) : reply :=
  match ss_fetch_content ask ss file_name user token with
  | None => RErr ERR_UNAVAILABLE (cs "fetch failed")
  | Some content =>
      match run_exec_commands shell content with
      | None => RErr ERR_INTERNAL (cs "exec failed")
      | Some output =>
          match json_escape_dup output with
          | None => RErr ERR_INTERNAL (cs "encode failed")
          | Some escaped =>
              match fit MAX_JSON (js "'op':'EXEC','output':'" ++ escaped ++ js "'") with
              | None => RErr ERR_INTERNAL (cs "response too large")
              | Some extra => ROk extra
              end
          end
      end
  end.

Definition exec_steps (p : peer) (json : cstr) (now : Z) : prog reply :=
  match json_get_string json (cs "file") NM_MAX_NAME with
  | None => refuse ERR_BADREQ (cs "missing file")
  | Some file_name =>
      obtained ← obtain_steps 2 file_name (p_user p) NM_PERM_READ (cs "READ") now;
      match obtained with
      | inr rc => Ret (ticket_error rc (cs "no read access"))
      | inl (token, server) =>
          ss ← get Bare (fun c => nm_get_server (x_state c) server);
          match ss with
          | None => Ret (ticket_error ERR_UNAVAILABLE (cs "no read access"))
          | Some ss => Ret (exec_reply file_name (p_user p) token ss)
          end
      end
  end.

(** The handlers with one critical section are one step. *)
Definition request_steps (stale : Z) (p : peer) (json : cstr) (now : Z) : prog (reply * bool) :=
  let go (t : prog reply) := r ← t; Ret (r, true) in
  match json_get_string json (cs "type") 64 with
  | None => go (refuse ERR_BADREQ (cs "missing type"))
  | Some type =>
      if streq type (cs "VIEW") then go (atomic Locked (handle_client_view p json))
      else if streq type (cs "LIST") then go (atomic Locked handle_client_list_users)
      else if streq type (cs "INFO") then go (atomic Locked (handle_client_info p json))
      else if streq type (cs "CREATE") then go (create_steps p json now)
      else if streq type (cs "DELETE") then go (delete_steps stale p json)
      else if streq type (cs "READ") then go (lookup_steps p json (cs "READ") NM_PERM_READ false now)
      else if streq type (cs "WRITE") then go (lookup_steps p json (cs "WRITE") NM_PERM_WRITE true now)
      else if streq type (cs "STREAM") then go (lookup_steps p json (cs "STREAM") NM_PERM_READ false now)
      else if streq type (cs "CHECKPOINT") then go (checkpoint_steps p json now)
      else if streq type (cs "VIEWCHECKPOINT") then go (viewcheckpoint_steps p json)
      else if streq type (cs "REVERT") then go (revert_steps p json)
      else if streq type (cs "LISTCHECKPOINTS") then go (atomic Locked (handle_client_listcheckpoints p json))
      else if streq type (cs "ADDACCESS") then go (atomic Locked (handle_client_addaccess p json))
      else if streq type (cs "REMACCESS") then go (atomic Locked (handle_client_removeaccess p json))
      else if streq type (cs "REQACCESS") then go (atomic Locked (handle_client_reqaccess p json))
      else if streq type (cs "VIEWREQS") then go (atomic Locked (handle_client_viewreqs p json))
      else if streq type (cs "HANDLEREQ") then go (atomic Locked (handle_client_handlereq p json))
      else if streq type (cs "UNDO") then go (undo_steps p json)
      else if streq type (cs "EXEC") then go (exec_steps p json now)
      else if streq type (cs "CLIENT_EXIT") then Ret (ROk (js "'op':'EXIT'"), false)
      else go (refuse ERR_BADREQ (cs "unsupported type"))
  end.
End Threads.

(** ** Replication *)

Definition schedule (file_name owner : cstr) (primary_index backup_index : Z) (assign_mode : bool) : prog bool :=
  atomic Own (schedule_replication file_name owner primary_index backup_index assign_mode).

(** Under the lock: the owner and the primary of a document that needs a backup. *)
Definition needs_backup (file_name : cstr) (s : nm_state) : option (cstr * Z) :=
  f ← nm_find_file s file_name;
  if (0 <=? f_backup_index f)%Z || (f_ss_index f <? 0)%Z then None
  else Some (snprintf_s NM_MAX_USER (f_owner f), f_ss_index f).

Definition try_assign_steps (file_name : cstr) : prog unit :=
  if bool_decide (file_name = []) then Ret tt
  else
    needed ← get Locked (fun c => needs_backup file_name (x_state c));
    match needed with
    | None => Ret tt
    | Some (owner, primary_index) => _ ← schedule file_name owner primary_index (-1) true; Ret tt
    end.

(** The critical section of [handle_replication_failure]: [need_assign]. *)
Definition drop_failed (task : replication_task) (attempted_backup : Z) (c : nm_context) : bool * nm_context :=
  match find_file_index (x_state c) (k_file task) with
  | None => (k_assign task, c)
  | Some i =>
      match nm_files (x_state c) !! i with
      | None => (k_assign task, c)
      | Some f =>
          if negb (k_assign task) && (f_backup_index f =? attempted_backup)%Z then
            let c := drop_file_backup i c in
            (match nm_files (x_state c) !! i with
             | Some f => if (f_backup_index f <? 0)%Z && (0 <=? f_ss_index f)%Z then true else k_assign task
             | None => k_assign task
             end, c)
          else (k_assign task, c)
      end
  end.
Definition failure_steps (task : replication_task) (attempted_backup : Z) : prog unit :=
  need_assign ← atomic Locked (drop_failed task attempted_backup);
  if need_assign : bool then try_assign_steps (k_file task) else Ret tt.

Definition sync_command (file_name owner : cstr) (primary_index : Z) (ticket : cstr) (c : nm_context) : option cstr :=
  primary ← nm_get_server (x_state c) primary_index; sync_payload file_name owner primary ticket.
Definition replicate_steps (file_name owner : cstr) (primary_index backup_index now : Z) : prog bool :=
  if (primary_index <? 0)%Z || (backup_index <? 0)%Z || (primary_index =? backup_index)%Z then Ret false
  else
    online ← get Bare (fun c => server_is_available (nm_get_server (x_state c) primary_index) &&
                           server_is_available (nm_get_server (x_state c) backup_index));
    if negb online then Ret false
    else
      issued ← issue_ticket_steps primary_index file_name owner (cs "READ") now;
      match issued with
      | None => Ret false
      | Some ticket =>
          payload ← get Bare (sync_command file_name owner primary_index ticket);
          match payload with
          | None => Ret false
          | Some payload =>
              answer ← forward backup_index payload;
              match answer with
              | None => Ret false
              | Some response => Ret (bool_decide ((fst <$> parse_status response 16 0) = Some (cs "OK")))
              end
          end
      end.

Definition take_task (c : nm_context) : option replication_task * nm_context :=
  match x_queue c with
  | [] => (None, c)
  | task :: queue => (Some task, with_queue queue c)
  end.

Definition owner_and_primary (file_name : cstr) (s : nm_state) : option (cstr * Z) :=
  (fun f => (snprintf_s NM_MAX_USER (f_owner f), f_ss_index f)) <$> nm_find_file s file_name.

Definition still_wanted (task : replication_task) (s : nm_state) : bool :=
  match nm_find_file s (k_file task) with Some f => (f_backup_index f =? k_backup task)%Z | None => false end.

Definition first_candidate (primary_index : Z) (c : nm_context) : option Z :=
  Z.of_nat <$> candidate_loop (servers (x_state c)) 0 primary_index.

(** The last critical section of the worker's loop. *)
Definition assign_copy (task : replication_task) (primary_index target : Z) (c : nm_context) : nm_context :=
  match find_file_index (x_state c) (k_file task) with
  | None => c
  | Some i =>
      match nm_files (x_state c) !! i with
      | Some updated =>
          if (f_ss_index updated =? primary_index)%Z && k_assign task
          then save (with_state (set_location i (f_ss_index updated) target (x_state c)) c)
          else c
      | None => c
      end
  end.

(** One round of [replication_worker]. *)
Definition replication_steps (now : Z) : prog unit :=
  taken ← atomic Own take_task;
  match taken with
  | None => Ret tt
  | Some task =>
      found ← get Locked (fun c => owner_and_primary (k_file task) (x_state c));
      match found with
      | None => Ret tt
      | Some (owner, current_primary) =>
          if (current_primary <? 0)%Z || negb (current_primary =? k_primary task)%Z then Ret tt
          else
            wanted ← (if k_assign task then Ret true else get Locked (fun c => still_wanted task (x_state c)));
            if negb wanted then Ret tt
            else
              target ← (if k_assign task
                        then get Locked (first_candidate current_primary)
                        else Ret (Some (k_backup task)));
              match target with
              | None => Ret tt
              | Some target_backup =>
                  copied ← replicate_steps (k_file task) owner current_primary target_backup now;
                  if negb copied then failure_steps task target_backup
                  else act Locked (assign_copy task current_primary target_backup)
              end
      end
  end.

(** ** Messages of the storage servers *)

(** The critical section of [handle_ss_file_update]: the owner, the two servers, [need_sync]
    and [need_assign]. *)
Definition enter_update (file_name last_user : cstr) (words chars modified last_access : Z) (c : nm_context)
  : option (cstr * Z * Z * bool * bool) * nm_context :=
  match nm_find_file (x_state c) file_name with
  | None => (None, c)
  | Some f =>
      let c := save (with_state (snd (nm_update_file_metadata file_name words chars modified last_access last_user (x_state c))) c) in
      let modified_now := match nm_find_file (x_state c) file_name with Some g => f_modified g | None => f_modified f end in
      (Some (snprintf_s NM_MAX_USER (f_owner f), f_ss_index f, f_backup_index f,
             negb (modified_now =? f_modified f)%Z && (0 <=? f_backup_index f)%Z,
             (f_backup_index f <? 0)%Z && (0 <=? f_ss_index f)%Z && has_backup_candidate (x_state c) (f_ss_index f)), c)
  end.

Definition update_steps (garbage json : cstr) : prog unit :=
  match json_get_string json (cs "file") NM_MAX_NAME with
  | None => Ret tt
  | Some file_name =>
      let last_user := default garbage (json_get_string json (cs "lastAccessUser") NM_MAX_USER) in
      let count key := match json_get_int json key with Some n => if (0 <=? n)%Z then n else 0%Z | None => 0%Z end in
      entered ← atomic Locked (enter_update file_name last_user (count (cs "words")) (count (cs "chars"))
                          (default 0%Z (json_get_int json (cs "modified"))) (default 0%Z (json_get_int json (cs "lastAccess"))));
      match entered with
      | None => Ret tt
      | Some (owner, primary_index, backup_index, need_sync, need_assign) =>
          if need_sync : bool then
            queued ← schedule file_name owner primary_index backup_index false;
            if queued : bool then Ret tt
            else failure_steps (mk_task (snprintf_s NM_MAX_NAME file_name) (snprintf_s NM_MAX_USER owner) primary_index backup_index false)
                   backup_index
          else if need_assign : bool then _ ← schedule file_name owner primary_index (-1) true; Ret tt
          else Ret tt
      end
  end.

(** ** Connections *)

(** The loop over the documents after a registration; the table may change under it. *)
Fixpoint assign_missing_steps (n i : nat) : prog unit :=
  match n with
  | O => Ret tt
  | S n =>
      slot ← get Bare (fun c => nm_files (x_state c) !! i);
      match slot with
      | None => Ret tt
      | Some f => _ ← (if (f_backup_index f <? 0)%Z then try_assign_steps (f_name f) else Ret tt); assign_missing_steps n (S i)
      end
  end.

Definition register_steps (p : peer) (json : cstr) : prog (reply * peer) :=
  match json_get_string json (cs "ssId") 64, json_get_string json (cs "host") 64,
        json_get_string json (cs "ctrlPort") 16, json_get_string json (cs "dataPort") 16 with
  | Some id, Some host, Some ctrl_port, Some data_port =>
      registered ← atomic Bare (in_state (nm_register_server id host ctrl_port data_port (p_fd p)));
      match registered with
      | None => Ret (RErr ERR_INTERNAL (cs "too many servers"), p)
      | Some idx =>
          _ ← assign_missing_steps NM_MAX_FILES 0;
          Ret (ROk (js "'role':'SS'"), with_role PeerServer (Z.of_nat idx) (p_user p) p)
      end
  | _, _, _, _ => Ret (RErr ERR_BADREQ (cs "invalid register payload"), p)
  end.

Definition hello_steps (p : peer) (json : cstr) (now : Z) : prog (reply * peer) :=
  match json_get_string json (cs "user") NM_MAX_USER with
  | None => Ret (RErr ERR_BADREQ (cs "missing user"), p)
  | Some requested_user =>
      in_use ← get Own (username_in_use requested_user);
      if in_use : bool then Ret (RErr ERR_CONFLICT (cs "username already in use"), p)
      else
        added ← atomic Own (active_user_add requested_user);
        match added with
        | NmErr _ => Ret (RErr ERR_INTERNAL (cs "failed to register user"), p)
        | NmOk =>
            let u := snprintf_s NM_MAX_USER requested_user in
            _ ← act Bare (fun c => snd (in_state (nm_add_user u now) c));
            Ret (ROk (js "'role':'CLIENT'"), with_role PeerClient (-1) u p)
        end
  end.

Definition handshake_steps (p : peer) (json : cstr) (now : Z) : prog (reply * peer) :=
  match json_get_string json (cs "type") 64 with
  | None => Ret (RErr ERR_BADREQ (cs "missing type"), p)
  | Some type =>
      if streq type (cs "SS_REGISTER") then register_steps p json
      else if streq type (cs "CLIENT_HELLO") then hello_steps p json now
      else Ret (RErr ERR_BADREQ (cs "unknown handshake"), p)
  end.

Definition dispatch_steps (ask : storage_server -> cstr -> option cstr) (shell : cstr -> option cstr)
    (garbage : cstr) (stale : Z) (p : peer) (json : cstr) (now : Z) : prog (option reply * bool * peer) :=
  match p_type p with
  | PeerUnused => Ret (None, false, p)
  | PeerUnknown => r ← handshake_steps p json now; Ret (Some (fst r), true, snd r)
  | PeerClient => r ← request_steps ask shell stale p json now; Ret (Some (fst r), snd r, p)
  | PeerServer =>
      match json_get_string json (cs "type") 64 with
      | Some type => if streq type (cs "SS_FILE_UPDATE") then _ ← update_steps garbage json; Ret (None, true, p) else Ret (None, false, p)
      | None => Ret (None, false, p)
      end
  end.

(** The critical section of [handle_server_disconnect]: the documents that need a new backup. *)
Definition take_server_down (server_index : Z) (c : nm_context) : list cstr * nm_context :=
  let s := nm_mark_server_down server_index (x_state c) in
  let '(s, state_dirty, pending) := failover_loop (length (nm_files s)) 0 server_index s false [] in
  let c := with_state s c in
  (pending, if state_dirty then save c else c).

Fixpoint assign_pending (pending : list cstr) : prog unit :=
  match pending with
  | [] => Ret tt
  | name :: pending => _ ← try_assign_steps name; assign_pending pending
  end.

Definition disconnect_steps (p : peer) : prog unit :=
  match p_type p with
  | PeerClient => act Own (active_user_remove (p_user p))
  | PeerServer =>
      if (0 <=? p_server_index p)%Z then pending ← atomic Locked (take_server_down (p_server_index p)); assign_pending pending
      else Ret tt
  | PeerUnused | PeerUnknown => Ret tt
  end.

(** ** Alone, the programs are the handlers *)

Lemma run_bind {A B} (t : prog A) (k : A -> prog B) c : run (t ≫= k) c = let '(a, c) := run t c in run (k a) c.
Proof.
  unfold mbind, prog_mbind. revert c. induction t as [a|l B' f h IH]; intros c; cbn [prog_bind run]; [done|].
  destruct (f c) as [b c1]. apply IH.
Qed.
Lemma run_ret {A} (a : A) c : run (Ret a) c = (a, c).
Proof. done. Qed.
Lemma run_atomic {A : Set} l (f : nm_context -> A * nm_context) c : run (atomic l f) c = f c.
Proof. cbn. by destruct (f c). Qed.
Lemma run_get {A : Set} l (f : nm_context -> A) c : run (get l f) c = (f c, c).
Proof. done. Qed.
Lemma run_act l f c : run (act l f) c = (tt, f c).
Proof. done. Qed.
Lemma run_refuse code msg c : run (refuse code msg) c = bad code msg c.
Proof. done. Qed.
Create HintDb run.
#[export] Hint Rewrite @run_bind @run_ret @run_atomic @run_get run_act run_refuse : run.

Lemma run_forward k payload c : run (forward k payload) c = forward_command (nm_get_server (x_state c) k) payload c.
Proof.
  unfold forward. autorewrite with run. unfold send_command. by destruct (nm_get_server (x_state c) k).
Qed.
#[export] Hint Rewrite run_forward : run.

Lemma run_issue k ss file user op now c :
  nm_get_server (x_state c) k = Some ss -> run (issue_ticket_steps k file user op now) c = issue_ticket ss k file user op now c.
Proof.
  intros Hs. unfold issue_ticket_steps, issue_ticket. autorewrite with run.
  destruct (randutil_token (ticket_prune now c)) as [token c1] eqn:E1.
  assert (x_state c1 = x_state c) as E by (by injection E1 as <- <-). cbv zeta.
  destruct (ticket_payload _) as [payload|]; [|done]. autorewrite with run. rewrite E, Hs.
  destruct (forward_command (Some ss) payload c1) as [[response|] c2]; [|done]. by destruct (status_is_ok response).
Qed.

Lemma select_server i c k ss c' : select_storage_server i c = (Some (k, ss), c') -> nm_get_server (x_state c') k = Some ss.
Proof.
  unfold select_storage_server. destruct (nm_files (x_state c) !! i) as [f|]; [|done].
  assert (select_backup i f c = (Some (k, ss), c') -> nm_get_server (x_state c') k = Some ss) as Hb.
  { unfold select_backup. destruct (_ <? _)%Z; [done|]. destruct (nm_get_server _ (f_backup_index f)) as [x|] eqn:E; [|done].
    destruct (is_online x); [|done]. by intros [= <- <- <-]. }
  destruct (nm_get_server _ (f_ss_index f)) as [x|] eqn:E; [|done]. destruct (is_online x); [|done]. by intros [= <- <- <-].
Qed.

(** A server's slot after an obtained ticket is what it was before. *)
Definition with_server (s : nm_state) (x : cstr * Z + error_code) (y : cstr * storage_server + error_code) : Prop :=
  match x, y with
  | inl (token, k), inl (token', ss) => token = token' /\ nm_get_server s k = Some ss
  | inr rc, inr rc' => rc = rc'
  | _, _ => False
  end.

Lemma run_obtain n name user perm op now c :
  snd (run (obtain_steps n name user perm op now) c) = snd (obtain_loop n name user perm op now c) /\
  with_server (x_state (snd (obtain_loop n name user perm op now c)))
    (fst (run (obtain_steps n name user perm op now) c)) (fst (obtain_loop n name user perm op now c)).
Proof.
  revert c. induction n as [|n IH]; intros c; cbn [obtain_steps obtain_loop]; [done|]. autorewrite with run. unfold choose_server.
  destruct (find_file_index (x_state c) name) as [i|]; [|done]. destruct (nm_files (x_state c) !! i) as [f|]; [|done].
  destruct (negb _); [done|]. destruct (select_storage_server i c) as [[[k ss]|] c1] eqn:Es; [|done].
  apply select_server in Es. autorewrite with run. rewrite (run_issue _ _ _ _ _ _ _ Es).
  pose proof (issue_ticket_state ss k name user op now c1) as E2. destruct (issue_ticket ss k name user op now c1) as [[token|] c2]; cbn [snd] in E2.
  - autorewrite with run. split; [done|]. cbn [fst snd with_server]. split; [done|].
    rewrite <- E2 in Es. unfold cache_put. cbn [x_state with_state]. unfold nm_cache_put. by repeat case_match.
  - autorewrite with run. apply IH.
Qed.

Lemma run_lookup p json op perm sentence now c :
  run (lookup_steps p json op perm sentence now) c = handle_lookup_common p json op perm sentence now c.
Proof.
  unfold lookup_steps, handle_lookup_common. destruct (json_get_string _ _ _) as [name|]; [|done]. autorewrite with run.
  destruct (run_obtain 2 name (p_user p) perm op now c) as [E1 E2]. unfold obtain_ticket_for_file.
  destruct (run (obtain_steps 2 _ _ _ _ _) c) as [x c1], (obtain_loop 2 _ _ _ _ _ c) as [y c2]. cbn [fst snd] in *. subst c2.
  destruct x as [[token k]|rc], y as [[token' ss]|rc']; try done; cbn [with_server] in E2.
  - destruct E2 as [<- E2]. autorewrite with run. by rewrite E2.
  - by subst rc'.
Qed.

Lemma run_create_backup n i k payload c : run (create_backup_steps n i k payload) c = create_backup_loop n i k payload c.
Proof.
  revert i c. induction n as [|n IH]; intros i c; cbn [create_backup_steps create_backup_loop]; [done|].
  destruct (_ =? _)%Z; [apply IH|]. autorewrite with run. destruct (negb _); [apply IH|]. autorewrite with run.
  destruct (forward_command _ _ _) as [[response|] c2]; [|apply IH]. by destruct (bool_decide _); [|apply IH].
Qed.

Lemma connected_get s k x : connected s k = Some x -> nm_get_server s k = Some x.
Proof. unfold connected. destruct (nm_get_server s k) as [y|]; [|done]. by destruct (_ <? _)%Z. Qed.

Lemma run_create p json now c : run (create_steps p json now) c = handle_client_create p json now c.
Proof.
  unfold create_steps, handle_client_create. destruct (json_get_string _ _ _) as [name|]; [|done].
  destruct (negb _); [done|]. destruct (bool_decide _); [done|]. autorewrite with run. unfold place_document.
  destruct (nm_find_file _ _); [done|]. destruct (in_state nm_pick_server c) as [[k|] c1]; [|done]. unfold connected.
  destruct (nm_get_server (x_state c1) (Z.of_nat k)) as [ss|] eqn:Es; [|done]. destruct (_ <? _)%Z; [done|].
  destruct (fit 512 _) as [payload|]; [|done]. autorewrite with run. rewrite Es.
  destruct (forward_command _ _ _) as [[response|] c2]; [|done]. destruct (negb _); [done|]. autorewrite with run.
  rewrite run_create_backup. destruct (create_backup_loop _ _ _ _ _) as [b c3]. autorewrite with run. unfold enter_document.
  by destruct (in_state (nm_add_file _ _ _ _ _) c3) as [[|e] c4].
Qed.

Lemma select_slots i c : length (nm_files (x_state (snd (select_storage_server i c)))) = length (nm_files (x_state c)).
Proof.
  assert (forall c, length (nm_files (x_state (drop_file_backup i c))) = length (nm_files (x_state c))) as Hd.
  { intros c'. unfold drop_file_backup, drop_backup_only. cbn. destruct (nm_files (x_state c') !! i) as [f|]; [|done].
    destruct (_ <? _)%Z; [done|]. apply length_alter. }
  unfold select_storage_server. destruct (nm_files (x_state c) !! i) as [f|]; [|done].
  assert (length (nm_files (x_state (snd (select_backup i f c)))) = length (nm_files (x_state c))) as Hb.
  { unfold select_backup. destruct (_ <? _)%Z; [done|]. destruct (nm_get_server _ _) as [x|]; [|apply Hd].
    destruct (is_online x); [|apply Hd]. apply length_alter. }
  destruct (nm_get_server _ _) as [x|]; [|done]. by destruct (is_online x).
Qed.

(** The slot of the document stays its slot while nobody else runs. *)
Lemma run_delete stale p json c : run (delete_steps stale p json) c = handle_client_delete p json c.
Proof.
  unfold delete_steps, handle_client_delete. destruct (json_get_string _ _ _) as [name|]; [|done]. autorewrite with run.
  unfold choose_for_delete. destruct (find_for _ _ _ _ _) as [[i f]|r] eqn:Ef; [|done]. apply find_for_inl in Ef as (_ & Hf & _).
  apply lookup_lt_Some in Hf. pose proof (select_slots i c) as L1.
  destruct (select_storage_server i c) as [[[k1 ss1]|] c1] eqn:E1; [|done]. cbn [snd] in L1.
  pose proof (select_slots i c1) as L2. pose proof (fun k ss => select_server i c1 k ss) as S2.
  destruct (select_storage_server i c1) as [again c2]. cbn [snd] in L2. cbv zeta.
  assert (i < length (nm_files (x_state c2))) as Hi by lia. clear L1 L2 Hf E1.
  destruct again as [[k ss]|]; cbn [snd fmap option_fmap option_map].
  - specialize (S2 k ss c2 eq_refl). destruct (fit 256 _) as [payload|]; [|done]. autorewrite with run. rewrite S2.
    pose proof (forward_state (Some ss) payload c2) as E3. destruct (forward_command (Some ss) payload c2) as [[response|] c3]; [|done].
    cbn [snd] in E3. destruct (negb _); [done|]. autorewrite with run. unfold backup_in_slot. rewrite E3.
    destruct (nm_files (x_state c2) !! i) as [g|] eqn:Eg; [|apply lookup_ge_None in Eg; lia].
    unfold id. cbn [x_state with_state]. set (c4 := with_state _ c3). unfold connected.
    change (snd (nm_remove_file name (x_state c2))) with (x_state c4).
    destruct (nm_get_server (x_state c4) (f_backup_index g)) as [b|] eqn:Eb; [|done].
    destruct (_ <? _)%Z; [done|]. autorewrite with run. rewrite Eb. by destruct (forward_command (Some b) payload c4).
  - destruct (fit 256 _) as [payload|]; [|done]. done.
Qed.

Lemma run_undo p json c : run (undo_steps p json) c = handle_client_undo p json c.
Proof.
  unfold undo_steps, handle_client_undo. destruct (json_get_string _ _ _) as [name|]; [|done]. autorewrite with run.
  unfold choose_for_undo. destruct (find_for _ _ _ _ _) as [[i f]|r]; [|done].
  destruct (select_storage_server i c) as [[[k ss]|] c1] eqn:Es; [|done]. apply select_server in Es.
  destruct (fit 512 _) as [payload|]; [|done]. autorewrite with run. rewrite Es.
  destruct (forward_command _ _ _) as [[response|] c2]; [|done]. by destruct (status_is_ok response).
Qed.

Lemma run_backup i j payload c : run (backup_steps i j payload) c = (tt, forward_to_backup i j payload c).
Proof.
  unfold backup_steps, forward_to_backup. autorewrite with run. destruct (connected (x_state c) j) as [b|] eqn:Eb; [|done].
  destruct (_ =? _)%Z; [done|]. autorewrite with run. rewrite (connected_get _ _ _ Eb). by destruct (forward_command _ _ _).
Qed.
#[export] Hint Rewrite run_backup : run.

Lemma run_primary p kind name tag failed k finish c :
  run (primary_steps p kind name tag failed k finish) c =
  match connected (x_state c) k with
  | None => bad ERR_UNAVAILABLE (cs "primary offline") c
  | Some primary =>
      match checkpoint_payload kind name tag (p_user p) with
      | inr r => (r, c)
      | inl payload =>
          match forward_command (Some primary) payload c with
          | (None, c) => bad ERR_UNAVAILABLE (cs "primary unreachable") c
          | (Some response, c) => if negb (status_is_ok response) then bad ERR_INTERNAL failed c else run (finish payload) c
          end
      end
  end.
Proof.
  unfold primary_steps. autorewrite with run. destruct (connected (x_state c) k) as [x|] eqn:Ex; [|done].
  destruct (checkpoint_payload _ _ _ _) as [payload|r]; [|done]. autorewrite with run. rewrite (connected_get _ _ _ Ex).
  destruct (forward_command _ _ _) as [[response|] c2]; [|done]. by destruct (negb _).
Qed.

Lemma run_checkpoint p json now c : run (checkpoint_steps p json now) c = handle_client_checkpoint p json now c.
Proof.
  unfold checkpoint_steps, handle_client_checkpoint. destruct (json_get_string json (cs "file") _) as [name|]; [|done].
  destruct (json_get_string json (cs "tag") _) as [tag|]; [|done]. destruct (negb _); [done|]. autorewrite with run.
  unfold find_checkpointed. destruct (find_for _ _ _ _ _) as [[i f]|r]; [|done]. destruct (file_find_checkpoint f tag); [done|].
  rewrite run_primary. destruct (connected _ _) as [x|]; [|done]. destruct (checkpoint_payload _ _ _ _) as [payload|r]; [|done].
  destruct (forward_command _ _ _) as [[response|] c2]; [|done]. destruct (negb _); [done|]. autorewrite with run.
  unfold enter_checkpoint. destruct (nm_find_file _ _) as [g|]; [|done]. destruct (file_find_checkpoint g tag); [done|].
  destruct (in_state (nm_file_add_checkpoint _ _ _ _) c2) as [[|[]] c3]; try done. by autorewrite with run.
Qed.

Lemma run_revert p json c : run (revert_steps p json) c = handle_client_revert p json c.
Proof.
  unfold revert_steps, handle_client_revert. destruct (json_get_string json (cs "file") _) as [name|]; [|done].
  destruct (json_get_string json (cs "tag") _) as [tag|]; [|done]. destruct (negb _); [done|]. autorewrite with run.
  unfold find_checkpointed. destruct (find_for _ _ _ _ _) as [[i f]|r]; [|done]. destruct (file_find_checkpoint f tag); [|done].
  rewrite run_primary. destruct (connected _ _) as [x|]; [|done]. destruct (checkpoint_payload _ _ _ _) as [payload|r]; [|done].
  destruct (forward_command _ _ _) as [[response|] c2]; [|done]. destruct (negb _); [done|]. by autorewrite with run.
Qed.

Definition slot_of (s : nm_state) (x : option (Z * storage_server)) : Prop :=
  match x with Some (k, ss) => nm_get_server s k = Some ss | None => True end.

Lemma indexed_slot s k : slot_of s (indexed_server s k).
Proof. unfold indexed_server. by destruct (nm_get_server s k) eqn:E. Qed.

Lemma run_try_backup (primary backup : option (Z * storage_server)) payload s c :
  slot_of s backup -> x_state c = s ->
  run (try_backup_steps (fst <$> primary) (fst <$> backup) payload) c =
  match backup with
  | Some (j, y) =>
      if bool_decide (fst <$> primary = Some j) || (ss_ctrl_fd y <? 0)%Z then (None, c) else forward_command (Some y) payload c
  | None => (None, c)
  end.
Proof.
  intros Hb <-. unfold try_backup_steps. destruct backup as [[j y]|]; [|done]. cbn [fmap option_fmap option_map fst slot_of] in *.
  autorewrite with run. unfold connected. rewrite Hb. destruct (ss_ctrl_fd y <? 0)%Z; [by rewrite orb_true_r|].
  rewrite orb_false_r. destruct (bool_decide _); [done|]. autorewrite with run. by rewrite Hb.
Qed.

Lemma run_forward_available (primary backup : option (Z * storage_server)) payload c :
  slot_of (x_state c) primary -> slot_of (x_state c) backup ->
  run (forward_available_steps (fst <$> primary) (fst <$> backup) payload) c = forward_to_available_server primary backup payload c.
Proof.
  intros Hp Hb. pose proof (fun c' => run_try_backup primary backup payload _ c' Hb) as H.
  unfold forward_available_steps, forward_to_available_server. destruct primary as [[i x]|]; [|by apply H].
  cbn [fmap option_fmap option_map fst slot_of] in *.
  autorewrite with run. unfold connected at 1. rewrite Hp. destruct (ss_ctrl_fd x <? 0)%Z; [by apply H|]. autorewrite with run. rewrite Hp.
  pose proof (forward_state (Some x) payload c) as E2. destruct (forward_command (Some x) payload c) as [[response|] c2]; [done|].
  by apply H.
Qed.

Lemma run_viewcheckpoint p json c : run (viewcheckpoint_steps p json) c = handle_client_viewcheckpoint p json c.
Proof.
  unfold viewcheckpoint_steps, handle_client_viewcheckpoint. destruct (json_get_string json (cs "file") _) as [name|]; [|done].
  destruct (json_get_string json (cs "tag") _) as [tag|]; [|done]. destruct (negb _); [done|]. autorewrite with run.
  unfold find_checkpointed. destruct (find_for _ _ _ _ _) as [[i f]|r]; [|done]. destruct (file_find_checkpoint f tag); [|done].
  autorewrite with run. unfold present. cbv zeta. pose proof (indexed_slot (x_state c) (f_ss_index f)) as Hp.
  pose proof (indexed_slot (x_state c) (f_backup_index f)) as Hb.
  set (primary := indexed_server _ (f_ss_index f)) in *. set (backup := indexed_server _ (f_backup_index f)) in *. clearbody primary backup.
  assert (forall T (x y : T), match fst <$> primary, fst <$> backup with None, None => x | _, _ => y end =
                              match primary, backup with None, None => x | _, _ => y end) as -> by (intros; by destruct primary, backup).
  assert (forall x y, run (match primary, backup with None, None => x | _, _ => y end) c =
                      match primary, backup with None, None => run x c | _, _ => run y c end) as -> by (intros; by destruct primary, backup).
  destruct (checkpoint_payload _ _ _ _) as [payload|r]; [|by destruct primary, backup]. autorewrite with run.
  rewrite run_forward_available by done. destruct (forward_to_available_server _ _ _ _) as [[response|] c2]; [|by destruct primary, backup].
  destruct (negb _); [by destruct primary, backup|]. destruct (json_get_string_alloc _ _) as [content|]; [|by destruct primary, backup].
  destruct (json_escape_dup content) as [escaped|]; [|by destruct primary, backup]. by destruct (fit _ _), primary, backup.
Qed.

Section Alone.
Context (ask : storage_server -> cstr -> option cstr) (shell : cstr -> option cstr).

Lemma run_exec p json now c : run (exec_steps ask shell p json now) c = handle_client_exec ask shell p json now c.
Proof.
  unfold exec_steps, handle_client_exec. destruct (json_get_string _ _ _) as [name|]; [|done]. autorewrite with run.
  destruct (run_obtain 2 name (p_user p) NM_PERM_READ (cs "READ") now c) as [E1 E2]. unfold obtain_ticket_for_file.
  destruct (run (obtain_steps 2 _ _ _ _ _) c) as [x c1], (obtain_loop 2 _ _ _ _ _ c) as [y c2]. cbn [fst snd] in *. subst c2.
  destruct x as [[token k]|rc], y as [[token' ss]|rc']; try done; cbn [with_server] in E2.
  - destruct E2 as [<- E2]. autorewrite with run. rewrite E2. unfold exec_reply. by repeat case_match.
  - by subst rc'.
Qed.

Lemma run_request stale p json now c :
  run (request_steps ask shell stale p json now) c = handle_client_message ask shell p json now c.
Proof.
  unfold request_steps, handle_client_message. cbv zeta.
  assert (forall (t : prog reply) x, run t c = x -> run (r ← t; Ret (r, true)) c = (fst x, true, snd x)) as Hgo.
  { intros t [r c'] E. rewrite run_bind, E. done. }
  destruct (json_get_string json (cs "type") 64) as [type|]; [|done].
  repeat match goal with |- context [if streq type ?x then _ else _] => destruct (streq type x) end;
    (apply Hgo; autorewrite with run) || idtac; try done;
    auto using run_create, run_delete, run_lookup, run_checkpoint, run_viewcheckpoint, run_revert, run_undo, run_exec.
Qed.
End Alone.

Lemma run_schedule file owner p b assign c :
  run (schedule file owner p b assign) c = schedule_replication file owner p b assign c.
Proof. unfold schedule. by autorewrite with run. Qed.
#[export] Hint Rewrite run_schedule : run.

Lemma run_try_assign name c : run (try_assign_steps name) c = (tt, try_assign_backup name c).
Proof.
  unfold try_assign_steps, try_assign_backup. destruct (bool_decide _); [done|]. autorewrite with run. unfold needs_backup.
  destruct (nm_find_file (x_state c) name) as [f|]; [|done]. cbn [mbind option_bind]. destruct (_ || _); [done|].
  autorewrite with run. by destruct (schedule_replication _ _ _ _ _ c).
Qed.
#[export] Hint Rewrite run_try_assign : run.

Lemma run_failure task b c : run (failure_steps task b) c = (tt, handle_replication_failure task b c).
Proof.
  unfold failure_steps. autorewrite with run. unfold handle_replication_failure, drop_failed.
  repeat case_match; simplify_eq; by autorewrite with run.
Qed.
#[export] Hint Rewrite run_failure : run.

Lemma run_replicate file owner p b now c :
  run (replicate_steps file owner p b now) c = replicate_file_to_backup file owner p b now c.
Proof.
  unfold replicate_steps, replicate_file_to_backup. destruct (_ || _); [done|]. autorewrite with run.
  destruct (nm_get_server (x_state c) p) as [primary|] eqn:Ep; cbn [server_is_available andb negb]; [|done].
  destruct (nm_get_server (x_state c) b) as [backup|] eqn:Eb; cbn [server_is_available]; [|by rewrite andb_false_r].
  rewrite negb_andb. destruct (_ || _); [done|]. autorewrite with run. rewrite (run_issue _ _ _ _ _ _ _ Ep).
  pose proof (issue_ticket_state primary p file owner (cs "READ") now c) as E1.
  destruct (issue_ticket _ _ _ _ _ _ _) as [[ticket|] c1]; cbn [snd] in E1; [|done]. autorewrite with run. unfold sync_command. rewrite E1, Ep.
  cbn [mbind option_bind]. destruct (sync_payload _ _ _ _) as [payload|]; [|done]. autorewrite with run. rewrite E1, Eb.
  by destruct (forward_command _ _ _) as [[response|] c2].
Qed.
#[export] Hint Rewrite run_replicate : run.

Lemma run_replication now c : run (replication_steps now) c = (tt, default c (replication_round now c)).
Proof.
  unfold replication_steps, replication_round. autorewrite with run. unfold take_task.
  destruct (x_queue c) as [|task queue]; [done|]. autorewrite with run. cbn [default]. set (c1 := with_queue queue c). clearbody c1.
  unfold owner_and_primary. destruct (nm_find_file (x_state c1) (k_file task)) as [f|] eqn:Ef; [|done].
  cbn [fmap option_fmap option_map]. cbv zeta. destruct (_ || _); [done|].
  assert (run (if k_assign task then Ret true else get Locked (fun c => still_wanted task (x_state c))) c1 =
          (k_assign task || (f_backup_index f =? k_backup task)%Z, c1)) as Hw.
  { destruct (k_assign task); [done|]. autorewrite with run. unfold still_wanted. by rewrite Ef. }
  rewrite run_bind, Hw. rewrite negb_orb. destruct (_ && _); [done|]. rewrite run_bind.
  assert (run (if k_assign task then get Locked (first_candidate (f_ss_index f))
               else Ret (Some (k_backup task))) c1 =
          (if k_assign task then Z.of_nat <$> candidate_loop (servers (x_state c1)) 0 (f_ss_index f) else Some (k_backup task), c1)) as ->
    by (by destruct (k_assign task)).
  set (t := if k_assign task then Z.of_nat <$> _ else Some _). clearbody t. destruct t as [target|]; [|done]. autorewrite with run.
  destruct (replicate_file_to_backup _ _ _ _ _ c1) as [ok c2]. destruct (negb ok); [by autorewrite with run|].
  autorewrite with run. unfold assign_copy. by repeat case_match.
Qed.

Lemma run_update garbage json c : run (update_steps garbage json) c = (tt, handle_ss_file_update garbage json c).
Proof.
  unfold update_steps, handle_ss_file_update. destruct (json_get_string _ _ _) as [name|]; [|done]. cbv zeta. autorewrite with run.
  unfold enter_update. destruct (nm_find_file (x_state c) name) as [f|]; [|done]. cbv zeta. set (c1 := save _).
  destruct (_ && _); autorewrite with run.
  - destruct (schedule_replication _ _ _ _ _ c1) as [[] c2]; [done|]. by autorewrite with run.
  - set (need_assign := _ && has_backup_candidate _ _). destruct need_assign; [|done]. autorewrite with run.
    by destruct (schedule_replication _ _ _ _ _ c1).
Qed.
#[export] Hint Rewrite run_update : run.

Lemma assign_if_state (f : file_entry) c :
  x_state (if (f_backup_index f <? 0)%Z then try_assign_backup (f_name f) c else c) = x_state c.
Proof. destruct (_ <? _)%Z; [|done]. apply (qu_state _ _ (try_assign_queues (f_name f) c)). Qed.

Lemma run_assign_missing n i c :
  length (nm_files (x_state c)) <= n + i ->
  run (assign_missing_steps n i) c =
  (tt, foldl (fun c f => if (f_backup_index f <? 0)%Z then try_assign_backup (f_name f) c else c) c (drop i (nm_files (x_state c)))).
Proof.
  revert i c. induction n as [|n IH]; intros i c Hn; cbn [assign_missing_steps]; [by rewrite drop_ge by lia|].
  autorewrite with run. destruct (nm_files (x_state c) !! i) as [f|] eqn:Ef.
  - rewrite (drop_S _ f) by done. cbn [foldl]. rewrite run_bind.
    assert (run (if (f_backup_index f <? 0)%Z then try_assign_steps (f_name f) else Ret tt) c =
            (tt, if (f_backup_index f <? 0)%Z then try_assign_backup (f_name f) c else c)) as -> by (destruct (_ <? _)%Z; by autorewrite with run).
    pose proof (assign_if_state f c) as E. set (c1 := if (_ <? _)%Z then _ else _) in *. rewrite IH by (rewrite E; lia). by rewrite E.
  - rewrite drop_ge by (by apply lookup_ge_None). done.
Qed.

Lemma run_register p json c :
  ctx_ok c -> run (register_steps p json) c = let '(r, p, c) := handle_ss_register p json c in ((r, p), c).
Proof.
  intros Hc. unfold register_steps, handle_ss_register. destruct (json_get_string json (cs "ssId") 64) as [id|]; [|done].
  destruct (json_get_string json (cs "host") 64) as [host|]; [|done]. destruct (json_get_string json (cs "ctrlPort") 16) as [cp|]; [|done].
  destruct (json_get_string json (cs "dataPort") 16) as [dp|]; [|done]. autorewrite with run.
  assert (length (nm_files (x_state (snd (in_state (nm_register_server id host cp dp (p_fd p)) c)))) <= NM_MAX_FILES) as Hl.
  { unfold in_state, nm_register_server. pose proof (nm_bounded _ (proj1 Hc)). by repeat case_match; simplify_eq. }
  destruct (in_state _ c) as [[idx|] c1]; cbn [snd] in Hl; [|done]. autorewrite with run.
  rewrite run_assign_missing by lia. by rewrite drop_0.
Qed.

Lemma run_hello p json now c :
  json_get_string json (cs "type") 64 = Some (cs "CLIENT_HELLO") ->
  run (hello_steps p json now) c = let '(r, p, c) := handle_handshake p json now c in ((r, p), c).
Proof.
  intros Ht. unfold hello_steps, handle_handshake. rewrite Ht. cbn [streq].
  replace (streq (cs "CLIENT_HELLO") (cs "SS_REGISTER")) with false by done.
  replace (streq (cs "CLIENT_HELLO") (cs "CLIENT_HELLO")) with true by done.
  destruct (json_get_string json (cs "user") NM_MAX_USER) as [u|]; [|done]. autorewrite with run.
  destruct (username_in_use u c); [done|]. autorewrite with run. destruct (active_user_add u c) as [[|e] c1]; [|done].
  autorewrite with run. by destruct (in_state _ c1).
Qed.

Lemma run_handshake p json now c :
  ctx_ok c -> run (handshake_steps p json now) c = let '(r, p, c) := handle_handshake p json now c in ((r, p), c).
Proof.
  intros Hc. unfold handshake_steps. destruct (json_get_string json (cs "type") 64) as [type|] eqn:Et; [|unfold handle_handshake; by rewrite Et].
  destruct (streq type (cs "SS_REGISTER")) eqn:E1; [unfold handle_handshake; rewrite Et, E1; by apply run_register|].
  destruct (streq type (cs "CLIENT_HELLO")) eqn:E2; [|unfold handle_handshake; by rewrite Et, E1, E2].
  apply bool_decide_eq_true in E2 as ->. by apply run_hello.
Qed.

Lemma run_dispatch ask shell garbage stale p json now c :
  ctx_ok c -> run (dispatch_steps ask shell garbage stale p json now) c = dispatch_message ask shell garbage p json now c.
Proof.
  intros Hc. unfold dispatch_steps, dispatch_message. destruct (p_type p); [done| | |]; autorewrite with run.
  - rewrite run_handshake by done. by destruct (handle_handshake p json now c) as [[r p'] c'].
  - rewrite run_request. by destruct (handle_client_message ask shell p json now c) as [[r go] c'].
  - unfold handle_server_message. destruct (json_get_string _ _ _) as [type|]; [|done]. destruct (streq _ _); [|done]. by autorewrite with run.
Qed.

Lemma run_assign_pending pending c : run (assign_pending pending) c = (tt, foldl (fun c name => try_assign_backup name c) c pending).
Proof. revert c. induction pending as [|x l IH]; intros c; [done|]. cbn [assign_pending foldl]. autorewrite with run. apply IH. Qed.

Lemma run_disconnect p c : run (disconnect_steps p) c = (tt, handle_server_disconnect p c).
Proof.
  unfold disconnect_steps, handle_server_disconnect. destruct (p_type p); try done. destruct (_ <=? _)%Z; [|done]. autorewrite with run.
  unfold take_server_down, handle_server_down. destruct (failover_loop _ _ _ _ _ _) as [[s d] pending]. apply run_assign_pending.
Qed.

(** The handlers are their programs run without interruption.  Whatever the message, running the
    steps of a connection's thread, of the replication worker or of the end of a connection with
    nobody in between gives the answer, the state of the connection and all tables that the
    handler, taken as one function, gives; so what holds of the handlers is what holds of threads
    that do not meet. *)
Theorem threads_refine_handlers ask shell garbage stale p json now c (Hc : ctx_ok c) :
  run (dispatch_steps ask shell garbage stale p json now) c = dispatch_message ask shell garbage p json now c /\
  run (disconnect_steps p) c = (tt, handle_server_disconnect p c) /\
  run (replication_steps now) c = (tt, default c (replication_round now c)).
Proof. by rewrite run_dispatch, run_disconnect, run_replication. Qed.

(** A client reads a document; the storage server takes the ticket. *)
Lemma threads_refine_handlers_witness :
  let json := js "{'type':'READ','file':'plan'}" in
  let c := demo_ctx [] [Some (js "{'status':'OK'}")] in
  run (dispatch_steps (fun _ _ => None) (fun _ => None) [] 0 demo_ann json 100) c =
    dispatch_message (fun _ _ => None) (fun _ => None) [] demo_ann json 100 c /\
  length (x_tickets (snd (run (dispatch_steps (fun _ _ => None) (fun _ => None) [] 0 demo_ann json 100) c))) = 1.
Proof.
  cbv zeta. split; [|vm_compute; reflexivity].
  exact (proj1 (threads_refine_handlers (fun _ _ => None) (fun _ => None) [] 0 demo_ann (js "{'type':'READ','file':'plan'}") 100
    (demo_ctx [] [Some (js "{'status':'OK'}")]) (demo_ctx_ok [] _))).
Defined.
