(* ===== verification/NmInterleave.v ===== *)
(** * [nm/nm_main.c]: handlers that run at the same time

    Between two steps of a handler the other threads may do anything that leaves the tables well
    formed.  What one request may do is stated for its steps among any others; what the
    system as a whole keeps is stated for a machine that runs all threads step by step. *)

From stdpp Require Import relations.
From S2P Require Import Prelude Keyed Cstr Json Proto Fs NmState NmPersist NmServer NmFrame NmRequests NmReplica NmSystem NmThreads.

(** ** The steps of one program among others *)

(** The contexts before and after the steps a program has made so far; in between the context
    changes as it likes. *)
Inductive trace {A} : prog A -> list (nm_context * nm_context) -> Prop :=
| tr_stop t : trace t []
| tr_step {B : Set} how (f : nm_context -> B * nm_context) k c l :
    trace (k (fst (f c))) l -> trace (Atomic how f k) ((c, snd (f c)) :: l).

Section Obeys.
Context (R : list nm_context -> nm_context -> nm_context -> Prop).

(** Every step is as [R] allows it after the contexts [h] the program has seen. *)
Fixpoint obeys {A} (h : list nm_context) (t : prog A) : Prop :=
  match t with
  | Ret _ => True
  | Atomic _ f k => forall c, ctx_ok c -> R (c :: h) c (snd (f c)) /\ obeys (c :: h) (k (fst (f c)))
  end.

Lemma obeys_trace {A} h (t : prog A) l i c c' :
  obeys h t -> trace t l -> Forall (fun s => ctx_ok (fst s)) l -> l !! i = Some (c, c') ->
  R (reverse (take (S i) l.*1) ++ h) c c'.
Proof using.
  intros Ht Hl. revert h i Ht. induction Hl as [t|B how f k d l Hl IH]; intros h i Ht Hok Hi; [done|].
  apply Forall_cons_1 in Hok as [Hd Hok]. destruct (Ht d Hd) as [Hr Hk]. destruct i as [|i]; [by simplify_eq/=|].
  specialize (IH (d :: h) i Hk Hok Hi). cbn [fmap list_fmap fst] in *. change (take (S (S i)) (d :: l.*1)) with (d :: take (S i) l.*1).
  by rewrite reverse_cons, <- app_assoc.
Qed.
End Obeys.

(** ** What one request may do *)

Definition writable (u name : cstr) (c : nm_context) : Prop :=
  exists f, docs (x_state c) !! name = Some f /\ may_write f u.

(** The changes that are made when the right has been checked some steps before. *)
Inductive belated (ty name : cstr) (m : gmap cstr file_entry) : gmap cstr file_entry -> Prop :=
| be_delete : ty = cs "DELETE" -> belated ty name m (delete name m)
| be_checkpoint f k : ty = cs "CHECKPOINT" -> m !! name = Some f ->
    belated ty name m (<[name := with_checkpoints (f_checkpoints f ++ [k]) f]> m).

Record step_ok (ty u name : cstr) (h : list nm_context) (c c' : nm_context) : Prop := {
  sk_ok : ctx_ok c';
  sk_active : same_active c c';
  sk_frame : framed name (x_state c) (x_state c');
  sk_docs : authorised ty u name (docs (x_state c)) (docs (x_state c')) \/
            Exists (writable u name) h /\ belated ty name (docs (x_state c)) (docs (x_state c'));
  sk_sent : x_forwarded c' = x_forwarded c \/ Exists (fun c => commanded ty u name (docs (x_state c))) h;
}.

Section Request.
Context (ty u name : cstr).

Notation seen := (Exists (fun c => commanded ty u name (docs (x_state c)))).
Notation seen_write := (Exists (writable u name)).

(** The program keeps to [step_ok], and hands on what it has seen. *)
Fixpoint serves_to {A} (Q : list nm_context -> A -> Prop) (h : list nm_context) (t : prog A) : Prop :=
  match t with
  | Ret a => Q h a
  | Atomic _ f k => forall c, ctx_ok c -> step_ok ty u name (c :: h) c (snd (f c)) /\ serves_to Q (c :: h) (k (fst (f c)))
  end.
Definition serves_with {A} (P : A -> Prop) (h : list nm_context) (t : prog A) : Prop :=
  serves_to (fun h' a => h ⊆ h' /\ P a) h t.
Notation serves := (serves_with (fun _ => True)).

Lemma serves_to_weaken {A} (P Q : list nm_context -> A -> Prop) h t :
  (forall h' a, P h' a -> Q h' a) -> serves_to P h t -> serves_to Q h t.
Proof using.
  intros HPQ. revert h. induction t as [a|how B f k IH]; intros h Ht; cbn in *; [auto|].
  intros c Hc. destruct (Ht c Hc) as [Hs Hk]. auto.
Qed.

Lemma serves_obeys {A} Q h (t : prog A) : serves_to Q h t -> obeys (step_ok ty u name) h t.
Proof using.
  revert h. induction t as [a|how B f k IH]; intros h Ht; [done|]. intros c Hc. destruct (Ht c Hc) as [Hs Hk]. auto.
Qed.

Lemma serves_ret {A} (P : A -> Prop) h a : P a -> serves_with P h (Ret a).
Proof using. by split. Qed.

Lemma serves_after {A} (P : A -> Prop) h h' t : h ⊆ h' -> serves_with P h' t -> serves_to (fun h' a => h ⊆ h' /\ P a) h' t.
Proof using. intros Hh Ht. eapply serves_to_weaken; [|exact Ht]. intros h2 a [H2 Ha]. split; [|done]. intros x Hx. by apply H2, Hh. Qed.

Lemma serves_bind {A B} (P : A -> Prop) (Q : B -> Prop) h t k :
  serves_with P h t -> (forall h' a, h ⊆ h' -> P a -> serves_with Q h' (k a)) -> serves_with Q h (t ≫= k).
Proof using.
  unfold serves_with at 1 3. intros Ht Hk.
  assert (forall h0, serves_to (fun h' a => h ⊆ h' /\ P a) h0 t -> serves_to (fun h' b => h ⊆ h' /\ Q b) h0 (t ≫= k)) as H; [|by apply H].
  clear Ht. unfold mbind, prog_mbind. induction t as [a|how B' f g IH]; intros h0 Ht; cbn [prog_bind serves_to] in *.
  - destruct Ht as [Hh Ha]. apply serves_after; auto.
  - intros c Hc. destruct (Ht c Hc) as [Hs Hg]. auto.
Qed.

Lemma seen_subset h h' : h ⊆ h' -> seen h -> seen h'.
Proof using. intros H. rewrite !Exists_exists. intros (c & Hc & ?). exists c. auto. Qed.
Lemma seen_write_subset h h' : h ⊆ h' -> seen_write h -> seen_write h'.
Proof using. intros H. rewrite !Exists_exists. intros (c & Hc & ?). exists c. auto. Qed.
Lemma seen_write_commanded h : needs ty = Right NM_PERM_WRITE -> seen_write h -> seen h.
Proof using. intros E H. apply (Exists_impl _ _ _ H). intros c (f & Hf & Hw). unfold commanded. rewrite E. exists f. auto. Qed.

Lemma serves_atomic {A : Set} h how (f : nm_context -> A * nm_context) :
  (forall c, ctx_ok c -> step_ok ty u name (c :: h) c (snd (f c))) -> serves h (atomic how f).
Proof using. intros H c Hc. split; [by apply H|]. split; [|done]. intros x Hx. by right. Qed.

(** What the step gives may depend on what it has seen. *)
Lemma serves_atomic_bind {A : Set} {B} (Q : B -> Prop) h how (f : nm_context -> A * nm_context) (k : A -> prog B) :
  (forall c, ctx_ok c -> step_ok ty u name (c :: h) c (snd (f c)) /\ serves_with Q (c :: h) (k (fst (f c)))) ->
  serves_with Q h (atomic how f ≫= k).
Proof using.
  intros H c Hc. destruct (H c Hc) as [Hs Hk]. split; [done|]. apply serves_after; [|exact Hk]. intros x Hx. by right.
Qed.

Lemma step_quiet h c c' :
  ctx_ok c -> calm name (x_state c) (x_state c') -> x_forwarded c' = x_forwarded c -> same_active c c' -> step_ok ty u name h c c'.
Proof using.
  intros Hc [Q F] E Ha. split; [by eapply ctx_ok_quiet|done|done| |by left]. left. rewrite (qc_docs _ _ Q). constructor.
Qed.
Lemma step_refl h c : ctx_ok c -> step_ok ty u name h c c.
Proof using. intros Hc. by apply step_quiet. Qed.
Lemma step_outcome h c c' : outcome ty u name c c' -> same_active c c' -> step_ok ty u name (c :: h) c c'.
Proof using. intros [H1 H2 Hf H3] Ha. split; [done|done|done|by left|]. destruct H3; [by left|right; by left]. Qed.

Lemma serves_get {A : Set} {B} (Q : B -> Prop) h how (f : nm_context -> A) (k : A -> prog B) :
  (forall c, ctx_ok c -> serves_with Q (c :: h) (k (f c))) -> serves_with Q h (get how f ≫= k).
Proof using. intros H. apply serves_atomic_bind. intros c Hc. split; [by apply step_refl|by apply H]. Qed.

(** Steps nobody sees. *)
Lemma serves_act {B} (Q : B -> Prop) h how (f : nm_context -> nm_context) (k : unit -> prog B) :
  (forall c, calm name (x_state c) (x_state (f c)) /\ x_forwarded (f c) = x_forwarded c /\ same_active c (f c)) ->
  (forall c, serves_with Q (c :: h) (k tt)) -> serves_with Q h (act how f ≫= k).
Proof using.
  intros Hf H. apply serves_atomic_bind. intros c Hc. destruct (Hf c) as (? & ? & ?). split; [by apply step_quiet|apply H].
Qed.

Lemma serves_forward h server payload : seen h -> serves h (forward server payload).
Proof using.
  intros Hs. apply serves_atomic_bind. intros c Hc. unfold send_command. destruct (nm_get_server _ _) as [x|]; cbn [fst snd].
  - split.
    + split; [done|done|done|left; by constructor|right; by right].
    + apply serves_atomic. intros d Hd. by apply step_quiet.
  - split; [by apply step_refl|by apply serves_ret].
Qed.

(** *** Tickets *)

Lemma step_silent h c c' : ctx_ok c -> silent name c c' -> same_active c c' -> step_ok ty u name h c c'.
Proof using. intros Hc [Q E] Ha. by apply step_quiet. Qed.

Lemma serves_mark_down {B} (Q : B -> Prop) h how k (t : unit -> prog B) :
  (forall c, serves_with Q (c :: h) (t tt)) -> serves_with Q h (act how (mark_server_down k) ≫= t).
Proof using. intros H. apply serves_act; [|done]. intros c. split_and!; [apply calm_mark_down|done|done]. Qed.

(** A command goes out, and the program goes on with the answer. *)
Lemma serves_forward_bind {B} (Q : B -> Prop) h server payload (k : option cstr -> prog B) :
  seen h -> (forall h' a, h ⊆ h' -> seen h' -> serves_with Q h' (k a)) -> serves_with Q h (forward server payload ≫= k).
Proof using.
  intros Hs Hk. apply (serves_bind (fun _ => True)); [by apply serves_forward|]. intros h' a Hh _. apply Hk; [done|by eapply seen_subset].
Qed.

Lemma serves_issue h k user op now : seen h -> serves h (issue_ticket_steps k name user op now).
Proof using.
  intros Hs. unfold issue_ticket_steps. apply serves_act; [done|]. intros c. apply serves_atomic_bind. intros c1 Hc1. cbn [fst snd randutil_token].
  split; [by apply step_quiet|]. cbv zeta. destruct (ticket_payload _) as [payload|]; [|by apply serves_ret].
  apply serves_forward_bind; [by do 2 right|]. intros h' [response|] Hh' _; [|by apply serves_ret].
  destruct (status_is_ok response); [|by apply serves_ret]. apply serves_act; [done|]. intros c2. by apply serves_ret.
Qed.

Lemma choose_spec perm c :
  ctx_ok c -> needs ty = Right perm ->
  silent name c (snd (choose_server name u perm c)) /\ same_active c (snd (choose_server name u perm c)) /\
  (forall k, fst (choose_server name u perm c) = inl k -> commanded ty u name (docs (x_state c))).
Proof using.
  intros Hc Hp. unfold choose_server. destruct (find_file_index (x_state c) name) as [i|] eqn:Ei; [|done].
  destruct (nm_files (x_state c) !! i) as [f|] eqn:Ef; [|done]. destruct (file_has_access f u perm) eqn:Ea; cbn [negb]; [|done].
  pose proof (commanded_access ty u name _ i f perm (proj1 Hc) Ei Ef Ea Hp) as Hcmd.
  pose proof (silent_select name i c (slot_found _ _ _ (proj1 Hc) Ei)) as Hs.
  pose proof (select_active i c) as Ha. by destruct (select_storage_server i c) as [[[k ss]|] c1].
Qed.

Context (Hname : length name < NM_MAX_NAME).

Lemma serves_obtain h n perm op now :
  needs ty = Right perm -> serves h (obtain_steps n name u perm op now).
Proof using Hname.
  intros Hp. revert h. induction n as [|n IH]; intros h; cbn [obtain_steps]; [by apply serves_ret|].
  apply serves_atomic_bind. intros c Hc. destruct (choose_spec perm c Hc Hp) as (Hs & Ha & Hcmd).
  split; [by apply step_silent|]. destruct (fst (choose_server _ _ _ _)) as [k|rc]; [|by apply serves_ret].
  apply (serves_bind (fun _ => True)); [apply serves_issue; left; by eapply Hcmd|]. intros h' [token|] Hh' _.
  - apply serves_act; [|intros; by apply serves_ret]. intros d. split_and!; [by apply calm_cache_put|done|done].
  - apply serves_mark_down. auto.
Qed.

(** *** Creating *)

Lemma place_spec c :
  ctx_ok c -> u <> [] -> ty = cs "CREATE" ->
  silent name c (snd (place_document name c)) /\ same_active c (snd (place_document name c)) /\
  (forall k, fst (place_document name c) = inl k -> commanded ty u name (docs (x_state c))).
Proof using.
  intros Hc Hu Ety. unfold place_document. destruct (nm_find_file _ _) eqn:Ef; [done|].
  pose proof (missing_docs _ _ (proj1 Hc) Ef) as Hmiss. assert (commanded ty u name (docs (x_state c))) by (by rewrite Ety).
  pose proof (calm_pick name (x_state c)) as Q. unfold in_state. destruct (nm_pick_server (x_state c)) as [[k|] s]; cbn [snd] in Q; [|by split].
  by destruct (connected _ _).
Qed.

Lemma serves_create_backup n i k payload h :
  seen h -> serves_with (fun b => (b < 0)%Z \/ b <> k) h (create_backup_steps n i k payload).
Proof using.
  revert i h. induction n as [|n IH]; intros i h Hs; cbn [create_backup_steps]; [apply serves_ret; by left|].
  destruct (Z.eqb_spec (Z.of_nat i) k) as [|Hne]; [by apply IH|]. apply serves_get. intros c Hc.
  destruct (negb _); [apply IH; by right|]. apply serves_forward_bind; [by right|]. intros h' [response|] Hh' Hs'; [|by apply IH].
  destruct (bool_decide _); [|by apply IH]. apply serves_ret. by right.
Qed.

Lemma enter_spec k b now h c :
  ty = cs "CREATE" -> ctx_ok c -> length u < NM_MAX_USER -> u <> [] -> (b < 0)%Z \/ b <> k -> step_ok ty u name h c (snd (enter_document name u k b now c)).
Proof using Hname.
  intros Ety Hc Hu Hne Hb. pose proof (add_outcome name u k b now (x_state c) Hc Hname Hu Hb) as Ha.
  pose proof (framed_add name u k b now (x_state c) Hname) as F1. unfold enter_document, in_state.
  destruct (nm_add_file _ _ _ _ _ _) as [[|e] s1]; [|destruct Ha as [_ ->]; by apply step_quiet].
  destruct Ha as [Hok1 (Hm & f & Ho & Hal & Hck & Hd & Hg)]. cbn [x_state with_state snd] in *.
  specialize (Hg (Z.lor NM_PERM_WRITE NM_PERM_READ)). destruct (nm_grant_access _ _ _ s1) as [g s2]. cbn [snd] in Hg. subst s2.
  destruct (calm_cache_put name k now s1 Hname) as [Q F]. split; [|done| | |by left].
  - exact (ctx_ok_quiet (with_state s1 c) (with_state _ c) Hok1 Q).
  - by etransitivity.
  - left. cbn. rewrite (qc_docs _ _ Q), Hd. by constructor.
Qed.
End Request.

Notation serves ty u name := (serves_with ty u name (fun _ => True)).

(** *** The handlers *)

Section Requests.
Context (p : peer) (json : cstr) (now : Z) (Hu : length (p_user p) < NM_MAX_USER).
Notation serves ty := (serves ty (p_user p) (req_file json) []).

Lemma serves_refuse ty h code msg : serves_with ty (p_user p) (req_file json) (fun _ => True) h (refuse code msg).
Proof using. by apply serves_ret. Qed.

(** A handler with one critical section. *)
Lemma serves_handler ty how (f : nm_context -> reply * nm_context) :
  (forall c, ctx_ok c -> outcome ty (p_user p) (req_file json) c (snd (f c))) -> (forall c, same_active c (snd (f c))) -> serves ty (atomic how f).
Proof using. intros Ho Ha. apply serves_atomic. intros c Hc. apply step_outcome; [by apply Ho|apply Ha]. Qed.

Lemma serves_lookup ty op perm sentence :
  needs ty = Right perm -> serves ty (lookup_steps p json op perm sentence now).
Proof using.
  intros Hp. unfold lookup_steps. pose proof (req_file_length json) as Hn.
  destruct (json_get_string json (cs "file") NM_MAX_NAME) as [name|] eqn:E; [|apply serves_refuse]. apply get_file in E as <-.
  apply (serves_bind _ _ _ (fun _ => True)); [by apply serves_obtain|]. intros h [[token k]|rc] Hh _; [|by apply serves_ret].
  apply serves_get. intros c Hc. by destruct (nm_get_server _ _); apply serves_ret.
Qed.

Lemma serves_exec ask shell : serves (cs "EXEC") (exec_steps ask shell p json now).
Proof using.
  unfold exec_steps. pose proof (req_file_length json) as Hn.
  destruct (json_get_string json (cs "file") NM_MAX_NAME) as [name|] eqn:E; [|apply serves_refuse]. apply get_file in E as <-.
  apply (serves_bind _ _ _ (fun _ => True)); [by apply serves_obtain|]. intros h [[token k]|rc] Hh _; [|by apply serves_ret].
  apply serves_get. intros c Hc. by destruct (nm_get_server _ _); apply serves_ret.
Qed.

Lemma serves_create : serves (cs "CREATE") (create_steps p json now).
Proof using Hu.
  unfold create_steps. pose proof (req_file_length json) as Hn.
  destruct (json_get_string json (cs "file") NM_MAX_NAME) as [name|] eqn:E; [|apply serves_refuse]. apply get_file in E as <-.
  destruct (negb _); [apply serves_refuse|]. destruct (bool_decide_reflect (p_user p = [])) as [|Hne]; [apply serves_refuse|].
  apply serves_atomic_bind. intros c Hc. destruct (place_spec (cs "CREATE") (p_user p) (req_file json) c Hc Hne eq_refl) as (Hs & Ha & Hcmd).
  split; [by apply step_silent|]. destruct (fst (place_document _ _)) as [k|r]; [|by apply serves_ret]. specialize (Hcmd k eq_refl).
  destruct (fit 512 _) as [payload|]; [|apply serves_refuse]. apply serves_forward_bind; [by left|]. intros h [response|] Hh Hs'.
  - destruct (negb _); [apply serves_refuse|]. apply serves_get. intros d Hd.
    eapply serves_bind; [apply serves_create_backup; by right|]. intros h' b Hh' Hb. apply serves_atomic. intros e He. by apply enter_spec.
  - apply serves_mark_down. intros d. apply serves_refuse.
Qed.

Lemma writable_for s name i f perm denied :
  tables_ok s -> find_for p name perm denied s = inl (i, f) -> perm = NM_PERM_WRITE ->
  exists g, docs s !! name = Some g /\ may_write g (p_user p).
Proof using.
  intros Hs (Hi & Hf & Ha)%find_for_inl ->. exists (erase f). split; [|exact Ha]. by eapply (find_docs s name i f (proj1 Hs)).
Qed.

Lemma choose_delete_spec name c :
  ctx_ok c ->
  silent name c (snd (choose_for_delete p name c)) /\ same_active c (snd (choose_for_delete p name c)) /\
  (forall x, fst (choose_for_delete p name c) = inl x -> writable (p_user p) name c).
Proof using.
  intros Hc. unfold choose_for_delete. destruct (find_for _ _ _ _ _) as [[i f]|r] eqn:Ef; [|done].
  pose proof (writable_for _ _ _ _ _ _ Hc Ef eq_refl) as Hw. pose proof (find_for_inl _ _ _ _ _ _ _ Ef) as (Hi & _).
  pose proof (slot_found _ _ _ (proj1 Hc) Hi) as L1. pose proof (slot_select _ _ _ L1) as L2.
  pose proof (silent_select name i c L1) as S1. pose proof (select_active i c) as A1.
  destruct (select_storage_server i c) as [[[k ss]|] c1]; [|done]. cbn [snd] in *.
  pose proof (silent_select name i c1 L2) as S2. pose proof (select_active i c1) as A2.
  destruct (select_storage_server i c1) as [[[k2 ss2]|] c2]; cbn [fst snd] in *;
    (split_and!; [by eapply silent_trans|unfold same_active in *; congruence|done]).
Qed.

Lemma remove_step u name h c :
  ctx_ok c -> Exists (writable u name) h -> step_ok (cs "DELETE") u name h c (with_state (snd (nm_remove_file name (x_state c))) c).
Proof using.
  intros Hc Hw. destruct (remove_outcome name _ Hc) as [Hok Hd]. split; [exact Hok|done|apply framed_remove| |by left]. right. split; [done|].
  cbn. rewrite Hd. by constructor.
Qed.

Lemma serves_delete stale : serves (cs "DELETE") (delete_steps stale p json).
Proof using.
  unfold delete_steps. destruct (json_get_string json (cs "file") NM_MAX_NAME) as [name|] eqn:E; [|apply serves_refuse]. apply get_file in E as <-.
  apply serves_atomic_bind. intros c Hc. destruct (choose_delete_spec (req_file json) c Hc) as (Hs & Ha & Hw). split; [by apply step_silent|].
  destruct (fst (choose_for_delete _ _ _)) as [[[i k] found]|r]; [|by apply serves_ret]. specialize (Hw _ eq_refl).
  destruct (fit 256 _) as [payload|]; [|apply serves_refuse].
  assert (Exists (writable (p_user p) (req_file json)) [c]) as Hw' by (by left). clear Hw.
  pose proof (seen_write_commanded (cs "DELETE") _ _ _ eq_refl Hw') as Hcmd.
  apply (serves_bind _ _ _ (fun _ => True)). { destruct found; [by apply serves_forward|by apply serves_ret]. }
  intros h [response|] Hh _; [|apply serves_mark_down; intros; apply serves_refuse].
  apply (seen_write_subset _ _ _ _ Hh) in Hw'. apply (seen_subset _ _ _ _ _ Hh) in Hcmd. clear Hh.
  destruct (negb _); [apply serves_refuse|]. apply serves_get. intros d Hd. apply serves_atomic_bind. intros e He.
  split; [apply remove_step; [done|by do 2 right]|]. apply serves_act; [done|]. intros e'. apply serves_get. intros g Hg.
  apply (serves_bind _ _ _ (fun _ => True)). { case_match; [by apply serves_forward; do 4 right|by apply serves_ret]. }
  intros h' _ _ _. apply serves_act; [done|]. intros c'. by apply serves_ret.
Qed.

Lemma choose_undo_spec name c :
  ctx_ok c ->
  silent name c (snd (choose_for_undo p name c)) /\ same_active c (snd (choose_for_undo p name c)) /\
  (forall x, fst (choose_for_undo p name c) = inl x -> commanded (cs "UNDO") (p_user p) name (docs (x_state c))).
Proof using.
  intros Hc. unfold choose_for_undo. destruct (find_for _ _ _ _ _) as [[i f]|r] eqn:Ef; [|done].
  pose proof (commanded_for p c Hc (cs "UNDO") _ _ _ _ _ Ef eq_refl) as [Hcmd Hslot]. pose proof (silent_select name i c Hslot) as S1. pose proof (select_active i c) as A1.
  by destruct (select_storage_server i c) as [[[k ss]|] c1].
Qed.

Lemma serves_undo : serves (cs "UNDO") (undo_steps p json).
Proof using.
  unfold undo_steps. destruct (json_get_string json (cs "file") NM_MAX_NAME) as [name|] eqn:E; [|apply serves_refuse]. apply get_file in E as <-.
  apply serves_atomic_bind. intros c Hc. destruct (choose_undo_spec (req_file json) c Hc) as (Hs & Ha & Hw). split; [by apply step_silent|].
  destruct (fst (choose_for_undo _ _ _)) as [k|r]; [|by apply serves_ret]. specialize (Hw _ eq_refl).
  destruct (fit 512 _) as [payload|]; [|apply serves_refuse]. apply serves_forward_bind; [by left|]. intros h [response|] _ _.
  - by destruct (status_is_ok response); apply serves_ret.
  - apply serves_mark_down. intros. apply serves_refuse.
Qed.

Lemma find_checkpointed_inl name tag perm denied fresh s x :
  find_checkpointed p name tag perm denied fresh s = inl x -> exists i f, find_for p name perm denied s = inl (i, f).
Proof using. unfold find_checkpointed. destruct (find_for _ _ _ _ _) as [[i f]|r]; [|done]. eauto. Qed.

Lemma serves_backup ty h i j payload :
  Exists (fun c => commanded ty (p_user p) (req_file json) (docs (x_state c))) h ->
  serves_with ty (p_user p) (req_file json) (fun _ => True) h (backup_steps i j payload).
Proof using.
  intros Hs. apply serves_get. intros c Hc. destruct (connected _ _); [|by apply serves_ret]. destruct (_ =? _)%Z; [by apply serves_ret|].
  apply serves_forward_bind; [by right|]. intros. by apply serves_ret.
Qed.

Lemma serves_primary ty h kind tag failed k finish :
  Exists (fun c => commanded ty (p_user p) (req_file json) (docs (x_state c))) h ->
  (forall h' payload, h ⊆ h' -> serves_with ty (p_user p) (req_file json) (fun _ => True) h' (finish payload)) ->
  serves_with ty (p_user p) (req_file json) (fun _ => True) h (primary_steps p kind (req_file json) tag failed k finish).
Proof using.
  intros Hs Hf. apply serves_get. intros c Hc. destruct (connected _ _); [|by apply serves_refuse].
  destruct (checkpoint_payload _ _ _ _) as [payload|r]; [|by apply serves_ret].
  apply serves_forward_bind; [by right|]. intros h' [response|] Hh' _; [|apply serves_refuse]. destruct (negb _); [apply serves_refuse|].
  apply Hf. intros x Hx. apply Hh'. by right.
Qed.

Lemma enter_checkpoint_step name tag h c :
  ctx_ok c -> Exists (writable (p_user p) name) h -> step_ok (cs "CHECKPOINT") (p_user p) name h c (snd (enter_checkpoint name tag (p_user p) now c)).
Proof using.
  intros Hc Hw. unfold enter_checkpoint. destruct (nm_find_file (x_state c) name) as [f|] eqn:Ef; [|by apply step_refl].
  destruct (file_find_checkpoint f tag); [by apply step_refl|].
  pose proof (checkpoint_outcome name tag (p_user p) now f (x_state c) Hc Ef) as Hk. pose proof (found_docs _ _ _ (proj1 Hc) Ef) as Hdf.
  pose proof (framed_checkpoint name tag (p_user p) now (x_state c)) as F.
  unfold in_state. destruct (nm_file_add_checkpoint _ _ _ _ _) as [res s]. destruct Hk as [Hok Hd].
  assert (step_ok (cs "CHECKPOINT") (p_user p) name h c (with_state s c)) as Hs.
  { split; [exact Hok|done|exact F| |by left]. destruct Hd as [Hd|[k Hd]]; cbn [x_state with_state].
    - left. rewrite Hd. constructor.
    - right. split; [done|]. rewrite Hd. exact (be_checkpoint _ name _ _ k eq_refl Hdf). }
  destruct res as [|[]]; try exact Hs. cbn [snd]. by destruct Hs.
Qed.

Lemma serves_checkpoint : serves (cs "CHECKPOINT") (checkpoint_steps p json now).
Proof using.
  unfold checkpoint_steps. destruct (json_get_string json (cs "file") NM_MAX_NAME) as [name|] eqn:E; [|apply serves_refuse]. apply get_file in E as <-.
  destruct (json_get_string json (cs "tag") NM_MAX_NAME) as [tag|]; [|apply serves_refuse]. destruct (negb _); [apply serves_refuse|].
  apply serves_get. intros c Hc. destruct (find_checkpointed _ _ _ _ _ _ _) as [[i j]|r] eqn:Ef; [|by apply serves_ret].
  apply find_checkpointed_inl in Ef as (s & f & Ef). pose proof (writable_for _ _ _ _ _ _ Hc Ef eq_refl) as Hw.
  assert (Exists (writable (p_user p) (req_file json)) [c]) as Hw' by (by left).
  pose proof (seen_write_commanded (cs "CHECKPOINT") _ _ _ eq_refl Hw') as Hcmd.
  apply serves_primary; [done|]. intros h payload Hh. apply (seen_subset _ _ _ _ _ Hh) in Hcmd. apply (seen_write_subset _ _ _ _ Hh) in Hw'.
  apply serves_atomic_bind. intros d Hd. split; [apply enter_checkpoint_step; [done|by right]|].
  destruct (fst (enter_checkpoint _ _ _ _ _)) as [r|]; [by apply serves_ret|].
  apply (serves_bind _ _ _ (fun _ => True)); [apply serves_backup; by right|]. intros. by apply serves_ret.
Qed.

Lemma serves_revert : serves (cs "REVERT") (revert_steps p json).
Proof using.
  unfold revert_steps. destruct (json_get_string json (cs "file") NM_MAX_NAME) as [name|] eqn:E; [|apply serves_refuse]. apply get_file in E as <-.
  destruct (json_get_string json (cs "tag") NM_MAX_NAME) as [tag|]; [|apply serves_refuse]. destruct (negb _); [apply serves_refuse|].
  apply serves_get. intros c Hc. destruct (find_checkpointed _ _ _ _ _ _ _) as [[i j]|r] eqn:Ef; [|by apply serves_ret].
  apply find_checkpointed_inl in Ef as (s & f & Ef). pose proof (commanded_for p c Hc (cs "REVERT") _ _ _ _ _ Ef eq_refl) as [Hcmd _].
  apply serves_primary; [by left|]. intros h payload Hh.
  apply (serves_bind _ _ _ (fun _ => True)); [|intros; by apply serves_ret]. apply serves_backup. eapply seen_subset; [exact Hh|by left].
Qed.

Lemma serves_available ty h i j payload :
  Exists (fun c => commanded ty (p_user p) (req_file json) (docs (x_state c))) h ->
  serves_with ty (p_user p) (req_file json) (fun _ => True) h (forward_available_steps i j payload).
Proof using.
  intros Hs.
  assert (forall h', Exists (fun c => commanded ty (p_user p) (req_file json) (docs (x_state c))) h' ->
    serves_with ty (p_user p) (req_file json) (fun _ => True) h' (try_backup_steps i j payload)) as Hb.
  { intros h' Hs'. unfold try_backup_steps. destruct j as [j|]; [|by apply serves_ret]. apply serves_get. intros c Hc.
    destruct (connected _ _); [|by apply serves_ret]. destruct (bool_decide _); [by apply serves_ret|]. apply serves_forward. by right. }
  unfold forward_available_steps. destruct i as [i|]; [|by apply Hb]. apply serves_get. intros c Hc.
  destruct (connected _ _); [|apply Hb; by right]. apply serves_forward_bind; [by right|].
  intros h' [response|] _ Hs'; [by apply serves_ret|by apply Hb].
Qed.

Lemma serves_viewcheckpoint : serves (cs "VIEWCHECKPOINT") (viewcheckpoint_steps p json).
Proof using.
  unfold viewcheckpoint_steps. destruct (json_get_string json (cs "file") NM_MAX_NAME) as [name|] eqn:E; [|apply serves_refuse]. apply get_file in E as <-.
  destruct (json_get_string json (cs "tag") NM_MAX_NAME) as [tag|]; [|apply serves_refuse]. destruct (negb _); [apply serves_refuse|].
  apply serves_get. intros c Hc. destruct (find_checkpointed _ _ _ _ _ _ _) as [[i j]|r] eqn:Ef; [|by apply serves_ret].
  apply find_checkpointed_inl in Ef as (s & f & Ef). pose proof (commanded_for p c Hc (cs "VIEWCHECKPOINT") _ _ _ _ _ Ef eq_refl) as [Hcmd _].
  apply serves_get. intros d Hd. apply serves_get. intros e He. set (primary := present i d). set (backup := present j e). clearbody primary backup.
  assert (forall x y : prog reply, serves_with (cs "VIEWCHECKPOINT") (p_user p) (req_file json) (fun _ => True) [e; d; c] x ->
    serves_with (cs "VIEWCHECKPOINT") (p_user p) (req_file json) (fun _ => True) [e; d; c] y ->
    serves_with (cs "VIEWCHECKPOINT") (p_user p) (req_file json) (fun _ => True) [e; d; c] (match primary, backup with None, None => x | _, _ => y end)) as Hx
    by (intros; by destruct primary, backup).
  apply Hx; [apply serves_refuse|]. destruct (checkpoint_payload _ _ _ _) as [payload|r]; [|by apply serves_ret].
  apply (serves_bind _ _ _ (fun _ => True)); [apply serves_available; by do 2 right; left|]. intros h [response|] _ _; [|apply serves_refuse].
  destruct (negb _); [apply serves_refuse|]. destruct (json_get_string_alloc _ _); [|apply serves_refuse].
  destruct (json_escape_dup _); [|apply serves_refuse]. destruct (fit _ _); [by apply serves_ret|apply serves_refuse].
Qed.

(** One branch of the dispatch on the type of a request. *)
Ltac step_case tac :=
  match goal with
  | |- context [streq ?type ?x] =>
      let E := fresh in destruct (streq type x) eqn:E; [apply bool_decide_eq_true in E as ->; tac|clear E]
  end.

Lemma serves_request ask shell stale : serves (req_type json) (request_steps ask shell stale p json now).
Proof using Hu.
  unfold request_steps, req_type. cbv zeta.
  assert (forall ty (t : prog reply), serves ty t -> serves ty (r ← t; Ret (r, true))) as Hgo.
  { intros ty t Ht. apply (serves_bind _ _ _ (fun _ => True)); [done|]. intros. by apply serves_ret. }
  destruct (json_get_string json (cs "type") 64) as [type|]; [|apply Hgo, serves_refuse]. cbn [default from_option id].
  step_case ltac:(apply Hgo, serves_handler; [intros; by apply view_outcome|intros; unfold handle_client_view; follow]).
  step_case ltac:(apply Hgo, serves_handler; [intros; by apply list_users_outcome|intros; unfold handle_client_list_users; follow]).
  step_case ltac:(apply Hgo, serves_handler; [intros; by apply info_outcome|intros; unfold handle_client_info; follow]).
  step_case ltac:(apply Hgo, serves_create).
  step_case ltac:(apply Hgo, serves_delete).
  step_case ltac:(by apply Hgo, serves_lookup).
  step_case ltac:(by apply Hgo, serves_lookup).
  step_case ltac:(by apply Hgo, serves_lookup).
  step_case ltac:(apply Hgo, serves_checkpoint).
  step_case ltac:(apply Hgo, serves_viewcheckpoint).
  step_case ltac:(apply Hgo, serves_revert).
  step_case ltac:(apply Hgo, serves_handler; [intros; by apply listcheckpoints_outcome|intros; unfold handle_client_listcheckpoints; follow]).
  step_case ltac:(apply Hgo, serves_handler; [intros; by apply addaccess_outcome|intros; unfold handle_client_addaccess; follow]).
  step_case ltac:(apply Hgo, serves_handler; [intros; by apply removeaccess_outcome|intros; unfold handle_client_removeaccess; follow]).
  step_case ltac:(apply Hgo, serves_handler; [intros; by apply reqaccess_outcome|intros; unfold handle_client_reqaccess; follow]).
  step_case ltac:(apply Hgo, serves_handler; [intros; by apply viewreqs_outcome|intros; unfold handle_client_viewreqs; follow]).
  step_case ltac:(apply Hgo, serves_handler; [intros; by apply handlereq_outcome|intros; unfold handle_client_handlereq; follow]).
  step_case ltac:(apply Hgo, serves_undo).
  step_case ltac:(apply Hgo, serves_exec).
  case_match; [by apply serves_ret|apply Hgo, serves_refuse].
Qed.
End Requests.

Lemma Exists_before (P : nm_context -> Prop) (l : list (nm_context * nm_context)) i :
  Exists P (reverse (take (S i) l.*1) ++ []) -> exists j d d', j <= i /\ l !! j = Some (d, d') /\ P d.
Proof.
  rewrite app_nil_r, Exists_exists. intros (d & Hd & HP). rewrite elem_of_reverse in Hd. apply list_elem_of_lookup in Hd as [j Hj].
  apply lookup_take_Some in Hj as [Hj Hlt]. rewrite list_lookup_fmap in Hj. apply fmap_Some in Hj as ([d1 d'] & Hj & ->).
  exists j, d1, d'. split_and!; [lia|done|done].
Qed.

(** C13: Requests are authorised whatever else goes on, as far as the state lock works.  Take a
    step to be a stretch of the handler in which it holds the state lock, or one of its
    accesses without it, and suppose no other thread is in the tables during a step (the
    surplus unlock of [handle_client_delete] can break this, see [surplus_unlock_admits]).
    When the steps of a client's request are then interleaved with any others that keep the
    tables well formed, each of its steps keeps them so and touches only the document the
    request names: other documents keep their whole entries with their servers, the users and
    the access requests for other documents stay, servers are only marked down, cached
    locations of other documents only dropped.  It changes the document only as the
    type of the request and the user's rights permit at that moment, with two exceptions: a
    document is deleted by DELETE, or a checkpoint added to it by CHECKPOINT, when the user
    had write access at an earlier step of the same request.  No command goes to a storage server
    unless, at that step or before, the user had the right the type of the request needs, or
    for CREATE there was no document of that name. *)
Theorem interleaved_requests_authorised ask shell stale p json now l i c c'
  (Hu : length (p_user p) < NM_MAX_USER) (Hl : trace (request_steps ask shell stale p json now) l)
  (Hok : Forall (fun s => ctx_ok (fst s)) l) (Hi : l !! i = Some (c, c')) :
  ctx_ok c' /\ framed (req_file json) (x_state c) (x_state c') /\
  (authorised (req_type json) (p_user p) (req_file json) (docs (x_state c)) (docs (x_state c')) \/
   (exists j d d', j <= i /\ l !! j = Some (d, d') /\ writable (p_user p) (req_file json) d) /\
   belated (req_type json) (req_file json) (docs (x_state c)) (docs (x_state c'))) /\
  (x_forwarded c' = x_forwarded c \/
   exists j d d', j <= i /\ l !! j = Some (d, d') /\ commanded (req_type json) (p_user p) (req_file json) (docs (x_state d))).
Proof.
  pose proof (serves_obeys _ _ _ _ _ _ (serves_request p json now Hu ask shell stale)) as Ho.
  destruct (obeys_trace _ _ _ _ _ _ _ Ho Hl Hok Hi) as [H1 _ Hf H3 H4]. split; [done|]. split; [done|]. split.
  - destruct H3 as [H3|[Hw H3]]; [by left|right]. split; [by apply Exists_before|done].
  - destruct H4 as [H4|H4]; [by left|right]. by apply Exists_before.
Qed.

(** *** What the exceptions allow *)

Fixpoint steps_of {A} (t : prog A) (cs : list (nm_context -> nm_context)) (c : nm_context) : list (nm_context * nm_context) * prog A :=
  match cs, t with
  | g :: cs, Atomic _ f k =>
      let d := g c in
      let '(b, c) := f d in
      let '(l, t) := steps_of (k b) cs c in ((d, c) :: l, t)
  | _, _ => ([], t)
  end.

Lemma steps_of_trace {A} (t : prog A) cs c : trace t (fst (steps_of t cs c)).
Proof.
  revert t c. induction cs as [|g cs IH]; intros t c; [destruct t; apply tr_stop|]. destruct t as [a|how B f k]; [apply tr_stop|]. cbn [steps_of].
  destruct (f (g c)) as [b c'] eqn:E. specialize (IH (k b) c'). destruct (steps_of (k b) cs c') as [l t']. cbn [fst] in *.
  replace c' with (snd (f (g c))) by (by rewrite E). apply tr_step. by rewrite E.
Qed.

Definition demo_bob : peer := mk_peer 10 PeerClient (-1) (cs "bob").
Definition demo_request (p : peer) (text : String.string) (c : nm_context) : nm_context :=
  snd (handle_client_message (fun _ _ => None) (fun _ => None) p (js text) 100 c).

(** Bob may write ann's document and deletes it; after his right has been checked and before the
    command goes out, ann deletes the document herself and makes a new one of the same name.  Bob's
    request then deletes that one, on which he never had a right. *)
Definition demo_shared : nm_context :=
  demo_request demo_ann "{'type':'ADDACCESS','file':'plan','user':'bob','mode':'W'}"
    (demo_ctx [] (replicate 6 (Some (js "{'status':'OK'}")))).
Definition demo_meanwhile (c : nm_context) : nm_context :=
  demo_request demo_ann "{'type':'CREATE','file':'plan'}" (demo_request demo_ann "{'type':'DELETE','file':'plan'}" c).
Definition demo_race : list (nm_context * nm_context) :=
  fst (steps_of (request_steps (fun _ _ => None) (fun _ => None) 0 demo_bob (js "{'type':'DELETE','file':'plan'}") 100)
         [id; demo_meanwhile; id; id; id] demo_shared).

Lemma deleted_without_right :
  match demo_race !! 4 with
  | Some (c, c') =>
      (owner_and_primary (cs "plan") (x_state c) = Some (cs "ann", 0%Z) /\
       option_map (fun f => file_has_access f (cs "bob") NM_PERM_WRITE) (nm_find_file (x_state c) (cs "plan")) = Some false) /\
      nm_find_file (x_state c') (cs "plan") = None
  | None => False
  end.
Proof. vm_compute. split; [split|]; reflexivity. Qed.

Lemma steps_of_ok ty u name {A} (t : prog A) cs h c :
  obeys (step_ok ty u name) h t -> Forall (fun g => forall c, ctx_ok c -> ctx_ok (g c)) cs -> ctx_ok c ->
  Forall (fun s => ctx_ok (fst s)) (fst (steps_of t cs c)).
Proof.
  intros Ht Hcs. revert t h c Ht. induction Hcs as [|g cs Hg _ IH]; intros t h c Ht Hc; [destruct t; constructor|].
  destruct t as [a|how B f k]; [constructor|]. cbn [steps_of]. destruct (Ht (g c) (Hg c Hc)) as [[H1 _ _ _ _] H2].
  specialize (IH (k (fst (f (g c)))) (g c :: h) (snd (f (g c))) H2 H1). destruct (f (g c)) as [b c']. cbn [fst snd] in *.
  destruct (steps_of (k b) cs c') as [l t']. constructor; [by apply Hg|exact IH].
Qed.

Lemma demo_request_ok p text c : length (p_user p) < NM_MAX_USER -> ctx_ok c -> ctx_ok (demo_request p text c).
Proof. intros Hp Hc. by destruct (request_outcome (fun _ _ => None) (fun _ => None) p (js text) 100 c Hc Hp). Qed.

Lemma demo_race_ok : Forall (fun s => ctx_ok (fst s)) demo_race.
Proof.
  assert (length (p_user demo_bob) < NM_MAX_USER) as Hb by (vm_compute; lia).
  assert (length (p_user demo_ann) < NM_MAX_USER) as Ha by (vm_compute; lia).
  eapply steps_of_ok; [eapply serves_obeys; by apply serves_request| |apply demo_request_ok; [done|apply demo_ctx_ok]].
  repeat first [apply List.Forall_nil|apply List.Forall_cons; [unfold demo_meanwhile; auto using demo_request_ok|]].
Qed.

Lemma interleaved_requests_authorised_witness :
  match demo_race !! 4 with
  | Some (c, c') => ctx_ok c' /\ nm_find_file (x_state c') (cs "plan") = None
  | None => False
  end.
Proof.
  assert ((fun x => nm_find_file (x_state (snd x)) (cs "plan")) <$> demo_race !! 4 = Some None) as Hgone by (vm_compute; reflexivity).
  destruct (demo_race !! 4) as [[c c']|] eqn:E; [|discriminate Hgone]. injection Hgone as Hgone. split; [|exact Hgone].
  exact (proj1 (interleaved_requests_authorised (fun _ _ => None) (fun _ => None) 0 demo_bob (js "{'type':'DELETE','file':'plan'}") 100
    demo_race 4 c c' ltac:(vm_compute; lia) (steps_of_trace _ _ _) demo_race_ok E)).
Defined.
