(* ===== verification/NmConcurrent.v ===== *)
(** * [nm/nm_main.c]: all threads of the name manager, step by step

    The threads of the connections, the replication worker and the ticket pruner run their programs
    ([NmThreads]) in any interleaving, with the state lock taken and released as the code does,
    and a slot given up ([peer_close]) and cleared once more ([peer_reset]) in two steps.  As long as
    the accesses without the lock, the surplus unlock of [handle_client_delete] and the late
    [peer_reset] do no harm (an orderly run), what [NmSystem] shows for handlers that run as a
    whole holds for their steps: the tables are well formed at every moment, and a name belongs
    to one session.  That each of the three can do harm is shown on a run. *)

From stdpp Require Import relations.
From S2P Require Import Prelude Keyed Cstr Json Proto Fs NmState NmPersist NmServer NmRequests NmReplica NmSystem NmThreads NmInterleave.

(** ** The state lock *)

Inductive thread_id := Conn (i : nat) | Worker.
#[export] Instance thread_id_eq_dec : EqDecision thread_id.
Proof. solve_decision. Defined.

(** Whether the state lock is taken, and which threads are in the tables, with the lock or without. *)
Record guard := mk_guard { g_locked : bool; g_inside : list (thread_id * access) }.

(** The thread is done with the tables; with [STATE_UNLOCK], if it took the lock. *)
Definition leave (me : thread_id) (how : access) (g : guard) : guard :=
  mk_guard (if decide (how = Locked) then false else g_locked g) (filter (fun x => x.1 <> me) (g_inside g)).

(** One step of a thread's program.  An access to the tables is two steps, so that others may come
    in between; when two threads have been in the tables at the same time, what is there
    afterwards is not known.  The first argument says whether the step is orderly: no thread is in
    the tables without the lock while another is there, and nobody's lock is released for them. *)
Inductive prog_step {A} (me : thread_id) : bool -> nm_context -> guard -> prog A -> nm_context -> guard -> prog A -> Prop :=
| ps_lock {B : Set} c inside (f : nm_context -> B * nm_context) k :
    me ∉ inside.*1 ->
    prog_step me (bool_decide (Bare ∉ inside.*2)) c (mk_guard false inside) (Atomic Locked f k)
      c (mk_guard true ((me, Locked) :: inside)) (Atomic Locked f k)
| ps_enter {B : Set} c lk inside (f : nm_context -> B * nm_context) k :
    me ∉ inside.*1 ->
    prog_step me (bool_decide (inside = [])) c (mk_guard lk inside) (Atomic Bare f k)
      c (mk_guard lk ((me, Bare) :: inside)) (Atomic Bare f k)
| ps_access {B : Set} c g how (f : nm_context -> B * nm_context) k :
    g_inside g = [(me, how)] ->
    prog_step me true c g (Atomic how f k) (snd (f c)) (leave me how g) (k (fst (f c)))
| ps_clash {B : Set} c g how (f : nm_context -> B * nm_context) k b c' :
    (me, how) ∈ g_inside g -> g_inside g <> [(me, how)] ->
    prog_step me false c g (Atomic how f k) c' (leave me how g) (k b)
| ps_own {B : Set} c g (f : nm_context -> B * nm_context) k :
    prog_step me true c g (Atomic Own f k) (snd (f c)) g (k (fst (f c)))
| ps_surplus {B : Set} c g (f : nm_context -> B * nm_context) k :
    prog_step me (negb (g_locked g)) c g (Atomic Surplus f k) (snd (f c)) (mk_guard false (g_inside g)) (k (fst (f c))).

(** ** The machine *)

(** What a connection's thread is doing: it waits for a message, handles one, or the connection
    has been lost. *)
Inductive activity :=
| Idle
| Serving (t : prog (option reply * bool * peer))
| Ending (t : prog unit).

Record slot := mk_slot { s_peer : peer; s_activity : activity }.

(** [m_late] are the slots of the threads that have closed their connection, and will clear the slot
    once more before they end. *)
Record nm_threads := mk_threads {
  m_ctx : nm_context;
  m_guard : guard;
  m_slots : list slot;
  m_worker : option (prog unit);
  m_late : list nat;
}.

(** The slot after the message has been answered. *)
Definition next_message (r : option reply) (go : bool) (p : peer) : slot :=
  mk_slot p (if go && answered r then Idle else Ending (disconnect_steps p)).

(** The steps of all threads.  The last [peer_reset] of a thread is orderly when no new connection
    has the slot by then; when one has, its fields are cleared under its thread, and the machine
    is not followed further. *)
Inductive thread_step : bool -> nm_threads -> nm_threads -> Prop :=
| th_accept fd c g ms w late i s :
    find_first (fun s => is_unused (s_peer s)) ms = Some (i, s) ->
    thread_step true (mk_threads c g ms w late)
      (mk_threads c g (<[i := mk_slot (mk_peer fd PeerUnknown (-1) []) Idle]> ms) w late)
| th_message ask shell garbage stale json now c g ms w late i p :
    ms !! i = Some (mk_slot p Idle) -> p_type p <> PeerUnused -> json_get_string json (cs "type") 64 <> None ->
    thread_step true (mk_threads c g ms w late)
      (mk_threads c g (<[i := mk_slot p (Serving (dispatch_steps ask shell garbage stale p json now))]> ms) w late)
| th_serve ok c g c' g' ms w late i p t t' :
    ms !! i = Some (mk_slot p (Serving t)) -> prog_step (Conn i) ok c g t c' g' t' ->
    thread_step ok (mk_threads c g ms w late) (mk_threads c' g' (<[i := mk_slot p (Serving t')]> ms) w late)
| th_answer c g ms w late i p r go p' :
    ms !! i = Some (mk_slot p (Serving (Ret (r, go, p')))) ->
    thread_step true (mk_threads c g ms w late) (mk_threads c g (<[i := next_message r go p']> ms) w late)
| th_hangup c g ms w late i p :
    ms !! i = Some (mk_slot p Idle) -> p_type p <> PeerUnused ->
    thread_step true (mk_threads c g ms w late) (mk_threads c g (<[i := mk_slot p (Ending (disconnect_steps p))]> ms) w late)
| th_end ok c g c' g' ms w late i p t t' :
    ms !! i = Some (mk_slot p (Ending t)) -> prog_step (Conn i) ok c g t c' g' t' ->
    thread_step ok (mk_threads c g ms w late) (mk_threads c' g' (<[i := mk_slot p (Ending t')]> ms) w late)
| th_close c g ms w late i p :
    ms !! i = Some (mk_slot p (Ending (Ret tt))) ->
    thread_step true (mk_threads c g ms w late) (mk_threads c g (<[i := mk_slot peer_reset_fields Idle]> ms) w (i :: late))
| th_reset c g ms w late late' i s :
    late ≡ₚ i :: late' -> ms !! i = Some s ->
    thread_step (is_unused (s_peer s)) (mk_threads c g ms w late)
      (mk_threads c g (<[i := mk_slot peer_reset_fields (s_activity s)]> ms) w late')
| th_replicate now c g ms late :
    thread_step true (mk_threads c g ms None late) (mk_threads c g ms (Some (replication_steps now)) late)
| th_worker ok c g c' g' ms late t t' :
    prog_step Worker ok c g t c' g' t' ->
    thread_step ok (mk_threads c g ms (Some t) late) (mk_threads c' g' ms (Some t') late)
| th_replicated c g ms late : thread_step true (mk_threads c g ms (Some (Ret tt)) late) (mk_threads c g ms None late)
| th_prune now c g ms w late : thread_step true (mk_threads c g ms w late) (mk_threads (ticket_prune now c) g ms w late)
| th_environment answers tokens c g ms w late :
    thread_step true (mk_threads c g ms w late) (mk_threads (with_environment answers tokens c) g ms w late).

Definition any_step (m m' : nm_threads) : Prop := exists ok, thread_step ok m m'.
Definition orderly_step : nm_threads -> nm_threads -> Prop := thread_step true.

Definition threads_start (c : nm_context) : nm_threads :=
  mk_threads c (mk_guard false []) (replicate MAX_PEERS (mk_slot peer_reset_fields Idle)) None [].

(** ** Programs that leave the sessions alone *)

Fixpoint tame {A} (P : A -> Prop) (t : prog A) : Prop :=
  match t with
  | Ret a => P a
  | Atomic _ f k => forall c, ctx_ok c -> (ctx_ok (snd (f c)) /\ same_active c (snd (f c))) /\ tame P (k (fst (f c)))
  end.
Notation tame_any := (tame (fun _ => True)).

Lemma tame_weaken {A} (P Q : A -> Prop) t : (forall a, P a -> Q a) -> tame P t -> tame Q t.
Proof.
  intros HPQ. induction t as [a|how B f k IH]; cbn; [auto|]. intros H c Hc. destruct (H c Hc) as [H1 H2]. auto.
Qed.

Lemma tame_bind {A B} (P : A -> Prop) (Q : B -> Prop) t k : tame P t -> (forall a, P a -> tame Q (k a)) -> tame Q (t ≫= k).
Proof.
  unfold mbind, prog_mbind. intros Ht Hk. induction t as [a|how C f g IH]; cbn [prog_bind tame] in *; [auto|].
  intros c Hc. destruct (Ht c Hc) as [H1 H2]. auto.
Qed.

Lemma tame_atomic {A : Set} {B} (Q : B -> Prop) how (f : nm_context -> A * nm_context) k :
  (forall c, ctx_ok c -> ctx_ok (snd (f c)) /\ same_active c (snd (f c))) -> (forall a, tame Q (k a)) -> tame Q (atomic how f ≫= k).
Proof. intros Hf Hk c Hc. split; [by apply Hf|apply Hk]. Qed.
Lemma tame_get {A : Set} {B} (Q : B -> Prop) how (f : nm_context -> A) k : (forall a, tame Q (k a)) -> tame Q (get how f ≫= k).
Proof. intros Hk. by apply tame_atomic. Qed.
Lemma tame_act how f : (forall c, ctx_ok c -> ctx_ok (f c) /\ same_active c (f c)) -> tame_any (act how f).
Proof. intros Hf c Hc. split; [by apply Hf|done]. Qed.

Lemma tame_serves {A} ty u name h (t : prog A) : serves ty u name h t -> tame_any t.
Proof.
  unfold serves_with. generalize h at 1. intros h0. revert h. induction t as [a|how B f k IH]; intros h Ht; [done|]. intros c Hc.
  destruct (Ht c Hc) as [[H1 H2 _ _ _] H3]. split; [done|]. by eapply IH.
Qed.

Lemma tame_forward k payload : tame_any (forward k payload).
Proof.
  apply tame_atomic; [|by intros []; [intros c Hc|]]. intros c Hc. unfold send_command. by destruct (nm_get_server _ _).
Qed.

Lemma tame_issue k file user op now : tame_any (issue_ticket_steps k file user op now).
Proof.
  unfold issue_ticket_steps. eapply tame_bind; [by apply tame_act|]. intros _ _. apply tame_atomic; [done|]. intros token. cbv zeta.
  destruct (ticket_payload _); [|done]. eapply tame_bind; [apply tame_forward|]. intros [response|] _; [|done].
  destruct (status_is_ok _); [|done]. eapply tame_bind; [by apply tame_act|done].
Qed.

Lemma tame_schedule file owner p b assign : tame_any (schedule file owner p b assign).
Proof. intros c Hc. split; [|done]. split; [by apply schedule_ok|apply schedule_active]. Qed.

Lemma tame_try_assign name : tame_any (try_assign_steps name).
Proof.
  unfold try_assign_steps. destruct (bool_decide _); [done|]. apply tame_get. intros [[owner i]|]; [|done].
  eapply tame_bind; [apply tame_schedule|done].
Qed.

Lemma quiet_drop_failed task b c : quiet_change (x_state c) (x_state (snd (drop_failed task b c))) /\ same_active c (snd (drop_failed task b c)).
Proof.
  unfold drop_failed. destruct (find_file_index _ _) as [i|]; [|done]. destruct (nm_files _ !! i) as [f|]; [|done].
  destruct (_ && _); [|done]. split; [|done]. apply quiet_drop_backup.
Qed.

Lemma tame_failure task b : tame_any (failure_steps task b).
Proof.
  apply tame_atomic; [|intros []; [apply tame_try_assign|done]]. intros c Hc. destruct (quiet_drop_failed task b c) as [Q Ha].
  split; [by eapply ctx_ok_quiet|done].
Qed.

Lemma tame_replicate file owner p b now : tame_any (replicate_steps file owner p b now).
Proof.
  unfold replicate_steps. destruct (_ || _); [done|]. apply tame_get. intros []; [|done]. cbn [negb].
  eapply tame_bind; [apply tame_issue|]. intros [ticket|] _; [|done]. apply tame_get. intros [payload|]; [|done].
  eapply tame_bind; [apply tame_forward|]. by intros [response|] _.
Qed.

Lemma first_candidate_other i b c : first_candidate i c = Some b -> b <> i.
Proof. unfold first_candidate. intros (k & Hk & ->)%fmap_Some. by apply candidate_loop_spec in Hk as (_ & Hk & _). Qed.

Lemma assign_copy_ok task i b c :
  (k_assign task = true -> b <> i) -> ctx_ok c -> ctx_ok (assign_copy task i b c) /\ same_active c (assign_copy task i b c).
Proof.
  intros Hb Hc. unfold assign_copy. destruct (find_file_index _ _) as [j|]; [|done]. destruct (nm_files _ !! j) as [f|]; [|done].
  destruct (Z.eqb_spec (f_ss_index f) i) as [->|]; [|done]. destruct (k_assign task); [|done]. split; [|done].
  eapply ctx_ok_quiet; [exact Hc|]. apply quiet_location. auto.
Qed.

Lemma tame_replication now : tame_any (replication_steps now).
Proof.
  apply tame_atomic; [by intros c Hc; unfold take_task; destruct (x_queue c)|]. intros [task|]; [|done].
  apply tame_get. intros [[owner i]|]; [|done]. destruct (_ || _); [done|].
  apply (tame_bind (fun _ => True)); [by destruct (k_assign task)|]. intros [] _; [|done]. cbn [negb].
  apply (tame_bind (fun t => forall b, t = Some b -> k_assign task = true -> b <> i)).
  { destruct (k_assign task); [|done]. intros c Hc. split; [done|]. intros b Hb _. by eapply first_candidate_other. }
  intros [b|] Hb; [|done]. apply (tame_bind (fun _ => True)); [apply tame_replicate|]. intros [] _; cbn [negb]; [|apply tame_failure].
  apply tame_act. intros c Hc. apply assign_copy_ok; auto.
Qed.

Lemma tame_update garbage json : tame_any (update_steps garbage json).
Proof.
  unfold update_steps. destruct (json_get_string _ _ _) as [name|]; [|done]. cbv zeta. apply tame_atomic.
  - intros c Hc. unfold enter_update. destruct (nm_find_file _ _) as [f|]; [|done]. split; [by apply metadata_ok|done].
  - intros [[[[[owner i] j] sync] assign]|]; [|done]. destruct sync.
    + apply (tame_bind (fun _ => True)); [apply tame_schedule|]. intros [] _; [done|apply tame_failure].
    + destruct assign; [|done]. by apply (tame_bind (fun _ => True)); [apply tame_schedule|].
Qed.

Lemma tame_assign_missing n i : tame_any (assign_missing_steps n i).
Proof.
  revert i. induction n as [|n IH]; intros i; cbn [assign_missing_steps]; [done|]. apply tame_get. intros [f|]; [|done].
  apply (tame_bind (fun _ => True)); [destruct (_ <? _)%Z; [apply tame_try_assign|done]|]. intros _ _. apply IH.
Qed.

Lemma tame_assign_pending l : tame_any (assign_pending l).
Proof.
  induction l as [|x l IH]; cbn [assign_pending]; [done|]. apply (tame_bind (fun _ => True)); [apply tame_try_assign|]. by intros _ _.
Qed.

Lemma register_step_ok id host cp dp fd c :
  ctx_ok c -> ctx_ok (snd (in_state (nm_register_server id host cp dp fd) c)).
Proof.
  intros Hc. assert (quiet_change (x_state c) (snd (nm_register_server id host cp dp fd (x_state c)))) as Q.
  { unfold nm_register_server. destruct (find_first _ _) as [[i x]|]; [by apply quiet_tables|]. destruct (_ <=? _); [done|]. by apply quiet_tables. }
  unfold in_state. destruct (nm_register_server _ _ _ _ _ _) as [r s]. by eapply (ctx_ok_quiet c).
Qed.

(** ** Sessions *)

(** Of the names in use the thread's go from [own] to [own'], and the others stay. *)
Definition exchanged (own own' l l' : list cstr) : Prop :=
  (forall rest, l ≡ₚ own ++ rest -> l' ≡ₚ own' ++ rest) /\ (NoDup l -> NoDup l').

Lemma exchanged_same own c c' : same_active c c' -> exchanged own own (x_active c) (x_active c').
Proof. intros ->%same_active_list. by split. Qed.

(** The names a program has, step by step, while the others come and go. *)
Fixpoint holds {A} (Q : list cstr -> A -> Prop) (own : list cstr) (t : prog A) : Prop :=
  match t with
  | Ret a => Q own a
  | Atomic _ f k =>
      forall c, ctx_ok c -> own ⊆ x_active c ->
      exists own', ctx_ok (snd (f c)) /\ exchanged own own' (x_active c) (x_active (snd (f c))) /\ holds Q own' (k (fst (f c)))
  end.

Lemma tame_holds {A} (P : A -> Prop) (Q : list cstr -> A -> Prop) own t : tame P t -> (forall a, P a -> Q own a) -> holds Q own t.
Proof.
  intros Ht HPQ. induction t as [a|how B f k IH]; cbn in *; [auto|]. intros c Hc _. destruct (Ht c Hc) as [[H1 H2] H3].
  exists own. split_and!; [done|by apply exchanged_same|auto].
Qed.

Lemma holds_bind {A B} (P : list cstr -> A -> Prop) (Q : list cstr -> B -> Prop) own t k :
  holds P own t -> (forall own' a, P own' a -> holds Q own' (k a)) -> holds Q own (t ≫= k).
Proof.
  unfold mbind, prog_mbind. intros Ht Hk. revert own Ht. induction t as [a|how C f g IH]; intros own Ht; cbn [prog_bind holds] in *; [auto|].
  intros c Hc Ho. destruct (Ht c Hc Ho) as (own' & H1 & H2 & H3). exists own'. auto.
Qed.

(** What a handler makes of its connection. *)
Definition peer_after (own : list cstr) (x : option reply * bool * peer) : Prop :=
  session (snd x) = own /\ user_ok (snd x) /\ p_type (snd x) <> PeerUnused.
Definition greeted (own : list cstr) (x : reply * peer) : Prop :=
  session (snd x) = own /\ user_ok (snd x) /\ p_type (snd x) <> PeerUnused.

Section Peer.
Context (p : peer) (Hp : user_ok p) (Hused : p_type p <> PeerUnused).

Lemma register_greeted json : session p = [] -> holds greeted [] (register_steps p json).
Proof using Hp Hused.
  intros Hs. assert (forall r, greeted [] (r, p)) as Hid by done. unfold register_steps.
  destruct (json_get_string json (cs "ssId") 64) as [id|]; [|apply Hid]. destruct (json_get_string json (cs "host") 64) as [host|]; [|apply Hid].
  destruct (json_get_string json (cs "ctrlPort") 16) as [cp|]; [|apply Hid]. destruct (json_get_string json (cs "dataPort") 16) as [dp|]; [|apply Hid].
  apply (tame_holds (fun x => greeted [] x)); [|done]. apply tame_atomic.
  - intros c Hc. split; [by apply register_step_ok|apply in_state_active].
  - intros [idx|]; [|apply Hid]. apply (tame_bind (fun _ => True)); [apply tame_assign_missing|]. intros _ _. by split_and!; [|split; [apply Hp|]|].
Qed.

Lemma hello_greeted json now : session p = [] -> holds greeted [] (hello_steps p json now).
Proof using Hp Hused.
  intros Hs. assert (forall r, greeted [] (r, p)) as Hid by done. unfold hello_steps.
  destruct (json_get_string json (cs "user") NM_MAX_USER) as [u|] eqn:Eu; [|apply Hid]. apply json_get_string_length in Eu.
  intros c0 Hc0 _. exists []. split_and!; [done|by apply exchanged_same|]. cbn [fst snd]. destruct (username_in_use u c0); [apply Hid|].
  intros c Hc _. pose proof (hello_ok u now c Hc Eu) as H.
  assert (x_state (snd (active_user_add u c)) = x_state c) as Es by (unfold active_user_add; by repeat case_match).
  destruct (active_user_add u c) as [[|e] c1]; cbn [fst snd] in *.
  - destruct H as (Hne & Hni & E1 & _). rewrite E1. exists [u]. split_and!; [by unfold ctx_ok; rewrite Es| |].
    + split; [intros rest ->; apply (Permutation_app_comm rest [u])|]. intros Hnd. apply NoDup_app. split_and!; [done| |apply NoDup_singleton].
      by intros x Hx ->%list_elem_of_singleton.
    + rewrite snprintf_s_id by done. intros c2 Hc2 _. exists [u]. split_and!; [by apply add_user_ok|by apply exchanged_same, in_state_active|].
      by split_and!; [|split; [|]|].
  - subst c1. exists []. split_and!; [done|by apply exchanged_same|apply Hid].
Qed.

Lemma serves_peer_after json now ask shell stale :
  p_type p = PeerClient ->
  tame (peer_after (session p)) (r ← request_steps ask shell stale p json now; Ret (Some (fst r), snd r, p)).
Proof using Hp.
  intros Ht. eapply tame_bind; [eapply tame_serves, serves_request; apply Hp|]. intros r _. by split_and!; [|done|cbn; by rewrite Ht].
Qed.

(** Handling a message: a thread that greets may get a name; the others keep what they have. *)
Lemma dispatch_holds ask shell garbage stale json now :
  session p = [] -> holds peer_after [] (dispatch_steps ask shell garbage stale p json now).
Proof using Hp Hused.
  intros Hs. assert (forall r go, peer_after [] (r, go, p)) as Hid by done. assert (forall r, greeted [] (r, p)) as Hg by done.
  unfold dispatch_steps. destruct (p_type p) eqn:Ep in |- *.
  - apply Hid.
  - eapply (holds_bind greeted); [|by intros own [r p'] H; exact H]. unfold handshake_steps.
    destruct (json_get_string json (cs "type") 64) as [type|]; [|apply Hg].
    destruct (streq type _); [by apply register_greeted|]. destruct (streq type _); [by apply hello_greeted|apply Hg].
  - unfold session in Hs. by rewrite Ep in Hs.
  - destruct (json_get_string json (cs "type") 64) as [type|]; [|apply Hid]. destruct (streq type _); [|apply Hid].
    apply (tame_holds (fun x => peer_after [] x)); [|done]. eapply tame_bind; [apply tame_update|]. intros _ _. apply Hid.
Qed.

Lemma dispatch_tame ask shell garbage stale json now :
  p_type p = PeerClient -> tame (peer_after (session p)) (dispatch_steps ask shell garbage stale p json now).
Proof using Hp. intros Ht. unfold dispatch_steps. rewrite Ht. by apply serves_peer_after. Qed.

Lemma disconnect_holds : holds (fun own _ => own = []) (session p) (disconnect_steps p).
Proof using Hp Hused.
  unfold disconnect_steps, session. destruct Hp as [_ Hu]. destruct (p_type p); [done|done| |].
  - intros c Hc Ho. exists []. cbn [fst snd]. assert (p_user p ∈ x_active c) as Hin by (apply Ho; by left).
    destruct (active_user_remove_ok (p_user p) c Hc) as [H1 H2]. specialize (H2 (Hu eq_refl) Hin). split_and!; [done| |done].
    split; [|intros Hnd; rewrite H2 in Hnd; by apply NoDup_cons in Hnd as [_ ?]].
    intros rest Hr. rewrite H2 in Hr. by apply Permutation_cons_inv in Hr.
  - destruct (_ <=? _)%Z; [|done]. apply (tame_holds (fun _ => True)); [|done]. apply tame_atomic; [|intros; apply tame_assign_pending].
    intros c Hc. unfold take_server_down. set (s := nm_mark_server_down _ _). pose proof (quiet_failover_loop (length (nm_files s)) 0 (p_server_index p) s false []) as Q.
    destruct (failover_loop _ _ _ _ _ _) as [[s1 d] l]. cbn [fst snd] in *.
    assert (quiet_change (x_state c) s1) as Q1 by (etransitivity; [apply quiet_mark_down|exact Q]).
    split; [|by destruct d]. eapply ctx_ok_quiet; [exact Hc|]. by destruct d.
Qed.
End Peer.

(** ** What holds at every moment *)

Definition concat_all (ll : list (list cstr)) : list cstr := ll ≫= id.

Lemma concat_at ll i l : ll !! i = Some l -> concat_all ll ≡ₚ l ++ concat_all (delete i ll).
Proof. intros H. unfold concat_all. by rewrite (delete_Permutation ll i l H) at 1. Qed.
Lemma concat_insert ll i l l' : ll !! i = Some l -> concat_all (<[i := l']> ll) ≡ₚ l' ++ concat_all (delete i ll).
Proof.
  intros H. rewrite (concat_at (<[i := l']> ll) i l') by (apply list_lookup_insert_eq; by eapply lookup_lt_Some).
  by rewrite !delete_take_drop, take_insert_ge, drop_insert_lt by lia.
Qed.

(** The names a slot holds. *)
Inductive slot_ok : list cstr -> slot -> Prop :=
| so_idle p : user_ok p -> slot_ok (session p) (mk_slot p Idle)
| so_client p t : user_ok p -> p_type p <> PeerUnused -> tame (peer_after (session p)) t -> slot_ok (session p) (mk_slot p (Serving t))
| so_other p own t : user_ok p -> p_type p <> PeerUnused -> session p = [] -> holds peer_after own t -> slot_ok own (mk_slot p (Serving t))
| so_ending p own t : p_type p <> PeerUnused -> holds (fun own _ => own = []) own t -> slot_ok own (mk_slot p (Ending t)).

(** In an orderly run the lock keeps the threads apart: one at most is in the tables, and the lock is
    taken when that one took it. *)
Definition guard_ok (g : guard) : Prop :=
  match g_inside g with
  | [] => g_locked g = false
  | [(_, Locked)] => g_locked g = true
  | [(_, Bare)] => g_locked g = false
  | _ => False
  end.

Lemma guard_ok_alone g x y : guard_ok g -> x ∈ g_inside g -> y ∈ g_inside g -> x = y.
Proof.
  unfold guard_ok. destruct (g_inside g) as [|z [|z' l]]; [by intros _ H%not_elem_of_nil| |by destruct z as [? []]].
  by intros _ ->%list_elem_of_singleton ->%list_elem_of_singleton.
Qed.

(** An orderly step enters or leaves the tables, or runs the next piece of the program. *)
Lemma prog_step_orderly {A} me c g (t : prog A) c' g' t' :
  prog_step me true c g t c' g' t' ->
  (c' = c /\ t' = t) \/
  exists how (B : Set) (f : nm_context -> B * nm_context) k, t = Atomic how f k /\ c' = snd (f c) /\ t' = k (fst (f c)).
Proof.
  remember true as ok eqn:E. destruct 1; simplify_eq; try (by left); right; by do 4 eexists.
Qed.

Lemma leave_alone me how g : g_inside g = [(me, how)] -> leave me how g = mk_guard (if decide (how = Locked) then false else g_locked g) [].
Proof. intros E. unfold leave. rewrite E, filter_cons_False by (cbn; auto). done. Qed.

Lemma prog_step_guard {A} me c g (t : prog A) c' g' t' : prog_step me true c g t c' g' t' -> guard_ok g -> guard_ok g'.
Proof.
  remember true as ok eqn:E. destruct 1 as [B c inside f k Hme|B c lk inside f k Hme|B c g how f k Hin| | |B c g f k]; intros Hg; simplify_eq.
  - apply bool_decide_eq_true in E. unfold guard_ok in *. cbn in *.
    destruct inside as [|[? []] [|]]; try done. by destruct E; left.
  - by apply bool_decide_eq_true in E as ->.
  - rewrite (leave_alone _ _ _ Hin). unfold guard_ok in *. cbn. rewrite Hin in Hg. by destruct how, (decide _).
  - done.
  - apply negb_true_iff in E. destruct g as [lk inside]. cbn in *. by subst lk.
Qed.

Record threads_ok (m : nm_threads) : Prop := {
  to_ctx : ctx_ok (m_ctx m);
  to_unique : NoDup (x_active (m_ctx m));
  to_slots : exists owns, Forall2 slot_ok owns (m_slots m) /\ concat_all owns ≡ₚ x_active (m_ctx m);
  to_worker : match m_worker m with Some t => tame_any t | None => True end;
  to_guard : guard_ok (m_guard m);
}.

(** A slot and the context change together. *)
Lemma threads_ok_slot c g ms w late c' g' late' i s s' :
  threads_ok (mk_threads c g ms w late) -> ms !! i = Some s -> guard_ok g' ->
  (forall own, slot_ok own s -> own ⊆ x_active c ->
   ctx_ok c' /\ exists own', exchanged own own' (x_active c) (x_active c') /\ slot_ok own' s') ->
  threads_ok (mk_threads c' g' (<[i := s']> ms) w late').
Proof.
  intros [H1 H2 (owns & H3 & H4) H5 _] Hs Hg Hstep. cbn in *. destruct (Forall2_lookup_r _ _ _ _ _ H3 Hs) as (own & Hown & Hok).
  pose proof (concat_at _ _ _ Hown) as C1. destruct (Hstep own Hok) as (Hc & own' & [He Hnd] & Hok').
  { intros x Hx. rewrite <- H4, C1. apply elem_of_app. by left. }
  split; cbn; [done|by apply Hnd| |done|done]. exists (<[i := own']> owns). split; [by apply Forall2_insert|].
  rewrite (concat_insert _ _ _ own' Hown). symmetry. apply He. by rewrite <- H4.
Qed.

Lemma unused_idle own s : slot_ok own s -> is_unused (s_peer s) = true -> own = [] /\ s_activity s = Idle.
Proof.
  unfold is_unused. destruct 1 as [p|p t _ Hp|p own t _ Hp|p own t Hp]; cbn [s_peer]; intros E; [|by destruct (p_type p)..].
  unfold session. by destruct (p_type p).
Qed.

Lemma exchanged_refl own c : exchanged own own (x_active c) (x_active c).
Proof. by apply exchanged_same. Qed.

(** Only the slot changes. *)
Lemma threads_ok_quiet c g ms w late late' i s s' :
  threads_ok (mk_threads c g ms w late) -> ms !! i = Some s -> (forall own, slot_ok own s -> slot_ok own s') ->
  threads_ok (mk_threads c g (<[i := s']> ms) w late').
Proof.
  intros Hok Hs Hstep. eapply threads_ok_slot; [exact Hok|exact Hs|by apply Hok|]. intros own Ho _.
  split; [by apply Hok|]. exists own. split; [apply exchanged_refl|auto].
Qed.

Lemma next_message_ok own r go p : peer_after own (r, go, p) -> slot_ok own (next_message r go p).
Proof.
  intros (<- & Hp & Hu). cbn [snd] in *. unfold next_message. destruct (_ && _); [by constructor|].
  apply so_ending; [done|by apply disconnect_holds].
Qed.

Lemma message_ok p ask shell garbage stale json now :
  user_ok p -> p_type p <> PeerUnused -> slot_ok (session p) (mk_slot p (Serving (dispatch_steps ask shell garbage stale p json now))).
Proof.
  intros Hp Hu. destruct (p_type p) eqn:Ep; try (rewrite <- Ep in Hu).
  - done.
  - assert (session p = []) as Hs by (unfold session; by rewrite Ep). rewrite Hs. by apply so_other; [..|apply dispatch_holds].
  - apply so_client; [done|done|]. by apply dispatch_tame.
  - assert (session p = []) as Hs by (unfold session; by rewrite Ep). rewrite Hs. by apply so_other; [..|apply dispatch_holds].
Qed.

(** One step of the program in a slot. *)
Lemma serving_step own p me c g t c' g' t' :
  prog_step me true c g t c' g' t' -> ctx_ok c -> slot_ok own (mk_slot p (Serving t)) -> own ⊆ x_active c ->
  ctx_ok c' /\ exists own', exchanged own own' (x_active c) (x_active c') /\ slot_ok own' (mk_slot p (Serving t')).
Proof.
  intros Hp Hc Hs Ho. apply prog_step_orderly in Hp as [[-> ->]|(how & B & f & k & -> & -> & ->)].
  { split; [done|]. exists own. split; [apply exchanged_refl|done]. }
  remember (mk_slot p (Serving (Atomic how f k))) as s eqn:E. destruct Hs as [q|q t Hq Hu Ht|q own t Hq Hu Hn Ht|q own t Hu Ht]; try discriminate E.
  - injection E as -> ->. destruct (Ht c Hc) as [[H1 H2] H3]. split; [done|]. exists (session p). split; [by apply exchanged_same|by constructor].
  - injection E as -> ->. destruct (Ht c Hc Ho) as (own' & H1 & H2 & H3). split; [done|]. exists own'. split; [done|by apply so_other].
Qed.

Lemma ending_step own p me c g t c' g' t' :
  prog_step me true c g t c' g' t' -> ctx_ok c -> slot_ok own (mk_slot p (Ending t)) -> own ⊆ x_active c ->
  ctx_ok c' /\ exists own', exchanged own own' (x_active c) (x_active c') /\ slot_ok own' (mk_slot p (Ending t')).
Proof.
  intros Hp Hc Hs Ho. apply prog_step_orderly in Hp as [[-> ->]|(how & B & f & k & -> & -> & ->)].
  { split; [done|]. exists own. split; [apply exchanged_refl|done]. }
  remember (mk_slot p (Ending (Atomic how f k))) as s eqn:E. destruct Hs as [q|q t Hq Hu Ht|q own t Hq Hu Hn Ht|q own t Hu Ht]; try discriminate E.
  injection E as -> ->. destruct (Ht c Hc Ho) as (own' & H1 & H2 & H3). split; [done|]. exists own'. split; [done|by apply so_ending].
Qed.

Lemma worker_step me c g (t : prog unit) c' g' t' :
  prog_step me true c g t c' g' t' -> ctx_ok c -> tame_any t -> (ctx_ok c' /\ same_active c c') /\ tame_any t'.
Proof.
  intros Hp Hc Ht. apply prog_step_orderly in Hp as [[-> ->]|(how & B & f & k & -> & -> & ->)]; [done|]. by apply Ht.
Qed.

(** A slot that was free before is free after it has been cleared. *)
Lemma reset_ok own s : slot_ok own s -> is_unused (s_peer s) = true -> slot_ok own (mk_slot peer_reset_fields (s_activity s)).
Proof.
  intros Hs Hu. destruct (unused_idle _ _ Hs Hu) as [-> ->]. apply (so_idle peer_reset_fields).
  split; [cbn; unfold NM_MAX_USER; lia|done].
Qed.

Lemma thread_step_ok m m' : orderly_step m m' -> threads_ok m -> threads_ok m'.
Proof.
  intros Hstep Hok. pose proof Hok as [H1 H2 (owns & H3 & H4) H5 H6]. unfold orderly_step in Hstep. remember true as ok eqn:Eok.
  destruct Hstep as
    [fd c g ms w late i s Hf|ask shell garbage stale json now c g ms w late i p Hi Hu _|ok c g c' g' ms w late i p t t' Hi Hp|c g ms w late i p r go p' Hi
    |c g ms w late i p Hi Hu|ok c g c' g' ms w late i p t t' Hi Hp|c g ms w late i p Hi|c g ms w late late' i s _ Hi|now c g ms late|ok c g c' g' ms late t t' Hp
    |c g ms late|now c g ms w late|answers tokens c g ms w late]; cbn [m_ctx m_guard m_slots m_worker m_late] in *.
  - apply find_first_Some in Hf as (Hi & Hu & _). eapply threads_ok_quiet; [exact Hok|exact Hi|]. intros own Hs.
    destruct (unused_idle _ _ Hs Hu) as [-> _]. apply (so_idle (mk_peer fd PeerUnknown (-1) [])). split; [cbn; unfold NM_MAX_USER; lia|done].
  - eapply threads_ok_quiet; [exact Hok|exact Hi|]. intros own Hs. inversion Hs as [q Hq E1 E2| | |]; subst. by apply message_ok.
  - subst ok. eapply threads_ok_slot; [exact Hok|exact Hi|by eapply prog_step_guard|]. intros own Hs Ho. by eapply serving_step.
  - eapply threads_ok_quiet; [exact Hok|exact Hi|]. intros own Hs. apply next_message_ok.
    remember (mk_slot p (Serving (Ret (r, go, p')))) as s eqn:E. destruct Hs; try discriminate E; by injection E as -> ->.
  - eapply threads_ok_quiet; [exact Hok|exact Hi|]. intros own Hs. inversion Hs as [q Hq E1 E2| | |]; subst. apply so_ending; [done|by apply disconnect_holds].
  - subst ok. eapply threads_ok_slot; [exact Hok|exact Hi|by eapply prog_step_guard|]. intros own Hs Ho. by eapply ending_step.
  - eapply threads_ok_quiet; [exact Hok|exact Hi|]. intros own Hs.
    remember (mk_slot p (Ending (Ret tt))) as s eqn:E. destruct Hs as [| | |q own t Hu Ht]; try discriminate E. injection E as -> ->.
    cbn in Ht. subst own. apply (so_idle peer_reset_fields). split; [cbn; unfold NM_MAX_USER; lia|done].
  - eapply threads_ok_quiet; [exact Hok|exact Hi|]. intros own Hs. by apply reset_ok.
  - split; [done|done|by exists owns|apply tame_replication|done].
  - subst ok. destruct (worker_step _ _ _ _ _ _ _ Hp H1 H5) as [[Hc Ha] Ht]. apply same_active_list in Ha.
    split; cbn; [done|by rewrite Ha|exists owns; by rewrite Ha|done|by eapply prog_step_guard].
  - by split; [| |exists owns| |].
  - by split; [| |exists owns| |].
  - by split; [| |exists owns| |].
Qed.

Lemma threads_ok_start c : ctx_ok c -> x_active c = [] -> threads_ok (threads_start c).
Proof.
  intros Hc Ha. unfold threads_start. split; cbn [m_ctx m_guard m_slots m_worker]; [done|rewrite Ha; constructor| |done|done].
  exists (replicate MAX_PEERS []). rewrite Ha. split.
  - apply Forall2_replicate. apply (so_idle peer_reset_fields). split; [cbn; unfold NM_MAX_USER; lia|done].
  - unfold concat_all. generalize MAX_PEERS. intros n. by induction n as [|n IH].
Qed.

Lemma threads_steps_ok m m' : rtc orderly_step m m' -> threads_ok m -> threads_ok m'.
Proof. induction 1 as [|x y z Hs _ IH]; [done|]. intros H. apply IH. by eapply thread_step_ok. Qed.

(** The connection in slot [i] is a session of [p]'s user that can still send requests. *)
Definition in_session (m : nm_threads) (i : nat) (p : peer) : Prop :=
  p_type p = PeerClient /\ exists s, m_slots m !! i = Some s /\ s_peer s = p /\ (forall t, s_activity s <> Ending t).

Lemma in_session_owns m i p owns :
  Forall2 slot_ok owns (m_slots m) -> in_session m i p -> owns !! i = Some [p_user p].
Proof.
  intros H3 (Hp & s & Hi & Hs & He). destruct (Forall2_lookup_r _ _ _ _ _ H3 Hi) as (own & Hown & Hok).
  assert (session p = [p_user p]) as E by (unfold session; by rewrite Hp). rewrite Hown. f_equal.
  destruct Hok as [q|q t|q own t _ _ Hq|q own t]; cbn in *; subst; [done|done|congruence|by destruct (He t)].
Qed.

(** C12: The name manager with all its threads, step by step, in an orderly run.  A run is orderly when
    no thread is in the tables without the state lock while another is in them (the code takes no
    lock for the end of DELETE, for registrations, for a new user's entry and for looking at a
    server's connection), when the surplus [STATE_UNLOCK] at the end of DELETE finds the lock
    free, and when the second clearing of a slot by a thread that has closed its connection comes
    before a new connection gets the slot; none of these is sure ([surplus_unlock_admits],
    [late_reset_ends_session]).  Then, however the steps of the connections' threads, the
    replication worker and the ticket pruner interleave from a start with nobody connected, with
    commands under way and other threads running between any two of them, the lock keeps the threads
    apart: there is never more than one in the tables.  The tables are well formed at every
    moment, no two connections that can still send requests are sessions of the same user, the
    user of each is in the list of connected users, no name is there twice, and when no thread is
    in the middle of something the list is exactly the users of the open connections. *)
Theorem threads_sessions_exclusive c m (Hc : ctx_ok c) (Ha : x_active c = []) (Hr : rtc orderly_step (threads_start c) m) :
  (forall x y, x ∈ g_inside (m_guard m) -> y ∈ g_inside (m_guard m) -> x = y) /\
  ctx_ok (m_ctx m) /\ NoDup (x_active (m_ctx m)) /\
  (forall i j p q, in_session m i p -> in_session m j q -> p_user p = p_user q -> i = j) /\
  (forall i p, in_session m i p -> p_user p ∈ x_active (m_ctx m)) /\
  ((forall i s, m_slots m !! i = Some s -> s_activity s = Idle) ->
   forall u, u ∈ x_active (m_ctx m) <-> exists i p, in_session m i p /\ p_user p = u).
Proof.
  destruct (threads_steps_ok _ _ Hr (threads_ok_start c Hc Ha)) as [H1 H2 (owns & H3 & H4) _ Hg].
  split; [intros x y; by apply guard_ok_alone|].
  assert (forall i p, in_session m i p -> p_user p ∈ x_active (m_ctx m)) as Hin.
  { intros i p Hp%(in_session_owns _ _ _ _ H3). rewrite <- H4, (concat_at _ _ _ Hp). by left. }
  split; [done|]. split; [done|]. split; [|split; [exact Hin|]].
  - intros i j p q Hp%(in_session_owns _ _ _ _ H3) Hq%(in_session_owns _ _ _ _ H3) E. destruct (decide (i = j)) as [|Hne]; [done|exfalso].
    rewrite <- H4, (concat_at _ _ _ Hp) in H2. apply NoDup_cons in H2 as [Hni _]. apply Hni. rewrite E. unfold concat_all.
    apply list_elem_of_bind. exists [p_user q]. split; [by left|]. apply list_elem_of_lookup. destruct (decide (j < i)).
    + exists j. by rewrite list_lookup_delete_lt.
    + exists (j - 1). rewrite list_lookup_delete_ge by lia. by replace (S (j - 1)) with j by lia.
  - intros Hidle u. split; [|intros (i & p & Hp & <-); by eapply Hin]. rewrite <- H4. unfold concat_all. rewrite list_elem_of_bind.
    intros (own & Hu & (i & Hi)%list_elem_of_lookup). destruct (Forall2_lookup_l _ _ _ _ _ H3 Hi) as (s & Hs & Hok). specialize (Hidle i s Hs).
    destruct Hok as [p Hp| | |]; try discriminate Hidle. unfold session, id in Hu. destruct (p_type p) eqn:Ep; try (by apply not_elem_of_nil in Hu).
    apply list_elem_of_singleton in Hu as ->. exists i, p. split; [|done]. split; [done|]. by exists (mk_slot p Idle).
Qed.

(** ** Concrete runs *)

(** The next step of a program, if there is one that is known. *)
Definition advance_prog {A} (me : thread_id) (c : nm_context) (g : guard) (t : prog A) : option (bool * nm_context * guard * prog A) :=
  match t with
  | Ret _ => None
  | Atomic Own f k => Some (true, snd (f c), g, k (fst (f c)))
  | Atomic Surplus f k => Some (negb (g_locked g), snd (f c), mk_guard false (g_inside g), k (fst (f c)))
  | Atomic how f k =>
      if bool_decide (g_inside g = [(me, how)]) then Some (true, snd (f c), leave me how g, k (fst (f c)))
      else if bool_decide (me ∈ (g_inside g).*1) then None
      else if bool_decide (how = Locked) then
        if g_locked g then None
        else Some (bool_decide (Bare ∉ (g_inside g).*2), c, mk_guard true ((me, how) :: g_inside g), t)
      else Some (bool_decide (g_inside g = []), c, mk_guard (g_locked g) ((me, how) :: g_inside g), t)
  end.

Lemma advance_prog_step {A} me c g (t : prog A) ok c' g' t' :
  advance_prog me c g t = Some (ok, c', g', t') -> prog_step me ok c g t c' g' t'.
Proof.
  destruct t as [a|how B f k], g as [lk inside]; cbn [advance_prog g_inside g_locked]; [done|].
  destruct how; try (intros [= <- <- <- <-]; apply ps_own || apply (ps_surplus me c (mk_guard lk inside))).
  - destruct (bool_decide_reflect (inside = [(me, Locked)])) as [->|_]; [intros [= <- <- <- <-]; by apply ps_access|].
    destruct (bool_decide_reflect (me ∈ inside.*1)) as [|Hme]; [done|]. cbn. destruct lk; [done|]. intros [= <- <- <- <-]. by apply ps_lock.
  - destruct (bool_decide_reflect (inside = [(me, Bare)])) as [->|_]; [intros [= <- <- <- <-]; by apply ps_access|].
    destruct (bool_decide_reflect (me ∈ inside.*1)) as [|Hme]; [done|]. cbn. intros [= <- <- <- <-]. by apply ps_enter.
Qed.

Inductive move :=
| Accept (fd : Z)
| Say (i : nat) (text : String.string)
| HangUp (i : nat)
| Advance (i : nat)
| Reset (i : nat).

Definition play (a : move) (m : nm_threads) : option (bool * nm_threads) :=
  let '(mk_threads c g ms w late) := m in
  let put i s := mk_threads c g (<[i := s]> ms) w late in
  match a with
  | Accept fd => (fun x => (true, put (fst x) (mk_slot (mk_peer fd PeerUnknown (-1) []) Idle))) <$> find_first (fun s => is_unused (s_peer s)) ms
  | Say i text =>
      match ms !! i with
      | Some (mk_slot p Idle) =>
          if negb (is_unused p) && bool_decide (is_Some (json_get_string (js text) (cs "type") 64)) then
            Some (true, put i (mk_slot p (Serving (dispatch_steps (fun _ _ => None) (fun _ => None) [] 0 p (js text) 100))))
          else None
      | _ => None
      end
  | HangUp i =>
      match ms !! i with
      | Some (mk_slot p Idle) => if negb (is_unused p) then Some (true, put i (mk_slot p (Ending (disconnect_steps p)))) else None
      | _ => None
      end
  | Advance i =>
      match ms !! i with
      | Some (mk_slot p (Serving (Ret (r, go, p')))) => Some (true, put i (next_message r go p'))
      | Some (mk_slot p (Serving t)) =>
          (fun '(ok, c', g', t') => (ok, mk_threads c' g' (<[i := mk_slot p (Serving t')]> ms) w late)) <$> advance_prog (Conn i) c g t
      | Some (mk_slot p (Ending (Ret _))) => Some (true, mk_threads c g (<[i := mk_slot peer_reset_fields Idle]> ms) w (i :: late))
      | Some (mk_slot p (Ending t)) =>
          (fun '(ok, c', g', t') => (ok, mk_threads c' g' (<[i := mk_slot p (Ending t')]> ms) w late)) <$> advance_prog (Conn i) c g t
      | _ => None
      end
  | Reset i =>
      match late, ms !! i with
      | j :: late', Some s =>
          if bool_decide (j = i) then Some (is_unused (s_peer s), mk_threads c g (<[i := mk_slot peer_reset_fields (s_activity s)]> ms) w late')
          else None
      | _, _ => None
      end
  end.

Lemma used_type p : negb (is_unused p) = true -> p_type p <> PeerUnused.
Proof. unfold is_unused. by destruct (p_type p). Qed.

Lemma play_step a m ok m' : play a m = Some (ok, m') -> thread_step ok m m'.
Proof.
  destruct m as [c g ms w late]. destruct a as [fd|i text|i|i|i]; cbn [play].
  - intros ([j s] & Hf & [= -> ->])%fmap_Some. by eapply th_accept.
  - destruct (ms !! i) as [[p [| |]]|] eqn:Hi; try done. destruct (negb _) eqn:Hp; [|done].
    destruct (bool_decide_reflect (is_Some (json_get_string (js text) (cs "type") 64))) as [[x Hj]|]; [|done].
    intros [= <- <-]. apply th_message; [done|by apply used_type|by rewrite Hj].
  - destruct (ms !! i) as [[p [| |]]|] eqn:Hi; try done. destruct (negb _) eqn:Hp; [|done]. intros [= <- <-]. apply th_hangup; [done|by apply used_type].
  - destruct (ms !! i) as [[p [|[[[r go] p']|how B f k]|[[]|how B f k]]]|] eqn:Hi; try done.
    + intros [= <- <-]. by eapply th_answer.
    + intros ([[[ok' c'] g'] t'] & Hx%advance_prog_step & [= -> ->])%fmap_Some. by eapply th_serve.
    + intros [= <- <-]. by eapply th_close.
    + intros ([[[ok' c'] g'] t'] & Hx%advance_prog_step & [= -> ->])%fmap_Some. by eapply th_end.
  - destruct late as [|j late']; [done|]. destruct (ms !! i) as [s|] eqn:Hi; [|done]. destruct (bool_decide_reflect (j = i)) as [->|]; [|done].
    intros [= <- <-]. by eapply th_reset.
Qed.

(** All moves, and whether every step was orderly. *)
Fixpoint plays (l : list move) (m : nm_threads) : option (bool * nm_threads) :=
  match l with
  | [] => Some (true, m)
  | a :: l => '(ok, m) ← play a m; '(oks, m) ← plays l m; Some (ok && oks, m)
  end.

Lemma plays_steps l m ok m' : plays l m = Some (ok, m') -> rtc any_step m m' /\ (ok = true -> rtc orderly_step m m').
Proof.
  revert m ok. induction l as [|a l IH]; intros m ok; cbn [plays]; [by intros [= <- <-]|].
  intros ([ok1 m1] & Ha%play_step & ([ok2 m2] & H2 & [= <- ->])%bind_Some)%bind_Some. destruct (IH _ _ H2) as [R1 R2]. split.
  - eapply rtc_l; [by exists ok1|done].
  - intros [-> ->]%andb_true_iff. eapply rtc_l; [exact Ha|auto].
Qed.

Definition ann_hello := "{'type':'CLIENT_HELLO','user':'ann'}".

(** Two connections ask for the same name, and both find it free before either takes it. *)
Definition demo_greeting : option (bool * nm_threads) :=
  plays [Accept 7; Accept 8; Say 0 ann_hello; Say 1 ann_hello; Advance 0; Advance 1; Advance 0; Advance 1; Advance 0; Advance 0; Advance 0; Advance 1]
    (threads_start demo_start).

Lemma threads_sessions_exclusive_witness :
  match demo_greeting with
  | Some (true, m) =>
      ctx_ok (m_ctx m) /\ x_active (m_ctx m) = [cs "ann"] /\
      map s_peer (take 3 (m_slots m)) = [mk_peer 7 PeerClient (-1) (cs "ann"); mk_peer 8 PeerUnknown (-1) []; peer_reset_fields]
  | _ => False
  end.
Proof.
  destruct demo_greeting as [[ok m]|] eqn:E; [|vm_compute in E; discriminate E].
  assert (ok = true) as Hok by (vm_compute in E; by injection E as <- _). subst ok.
  destruct (threads_sessions_exclusive demo_start m demo_start_ok eq_refl (proj2 (plays_steps _ _ _ _ E) eq_refl)) as (_ & H & _).
  split; [exact H|]. vm_compute in E. injection E as <-. split; reflexivity.
Defined.

(** ** What an orderly run leaves out *)

Definition demo_nobody : nm_context := with_active [] (demo_ctx [] [Some (js "{'status':'OK'}")]).
Lemma demo_nobody_ok : ctx_ok demo_nobody.
Proof. exact (demo_ctx_ok [] [Some (js "{'status':'OK'}")]). Qed.

(** Ann's DELETE has been carried out by the storage server while bob's INFO is in the tables under
    the lock.  The unlock at the end of DELETE frees bob's lock, and carl's INFO enters as well. *)
Lemma surplus_unlock_admits :
  exists m, rtc any_step (threads_start demo_nobody) m /\
    g_inside (m_guard m) = [(Conn 2, Locked); (Conn 1, Locked)].
Proof.
  set (hello i u := [Say i u; Advance i; Advance i; Advance i; Advance i; Advance i]).
  set (go := plays ([Accept 7; Accept 8; Accept 9] ++ hello 0 ann_hello ++ hello 1 "{'type':'CLIENT_HELLO','user':'bob'}"
      ++ hello 2 "{'type':'CLIENT_HELLO','user':'carl'}"
      ++ [Say 0 "{'type':'DELETE','file':'plan'}"] ++ replicate 9 (Advance 0)
      ++ [Say 1 "{'type':'INFO','file':'plan'}"; Advance 1; Advance 0; Say 2 "{'type':'INFO','file':'plan'}"; Advance 2])
    (threads_start demo_nobody)).
  assert ((fun x => g_inside (m_guard (snd x))) <$> go = Some [(Conn 2, Locked); (Conn 1, Locked)]) as Hin by (vm_compute; reflexivity).
  destruct go as [[ok m]|] eqn:E; [|discriminate Hin]. injection Hin as Hin.
  exists m. split; [by apply (plays_steps _ _ _ _ E)|exact Hin].
Qed.

(** Ann's connection is lost and its slot free again; her new connection gets the slot and is greeted
    before the thread of the first one clears the slot for the second time.  Then her new connection
    is gone from the slots, and her name stays in the list of connected users. *)
Lemma late_reset_ends_session :
  exists m, rtc any_step (threads_start demo_start) m /\
    (forall i s, m_slots m !! i = Some s -> s_activity s = Idle /\ s_peer s = peer_reset_fields) /\ x_active (m_ctx m) = [cs "ann"].
Proof.
  set (go := plays [Accept 7; HangUp 0; Advance 0; Accept 8; Say 0 ann_hello; Advance 0; Advance 0; Advance 0; Advance 0; Advance 0; Reset 0]
    (threads_start demo_start)).
  assert ((fun x => (m_slots (snd x), x_active (m_ctx (snd x)))) <$> go = Some (replicate MAX_PEERS (mk_slot peer_reset_fields Idle), [cs "ann"]))
    as Hm by (vm_compute; reflexivity).
  remember (replicate MAX_PEERS (mk_slot peer_reset_fields Idle)) as l eqn:El in Hm.
  destruct go as [[ok m]|] eqn:E; [|discriminate Hm]. injection Hm as Hs Ha.
  exists m. split; [by apply (plays_steps _ _ _ _ E)|]. split; [|exact Ha]. cbn [snd] in Hs. rewrite Hs, El.
  intros i s [-> _]%lookup_replicate. done.
Qed.
