(* ===== verification/NmStart.v ===== *)
(** * [nm/nm_main.c]: starting and stopping the name manager

    [main] sets up the tables, the locks, the log files, the listening socket and the slots,
    accepts connections until its socket is gone, and takes everything down again, on every
    way out through [close_context].  A mutex or condition variable is live between its
    initialisation and its destruction. *)

From stdpp Require Import relations.
From S2P Require Import Prelude Cstr Json Proto Fs NmState NmPersist NmServer NmRequests NmReplica NmSystem.

(** ** Locks *)

Inductive lock_id :=
| StateLock | TicketLock | UserLock | PeerLock | LogGeneralLock | LogRequestsLock | ReplicationLock | ReplicationCond
| PeerIo (i : nat) | PeerCond (i : nat).

#[export] Instance lock_id_eq_dec : EqDecision lock_id.
Proof. solve_decision. Defined.

(** The live ones; the outcomes of the initialisations to come; and what was done with a lock
    in the wrong state, which has no defined behaviour. *)
Record locks := mk_locks { live : list lock_id; outcomes : list bool; misused : list lock_id }.

(** [pthread_mutex_init] and [pthread_cond_init] *)
Definition lock_init (l : lock_id) (k : locks) : bool * locks :=
  let misused' := if decide (l ∈ live k) then l :: misused k else misused k in
  match outcomes k with
  | false :: o => (false, mk_locks (live k) o misused')
  | true :: o => (true, mk_locks (l :: live k) o misused')
  | [] => (true, mk_locks (l :: live k) [] misused')
  end.

(** [pthread_mutex_destroy] and [pthread_cond_destroy] *)
Definition lock_destroy (l : lock_id) (k : locks) : locks :=
  if decide (l ∈ live k) then mk_locks (filter (fun l' => l' <> l) (live k)) (outcomes k) (misused k)
  else mk_locks (live k) (outcomes k) (l :: misused k).

(** Taking and releasing a lock. *)
Definition lock_use (l : lock_id) (k : locks) : locks :=
  if decide (l ∈ live k) then k else mk_locks (live k) (outcomes k) (l :: misused k).

Definition destroy_all (ls : list lock_id) (k : locks) : locks := foldl (fun k l => lock_destroy l k) k ls.

(** One initialisation after the other; when one fails, those before it are undone. *)
Fixpoint init_all (todo before : list lock_id) (k : locks) : bool * locks :=
  match todo with
  | [] => (true, k)
  | l :: todo =>
      let '(ok, k) := lock_init l k in
      if ok then init_all todo (l :: before) k else (false, destroy_all before k)
  end.

Definition context_locks : list lock_id :=
  [StateLock; TicketLock; UserLock; PeerLock; LogGeneralLock; LogRequestsLock; ReplicationLock; ReplicationCond].

Definition init_context_locks (k : locks) : bool * locks := init_all context_locks [] k.

(** [peer_slot_setup]: the slot with [io_lock_ready]. *)
Definition peer_slot_setup (i : nat) (k : locks) : option peer * locks :=
  let '(ok, k) := init_all [PeerIo i; PeerCond i] [] k in
  (if ok then Some peer_reset_fields else None, k).

(** ** The process *)

Record nm_process := mk_process {
  z_sys : nm_system;
  z_locks : locks;
  z_locks_ready : bool;
  (** the slots with [io_lock_ready] *)
  z_ready : list bool;
  z_listen_fd : Z;
  z_logs : bool * bool;
  z_shutting_down : bool;
  z_workers : bool * bool;
  (** descriptors closed by this thread, in order *)
  z_closed : list Z;
}.

Definition with_sys (y : nm_system) (z : nm_process) : nm_process :=
  mk_process y (z_locks z) (z_locks_ready z) (z_ready z) (z_listen_fd z) (z_logs z) (z_shutting_down z) (z_workers z) (z_closed z).
Definition with_locks (k : locks) (ready : bool) (slots : list bool) (z : nm_process) : nm_process :=
  mk_process (z_sys z) k ready slots (z_listen_fd z) (z_logs z) (z_shutting_down z) (z_workers z) (z_closed z).
Definition use (l : lock_id) (z : nm_process) : nm_process := with_locks (lock_use l (z_locks z)) (z_locks_ready z) (z_ready z) z.
Definition close_fd (fd : Z) (z : nm_process) : nm_process :=
  mk_process (z_sys z) (z_locks z) (z_locks_ready z) (z_ready z) (z_listen_fd z) (z_logs z) (z_shutting_down z) (z_workers z)
    (z_closed z ++ [fd]).
Definition set_peer (i : nat) (p : peer) (z : nm_process) : nm_process :=
  with_sys (mk_sys (y_ctx (z_sys z)) (<[i := p]> (y_peers (z_sys z)))) z.

(** [peer_slot_destroy] *)
Definition peer_slot_destroy (k : locks) (slot : nat * bool) : locks :=
  let '(i, ready) := slot in
  if ready : bool then destroy_all [PeerIo i; PeerCond i] (lock_use (PeerIo i) k) else k.

(** [destroy_context_locks] *)
Definition destroy_context_locks (z : nm_process) : nm_process :=
  if negb (z_locks_ready z) then z
  else
    let k := foldl peer_slot_destroy (z_locks z) (imap pair (z_ready z)) in
    let k := destroy_all [LogRequestsLock; ReplicationCond; ReplicationLock; LogGeneralLock; PeerLock; UserLock; TicketLock; StateLock] k in
    with_locks k false (replicate (length (z_ready z)) false) z.

(** The lock of slot [i], taken when it has been set up. *)
Definition use_slot (i : nat) (z : nm_process) : nm_process :=
  let z := use PeerLock z in
  match z_ready z !! i with Some true => use (PeerIo i) z | _ => z end.

(** [peer_close] and [peer_reset] of slot [i]; the answer waiting in the slot is part of
    [NmRpc]. *)
Definition peer_close (i : nat) (z : nm_process) : nm_process :=
  let z := use_slot i z in
  match y_peers (z_sys z) !! i with
  | None => z
  | Some p => set_peer i peer_reset_fields (if (0 <=? p_fd p)%Z then close_fd (p_fd p) z else z)
  end.
Definition peer_reset (i : nat) (z : nm_process) : nm_process := set_peer i peer_reset_fields (use_slot i z).

(** ** [close_context] *)

(** How the thread of a connection ends when [close_context] has closed its descriptor: its
    [recv] fails, and it ends as when the connection is lost; it comes back to the top of its
    loop, sees [shutting_down], and only clears its slot; or it is inside [recv], which the [close]
    of another thread does not wake ([net_close] shuts nothing down), and never ends. *)
Inductive thread_end := RecvFails | SeesShutdown | StaysBlocked.

(** [pthread_join] with the thread of slot [i], when there is one; [None]: it does not return. *)
Definition thread_ends (e : thread_end) (i : nat) (z : nm_process) : option nm_process :=
  match y_peers (z_sys z) !! i with
  | Some p =>
      if is_unused p then Some z
      else
        match e with
        | RecvFails => Some (with_sys (end_connection i p (z_sys z)) (use_slot i z))
        | SeesShutdown => Some (peer_reset i z)
        | StaysBlocked => None
        end
  | None => Some z
  end.

(** The loop over the slots: descriptors are closed, threads joined, slots reset. *)
Definition close_slot (e : thread_end) (i : nat) (z : nm_process) : option nm_process :=
  let z := use PeerLock z in
  let z := match y_peers (z_sys z) !! i with
           | Some p => if (0 <=? p_fd p)%Z then close_fd (p_fd p) z else z
           | None => z
           end in
  peer_reset i <$> thread_ends e i z.

Fixpoint close_slots (ends : nat -> thread_end) (slots : list nat) (z : nm_process) : option nm_process :=
  match slots with
  | [] => Some z
  | i :: slots => z ← close_slot (ends i) i z; close_slots ends slots z
  end.

Definition close_listen (z : nm_process) : nm_process :=
  if (0 <=? z_listen_fd z)%Z then
    mk_process (z_sys z) (z_locks z) (z_locks_ready z) (z_ready z) (-1) (z_logs z) (z_shutting_down z) (z_workers z)
      (z_closed z ++ [z_listen_fd z])
  else z.

(** The tables are freed with the state saved. *)
Definition save_context (c : nm_context) : nm_context :=
  let '(_, d) := nm_state_save (x_path c) (x_state c) (x_disk c) in
  mk_ctx (x_state c) (x_path c) d [] [] [] (x_forwarded c) (x_answers c) (x_tokens c).

(** [shutting_down] is set and the replication worker woken. *)
Definition announce_shutdown (z : nm_process) : nm_process :=
  let z := mk_process (z_sys z) (z_locks z) (z_locks_ready z) (z_ready z) (z_listen_fd z) (z_logs z) true (z_workers z) (z_closed z) in
  if z_locks_ready z then use ReplicationLock z else z.

(** The workers are joined, the tables freed, the log files closed. *)
Definition free_context (z : nm_process) : nm_process :=
  mk_process (mk_sys (save_context (y_ctx (z_sys z))) (y_peers (z_sys z))) (z_locks z) (z_locks_ready z) (z_ready z)
    (z_listen_fd z) (false, false) (z_shutting_down z) (false, false) (z_closed z).

(** [None] when a thread is never joined. *)
Definition close_context (ends : nat -> thread_end) (z : nm_process) : option nm_process :=
  let z := close_listen (announce_shutdown z) in
  z ← close_slots ends (seq 0 MAX_PEERS) z;
  Some (destroy_context_locks (free_context z)).

(** ** The loop of [main] *)

(** What [accept] returns, and whether the thread can be started. *)
Inductive accepted :=
| Connection (fd : Z) (started : bool)
| InterruptedCall        (** [EINTR] *)
| SocketGone             (** [EBADF] or [EINVAL] *)
| OtherError.

Definition accept_one (a : accepted) (z : nm_process) : nm_process :=
  match a with
  | Connection fd started =>
      let z := use PeerLock z in
      match allocate_peer (y_peers (z_sys z)) with
      | None => close_fd fd z
      | Some i =>
          let z := set_peer i (mk_peer fd PeerUnknown (-1) []) z in
          if started then z else peer_reset i (peer_close i z)
      end
  | _ => z
  end.

(** Between two calls of [accept] the other threads run: [Meanwhile f] is what they do. *)
Inductive event :=
| Accept (a : accepted)
| Meanwhile (f : nm_system -> nm_system).

Fixpoint accept_loop (events : list event) (z : nm_process) : nm_process :=
  match events with
  | [] => z
  | Accept SocketGone :: _ => z
  | Accept a :: events => accept_loop events (accept_one a z)
  | Meanwhile f :: events => accept_loop events (with_sys (f (z_sys z)) z)
  end.

(** ** [main] *)

(** The environment of a run: the outcomes of the lock initialisations, the log files, the
    socket, the two workers, what happens from then on, and how the threads end. *)
Record nm_environment := mk_env {
  e_locks : list bool;
  e_logs : bool * bool;
  e_socket : Z;
  e_workers : bool * bool;
  e_events : list event;
  e_ends : nat -> thread_end;
}.

(** The memory [calloc] returns: descriptors are 0. *)
Definition zero_peer : peer := mk_peer 0 PeerUnused 0 [].

Definition initial (path : cstr) (d : disk) (env : nm_environment) : nm_process :=
  let '(s, d) := nm_state_init path d in
  mk_process (mk_sys (mk_ctx s (snprintf_s 256 path) d [] [] [] [] [] []) (replicate MAX_PEERS zero_peer)) (mk_locks [] (e_locks env) []) false
    (replicate MAX_PEERS false) (-1) (false, false) false (false, false) [].

(** The loop that sets up the slots from slot [i]. *)
Fixpoint setup_slots (n i : nat) (z : nm_process) : bool * nm_process :=
  match n with
  | O => (true, z)
  | S n =>
      match peer_slot_setup i (z_locks z) with
      | (Some p, k) => setup_slots n (S i) (set_peer i p (with_locks k (z_locks_ready z) (<[i := true]> (z_ready z)) z))
      | (None, k) => (false, with_locks k (z_locks_ready z) (z_ready z) z)
      end
  end.

(** Up to the loop: whether it is reached. *)
Definition start_up (env : nm_environment) (z : nm_process) : bool * nm_process :=
  let '(ok, k) := init_context_locks (z_locks z) in
  let z := with_locks k (z_locks_ready z || ok) (z_ready z) z in
  if negb ok then (false, z)
  else
    let logs := (fst (e_logs env), fst (e_logs env) && snd (e_logs env)) in
    let z := mk_process (z_sys z) (z_locks z) (z_locks_ready z) (z_ready z) (z_listen_fd z) logs (z_shutting_down z) (z_workers z) (z_closed z) in
    if negb (snd logs) then (false, z)
    else
      (* a second time *)
      let '(ok, k) := init_context_locks (z_locks z) in
      let z := with_locks k true (z_ready z) z in
      if negb ok then (false, z)
      else
        let z := mk_process (z_sys z) (z_locks z) (z_locks_ready z) (z_ready z) (e_socket env) (z_logs z) (z_shutting_down z) (z_workers z) (z_closed z) in
        if (e_socket env <? 0)%Z then (false, z)
        else
          let '(ok, z) := setup_slots MAX_PEERS 0 z in
          if negb ok then (false, z)
          else (true, mk_process (z_sys z) (z_locks z) (z_locks_ready z) (z_ready z) (z_listen_fd z) (z_logs z) false (e_workers env) (z_closed z)).

(** The exit status and the process at the end, if it ends. *)
Definition nm_main (path : cstr) (d : disk) (env : nm_environment) : option (Z * nm_process) :=
  let '(up, z) := start_up env (initial path d env) in
  if up then pair 0%Z <$> close_context (e_ends env) (accept_loop (e_events env) z) else pair 1%Z <$> close_context (e_ends env) z.

(** ** All the locks or none *)

Lemma filter_ne_id (l : lock_id) (ls : list lock_id) : l ∉ ls -> filter (fun l' => l' <> l) ls = ls.
Proof.
  intros H. induction ls as [|x ls IH]; [done|]. apply not_elem_of_cons in H as [H1 H2].
  rewrite filter_cons_True by congruence. by rewrite IH.
Qed.

Lemma destroy_all_live before k :
  NoDup before -> (forall l, l ∈ before -> l ∉ live k) -> outcomes (destroy_all before (mk_locks (before ++ live k) (outcomes k) (misused k))) = outcomes k /\
  live (destroy_all before (mk_locks (before ++ live k) (outcomes k) (misused k))) = live k /\
  misused (destroy_all before (mk_locks (before ++ live k) (outcomes k) (misused k))) = misused k.
Proof.
  intros Hn. revert k. induction Hn as [|l before Hl Hn IH]; intros k Hk; [done|].
  unfold destroy_all in *. cbn [foldl app]. unfold lock_destroy at 2 4 6. cbn [live outcomes misused].
  rewrite decide_True by left. rewrite filter_cons_False by (by intros []). rewrite filter_ne_id.
  - apply IH. intros l' Hl'. apply Hk. by right.
  - intros [?|Hin]%elem_of_app; [done|]. apply (Hk l); [left|done].
Qed.

(** Either everything is initialised, or nothing is left of what was. *)
Lemma init_all_spec todo before k :
  NoDup (before ++ todo) -> (forall l, l ∈ before ++ todo -> l ∉ live k) ->
  let '(ok, k') := init_all todo before (mk_locks (before ++ live k) (outcomes k) (misused k)) in
  live k' = (if ok then rev todo ++ before else []) ++ live k /\ misused k' = misused k.
Proof.
  revert before k. induction todo as [|l todo IH]; intros before k Hn Hk; cbn [init_all].
  { done. }
  assert (l ∉ before ++ live k) as Hl.
  { intros [Hin|Hin]%elem_of_app.
    - apply NoDup_app in Hn as (_ & Hd & _). apply (Hd l Hin). left.
    - apply (Hk l); [|done]. apply elem_of_app. right. left. }
  unfold lock_init. cbn [live misused outcomes]. rewrite decide_False by done.
  assert (NoDup ((l :: before) ++ todo)) as Hn' by (by rewrite <- Permutation_middle in Hn).
  assert (forall l', l' ∈ (l :: before) ++ todo -> l' ∉ live k) as Hk'.
  { intros l' Hin. apply Hk. by rewrite <- Permutation_middle. }
  assert (forall o, let '(ok, k') := init_all todo (l :: before) (mk_locks (l :: before ++ live k) o (misused k)) in
    live k' = (if ok then rev (l :: todo) ++ before else []) ++ live k /\ misused k' = misused k) as Hgo.
  { intros o. pose proof (IH (l :: before) (mk_locks (live k) o (misused k)) Hn' Hk') as H. cbn [live outcomes misused app] in H.
    destruct (init_all _ _ _) as [[] k']; [|done]. cbn [rev]. by rewrite <- !app_assoc in *. }
  destruct (outcomes k) as [|[] o] eqn:Eo; [apply Hgo|apply Hgo|].
  destruct (destroy_all_live before (mk_locks (live k) o (misused k))) as (H1 & H2 & H3); cbn [live outcomes misused] in *; [|intros l' Hin; apply Hk, elem_of_app; by left|done].
  by apply NoDup_app in Hn as (? & _).
Qed.

Lemma context_locks_NoDup : NoDup context_locks.
Proof. apply (bool_decide_unpack _). by vm_compute. Qed.

Lemma init_context_locks_spec k :
  (forall l, l ∈ context_locks -> l ∉ live k) ->
  let '(ok, k') := init_context_locks k in
  live k' = (if ok then rev context_locks else []) ++ live k /\ misused k' = misused k.
Proof.
  intros Hk. pose proof (init_all_spec context_locks [] k context_locks_NoDup Hk) as H. destruct k as [l o m]. cbn [app live outcomes misused] in *.
  unfold init_context_locks. destruct (init_all _ _ _) as [[] k']; [by rewrite app_nil_r in H|done].
Qed.

(** ** Taking the process down *)

Definition open_fds (ps : list peer) : list Z := filter (fun fd => (0 <= fd)%Z) (p_fd <$> ps).

(** What [close_slot] leaves alone. *)
Definition same_frame (z z' : nm_process) : Prop :=
  z_locks z' = z_locks z /\ z_locks_ready z' = z_locks_ready z /\ z_ready z' = z_ready z /\ z_listen_fd z' = z_listen_fd z.

(** The locks the slots need. *)
Definition locks_usable (z : nm_process) : Prop :=
  PeerLock ∈ live (z_locks z) /\ forall i, z_ready z !! i = Some true -> PeerIo i ∈ live (z_locks z).

Lemma locks_usable_frame z z' : same_frame z z' -> locks_usable z -> locks_usable z'.
Proof. intros (E1 & E2 & E3 & E4) [H1 H2]. unfold locks_usable. by rewrite E1, E3. Qed.

Lemma use_live l z : l ∈ live (z_locks z) -> use l z = z.
Proof. intros H. unfold use, lock_use. rewrite decide_True by done. by destruct z. Qed.

Lemma use_slot_live i z : locks_usable z -> use_slot i z = z.
Proof.
  intros [H1 H2]. unfold use_slot. rewrite use_live by done. destruct (z_ready z !! i) as [[]|] eqn:E; [|done..].
  by rewrite use_live by (by apply H2).
Qed.

Lemma disconnect_unused p c : is_unused p = true -> handle_server_disconnect p c = c.
Proof. unfold is_unused, handle_server_disconnect. by destruct (p_type p). Qed.

(** What is left of the connection of a slot. *)
Definition end_slot (e : thread_end) (i : nat) (p : peer) (y : nm_system) : nm_system :=
  match e with
  | SeesShutdown => mk_sys (y_ctx y) (<[i := peer_reset_fields]> (y_peers y))
  | RecvFails | StaysBlocked => end_connection i p y
  end.

Lemma end_slot_unused e i p y : is_unused p = true -> end_slot e i p y = mk_sys (y_ctx y) (<[i := peer_reset_fields]> (y_peers y)).
Proof. intros Hu. unfold end_slot, end_connection. rewrite disconnect_unused by done. by destruct e. Qed.

Lemma end_slot_peers e i p y : y_peers (end_slot e i p y) = <[i := peer_reset_fields]> (y_peers y).
Proof. by destruct e. Qed.

(** The thread that is waited for in vain. *)
Definition blocked (e : thread_end) (p : peer) : Prop := is_unused p = false /\ e = StaysBlocked.

Lemma close_slot_spec e z i p :
  locks_usable z -> y_peers (z_sys z) !! i = Some p ->
  match close_slot e i z with
  | None => blocked e p
  | Some z' => ~ blocked e p /\ same_frame z z' /\ z_sys z' = end_slot e i p (z_sys z) /\ z_closed z' = z_closed z ++ open_fds [p]
  end.
Proof.
  intros Hl Hp. unfold close_slot. rewrite (use_live PeerLock z) by apply Hl. rewrite Hp.
  set (z1 := if (0 <=? p_fd p)%Z then _ else z).
  assert (same_frame z z1 /\ z_sys z1 = z_sys z /\ z_closed z1 = z_closed z ++ open_fds [p]) as (F1 & S1 & C1).
  { unfold z1, open_fds. cbn [fmap list_fmap]. destruct (Z.leb_spec 0 (p_fd p)).
    - by rewrite filter_cons_True by done.
    - rewrite filter_cons_False by lia. by rewrite app_nil_r. }
  clearbody z1. pose proof (locks_usable_frame _ _ F1 Hl) as Hl1. unfold peer_reset, thread_ends. rewrite S1, Hp.
  destruct (is_unused p) eqn:Eu.
  - cbn. split; [by intros [? _]; congruence|]. rewrite use_slot_live by done. split; [done|]. split; [|done].
    rewrite end_slot_unused by done. cbn. by rewrite S1.
  - unfold peer_reset. rewrite !(use_slot_live i z1) by done. destruct e; [| |done]; cbn [fmap option_fmap option_map];
      (split; [by intros [_ ?]|]); (rewrite use_slot_live by done); (split; [done|]); (split; [|done]); cbn; by rewrite ?S1, list_insert_insert_eq.
Qed.

(** The loop is the end of every connection, one slot after the other. *)
Definition end_all (ends : nat -> thread_end) (ps : list peer) (i : nat) (y : nm_system) : nm_system :=
  foldl (fun y jp => end_slot (ends (fst jp)) (fst jp) (snd jp) y) y (zip (seq i (length ps)) ps).

Lemma end_all_cons ends p ps i y : end_all ends (p :: ps) i y = end_all ends ps (S i) (end_slot (ends i) i p y).
Proof. done. Qed.

Lemma close_slots_spec ends ps i z :
  locks_usable z -> drop i (y_peers (z_sys z)) = ps ->
  match close_slots ends (seq i (length ps)) z with
  | None => exists j p, ps !! j = Some p /\ blocked (ends (i + j)) p
  | Some z' =>
      (forall j p, ps !! j = Some p -> ~ blocked (ends (i + j)) p) /\
      same_frame z z' /\ z_sys z' = end_all ends ps i (z_sys z) /\ z_closed z' = z_closed z ++ open_fds ps
  end.
Proof.
  revert i z. induction ps as [|p ps IH]; intros i z Hl Hps; cbn [length seq close_slots].
  { rewrite app_nil_r. by repeat split. }
  assert (y_peers (z_sys z) !! i = Some p) as Hp by (rewrite <- (Nat.add_0_r i), <- lookup_drop, Hps; done).
  pose proof (close_slot_spec (ends i) z i p Hl Hp) as H. destruct (close_slot (ends i) i z) as [z1|]; cbn [mbind option_bind].
  2:{ exists 0, p. by rewrite Nat.add_0_r. }
  destruct H as (Hb & (F1 & F2 & F3 & F4) & Es & Ec). specialize (IH (S i) z1).
  assert (drop (S i) (y_peers (z_sys z1)) = ps) as Hps'.
  { rewrite Es, end_slot_peers, drop_insert_lt by lia. by rewrite (drop_S _ _ _ Hp) in Hps; injection Hps. }
  assert (locks_usable z1) as Hl1 by (by eapply locks_usable_frame). specialize (IH Hl1 Hps').
  destruct (close_slots ends (seq (S i) (length ps)) z1) as [z2|].
  - destruct IH as (Hb2 & (G1 & G2 & G3 & G4) & Es' & Ec'). split.
    { intros [|j] q Hq; [injection Hq as <-; by rewrite Nat.add_0_r|]. rewrite <- Nat.add_succ_comm. by apply Hb2. }
    split; [by repeat split; etrans|]. rewrite Es', Ec', Es, Ec. split; [done|].
    unfold open_fds. rewrite <- app_assoc. by rewrite <- (filter_app _ [p_fd p]).
  - destruct IH as (j & q & Hq & Hb2). exists (S j), q. split; [done|]. by rewrite <- Nat.add_succ_comm.
Qed.

Lemma destroy_all_live_filter ls k : live (destroy_all ls k) = filter (fun l => l ∉ ls) (live k).
Proof.
  revert k. induction ls as [|l ls IH]; intros k; unfold destroy_all in *; cbn [foldl].
  - induction (live k) as [|x l IH]; [done|]. rewrite filter_cons_True by apply not_elem_of_nil. by rewrite <- IH.
  - rewrite IH. assert (live (lock_destroy l k) = filter (fun l' => l' <> l) (live k)) as ->.
    { unfold lock_destroy. case_decide; [done|]. cbn [live]. by rewrite filter_ne_id. }
    rewrite list_filter_filter. apply list_filter_iff. intros x. rewrite not_elem_of_cons. tauto.
Qed.

(** ** Start-up *)

Definition slot_locks (i n : nat) : list lock_id := seq i n ≫= fun j => [PeerIo j; PeerCond j].

Lemma elem_of_slot_locks l i n : l ∈ slot_locks i n <-> exists j, i <= j < i + n /\ (l = PeerIo j \/ l = PeerCond j).
Proof.
  unfold slot_locks. rewrite list_elem_of_bind. split.
  - intros (j & Hl & Hj%elem_of_seq). exists j. split; [done|]. rewrite !elem_of_cons, elem_of_nil in Hl. tauto.
  - intros (j & Hj & Hl). exists j. split; [rewrite !elem_of_cons; tauto|]. by apply elem_of_seq.
Qed.

Lemma peer_slot_setup_spec i k :
  PeerIo i ∉ live k -> PeerCond i ∉ live k ->
  match peer_slot_setup i k with
  | (Some p, k') => p = peer_reset_fields /\ live k' = [PeerCond i; PeerIo i] ++ live k /\ misused k' = misused k
  | (None, k') => live k' = live k /\ misused k' = misused k
  end.
Proof.
  intros H1 H2. pose proof (init_all_spec [PeerIo i; PeerCond i] [] k) as H.
  assert (NoDup [PeerIo i; PeerCond i]) as Hn by (apply NoDup_cons; split; [by intros ?%list_elem_of_singleton|apply NoDup_singleton]).
  assert (forall l, l ∈ [PeerIo i; PeerCond i] -> l ∉ live k) as Hd by (intros x; rewrite !elem_of_cons, elem_of_nil; by intros [->|[->|[]]]).
  destruct k as [l o m]. cbn [app live outcomes misused] in *.
  unfold peer_slot_setup. destruct (init_all _ _ _) as [[] k'].
  - destruct H as [H3 H4]; [exact Hn|exact Hd|by split_and!].
  - by apply H.
Qed.

(** The set-up of the slots, one after the other. *)
Lemma setup_slots_spec n i z :
  (forall l, l ∈ slot_locks i n -> l ∉ live (z_locks z)) ->
  length (y_peers (z_sys z)) = i + n -> length (z_ready z) = i + n ->
  let '(ok, z') := setup_slots n i z in
  y_ctx (z_sys z') = y_ctx (z_sys z) /\ z_listen_fd z' = z_listen_fd z /\ z_locks_ready z' = z_locks_ready z /\ z_closed z' = z_closed z /\
  misused (z_locks z') = misused (z_locks z) /\
  (ok = true -> y_peers (z_sys z') = take i (y_peers (z_sys z)) ++ replicate n peer_reset_fields /\
     z_ready z' = take i (z_ready z) ++ replicate n true /\
     forall l, l ∈ live (z_locks z') <-> l ∈ live (z_locks z) \/ l ∈ slot_locks i n).
Proof.
  revert i z. induction n as [|n IH]; intros i z Hl Hp Hr; cbn [setup_slots].
  { split_and!; [done..|]. intros _. rewrite !take_ge by lia. cbn. rewrite !app_nil_r. split_and!; [done|done|]. intros l.
    unfold slot_locks. cbn. rewrite elem_of_nil. tauto. }
  pose proof (peer_slot_setup_spec i (z_locks z)) as Hs.
  assert (forall l, l ∈ [PeerIo i; PeerCond i] -> l ∈ slot_locks i (S n)) as Hin.
  { intros l Hin. apply elem_of_slot_locks. exists i. split; [lia|]. rewrite !elem_of_cons, elem_of_nil in Hin. tauto. }
  destruct (peer_slot_setup i (z_locks z)) as [[p|] k].
  - destruct Hs as (-> & Hk & Hm); [apply Hl, Hin; left|apply Hl, Hin; right; left|].
    set (z1 := set_peer i peer_reset_fields _).
    assert (forall l, l ∈ slot_locks (S i) n -> l ∉ live (z_locks z1)) as Hl1.
    { intros l Hls. cbn. rewrite Hk, elem_of_app, !elem_of_cons, elem_of_nil. apply elem_of_slot_locks in Hls as (j & Hj & Hls).
      intros [H|H]; [destruct Hls; naive_solver lia|]. apply (Hl l); [|done]. apply elem_of_slot_locks. exists j. split; [lia|done]. }
    specialize (IH (S i) z1 Hl1). cbn in IH. rewrite !length_insert in IH. specialize (IH ltac:(lia) ltac:(lia)).
    destruct (setup_slots n (S i) z1) as [ok z']. destruct IH as (I1 & I2 & I3 & I4 & I5 & I6). split_and!; [done..|congruence|].
    intros H. destruct (I6 H) as (J1 & J2 & J3). split_and!.
    + rewrite J1. rewrite (take_S_r _ _ peer_reset_fields) by (by rewrite list_lookup_insert_eq by lia).
      rewrite take_insert_ge by lia. by rewrite <- app_assoc.
    + rewrite J2. rewrite (take_S_r _ _ true) by (by rewrite list_lookup_insert_eq by lia).
      rewrite take_insert_ge by lia. by rewrite <- app_assoc.
    + intros l. rewrite J3, Hk. unfold slot_locks. cbn [seq mbind list_bind]. rewrite !elem_of_app, !elem_of_cons, elem_of_nil. tauto.
  - destruct Hs as (Hk & Hm); [apply Hl, Hin; left|apply Hl, Hin; right; left|]. by split_and!.
Qed.

Lemma elem_of_rev_iff {A} (x : A) l : x ∈ rev l <-> x ∈ l.
Proof. rewrite rev_alt. apply elem_of_reverse. Qed.

(** A process that accepts connections. *)
Record up (z : nm_process) : Prop := {
  up_sys : sys_ok (z_sys z);
  up_locks : forall l, l ∈ live (z_locks z) <-> l ∈ context_locks \/ l ∈ slot_locks 0 MAX_PEERS;
  up_ready : z_locks_ready z = true /\ z_ready z = replicate MAX_PEERS true;
  up_listen : (0 <= z_listen_fd z)%Z;
}.

Lemma context_slot l n : l ∈ context_locks -> l ∉ slot_locks 0 n.
Proof.
  intros Hc (j & _ & Hl)%elem_of_slot_locks. assert (Forall (fun l => match l with PeerIo _ | PeerCond _ => False | _ => True end) context_locks) as Hf
    by repeat constructor. rewrite Forall_forall in Hf. specialize (Hf l Hc). destruct Hl; by subst.
Qed.

(** Initialising what is live is the only misuse. *)
Lemma init_all_again todo before k :
  (forall l, l ∈ todo -> l ∈ live k) ->
  let '(ok, k') := init_all todo before k in
  ok = true -> misused k' = rev todo ++ misused k /\ forall l, l ∈ live k' <-> l ∈ live k.
Proof.
  revert before k. induction todo as [|l todo IH]; intros before k Hk; cbn [init_all]; [done|].
  unfold lock_init. rewrite decide_True by (apply Hk; left).
  assert (forall o, let '(ok, k') := init_all todo (l :: before) (mk_locks (l :: live k) o (l :: misused k)) in
    ok = true -> misused k' = rev (l :: todo) ++ misused k /\ forall x, x ∈ live k' <-> x ∈ live k) as Hgo.
  { intros o. specialize (IH (l :: before) (mk_locks (l :: live k) o (l :: misused k))). destruct (init_all _ _ _) as [ok k'].
    intros Hok. destruct IH as [H1 H2]; [intros x Hx; right; apply Hk; by right|done|]. cbn [misused live rev] in *. rewrite H1, <- app_assoc. split; [done|].
    intros x. rewrite H2, elem_of_cons. split; [|tauto]. intros [->|?]; [apply Hk; left|done]. }
  destruct (outcomes k) as [|[] o]; [apply Hgo|apply Hgo|done].
Qed.

Lemma init_twice k k1 k2 :
  live k = [] -> init_context_locks k = (true, k1) -> init_context_locks k1 = (true, k2) ->
  (forall l, l ∈ live k2 <-> l ∈ context_locks) /\ misused k2 = rev context_locks ++ misused k.
Proof.
  intros Hk E1 E2. pose proof (init_context_locks_spec k) as H1. rewrite E1 in H1.
  destruct H1 as [L1 M1]; [intros l _; rewrite Hk; apply not_elem_of_nil|].
  assert (forall l, l ∈ context_locks -> l ∈ live k1) as Hin by (intros l Hl; rewrite L1; apply elem_of_app; left; by rewrite elem_of_rev_iff).
  pose proof (init_all_again context_locks [] k1 Hin) as H2. unfold init_context_locks in E2. rewrite E2 in H2.
  destruct (H2 eq_refl) as [M2 L2]. split; [|by rewrite M2, M1]. intros l. rewrite L2, L1, Hk, app_nil_r. apply elem_of_rev_iff.
Qed.

(** The slots, on top of the locks of the context. *)
Lemma slots_up z z' :
  setup_slots MAX_PEERS 0 z = (true, z') -> (forall l, l ∈ live (z_locks z) <-> l ∈ context_locks) ->
  length (y_peers (z_sys z)) = MAX_PEERS -> length (z_ready z) = MAX_PEERS ->
  z_sys z' = nm_start (y_ctx (z_sys z)) /\ z_ready z' = replicate MAX_PEERS true /\ z_listen_fd z' = z_listen_fd z /\
  z_locks_ready z' = z_locks_ready z /\ z_closed z' = z_closed z /\ misused (z_locks z') = misused (z_locks z) /\
  (forall l, l ∈ live (z_locks z') <-> l ∈ context_locks \/ l ∈ slot_locks 0 MAX_PEERS).
Proof.
  intros E Hl Hp Hr. pose proof (setup_slots_spec MAX_PEERS 0 z) as H. rewrite E in H.
  destruct H as (A1 & A2 & A3 & A4 & A5 & A6); [|done|done|].
  { intros l Hs Hk. apply Hl in Hk. by apply (context_slot l MAX_PEERS). }
  destruct (A6 eq_refl) as (B1 & B2 & B3). rewrite take_0, app_nil_l in B1. rewrite take_0, app_nil_l in B2.
  split_and!; [|done..|]; [|intros l; by rewrite B3, Hl].
  unfold nm_start. rewrite <- A1, <- B1. by destruct (z_sys z').
Qed.

Lemma start_up_spec env z0 z :
  start_up env z0 = (true, z) -> live (z_locks z0) = [] -> length (y_peers (z_sys z0)) = MAX_PEERS -> length (z_ready z0) = MAX_PEERS ->
  ctx_ok (y_ctx (z_sys z0)) -> x_active (y_ctx (z_sys z0)) = [] ->
  up z /\ z_sys z = nm_start (y_ctx (z_sys z0)) /\ z_closed z = z_closed z0 /\ misused (z_locks z) = rev context_locks ++ misused (z_locks z0).
Proof.
  intros H Hk Hp Hr Hc Ha. unfold start_up in H. destruct (init_context_locks (z_locks z0)) as [[] k1] eqn:E1; [|done]. cbn [negb] in H.
  destruct (negb _); [done|]. cbn [z_locks with_locks] in H. destruct (init_context_locks k1) as [[] k2] eqn:E2; [|done]. cbn [negb] in H.
  destruct (init_twice _ _ _ Hk E1 E2) as [Hl Hm]. destruct (Z.ltb_spec (e_socket env) 0); [done|].
  match type of H with context [setup_slots _ _ ?x] => set (z1 := x) in H end.
  assert (z_sys z1 = z_sys z0 /\ z_ready z1 = z_ready z0 /\ z_locks z1 = k2 /\ z_locks_ready z1 = true /\ z_listen_fd z1 = e_socket env /\ z_closed z1 = z_closed z0)
    as (F1 & F2 & F3 & F4 & F5 & F6) by done. clearbody z1.
  destruct (setup_slots MAX_PEERS 0 z1) as [[] z2] eqn:E3; [|done]. cbn [negb] in H. injection H as <-.
  destruct (slots_up _ _ E3) as (S1 & S2 & S3 & S4 & S5 & S6 & S7); [by rewrite F3|by rewrite F1|by rewrite F2|].
  rewrite F1 in S1. split_and!; cbn [z_sys z_closed z_locks]; [|done|congruence|rewrite S6, F3; exact Hm].
  split; cbn [z_sys z_locks z_locks_ready z_ready z_listen_fd]; [rewrite S1; by apply sys_ok_start|done|by rewrite S4, F4|by rewrite S3, F5].
Qed.

(** What [main] starts from. *)
Lemma initial_spec path d env :
  let z := initial path d env in
  live (z_locks z) = [] /\ misused (z_locks z) = [] /\ length (y_peers (z_sys z)) = MAX_PEERS /\ length (z_ready z) = MAX_PEERS /\
  x_active (y_ctx (z_sys z)) = [] /\ x_path (y_ctx (z_sys z)) = snprintf_s 256 path /\ z_closed z = [].
Proof. cbv zeta. unfold initial. destruct (nm_state_init path d) as [s d1]. split_and!; try reflexivity; apply length_replicate. Qed.

Lemma start_up_initial path d env z :
  start_up env (initial path d env) = (true, z) -> ctx_ok (y_ctx (z_sys (initial path d env))) ->
  up z /\ z_sys z = nm_start (y_ctx (z_sys (initial path d env))) /\ z_closed z = [] /\ misused (z_locks z) = rev context_locks.
Proof.
  intros H Hc. destruct (initial_spec path d env) as (I1 & I2 & I3 & I4 & I5 & _ & I7).
  destruct (start_up_spec _ _ _ H I1 I3 I4 Hc I5) as (S1 & S2 & S3 & S4). by rewrite I2, app_nil_r, I7 in *.
Qed.

(** ** The loop *)

Lemma up_usable z : up z -> locks_usable z.
Proof.
  intros [_ H2 [_ H3] _]. split; [apply H2; left; by vm_compute; repeat constructor|]. intros i Hi. apply H2. right.
  rewrite H3 in Hi. apply lookup_replicate in Hi as [_ Hi]. apply elem_of_slot_locks. exists i. split; [lia|by left].
Qed.

Lemma up_with_sys y z : up z -> sys_ok y -> up (with_sys y z).
Proof. intros [H1 H2 H3 H4] Hy. by split. Qed.

(** What the threads do is a sequence of steps of the machine. *)
Definition meanwhile_ok (e : event) : Prop :=
  match e with Meanwhile f => forall y, rtc nm_step y (f y) | Accept _ => True end.

(** Accepting is a step of the machine, too; with no thread for it the connection ends. *)
Lemma accept_one_steps a z : up z -> same_frame z (accept_one a z) /\ sys_ok (z_sys (accept_one a z)).
Proof.
  intros Hz. pose proof (up_usable z Hz) as Hl. pose proof (up_sys z Hz) as Hs.
  destruct a as [fd started| | |]; try done. cbn [accept_one]. rewrite use_live by apply Hl.
  pose proof (nm_step_ok _ _ (st_accept fd (z_sys z)) Hs) as Ha. unfold accept_connection in Ha.
  destruct (allocate_peer (y_peers (z_sys z))) as [i|] eqn:Ei; [|done].
  set (p := mk_peer fd PeerUnknown (-1) []) in *. set (z1 := set_peer i p z). change (sys_ok (z_sys z1)) in Ha.
  assert (same_frame z z1) as F1 by done. destruct started; [done|]. pose proof (locks_usable_frame _ _ F1 Hl) as Hl1.
  assert (y_peers (z_sys z1) !! i = Some p) as Hp.
  { cbn. apply list_lookup_insert_eq. unfold allocate_peer in Ei. apply fmap_Some in Ei as ([j q] & Ei & ->).
    apply find_first_Some in Ei as (Ei & _). by eapply lookup_lt_Some. }
  unfold peer_close, peer_reset. rewrite (use_slot_live i z1), Hp by done. clearbody z1.
  set (z2 := if (0 <=? p_fd p)%Z then _ else z1). assert (same_frame z1 z2 /\ z_sys z2 = z_sys z1) as [F2 E2] by (unfold z2; by destruct (0 <=? p_fd p)%Z).
  clearbody z2. rewrite use_slot_live by (by eapply (locks_usable_frame z1)). cbn. rewrite E2, list_insert_insert_eq.
  destruct F1 as (A1 & A2 & A3 & A4). destruct F2 as (B1 & B2 & B3 & B4). split; [by repeat split; etrans|].
  pose proof (sys_ok_end i p (z_sys z1) Ha Hp) as H. exact H.
Qed.

Lemma accept_one_path a z : x_path (y_ctx (z_sys (accept_one a z))) = x_path (y_ctx (z_sys z)).
Proof.
  destruct a as [fd started| | |]; try done. cbn [accept_one].
  assert (forall i z, x_path (y_ctx (z_sys (use_slot i z))) = x_path (y_ctx (z_sys z))) as Hu.
  { intros i z'. unfold use_slot. by destruct (z_ready _ !! i) as [[]|]. }
  destruct (allocate_peer _) as [i|]; [|done]. destruct started; [done|]. unfold peer_reset, peer_close. cbn.
  rewrite Hu. destruct (y_peers _ !! i) as [p|]; [|by rewrite Hu]. cbn. destruct (0 <=? p_fd p)%Z; cbn; by rewrite Hu.
Qed.

Lemma up_frame z z' : same_frame z z' -> sys_ok (z_sys z') -> up z -> up z'.
Proof. intros (E1 & E2 & E3 & E4) Hs [H1 H2 H3 H4]. split; [done|by rewrite E1|by rewrite E2, E3|by rewrite E4]. Qed.

Lemma accept_loop_up events z :
  up z -> Forall meanwhile_ok events ->
  same_frame z (accept_loop events z) /\ up (accept_loop events z) /\
  x_path (y_ctx (z_sys (accept_loop events z))) = x_path (y_ctx (z_sys z)).
Proof.
  intros Hz He. revert z Hz. induction He as [|e events He Hes IH]; intros z Hz; [done|].
  assert (forall z', same_frame z z' -> sys_ok (z_sys z') -> x_path (y_ctx (z_sys z')) = x_path (y_ctx (z_sys z)) ->
    same_frame z (accept_loop events z') /\ up (accept_loop events z') /\
    x_path (y_ctx (z_sys (accept_loop events z'))) = x_path (y_ctx (z_sys z))) as Hgo.
  { intros z' F Hs Hp. destruct (IH z' (up_frame _ _ F Hs Hz)) as ((G1 & G2 & G3 & G4) & Hu & Hp'). split; [|split; [done|congruence]].
    destruct F as (F1 & F2 & F3 & F4). by repeat split; etrans. }
  destruct e as [a|f]; [|].
  - destruct (accept_one_steps a z Hz) as [F Hs]. pose proof (accept_one_path a z). destruct a; try (by apply Hgo). done.
  - apply Hgo; [done| |].
    + cbn. eapply nm_steps_ok; [apply He|apply Hz].
    + cbn. apply nm_steps_path; [apply He|apply Hz].
Qed.

(** ** [close_context] *)

Lemma disconnect_ctx_ok p c : ctx_ok c -> ctx_ok (handle_server_disconnect p c).
Proof.
  intros Hc. unfold handle_server_disconnect. destruct (p_type p); [done|done|by apply active_user_remove_ok|].
  destruct (_ <=? _)%Z; [|done]. eapply ctx_ok_quiet; [exact Hc|apply quiet_server_down].
Qed.

Lemma end_slot_ctx_ok e i p y : ctx_ok (y_ctx y) -> ctx_ok (y_ctx (end_slot e i p y)).
Proof. destruct e; cbn; [by apply disconnect_ctx_ok|done|by apply disconnect_ctx_ok]. Qed.

Lemma end_all_ok ends ps i y :
  ctx_ok (y_ctx y) -> drop i (y_peers y) = ps ->
  ctx_ok (y_ctx (end_all ends ps i y)) /\ y_peers (end_all ends ps i y) = take i (y_peers y) ++ replicate (length ps) peer_reset_fields.
Proof.
  revert i y. induction ps as [|p ps IH]; intros i y Hy Hps.
  { split; [done|]. cbn. apply (f_equal length) in Hps. rewrite length_drop in Hps. simpl in Hps. rewrite take_ge by lia. by rewrite app_nil_r. }
  assert (y_peers y !! i = Some p) as Hp by (rewrite <- (Nat.add_0_r i), <- lookup_drop, Hps; done).
  pose proof (lookup_lt_Some _ _ _ Hp) as Hlt. rewrite end_all_cons.
  destruct (IH (S i) (end_slot (ends i) i p y)) as [H1 H2]; [by apply end_slot_ctx_ok| |].
  { rewrite end_slot_peers, drop_insert_lt by lia. rewrite (drop_S _ _ _ Hp) in Hps. by injection Hps. }
  split; [done|]. etrans; [exact H2|]. rewrite end_slot_peers. cbn [length replicate].
  rewrite (take_S_r _ _ peer_reset_fields) by (by rewrite list_lookup_insert_eq by lia).
  rewrite take_insert_ge by lia. by rewrite <- app_assoc.
Qed.

Lemma destroy_all_app ls ls' k : destroy_all (ls ++ ls') k = destroy_all ls' (destroy_all ls k).
Proof. apply foldl_app. Qed.

(** Live locks, each destroyed once. *)
Lemma destroy_all_misused ls k :
  NoDup ls -> (forall l, l ∈ ls -> l ∈ live k) -> misused (destroy_all ls k) = misused k.
Proof.
  intros Hn. revert k. induction Hn as [|l ls Hl Hn IH]; intros k Hk; [done|].
  change (misused (destroy_all ls (lock_destroy l k)) = misused k).
  assert (l ∈ live k) as Hin by (apply Hk; left). unfold lock_destroy. rewrite decide_True by done.
  etrans; [apply IH|done]. intros l' Hl'. apply list_elem_of_filter. split; [by intros ->|]. apply Hk. by right.
Qed.

Lemma slot_destroy_fold i n k :
  (forall l, l ∈ slot_locks i n -> l ∈ live k) ->
  foldl peer_slot_destroy k ((fun j => (j, true)) <$> seq i n) = destroy_all (slot_locks i n) k.
Proof.
  revert i k. induction n as [|n IH]; intros i k Hk; [done|].
  change (slot_locks i (S n)) with ([PeerIo i; PeerCond i] ++ slot_locks (S i) n) in *. rewrite destroy_all_app.
  cbn [seq fmap list_fmap foldl]. unfold peer_slot_destroy at 2. unfold lock_use. rewrite decide_True by (apply Hk; left).
  apply IH. intros l Hl. rewrite destroy_all_live_filter. apply list_elem_of_filter. split; [|apply Hk; by right; right].
  apply elem_of_slot_locks in Hl as (j & Hj & Hl). rewrite !elem_of_cons, elem_of_nil. destruct Hl; naive_solver lia.
Qed.

Definition destroyed : list lock_id :=
  slot_locks 0 MAX_PEERS ++
  [LogRequestsLock; ReplicationCond; ReplicationLock; LogGeneralLock; PeerLock; UserLock; TicketLock; StateLock].

Lemma destroyed_all l : l ∈ destroyed <-> l ∈ context_locks \/ l ∈ slot_locks 0 MAX_PEERS.
Proof. unfold destroyed, context_locks. rewrite elem_of_app, !elem_of_cons, elem_of_nil. tauto. Qed.

Lemma destroyed_NoDup : NoDup destroyed.
Proof. apply (bool_decide_unpack _). by vm_compute. Qed.

(** Every lock is destroyed exactly once. *)
Lemma destroy_context_locks_spec z :
  (forall l, l ∈ live (z_locks z) <-> l ∈ context_locks \/ l ∈ slot_locks 0 MAX_PEERS) ->
  z_locks_ready z = true /\ z_ready z = replicate MAX_PEERS true ->
  let z' := destroy_context_locks z in
  live (z_locks z') = [] /\ misused (z_locks z') = misused (z_locks z) /\ z_sys z' = z_sys z /\ z_closed z' = z_closed z.
Proof.
  intros Hl [Hr Hs]. unfold destroy_context_locks. rewrite Hr, Hs. cbn [negb].
  assert (imap pair (replicate MAX_PEERS true) = (fun j => (j, true)) <$> seq 0 MAX_PEERS) as -> by (by vm_compute).
  rewrite slot_destroy_fold by (intros l Hin; apply Hl; by right). rewrite <- destroy_all_app. fold destroyed.
  cbn [z_locks with_locks z_sys z_closed]. split_and!; [| |done|done].
  - rewrite destroy_all_live_filter. assert (forall x : lock_id, x ∈ live (z_locks z) -> ~ (x ∉ destroyed)) as H.
    { intros x Hx Hni. apply Hni, destroyed_all, Hl, Hx. }
    revert H. generalize (live (z_locks z)). intros k H. induction k as [|x l IH]; [done|]. rewrite filter_cons_False by (apply H; left). apply IH. intros y Hy. apply H. by right.
  - apply destroy_all_misused; [apply destroyed_NoDup|]. intros l Hin. by apply Hl, destroyed_all.
Qed.

(** The listening socket is closed first. *)
Lemma stop_listening_spec z :
  up z -> let z1 := close_listen (announce_shutdown z) in
  locks_usable z1 /\ z_sys z1 = z_sys z /\ z_locks z1 = z_locks z /\ z_locks_ready z1 = true /\ z_ready z1 = z_ready z /\
  z_closed z1 = z_closed z ++ [z_listen_fd z].
Proof.
  intros Hz z1. pose proof Hz as [Hs Hl [Hr Hrs] Hf].
  assert (ReplicationLock ∈ live (z_locks z)) as Hin by (apply Hl; left; vm_compute; repeat constructor).
  assert (z_sys z1 = z_sys z /\ z_locks z1 = z_locks z /\ z_locks_ready z1 = true /\ z_ready z1 = z_ready z /\
          z_closed z1 = z_closed z ++ [z_listen_fd z]) as H; [|split; [|exact H]].
  - unfold z1, announce_shutdown. cbn [z_locks_ready]. rewrite Hr, use_live by exact Hin.
    unfold close_listen. cbn [z_listen_fd]. by rewrite (proj2 (Z.leb_le _ _) Hf).
  - destruct H as (_ & E2 & _ & E4 & _). unfold locks_usable. rewrite E2, E4. exact (up_usable z Hz).
Qed.

(** Every connection has ended, or a thread is waited for in vain. *)
Lemma close_all_slots ends z z1 :
  sys_ok (z_sys z) -> locks_usable z1 -> z_sys z1 = z_sys z ->
  let y := end_all ends (y_peers (z_sys z)) 0 (z_sys z) in
  match close_slots ends (seq 0 MAX_PEERS) z1 with
  | None => exists i p, y_peers (z_sys z) !! i = Some p /\ blocked (ends i) p
  | Some z2 =>
      (forall i p, y_peers (z_sys z) !! i = Some p -> ~ blocked (ends i) p) /\
      ctx_ok (y_ctx y) /\ y_peers y = replicate MAX_PEERS peer_reset_fields /\
      same_frame z1 z2 /\ z_sys z2 = y /\ z_closed z2 = z_closed z1 ++ open_fds (y_peers (z_sys z))
  end.
Proof.
  intros Hs Hu E1. cbv zeta. pose proof (so_slots _ Hs) as Hlen. set (n := MAX_PEERS) in *. clearbody n.
  destruct (end_all_ok ends (y_peers (z_sys z)) 0 (z_sys z) (so_ctx _ Hs) (drop_0 _)) as [Hy Hps]. rewrite take_0, app_nil_l, Hlen in Hps.
  pose proof (close_slots_spec ends (y_peers (z_sys z)) 0 z1 Hu) as H. rewrite E1, Hlen in H. specialize (H (drop_0 _)).
  destruct (close_slots ends (seq 0 n) z1) as [z2|]; [|exact H]. destruct H as (Hb & F & Es & Ec). by split_and!.
Qed.

(** What [close_context] still does then. *)
Lemma finish_spec z z1 z2 y :
  up z -> z_locks z1 = z_locks z -> z_locks_ready z1 = true -> z_ready z1 = z_ready z -> same_frame z1 z2 -> z_sys z2 = y ->
  y_peers y = replicate MAX_PEERS peer_reset_fields ->
  let z' := destroy_context_locks (free_context z2) in
  z_sys z' = mk_sys (save_context (y_ctx y)) (replicate MAX_PEERS peer_reset_fields) /\
  z_closed z' = z_closed z2 /\ live (z_locks z') = [] /\ misused (z_locks z') = misused (z_locks z).
Proof.
  intros [_ Hl [Hr Hrs] _] A2 A3 A4 (F1 & F2 & F3 & F4) Es Hps.
  assert (z_locks (free_context z2) = z_locks z) as B1 by (by rewrite <- A2, <- F1).
  assert (z_locks_ready (free_context z2) = true /\ z_ready (free_context z2) = replicate MAX_PEERS true) as B2.
  { unfold free_context. cbn [z_locks_ready z_ready]. by rewrite F2, F3, A3, A4. }
  destruct (destroy_context_locks_spec (free_context z2)) as (D1 & D2 & D3 & D4); [by rewrite B1|exact B2|]. cbv zeta.
  rewrite D1, D2, D3, D4, B1. unfold free_context. cbn [z_sys z_closed]. rewrite Es, Hps. by split_and!.
Qed.

(** The listening socket and the descriptors of the slots are closed, no lock is left. *)
Lemma close_context_spec ends z :
  up z ->
  let y := end_all ends (y_peers (z_sys z)) 0 (z_sys z) in
  match close_context ends z with
  | None => exists i p, y_peers (z_sys z) !! i = Some p /\ blocked (ends i) p
  | Some z' =>
      (forall i p, y_peers (z_sys z) !! i = Some p -> ~ blocked (ends i) p) /\ ctx_ok (y_ctx y) /\
      z_sys z' = mk_sys (save_context (y_ctx y)) (replicate MAX_PEERS peer_reset_fields) /\
      z_closed z' = z_closed z ++ z_listen_fd z :: open_fds (y_peers (z_sys z)) /\
      live (z_locks z') = [] /\ misused (z_locks z') = misused (z_locks z)
  end.
Proof.
  intros Hz. destruct (stop_listening_spec z Hz) as (Hu1 & A1 & A2 & A3 & A4 & A5). cbv zeta. unfold close_context.
  pose proof (close_all_slots ends z _ (up_sys z Hz) Hu1 A1) as H. cbv zeta in H.
  destruct (close_slots ends (seq 0 MAX_PEERS) _) as [z2|]; cbn [mbind option_bind]; [|exact H].
  destruct H as (Hb & Hy & Hps & F & Es & Ec). destruct (finish_spec z _ _ _ Hz A2 A3 A4 F Es Hps) as (D1 & D2 & D3 & D4).
  split; [exact Hb|]. split; [exact Hy|]. split; [exact D1|]. split; [|split; [exact D3|exact D4]].
  etrans; [exact D2|]. rewrite Ec, A5. by rewrite <- app_assoc.
Qed.

Lemma end_all_path ends ps i y : x_path (y_ctx (end_all ends ps i y)) = x_path (y_ctx y).
Proof.
  revert i y. induction ps as [|p ps IH]; intros i y; [done|]. rewrite end_all_cons, IH. destruct (ends i); [apply end_connection_path|done|apply end_connection_path].
Qed.

(** What the next start with the same arguments finds of the tables [s]. *)
Definition read_back (s s' : nm_state) : Prop :=
  nm_ok s' /\ core <$> nm_files s' = core <$> nm_files s /\ nm_map s' = nm_map s /\
  others s' = (offline <$> servers s, 0, 0, users s, [], requests s).

Lemma saved_read_back path c env :
  x_path c = snprintf_s 256 path -> snprintf_s 256 path <> [] -> ctx_ok c -> quiet (x_disk c) -> persistable (x_state c) ->
  read_back (x_state c) (x_state (y_ctx (z_sys (initial path (x_disk (save_context c)) env)))).
Proof.
  intros Epath Hne Hc Hq Hp. unfold save_context. rewrite Epath.
  destruct (save_then_load (snprintf_s 256 path) (x_state c) clear_state (x_disk c) Hne) as (d' & s' & Sv & Ld & _ & Hok & Hf & Ho);
    [pose proof (length_snprintf_s 256 path); lia|exact Hq|apply Hc|exact Hp|].
  rewrite Sv. cbn [x_disk]. unfold initial, nm_state_init. destruct (snprintf_s 256 path) as [|a p] eqn:Ep; [done|]. rewrite Ld.
  cbn [z_sys y_ctx x_state]. split; [done|]. split; [done|]. split; [by apply same_docs_map|done].
Qed.


(** ** A concrete run *)

(** A client connects and says who it is; a second connection gets no thread; the socket goes.  The
    client's thread sees the shutdown. *)
Definition demo_env (e : thread_end) : nm_environment :=
  mk_env [] (true, true) 3 (true, true)
    [Accept (Connection 7 true); Meanwhile (demo_receive 0 "{'type':'CLIENT_HELLO','user':'ann'}");
     Accept InterruptedCall; Accept (Connection 8 false); Accept SocketGone; Accept (Connection 9 true)] (fun _ => e).

Lemma demo_env_ok e : Forall meanwhile_ok (e_events (demo_env e)).
Proof. repeat constructor. intros y. apply rtc_once. apply st_receive. Qed.


(** ** What goes wrong *)

(** The client stays connected and silent, its thread in [recv]: the name manager does not end. *)
Lemma silent_connection_keeps_running : nm_main (cs "nm.db") demo_empty_disk (demo_env StaysBlocked) = None.
Proof. vm_compute. reflexivity. Qed.

(** When start-up fails before the slots are set up, [close_context] takes the zeroes of
    [calloc] for descriptors and closes descriptor 0, once per slot. *)
Lemma failed_start_closes_stdin path d s d' :
  nm_state_init path d = (s, d') ->
  (fun x => (fst x, z_closed (snd x))) <$> nm_main path d (mk_env [] (false, false) 3 (true, true) [] (fun _ => RecvFails)) =
  Some (1%Z, replicate MAX_PEERS 0%Z).
Proof. intros E. unfold nm_main, initial. rewrite E. lazy. reflexivity. Qed.

(** The thread of a connection closes its slot and, a little later, resets it.  When the slot has
    been given to another connection in between, that one is lost, and its descriptor stays open. *)
Lemma late_reset_drops_connection z fd i :
  up z -> allocate_peer (y_peers (z_sys (peer_close i z))) = Some i ->
  let z1 := accept_one (Connection fd true) (peer_close i z) in
  y_peers (z_sys z1) !! i = Some (mk_peer fd PeerUnknown (-1) []) /\
  y_peers (z_sys (peer_reset i z1)) !! i = Some peer_reset_fields /\ z_closed (peer_reset i z1) = z_closed z1.
Proof.
  intros Hz Ha. cbv zeta. cbn [accept_one].
  assert (y_peers (z_sys (use PeerLock (peer_close i z))) = y_peers (z_sys (peer_close i z))) as Eu by done.
  rewrite Eu, Ha. assert (i < length (y_peers (z_sys (peer_close i z)))) as Hi.
  { unfold allocate_peer in Ha. apply fmap_Some in Ha as ([j q] & Ha & ->). apply find_first_Some in Ha as (Ha & _). by eapply lookup_lt_Some. }
  set (z1 := set_peer i _ _). assert (y_peers (z_sys z1) !! i = Some (mk_peer fd PeerUnknown (-1) [])) as E1 by (by apply list_lookup_insert_eq).
  split; [done|]. assert (z_sys (use_slot i z1) = z_sys z1 /\ z_closed (use_slot i z1) = z_closed z1) as [S C].
  { unfold use_slot. by destruct (z_ready _ !! i) as [[]|]. }
  unfold peer_reset. cbn [z_sys set_peer with_sys y_peers z_closed]. rewrite S, C. split; [|done].
  apply list_lookup_insert_eq. by eapply lookup_lt_Some.
Qed.
