(* ===== verification/NmRpc.v ===== *)
(** * [nm/nm_main.c]: commands and answers on one control connection

    [forward_command] is called by the threads of the client connections and by the
    replication worker, without the lock of the tables; the thread of the storage server's
    connection hands the answers over through [rpc_waiting] and [rpc_response].  A step is
    one critical section of [io_lock], or a system call between two of them. *)

From S2P Require Import Prelude Cstr.

(** Where a call of [forward_command] is, with its payload. *)
Inductive caller :=
| Queued (payload : cstr)
| Sending (payload : cstr)
| Waiting (payload : cstr)
| Returned (payload : cstr) (response : option cstr).

Record connection := mk_connection {
  rpc_waiting : bool;
  rpc_response : option cstr;
  (** commands sent that the storage server has not answered, and whether it is connected *)
  in_flight : list cstr;
  connected_peer : bool;
  callers : list caller;
}.

Definition set_caller (t : nat) (x : caller) (k : connection) : connection :=
  mk_connection (rpc_waiting k) (rpc_response k) (in_flight k) (connected_peer k) (<[t := x]> (callers k)).

(** The first critical section: the flag is free, an answer nobody fetched is dropped. *)
Definition claim (t : nat) (payload : cstr) (k : connection) : connection :=
  set_caller t (Sending payload) (mk_connection true None (in_flight k) (connected_peer k) (callers k)).

(** [net_send_json] succeeds. *)
Definition sent (t : nat) (payload : cstr) (k : connection) : connection :=
  set_caller t (Waiting payload)
    (mk_connection (rpc_waiting k) (rpc_response k) (in_flight k ++ [payload]) (connected_peer k) (callers k)).

(** [net_send_json] fails. *)
Definition send_failed (t : nat) (payload : cstr) (k : connection) : connection :=
  set_caller t (Returned payload None)
    (mk_connection false (rpc_response k) (in_flight k) (connected_peer k) (callers k)).

(** The last critical section: whatever answer is there is taken, [None] is -1. *)
Definition collect (t : nat) (payload : cstr) (k : connection) : connection :=
  set_caller t (Returned payload (rpc_response k))
    (mk_connection (rpc_waiting k) None (in_flight k) (connected_peer k) (callers k)).

(** [peer_thread_main] receives an answer, which it drops when nobody waits. *)
Definition deliver (answer : cstr) (rest : list cstr) (k : connection) : connection :=
  if rpc_waiting k then mk_connection false (Some answer) rest (connected_peer k) (callers k)
  else mk_connection (rpc_waiting k) (rpc_response k) rest (connected_peer k) (callers k).

(** [net_recv_json] fails: the waiting caller is released and the connection closed. *)
Definition lost (k : connection) : connection :=
  mk_connection false None [] false (callers k).

Section Rpc.
(** The answers the storage server may give to a command. *)
Context (answers : cstr -> cstr -> Prop).

Inductive rpc_step : connection -> connection -> Prop :=
| rs_claim t payload k : callers k !! t = Some (Queued payload) -> rpc_waiting k = false -> rpc_step k (claim t payload k)
| rs_sent t payload k :
    callers k !! t = Some (Sending payload) -> connected_peer k = true -> rpc_step k (sent t payload k)
| rs_send_failed t payload k : callers k !! t = Some (Sending payload) -> rpc_step k (send_failed t payload k)
| rs_deliver payload answer rest k :
    in_flight k = payload :: rest -> answers payload answer -> rpc_step k (deliver answer rest k)
| rs_collect t payload k :
    callers k !! t = Some (Waiting payload) -> rpc_waiting k = false -> rpc_step k (collect t payload k)
| rs_lost k : rpc_step k (lost k).

(** The connection is up and its callers have their payloads. *)
Definition rpc_start (payloads : list cstr) : connection := mk_connection false None [] true (Queued <$> payloads).

Definition is_sending (x : caller) : bool := match x with Sending _ => true | _ => false end.
Definition is_waiting (x : caller) : bool := match x with Waiting _ => true | _ => false end.
Definition busy (x : caller) : bool := is_sending x || is_waiting x.

Definition count (f : caller -> bool) (l : list caller) : nat := sum_list_with (fun x => Nat.b2n (f x)) l.

Lemma count_insert f l t x y : l !! t = Some x -> count f (<[t := y]> l) + Nat.b2n (f x) = count f l + Nat.b2n (f y).
Proof using.
  unfold count. revert t. induction l as [|z l IH]; intros t Hx; [done|].
  destruct t as [|t]; simpl in *.
  - injection Hx as ->. lia.
  - specialize (IH t Hx). lia.
Qed.

Lemma count_queued f payloads : (forall q, f (Queued q) = false) -> count f (Queued <$> payloads) = 0.
Proof using.
  intros Hf. unfold count. induction payloads as [|q l IH]; [done|]. cbn [fmap list_fmap sum_list_with]. by rewrite Hf.
Qed.

(** Commands that have been claimed and not answered, while the connection is up. *)
Definition outstanding (k : connection) : nat := count is_sending (callers k) + length (in_flight k).

Record serial (k : connection) : Prop := {
  se_up : connected_peer k = true -> outstanding k <= Nat.b2n (rpc_waiting k);
  se_down : connected_peer k = false -> in_flight k = [];
}.

(** The counts after a step. *)
Ltac open_step :=
  unfold outstanding in *;
  cbn [claim sent send_failed collect deliver set_caller callers in_flight rpc_waiting connected_peer Nat.b2n length] in *;
  rewrite ?length_app; cbn [length]; lia.

Lemma rpc_step_serial k k' : rpc_step k k' -> serial k -> serial k'.
Proof using.
  intros [t pl k1 H1|t pl k1 H1 Hup|t pl k1 H1|pl a rest k1 H1|t pl k1 H1|k1] [Hu Hd]; unfold outstanding in *.
  - pose proof (count_insert is_sending _ _ _ (Sending pl) H1) as Hc. cbn in Hc. split; [|exact Hd]. intros E.
    specialize (Hu E). rewrite H in Hu. open_step.
  - pose proof (count_insert is_sending _ _ _ (Waiting pl) H1) as Hc. cbn in Hc. split; [|cbn; congruence]. intros E.
    specialize (Hu E). open_step.
  - pose proof (count_insert is_sending _ _ _ (Returned pl None) H1) as Hc. cbn in Hc. split; [|exact Hd]. intros E.
    specialize (Hu E). destruct (rpc_waiting k1); open_step.
  - destruct (connected_peer k1) eqn:E; [|rewrite Hd in H1 by done; done]. specialize (Hu eq_refl). rewrite H1 in Hu.
    unfold deliver. destruct (rpc_waiting k1); [|open_step].
    split; [intros _; open_step|cbn; congruence].
  - pose proof (count_insert is_sending _ _ _ (Returned pl (rpc_response k1)) H1) as Hc. cbn in Hc. split; [|exact Hd]. intros E.
    specialize (Hu E). open_step.
  - by split.
Qed.

(** *** Callers that do not overlap *)

Definition exclusive_step (k k' : connection) : Prop := rpc_step k k' /\ count busy (callers k') <= 1.

Lemma count_busy_unique l i j x y :
  count busy l <= 1 -> l !! i = Some x -> l !! j = Some y -> busy x = true -> busy y = true -> i = j.
Proof using.
  intros Hc Hi Hj Hx Hy. destruct (decide (i = j)) as [|Hne]; [done|exfalso].
  pose proof (count_insert busy _ _ _ (Returned [] None) Hi) as H1. rewrite Hx in H1.
  assert (<[i := Returned [] None]> l !! j = Some y) as Hj' by (by rewrite list_lookup_insert_ne).
  pose proof (count_insert busy _ _ _ (Returned [] None) Hj') as H2. rewrite Hy in H2. cbn [Nat.b2n busy is_sending is_waiting orb] in *. lia.
Qed.

(** Which caller the connection works for, and how far it is. *)
Inductive rpc_phase (k : connection) : Prop :=
| ph_idle : Forall (fun x => busy x = false) (callers k) -> in_flight k = [] -> rpc_phase k
| ph_sending t payload :
    callers k !! t = Some (Sending payload) -> in_flight k = [] -> rpc_response k = None ->
    (connected_peer k = true -> rpc_waiting k = true) -> rpc_phase k
| ph_sent t payload :
    callers k !! t = Some (Waiting payload) -> in_flight k = [payload] -> rpc_waiting k = true -> rpc_response k = None -> rpc_phase k
| ph_answered t payload :
    callers k !! t = Some (Waiting payload) -> in_flight k = [] -> rpc_waiting k = false ->
    (forall a, rpc_response k = Some a -> answers payload a) -> rpc_phase k.

Definition own_answers (l : list caller) : Prop :=
  forall t payload a, l !! t = Some (Returned payload (Some a)) -> answers payload a.

Lemma own_answers_insert l t x :
  own_answers l -> (forall payload a, x = Returned payload (Some a) -> answers payload a) -> own_answers (<[t := x]> l).
Proof using.
  intros Hl Hx j payload a Hj. apply list_lookup_insert_Some in Hj as [(-> & -> & _)|[_ Hj]]; [by apply Hx|by eapply Hl].
Qed.

Lemma idle_insert l t x : busy x = false -> (forall j y, l !! j = Some y -> busy y = true -> j = t) ->
  Forall (fun x => busy x = false) (<[t := x]> l).
Proof using.
  intros Hx Hl. apply Forall_lookup. intros j y Hj. apply list_lookup_insert_Some in Hj as [(-> & -> & _)|[Hne Hj]]; [done|].
  destruct (busy y) eqn:E; [|done]. by specialize (Hl j y Hj E).
Qed.

Lemma lookup_set_caller t x k y : callers k !! t = Some y -> callers (set_caller t x k) !! t = Some x.
Proof using. intros H. cbn. apply list_lookup_insert_eq. by eapply lookup_lt_Some. Qed.

Lemma exclusive_step_phase k k' :
  exclusive_step k k' -> count busy (callers k) <= 1 -> rpc_phase k -> own_answers (callers k) ->
  rpc_phase k' /\ own_answers (callers k').
Proof using.
  intros [Hs Hk'] Hk Hp Ho.
  assert (forall i j x y, callers k !! i = Some x -> callers k !! j = Some y -> busy x = true -> busy y = true -> i = j) as Hu
    by (intros i j x y; by apply count_busy_unique).
  destruct Hs as [t pl k1 H1 Hw|t pl k1 H1 Hup|t pl k1 H1|pl a rest k1 H1 Hpa|t pl k1 H1 Hw|k1]; cbn [callers] in *.
  - assert (in_flight k1 = []) as Hf by (destruct Hp; congruence).
    split; [apply (ph_sending _ t pl); try done; by eapply lookup_set_caller|by apply own_answers_insert].
  - destruct Hp as [Hi _|s q Hs Hf Hr Hw|s q Hs|s q Hs].
    + rewrite Forall_lookup in Hi. by specialize (Hi _ _ H1).
    + assert (s = t) as -> by eauto. rewrite Hs in H1. injection H1 as ->.
      split; [apply (ph_sent _ t pl); [by eapply lookup_set_caller|cbn; by rewrite Hf|by apply Hw|done]|by apply own_answers_insert].
    + assert (s = t) as -> by eauto. congruence.
    + assert (s = t) as -> by eauto. congruence.
  - assert (in_flight k1 = []) as Hf.
    { destruct Hp as [Hi _|s q Hs Hf Hr Hw|s q Hs|s q Hs]; [|done|assert (s = t) as -> by eauto; congruence|done].
      rewrite Forall_lookup in Hi. by specialize (Hi _ _ H1). }
    split; [apply ph_idle; [|done]|by apply own_answers_insert]. apply idle_insert; [done|]. intros j y Hj Hy. by eapply Hu.
  - destruct Hp as [_ Hf|s q _ Hf|s q Hs Hf Hw Hr|s q _ Hf]; try congruence. rewrite Hf in H1. injection H1 as -> <-.
    unfold deliver. rewrite Hw. split; [|done]. apply (ph_answered _ s pl); [done|done|done|]. by intros ? [= <-].
  - destruct Hp as [Hi _|s q Hs|s q Hs Hf Hw'|s q Hs Hf _ Hr].
    + rewrite Forall_lookup in Hi. by specialize (Hi _ _ H1).
    + assert (s = t) as -> by eauto. congruence.
    + congruence.
    + assert (s = t) as -> by eauto. rewrite Hs in H1. injection H1 as ->.
      split; [|apply own_answers_insert; [done|by intros ? a [= <- Ha]; apply Hr]].
      apply ph_idle; [|done]. apply idle_insert; [done|]. intros j y Hj Hy. by eapply Hu.
  - split; [|done]. destruct Hp as [Hi _|s q Hs|s q Hs|s q Hs];
      [by apply ph_idle|by apply (ph_sending _ s q)|by apply (ph_answered _ s q)..].
Qed.

(** C24: Commands on one control connection.  While the connection is up, however the threads
    that send commands interleave, at most one command is unanswered, so the storage server
    works on one command at a time.  As long as the callers do not overlap (a new one claims
    the connection only after the previous one returned), every caller that gets an answer
    gets an answer to its own command, also when sends fail or the connection is lost. *)
Theorem rpc_own_answers payloads :
  (forall k, rtc rpc_step (rpc_start payloads) k -> connected_peer k = true -> length (in_flight k) <= 1) /\
  (forall k, rtc exclusive_step (rpc_start payloads) k -> own_answers (callers k)).
Proof using.
  split.
  - intros k Hr Hup. assert (serial k) as [Hs _].
    { assert (serial (rpc_start payloads)) as H0.
      { assert (count is_sending (Queued <$> payloads) = 0) as Hz by (by apply count_queued).
        split; [intros _; unfold outstanding; cbn [rpc_start callers in_flight length]; by rewrite Hz|done]. }
      revert H0. induction Hr as [|x y z Hs _ IH]; [done|]. intros H0. apply IH; [done|by eapply rpc_step_serial]. }
    specialize (Hs Hup). unfold outstanding in Hs. destruct (rpc_waiting k); cbn in Hs; lia.
  - intros k Hr.
    assert (Forall (fun x => busy x = false) (Queued <$> payloads)) as Hi by (apply Forall_fmap, Forall_forall; done).
    assert (count busy (Queued <$> payloads) = 0) as Hz by (by apply count_queued).
    cut (forall k0, rtc exclusive_step k0 k -> count busy (callers k0) <= 1 -> rpc_phase k0 -> own_answers (callers k0) ->
           own_answers (callers k)).
    { intros H. apply (H (rpc_start payloads)); [done|cbn [rpc_start callers]; lia|by apply ph_idle|].
      intros t q a Ht. cbn in Ht. rewrite list_lookup_fmap in Ht. by destruct (payloads !! t). }
    clear. intros k0 Hr. induction Hr as [|x y z Hs _ IH]; [done|]. intros Hc Hp Ho.
    destruct (exclusive_step_phase _ _ Hs Hc Hp Ho) as [Hp' Ho']. apply IH; [apply Hs|done|done].
Qed.

(** Overlapping callers lose and mix up answers.  For any two commands and any answers of
    the storage server to them there is an interleaving in which the answer to the first
    command is thrown away, the first caller returns with the answer to the second one, and
    the second caller returns with a failure, for which it would take the storage server
    for dead. *)
Theorem rpc_answers_mixed p1 p2 a1 a2 (H1 : answers p1 a1) (H2 : answers p2 a2) :
  exists k, rtc rpc_step (rpc_start [p1; p2]) k /\ connected_peer k = true /\
    callers k = [Returned p1 (Some a2); Returned p2 None].
Proof using.
  eexists. split; [|split].
  - eapply rtc_l; [by apply (rs_claim 0 p1)|]. eapply rtc_l; [by apply (rs_sent 0 p1)|].
    eapply rtc_l; [by apply (rs_deliver p1 a1 [])|]. eapply rtc_l; [by apply (rs_claim 1 p2)|].
    eapply rtc_l; [by apply (rs_sent 1 p2)|]. eapply rtc_l; [by apply (rs_deliver p2 a2 [])|].
    eapply rtc_l; [by apply (rs_collect 0 p1)|]. eapply rtc_l; [by apply (rs_collect 1 p2)|]. apply rtc_refl.
  - done.
  - done.
Qed.
End Rpc.

Lemma rpc_own_answers_witness :
  own_answers eq (callers (collect 0 (cs "c") (deliver (cs "c") [] (sent 0 (cs "c") (claim 0 (cs "c") (rpc_start [cs "c"])))))).
Proof.
  apply (proj2 (rpc_own_answers eq [cs "c"])).
  eapply rtc_l; [split; [by apply (rs_claim eq 0 (cs "c"))|vm_compute; lia]|].
  eapply rtc_l; [split; [by apply (rs_sent eq 0 (cs "c"))|vm_compute; lia]|].
  eapply rtc_l; [split; [by apply (rs_deliver eq (cs "c") (cs "c") [])|vm_compute; lia]|].
  eapply rtc_l; [split; [by apply (rs_collect eq 0 (cs "c"))|vm_compute; lia]|]. apply rtc_refl.
Defined.

Lemma rpc_answers_mixed_witness :
  exists k, rtc (rpc_step eq) (rpc_start [cs "NM_CREATE"; cs "NM_TICKET"]) k /\ connected_peer k = true /\
    callers k = [Returned (cs "NM_CREATE") (Some (cs "NM_TICKET")); Returned (cs "NM_TICKET") None].
Proof. exact (rpc_answers_mixed eq (cs "NM_CREATE") (cs "NM_TICKET") (cs "NM_CREATE") (cs "NM_TICKET") eq_refl eq_refl). Defined.
