(* ===== verification/CliInput.v ===== *)
(** * [client/cli_input.c]: the command line's editor and its history

    What the terminal delivers is a list of bursts: [read] waits for a burst and takes at most
    what it holds.  What the editor writes to the screen is in [CliScreen]. *)

From S2P Require Import Prelude Cstr.

Definition CLI_HISTORY_MAX : nat := 128.

(** The history, the oldest line first. *)
Definition cli_input_remember (line : cstr) (history : list cstr) : list cstr :=
  match line with
  | [] => history
  | _ => (if length history =? CLI_HISTORY_MAX then drop 1 history else history) ++ [line]
  end.

(** [read(STDIN_FILENO, buf, n)]: nothing at the end of the input. *)
Fixpoint read_bytes (n : nat) (input : list cstr) : cstr * list cstr :=
  match input with
  | [] => ([], [])
  | [] :: input => read_bytes n input
  | burst :: input => (take n burst, drop n burst :: input)
  end.

Record line_editor := mk_editor {
  e_buf : cstr;
  (** [scratch], when [have_scratch] is set *)
  e_scratch : option cstr;
  e_index : nat;
}.

Definition isprint (x : ascii) : bool := ((32 <=? code x) && (code x <=? 126))%Z.

Section Readline.
Context (history : list cstr) (buf_size : nat).

(** [load_history_entry] with [reset_line]. *)
Definition load_history_entry (index : nat) : cstr :=
  match history !! index with Some line => snprintf_s buf_size line | None => [] end.

Definition key_up (e : line_editor) : line_editor :=
  match e_index e with
  | O => e
  | S i =>
      let scratch := match e_scratch e with None => Some (e_buf e) | s => s end in
      mk_editor (load_history_entry i) scratch i
  end.

Definition key_down (e : line_editor) : line_editor :=
  if e_index e <? length history then
    let i := S (e_index e) in
    mk_editor (if i =? length history then default [] (e_scratch e) else load_history_entry i) (e_scratch e) i
  else e.

Inductive reading :=
| Line (text : cstr)
| EndOfInput
| Editing (e : line_editor) (input : list cstr).

Definition with_buf (b : cstr) (e : line_editor) : line_editor := mk_editor b (e_scratch e) (e_index e).

Definition push_char (x : ascii) (b : cstr) : cstr := if length b + 1 <? buf_size then b ++ [x] else b.

Definition ctrl_d : ascii := "004"%char.
Definition backspace : ascii := "008"%char.
Definition esc_key : ascii := "027"%char.
Definition del : ascii := "127"%char.

(** The loop body. *)
Definition read_key (e : line_editor) (input : list cstr) : reading :=
  match read_bytes 1 input with
  | (ch :: _, input) =>
      if bool_decide (ch = newline) || bool_decide (ch = creturn) then Line (push_char newline (e_buf e))
      else if bool_decide (ch = ctrl_d) then
        match e_buf e with [] => EndOfInput | _ => Editing e input end
      else if bool_decide (ch = del) || bool_decide (ch = backspace) then
        Editing (with_buf (take (length (e_buf e) - 1) (e_buf e)) e) input
      else if bool_decide (ch = esc_key) then
        match read_bytes 2 input with
        | ([a; b], input) =>
            if negb (bool_decide (a = "["%char)) then Editing e input
            else if bool_decide (b = "A"%char) then Editing (key_up e) input
            else if bool_decide (b = "B"%char) then Editing (key_down e) input
            else Editing e input
        | (_, input) => Editing e input
        end
      else if isprint ch then Editing (with_buf (push_char ch (e_buf e)) e) input
      else Editing e input
  | ([], _) => EndOfInput
  end.

Fixpoint readline_loop (fuel : nat) (e : line_editor) (input : list cstr) : reading :=
  match fuel with
  | O => Editing e input
  | S fuel =>
      match read_key e input with
      | Editing e input => readline_loop fuel e input
      | r => r
      end
  end.

Definition editor_start : line_editor := mk_editor [] None (length history).

(** On a terminal; one round per byte and one for the end of the input. *)
Definition cli_input_readline (input : list cstr) : reading :=
  readline_loop (S (length (concat input))) editor_start input.
End Readline.

(** Without a terminal: [fgets], [None] at the end of the input. *)
Definition cli_input_readline_plain (buf_size : nat) (input : cstr) : option (cstr * cstr) :=
  match input with [] => None | _ => Some (fgets_line (buf_size - 1) input) end.

(** ** The input is used up *)

Lemma read_bytes_length n input b input' :
  read_bytes n input = (b, input') -> length (concat input) = length b + length (concat input').
Proof.
  revert b input'. induction input as [|[|x burst] input IH]; intros b input' H; cbn [read_bytes] in H.
  - by injection H as <- <-.
  - by apply IH in H.
  - injection H as <- <-. cbn [concat]. rewrite !length_app, length_take, length_drop. lia.
Qed.

Lemma read_bytes_length_le n input b input' :
  read_bytes n input = (b, input') -> length (concat input') <= length (concat input).
Proof. intros H%read_bytes_length. lia. Qed.

(** ** What the buffer holds *)

Definition printable (s : cstr) : Prop := Forall (fun x => isprint x = true) s.

Section Buffer.
Context (history : list cstr) (buf_size : nat) (Hsize : 0 < buf_size) (Hhist : Forall printable history).

(** A text the buffer can hold with its NUL. *)
Definition held (s : cstr) : Prop := printable s /\ length s < buf_size.

Record editor_ok (e : line_editor) : Prop := {
  eo_buf : held (e_buf e);
  eo_scratch : forall s, e_scratch e = Some s -> held s;
  eo_index : e_index e <= length history;
}.

Lemma held_nil : held [].
Proof using Hsize. split; [constructor|done]. Qed.

Lemma held_take n s : held s -> held (take n s).
Proof using Hsize. intros [H1 H2]. split; [by apply Forall_take|rewrite length_take; lia]. Qed.

Lemma held_push x s : isprint x = true -> held s -> held (push_char buf_size x s).
Proof using Hsize.
  intros Hx [H1 H2]. unfold push_char. destruct (Nat.ltb_spec (length s + 1) buf_size); [|by split].
  split; [apply Forall_app; split; [done|by apply Forall_singleton]|by rewrite length_app].
Qed.

Lemma held_entry i : held (load_history_entry history buf_size i).
Proof using Hsize Hhist.
  unfold load_history_entry. destruct (history !! i) as [line|] eqn:E; [|apply held_nil].
  split; [apply Forall_take; rewrite Forall_lookup in Hhist; by eapply Hhist|].
  pose proof (length_snprintf_s buf_size line). lia.
Qed.

Lemma key_up_ok e : editor_ok e -> editor_ok (key_up history buf_size e).
Proof using Hsize Hhist.
  intros [H1 H2 H3]. unfold key_up. destruct (e_index e) as [|i] eqn:Ei; [by split; rewrite ?Ei|].
  split; cbn; [apply held_entry| |lia]. destruct (e_scratch e) as [s|]; [exact H2|]. by intros ? [= <-].
Qed.

Lemma key_down_ok e : editor_ok e -> editor_ok (key_down history buf_size e).
Proof using Hsize Hhist.
  intros [H1 H2 H3]. unfold key_down. destruct (Nat.ltb_spec (e_index e) (length history)); [|by split].
  split; cbn [e_buf e_scratch e_index]; [|exact H2|lia]. destruct (S (e_index e) =? length history); [|apply held_entry].
  destruct (e_scratch e) as [s|]; [by apply H2|apply held_nil].
Qed.

Lemma with_buf_ok b e : held b -> editor_ok e -> editor_ok (with_buf b e).
Proof using Hsize. intros Hb [H1 H2 H3]. by split. Qed.

(** What [readline] may answer. *)
Definition line_ok (t : cstr) : Prop := length t < buf_size /\ exists b, printable b /\ (t = b ++ [newline] \/ t = b).

Lemma read_key_ok e input :
  editor_ok e ->
  match read_key history buf_size e input with
  | Line t => line_ok t
  | EndOfInput => True
  | Editing e' input' => editor_ok e' /\ length (concat input') < length (concat input)
  end.
Proof using Hsize Hhist.
  intros He. unfold read_key. destruct (read_bytes 1 input) as [[|ch b] rest] eqn:E1; [done|].
  apply read_bytes_length in E1. cbn [length] in E1.
  destruct (bool_decide (ch = newline) || _).
  { destruct (eo_buf _ He) as [Hp Hl]. unfold push_char. destruct (Nat.ltb_spec (length (e_buf e) + 1) buf_size).
    - split; [by rewrite length_app|]. exists (e_buf e). auto.
    - split; [done|]. exists (e_buf e). auto. }
  destruct (bool_decide (ch = ctrl_d)); [destruct (e_buf e); [done|split; [done|lia]]|].
  destruct (_ || _); [split; [apply with_buf_ok; [apply held_take; apply He|done]|lia]|].
  destruct (bool_decide (ch = esc_key)).
  { destruct (read_bytes 2 rest) as [[|a [|c [|]]] rest2] eqn:E2; apply read_bytes_length_le in E2; try (split; [done|lia]).
    destruct (negb _); [split; [done|lia]|]. destruct (bool_decide (c = "A"%char)); [split; [by apply key_up_ok|lia]|].
    destruct (bool_decide _); [split; [by apply key_down_ok|lia]|]. split; [done|lia]. }
  destruct (isprint ch) eqn:Ep; [split; [apply with_buf_ok; [by apply held_push; [|apply He]|done]|lia]|split; [done|lia]].
Qed.

Lemma readline_loop_ok fuel e input :
  editor_ok e -> length (concat input) < fuel ->
  match readline_loop history buf_size fuel e input with
  | Line t => line_ok t
  | EndOfInput => True
  | Editing _ _ => False
  end.
Proof using Hsize Hhist.
  revert e input. induction fuel as [|fuel IH]; intros e input He Hf; [lia|]. cbn [readline_loop].
  pose proof (read_key_ok e input He) as H. destruct (read_key history buf_size e input) as [t| |e' input']; [done|done|].
  apply IH; [apply H|lia].
Qed.
End Buffer.

(** Reading a line always ends, and the line fits its buffer: whatever keys arrive in
    whatever bursts, the editor stops after at most one round per byte, never writes past
    the buffer (not with its NUL either, and not when it shows a longer line of the
    history), and the line it returns is printable text with, if there was room for it, a
    newline at its end. *)
Theorem readline_terminates history buf_size input (Hsize : 0 < buf_size) (Hhist : Forall printable history) :
  match cli_input_readline history buf_size input with
  | Line t => line_ok buf_size t
  | EndOfInput => True
  | Editing _ _ => False
  end.
Proof.
  unfold cli_input_readline. apply readline_loop_ok; [done|done| |lia].
  split; cbn; [by apply held_nil|done|lia].
Qed.

(** ** Typing and the arrow keys *)

Definition up : cstr := [esc_key; "["%char; "A"%char].
Definition down : cstr := [esc_key; "["%char; "B"%char].
Definition enter : cstr := [newline].

Section Keys.
Context (history : list cstr) (buf_size : nat).

(** Rounds of the loop, as long as the editing goes on. *)
Inductive edits : line_editor -> list cstr -> line_editor -> list cstr -> Prop :=
| ed_done e input : edits e input e input
| ed_key e1 i1 e2 i2 e3 i3 :
    read_key history buf_size e1 i1 = Editing e2 i2 -> edits e2 i2 e3 i3 -> edits e1 i1 e3 i3.

Lemma edits_app e1 i1 e2 i2 e3 i3 : edits e1 i1 e2 i2 -> edits e2 i2 e3 i3 -> edits e1 i1 e3 i3.
Proof using. induction 1; [done|]. intros H'. eapply ed_key; [done|]. by apply IHedits. Qed.

(** A key takes bytes from the input, also when the first bursts are empty. *)
Lemma read_key_shrinks e input e' input' :
  read_key history buf_size e input = Editing e' input' -> length (concat input') < length (concat input).
Proof using.
  unfold read_key. destruct (read_bytes 1 input) as [[|ch b] rest] eqn:E1; [done|].
  apply read_bytes_length in E1. cbn [length] in E1.
  destruct (bool_decide (ch = newline) || _); [done|].
  destruct (bool_decide (ch = ctrl_d)); [destruct (e_buf e); [done|intros [= _ <-]; lia]|].
  destruct (_ || _); [intros [= _ <-]; lia|].
  destruct (bool_decide (ch = esc_key)); [|destruct (isprint ch); intros [= _ <-]; lia].
  destruct (read_bytes 2 rest) as [[|a [|c [|]]] rest2] eqn:E2; apply read_bytes_length_le in E2;
    try (intros [= _ <-]; lia).
  destruct (negb _); [intros [= _ <-]; lia|]. destruct (bool_decide (c = "A"%char)); [intros [= _ <-]; lia|].
  destruct (bool_decide _); intros [= _ <-]; lia.
Qed.

Lemma edits_loop e1 i1 e2 i2 fuel t :
  edits e1 i1 e2 i2 -> read_key history buf_size e2 i2 = Line t -> length (concat i1) < fuel ->
  readline_loop history buf_size fuel e1 i1 = Line t.
Proof using.
  intros H. revert fuel. induction H as [e i|e1 i1 e2 i2 e3 i3 Hk _ IH]; intros fuel Ht Hf;
    (destruct fuel as [|fuel]; [lia|]); cbn [readline_loop].
  - by rewrite Ht.
  - rewrite Hk. apply read_key_shrinks in Hk. apply IH; [done|lia].
Qed.

Lemma isprint_not_special x :
  isprint x = true ->
  bool_decide (x = newline) = false /\ bool_decide (x = creturn) = false /\ bool_decide (x = ctrl_d) = false /\
  bool_decide (x = del) = false /\ bool_decide (x = backspace) = false /\ bool_decide (x = esc_key) = false.
Proof using.
  intros Hx. split_and!; apply bool_decide_eq_false; intros ->; vm_compute in Hx; done.
Qed.

(** Typing shows the text, as far as the buffer has room for it. *)
Lemma type_text text e rest :
  printable text -> length (e_buf e) + length text < buf_size ->
  edits e (text :: rest) (with_buf (e_buf e ++ text) e) ([] :: rest).
Proof using.
  revert e. induction text as [|x text IH]; intros e Hp Hl.
  - rewrite app_nil_r. destruct e. constructor.
  - apply Forall_cons in Hp as [Hx Hp]. destruct (isprint_not_special x Hx) as (H1 & H2 & H3 & H4 & H5 & H6).
    cbn [length] in Hl. eapply ed_key.
    + unfold read_key. cbn [read_bytes take drop]. rewrite H1, H2, H3, H4, H5, H6, Hx. cbn [orb].
      unfold push_char. replace (length (e_buf e) + 1 <? buf_size) with true by (symmetry; apply Nat.ltb_lt; lia). done.
    + rewrite drop_0. specialize (IH (with_buf (e_buf e ++ [x]) e) Hp). cbn [e_buf with_buf] in IH.
      rewrite length_app, <- app_assoc in IH. apply IH. cbn [length]. lia.
Qed.

(** The editor with [k] entries of the history gone back, the typed text kept. *)
Definition back (text : cstr) (k : nat) : line_editor :=
  let i := length history - k in
  mk_editor (if k =? 0 then text else load_history_entry history buf_size i) (Some text) i.

Lemma read_key_up e rest : read_key history buf_size e (up :: rest) = Editing (key_up history buf_size e) ([] :: rest).
Proof using. done. Qed.

Lemma read_key_down e rest : read_key history buf_size e (down :: rest) = Editing (key_down history buf_size e) ([] :: rest).
Proof using. done. Qed.

Lemma read_key_nil e rest : read_key history buf_size e ([] :: rest) = read_key history buf_size e rest.
Proof using. done. Qed.

Lemma key_up_back text k :
  k < length history -> key_up history buf_size (back text k) = back text (S k).
Proof using.
  intros Hk. unfold key_up, back. cbn [e_index e_scratch]. destruct (length history - k) as [|i] eqn:E; [lia|].
  cbn. by replace (length history - S k) with i by lia.
Qed.

Lemma key_down_back text k :
  k < length history -> key_down history buf_size (back text (S k)) = back text k.
Proof using.
  intros Hk. unfold key_down, back. cbn [e_index e_scratch].
  replace (length history - S k <? length history) with true by (symmetry; apply Nat.ltb_lt; lia).
  replace (S (length history - S k)) with (length history - k) by lia. f_equal.
  destruct k as [|k]; cbn [Nat.eqb default].
  - by rewrite Nat.sub_0_r, Nat.eqb_refl.
  - replace (length history - S k =? length history) with false by (symmetry; apply Nat.eqb_neq; lia). done.
Qed.

Lemma edits_skip e i e2 i2 : edits e i e2 i2 -> i2 <> i -> edits e ([] :: i) e2 i2.
Proof using.
  intros H Hne. destruct H as [e i|e1 i1 e2 i2 e3 i3 Hk H]; [done|]. eapply ed_key; [|exact H]. by rewrite read_key_nil.
Qed.

Lemma press_up text k j rest :
  k + j <= length history -> edits (back text k) ([] :: replicate j up ++ rest) (back text (k + j)) ([] :: rest).
Proof using.
  revert k. induction j as [|j IH]; intros k Hk; cbn [replicate app].
  - rewrite Nat.add_0_r. constructor.
  - eapply ed_key; [by rewrite read_key_nil, read_key_up|]. rewrite key_up_back by lia.
    replace (k + S j) with (S k + j) by lia. apply IH. lia.
Qed.

Lemma press_down text k j rest :
  j <= k <= length history -> edits (back text k) ([] :: replicate j down ++ rest) (back text (k - j)) ([] :: rest).
Proof using.
  revert k. induction j as [|j IH]; intros k Hk; cbn [replicate app].
  - rewrite Nat.sub_0_r. constructor.
  - destruct k as [|k]; [lia|]. eapply ed_key; [by rewrite read_key_nil, read_key_down|]. rewrite key_down_back by lia.
    cbn [Nat.sub]. apply IH. lia.
Qed.

(** The first time the text is put aside. *)
Lemma press_up_first text k rest :
  1 <= k <= length history ->
  edits (mk_editor text None (length history)) ([] :: replicate k up ++ rest) (back text k) ([] :: rest).
Proof using.
  intros Hk. destruct k as [|k]; [lia|]. cbn [replicate app]. eapply ed_key; [by rewrite read_key_nil, read_key_up|].
  assert (key_up history buf_size (mk_editor text None (length history)) = back text 1) as ->.
  { unfold key_up, back. cbn [e_index e_scratch e_buf]. destruct (length history) as [|n]; [lia|]. cbn. by rewrite Nat.sub_0_r. }
  apply (press_up text 1 k). lia.
Qed.

Lemma press_enter e rest : length (e_buf e) + 1 < buf_size -> read_key history buf_size e ([] :: enter :: rest) = Line (e_buf e ++ [newline]).
Proof using.
  intros Hl. rewrite read_key_nil. unfold read_key, push_char.
  replace (length (e_buf e) + 1 <? buf_size) with true by (symmetry; by apply Nat.ltb_lt). done.
Qed.

Lemma readline_edits input e t :
  edits (editor_start history) input e [[]; enter] -> length (e_buf e) + 1 < buf_size -> t = e_buf e ++ [newline] ->
  cli_input_readline history buf_size input = Line t.
Proof using.
  intros He Hl ->. unfold cli_input_readline. eapply edits_loop; [exact He|by apply press_enter|lia].
Qed.
End Keys.

(** The arrow keys walk the history and give the typed text back.  After a text is typed,
    [k] times up and [j] times down, Enter returns the line of the history that is [k - j]
    lines back, or the typed text itself when that is none. *)
Theorem readline_navigation history buf_size text k j
  (Ht : printable text) (Hl : length text + 1 < buf_size) (Hh : Forall (fun l => length l + 1 < buf_size) history)
  (Hj : j <= k <= length history) :
  cli_input_readline history buf_size (text :: replicate k up ++ replicate j down ++ [enter]) =
  Line ((if k =? j then text else default [] (history !! (length history - (k - j)))) ++ [newline]).
Proof.
  assert (edits history buf_size (editor_start history) (text :: replicate k up ++ replicate j down ++ [enter])
            (mk_editor text None (length history)) ([] :: replicate k up ++ replicate j down ++ [enter])) as H0
    by (apply (type_text history buf_size text (editor_start history)); cbn; [done|lia]).
  destruct (decide (k = 0)) as [->|Hk].
  - assert (j = 0) as -> by lia. cbn [replicate app Nat.eqb] in *. by eapply readline_edits.
  - eapply readline_edits.
    + eapply edits_app; [exact H0|]. eapply edits_app; [apply press_up_first; lia|apply press_down; lia].
    + unfold back. cbn [e_buf]. destruct (k - j =? 0); [done|]. unfold load_history_entry.
      destruct (history !! _) as [l|] eqn:E; [|cbn; lia]. rewrite Forall_lookup in Hh. specialize (Hh _ _ E).
      rewrite snprintf_s_id; lia.
    + unfold back. cbn [e_buf]. f_equal. destruct (Nat.eqb_spec k j) as [->|Hne]; [by rewrite Nat.sub_diag|].
      replace (k - j =? 0) with false by (symmetry; apply Nat.eqb_neq; lia). unfold load_history_entry.
      destruct (history !! _) as [l|] eqn:E; [|done]. rewrite Forall_lookup in Hh. specialize (Hh _ _ E).
      by rewrite snprintf_s_id by lia.
Qed.

(** A second excursion into the history loses what was typed after the first.  The text
    put aside at the first press of up is never renewed: type, go up and down again, type
    more, go up and down again, and Enter returns the text without what was added. *)
Lemma readline_loses_draft history buf_size text more
  (Ht : printable text) (Hm : printable more) (Hl : length text + length more + 1 < buf_size) (Hh : history <> [])
  (Hne : more <> []) :
  cli_input_readline history buf_size [text; up; down; more; up; down; enter] = Line (text ++ [newline]).
Proof.
  assert (1 <= length history) as Hlen by (destruct history; [done|cbn; lia]).
  eapply (readline_edits _ _ _ (back history buf_size text 0)); [|cbn; lia|done].
  eapply edits_app; [apply (type_text history buf_size text (editor_start history)); cbn; [done|lia]|].
  eapply edits_app; [apply (press_up_first history buf_size text 1 [down; more; up; down; enter]); lia|].
  eapply edits_app; [apply (press_down history buf_size text 1 1 [more; up; down; enter]); lia|].
  eapply edits_app.
  { apply edits_skip; [apply (type_text history buf_size more (back history buf_size text 0)); [done|cbn; lia]|].
    intros [= E]. by destruct more. }
  eapply edits_app; [eapply ed_key; [by rewrite read_key_nil, read_key_up|]|].
  { assert (key_up history buf_size (with_buf (e_buf (back history buf_size text 0) ++ more) (back history buf_size text 0)) =
            back history buf_size text 1) as ->; [|constructor].
    rewrite <- (key_up_back history buf_size text 0) by lia. unfold key_up, back. cbn [e_index with_buf e_scratch].
    destruct (length history) as [|n]; [lia|done]. }
  apply (press_down history buf_size text 1 1 [enter]). lia.
Qed.

Lemma demo_printable s : forallb isprint s = true -> printable s.
Proof. intros H. apply Forall_forall. intros x Hx. apply (proj1 (forallb_forall _ _) H). by apply list_elem_of_In. Qed.

Definition demo_history : list cstr := [cs "VIEW -a"; cs "READ plan"; cs "WRITE plan 0"].

Lemma demo_history_printable : Forall printable demo_history.
Proof. repeat (apply List.Forall_cons; [by apply demo_printable|]). constructor. Qed.

Lemma readline_terminates_witness :
  cli_input_readline demo_history 8 [cs "li"; up; [esc_key]; cs "xyzt"; del :: enter] = Line (cs "WRITE " ++ [newline]) /\
  line_ok 8 (cs "WRITE " ++ [newline]).
Proof.
  pose proof (readline_terminates demo_history 8 [cs "li"; up; [esc_key]; cs "xyzt"; del :: enter] ltac:(lia) demo_history_printable) as H.
  assert (cli_input_readline demo_history 8 [cs "li"; up; [esc_key]; cs "xyzt"; del :: enter] = Line (cs "WRITE " ++ [newline])) as E
    by (vm_compute; reflexivity).
  rewrite E in H. split; [exact E|exact H].
Defined.

Lemma readline_navigation_witness :
  cli_input_readline demo_history 512 (cs "li" :: replicate 3 up ++ replicate 2 down ++ [enter]) = Line (cs "WRITE plan 0" ++ [newline]) /\
  cli_input_readline demo_history 512 (cs "li" :: replicate 3 up ++ replicate 3 down ++ [enter]) = Line (cs "li" ++ [newline]).
Proof.
  assert (Forall (fun l => length l + 1 < 512) demo_history) as Hh
    by (repeat (apply List.Forall_cons; [cbn; lia|]); constructor).
  split.
  - exact (readline_navigation demo_history 512 (cs "li") 3 2 (demo_printable (cs "li") eq_refl) ltac:(cbn; lia) Hh ltac:(cbn; lia)).
  - exact (readline_navigation demo_history 512 (cs "li") 3 3 (demo_printable (cs "li") eq_refl) ltac:(cbn; lia) Hh ltac:(cbn; lia)).
Defined.

