(* ===== verification/CliScreen.v ===== *)
(** * [client/cli_input.c]: the terminal

    The editor of [CliInput] with what it does to the terminal: it takes it out of its line mode
    while it reads, writes each change to the screen, and puts the mode back.  The terminal is a
    parameter with a width; what the code relies on is the effect of the few strings it writes as
    long as the cursor stays within the row.  A terminal of 80 columns that wraps longer lines is an
    instance, and shows what happens to them. *)

From S2P Require Import Prelude Cstr CliInput.

(** ** What a terminal is *)

(** The row of the cursor, the cursor's column, the rows above, and one [write]. *)
Class Terminal (T : Type) := {
  row : T -> cstr;
  column : T -> nat;
  above : T -> list cstr;
  write : cstr -> T -> T;
  width : nat;
}.
Arguments width T {_}.

Definition clear_to_end : cstr := [esc_key; "["%char; "K"%char].
Definition erase_last : cstr := [backspace; " "%char; backspace].
Definition next_row : cstr := [creturn; newline].

(** What a terminal does with these strings, to the left of its right margin. *)
Class TerminalLaws (T : Type) `{Terminal T} := {
  write_text s t : printable s -> column t + length s < width T ->
    row (write s t) = take (column t) (row t) ++ s ++ drop (column t + length s) (row t) /\
    column (write s t) = column t + length s /\ above (write s t) = above t;
  write_return t : row (write [creturn] t) = row t /\ column (write [creturn] t) = 0 /\ above (write [creturn] t) = above t;
  write_clear t : column t < width T ->
    row (write clear_to_end t) = take (column t) (row t) /\ column (write clear_to_end t) = column t /\
    above (write clear_to_end t) = above t;
  write_erase t : 0 < column t -> column t <= length (row t) -> column t < width T ->
    row (write erase_last t) = take (column t - 1) (row t) ++ [" "%char] ++ drop (column t) (row t) /\
    column (write erase_last t) = column t - 1 /\ above (write erase_last t) = above t;
  write_next t : row (write next_row t) = [] /\ column (write next_row t) = 0 /\ above (write next_row t) = above t ++ [row t];
}.

Section Tty.
Context {T : Type} `{Terminal T}.

(** ** The mode of the terminal *)

Record console := mk_console {
  (** [g_stdio_is_tty], [g_termios_saved] *)
  k_tty : bool;
  k_saved : bool;
  (** the mode, and the outcomes of [tcsetattr] to come; used up, it succeeds *)
  k_raw : bool;
  k_calls : list bool;
  k_screen : T;
}.

Definition cli_input_init (isatty tcgetattr : bool) (k : console) : console :=
  mk_console (isatty && tcgetattr) (if isatty && tcgetattr then true else k_saved k) (k_raw k) (k_calls k) (k_screen k).

Definition tcsetattr (raw : bool) (k : console) : bool * console :=
  let ok := default true (head (k_calls k)) in
  (ok, mk_console (k_tty k) (k_saved k) (if ok then raw else k_raw k) (tail (k_calls k)) (k_screen k)).

Definition enable_raw_mode (k : console) : bool * console :=
  if negb (k_tty k) || negb (k_saved k) then (true, k) else tcsetattr true k.
Definition disable_raw_mode (k : console) : console :=
  if k_tty k && k_saved k then snd (tcsetattr false k) else k.

Definition on_screen (f : T -> T) (k : console) : console :=
  mk_console (k_tty k) (k_saved k) (k_raw k) (k_calls k) (f (k_screen k)).

(** ** The editor on the screen *)

Definition redraw_prompt (prompt line : cstr) (t : T) : T :=
  write clear_to_end (write line (write prompt (write [creturn] t))).

Section Editor.
Context (prompt : cstr) (history : list cstr) (buf_size : nat).

(** The loop body, with its writes. *)
Definition read_key_tty (e : line_editor) (input : list cstr) (t : T) : reading * T :=
  match read_bytes 1 input with
  | (ch :: _, input) =>
      if bool_decide (ch = newline) || bool_decide (ch = creturn) then
        (Line (push_char buf_size newline (e_buf e)), write next_row t)
      else if bool_decide (ch = ctrl_d) then
        match e_buf e with [] => (EndOfInput, t) | _ => (Editing e input, t) end
      else if bool_decide (ch = del) || bool_decide (ch = backspace) then
        match e_buf e with
        | [] => (Editing e input, t)
        | _ => (Editing (with_buf (take (length (e_buf e) - 1) (e_buf e)) e) input, write erase_last t)
        end
      else if bool_decide (ch = esc_key) then
        match read_bytes 2 input with
        | ([a; b], input) =>
            if negb (bool_decide (a = "["%char)) then (Editing e input, t)
            else if bool_decide (b = "A"%char) then
              if 0 <? e_index e then
                let e := key_up history buf_size e in (Editing e input, redraw_prompt prompt (e_buf e) t)
              else (Editing e input, t)
            else if bool_decide (b = "B"%char) then
              if e_index e <? length history then
                let e := key_down history buf_size e in (Editing e input, redraw_prompt prompt (e_buf e) t)
              else (Editing e input, t)
            else (Editing e input, t)
        | (_, input) => (Editing e input, t)
        end
      else if isprint ch then
        if length (e_buf e) + 1 <? buf_size then (Editing (with_buf (e_buf e ++ [ch]) e) input, write [ch] t)
        else (Editing e input, t)
      else (Editing e input, t)
  | ([], _) => (EndOfInput, t)
  end.

Fixpoint readline_loop_tty (fuel : nat) (e : line_editor) (input : list cstr) (t : T) : reading * T :=
  match fuel with
  | O => (Editing e input, t)
  | S fuel =>
      match read_key_tty e input t with
      | (Editing e input, t) => readline_loop_tty fuel e input t
      | r => r
      end
  end.

(** The results -1, 0, and 1 with the line. *)
Inductive readline_result := ReadFailed | ReadEnd | ReadLine (text : cstr).

(** [cli_input_readline] on a terminal and, with [fgets], on anything else. *)
Definition readline (input : list cstr) (k : console) : readline_result * console :=
  if buf_size =? 0 then (ReadFailed, k)
  else if negb (k_tty k) then
    (match cli_input_readline_plain buf_size (concat input) with Some (line, _) => ReadLine line | None => ReadEnd end,
     on_screen (write prompt) k)
  else
    match enable_raw_mode k with
    | (false, k) => (ReadFailed, k)
    | (true, k) =>
        let '(r, t) := readline_loop_tty (S (length (concat input))) (editor_start history) input (write prompt (k_screen k)) in
        let k := disable_raw_mode (on_screen (fun _ => t) k) in
        (match r with Line text => ReadLine text | EndOfInput => ReadEnd | Editing _ _ => ReadFailed end, k)
    end.
End Editor.
End Tty.
Arguments console : clear implicits.

(** ** The editor is the one of [CliInput] *)

Section Screen.
Context {T : Type} `{TerminalLaws T} (prompt : cstr) (history : list cstr) (buf_size : nat).

Lemma read_key_tty_reading e input t : fst (read_key_tty prompt history buf_size e input t) = read_key history buf_size e input.
Proof using.
  unfold read_key_tty, read_key. destruct (read_bytes 1 input) as [[|ch b] rest]; [done|].
  destruct (_ || _); [done|]. destruct (bool_decide _); [by destruct (e_buf e)|].
  destruct (_ || _). { destruct e as [[|x buf] s i]; [done|]. done. }
  destruct (bool_decide _).
  { destruct (read_bytes 2 rest) as [[|x [|y [|]]] rest2]; try done. destruct (negb _); [done|]. destruct (bool_decide _).
    - unfold key_up. by destruct (e_index e).
    - destruct (bool_decide _); [|done]. unfold key_down. by destruct (e_index e <? length history). }
  destruct (isprint ch); [|done]. unfold push_char. destruct (_ <? _); [done|]. by destruct e.
Qed.

Lemma readline_loop_tty_reading fuel e input t :
  fst (readline_loop_tty prompt history buf_size fuel e input t) = readline_loop history buf_size fuel e input.
Proof using.
  revert e input t. induction fuel as [|fuel IH]; intros e input t; [done|]. cbn [readline_loop_tty readline_loop].
  rewrite <- (read_key_tty_reading e input t). destruct (read_key_tty _ _ _ _ _ _) as [[text| |e' input'] t']; [done|done|apply IH].
Qed.

(** ** The screen shows the line *)

Definition shown (text : cstr) (t : T) : Prop :=
  (exists n, row t = prompt ++ text ++ repeat " "%char n) /\ column t = length (prompt ++ text).

Lemma drop_blanks n m : drop n (repeat " "%char m) = repeat " "%char (m - n).
Proof using. revert m. induction n as [|n IH]; intros m; [by rewrite Nat.sub_0_r|]. destruct m as [|m]; [done|]. apply IH. Qed.

(** The prompt and the text end before the margin. *)
Definition fits (text : cstr) : Prop := length (prompt ++ text) < width T.

Lemma shown_write text s t :
  printable s -> fits (text ++ s) -> shown text t -> shown (text ++ s) (write s t) /\ above (write s t) = above t.
Proof using H0.
  intros Hs Hf [[n Hr] Hc]. unfold fits in Hf. rewrite app_assoc, length_app in Hf.
  destruct (write_text s t Hs) as (H1 & H2 & H3); [by rewrite Hc|]. split; [|done].
  split; [|rewrite H2, Hc, !length_app; lia]. exists (n - length s). rewrite H1, Hr, Hc. rewrite (app_assoc prompt).
  rewrite take_app_length, drop_app_ge, drop_blanks by lia. rewrite <- !app_assoc. do 4 f_equal. lia.
Qed.

Lemma shown_erase text x t :
  fits (text ++ [x]) -> shown (text ++ [x]) t -> shown text (write erase_last t) /\ above (write erase_last t) = above t.
Proof using H0.
  intros Hf [[n Hr] Hc]. unfold fits in Hf. rewrite app_assoc, length_app in Hc, Hf. cbn [length] in Hc, Hf.
  destruct (write_erase t) as (H1 & H2 & H3); [lia|rewrite Hr, Hc, !length_app; cbn [length]; lia|lia|]. split; [|done].
  split; [|rewrite H2, Hc; lia]. exists (S n). rewrite H1, Hr, Hc.
  rewrite <- (app_assoc text), (app_assoc prompt). replace (length (prompt ++ text) + 1 - 1) with (length (prompt ++ text)) by lia.
  rewrite take_app_length, drop_app_ge by lia. replace (length (prompt ++ text) + 1 - length (prompt ++ text)) with 1 by lia.
  by rewrite <- app_assoc.
Qed.

Context (Hprompt : printable prompt).

Lemma shown_redraw text t :
  printable text -> fits text -> shown text (redraw_prompt prompt text t) /\ above (redraw_prompt prompt text t) = above t.
Proof using H0 Hprompt.
  intros Ht Hf. unfold fits in Hf. rewrite length_app in Hf.
  unfold redraw_prompt. destruct (write_return t) as (A1 & A2 & A3). set (t1 := write [creturn] t) in *.
  destruct (write_text prompt t1 Hprompt) as (B1 & B2 & B3); [lia|]. set (t2 := write prompt t1) in *. rewrite A2 in B1, B2.
  destruct (write_text text t2 Ht) as (C1 & C2 & C3); [rewrite B2; lia|]. set (t3 := write text t2) in *.
  destruct (write_clear t3) as (D1 & D2 & D3); [rewrite C2, B2; lia|]. cbn [Nat.add] in B1, B2. split; [|congruence].
  split; [|rewrite D2, C2, B2, length_app; lia]. exists 0. rewrite D1, C2, C1, B2, B1, take_0, app_nil_l. cbn [repeat].
  rewrite app_nil_r, take_app_length, app_assoc, <- length_app. by rewrite take_app_length.
Qed.

Context (Hsize : 0 < buf_size) (Hhist : Forall printable history).

(** What one key makes of the screen. *)
Lemma read_key_shown e input t :
  editor_ok history buf_size e -> shown (e_buf e) t -> fits (e_buf e) ->
  (forall e' input', read_key history buf_size e input = Editing e' input' -> fits (e_buf e')) ->
  match read_key_tty prompt history buf_size e input t with
  | (Editing e' _, t') => shown (e_buf e') t' /\ above t' = above t
  | (Line text, t') =>
      text = push_char buf_size newline (e_buf e) /\ above t' = above t ++ [row t] /\ row t' = [] /\ column t' = 0
  | (EndOfInput, t') => t' = t
  end.
Proof using H0 Hprompt Hsize Hhist.
  intros He Ht Hf Hfs. unfold read_key in Hfs. unfold read_key_tty. destruct (read_bytes 1 input) as [[|ch b] rest]; [done|].
  destruct (_ || _). { destruct (write_next t) as (A1 & A2 & A3). by split_and!. }
  destruct (bool_decide _); [destruct (e_buf e) eqn:Eb; [done|by rewrite Eb]|].
  destruct (_ || _).
  { destruct (e_buf e) as [|x buf] eqn:Eb; [by rewrite Eb|]. cbn [e_buf with_buf].
    destruct (exists_last (l := x :: buf) ltac:(done)) as (init & y & E). rewrite E in Ht |- *. rewrite length_app. cbn [length].
    rewrite Nat.add_sub, take_app_length. rewrite E in Hf. by eapply shown_erase. }
  destruct (bool_decide _).
  { destruct (read_bytes 2 rest) as [[|x [|y [|]]] rest2]; try done. destruct (negb _); [done|]. destruct (bool_decide _).
    - destruct (0 <? e_index e); [|done]. apply shown_redraw; [|by eapply Hfs]. apply (eo_buf _ _ _ (key_up_ok history buf_size Hsize Hhist e He)).
    - destruct (bool_decide _); [|done]. destruct (_ <? _); [|done]. apply shown_redraw; [|by eapply Hfs].
      apply (eo_buf _ _ _ (key_down_ok history buf_size Hsize Hhist e He)). }
  destruct (isprint ch) eqn:Ep; [|done]. unfold push_char in Hfs. destruct (_ <? _); [|done]. cbn [e_buf with_buf].
  apply shown_write; [by apply Forall_singleton|by eapply (Hfs (with_buf _ _))|done].
Qed.

(** The row that stays on the screen. *)
Definition left_behind (text : cstr) (t t' : T) : Prop :=
  exists b n, printable b /\ (text = b ++ [newline] \/ text = b) /\
    above t' = above t ++ [prompt ++ b ++ repeat " "%char n] /\ row t' = [] /\ column t' = 0.

Lemma readline_loop_shown fuel e input t :
  editor_ok history buf_size e -> shown (e_buf e) t -> length (concat input) < fuel ->
  (forall e' input', edits history buf_size e input e' input' -> fits (e_buf e')) ->
  match readline_loop_tty prompt history buf_size fuel e input t with
  | (Line text, t') => left_behind text t t'
  | (EndOfInput, t') => above t' = above t
  | (Editing _ _, _) => False
  end.
Proof using H0 Hprompt Hsize Hhist.
  revert e input t. induction fuel as [|fuel IH]; intros e input t He Ht Hf Hfs; [lia|]. cbn [readline_loop_tty].
  pose proof (read_key_shown e input t He Ht (Hfs _ _ (ed_done _ _ _ _))
    (fun e' i' H => Hfs _ _ (ed_key _ _ _ _ _ _ _ _ H (ed_done _ _ _ _)))) as Hk. pose proof (read_key_ok history buf_size Hsize Hhist e input He) as Hr.
  pose proof (fun e' i' H e2 i2 H2 => Hfs e2 i2 (ed_key _ _ _ _ e' i' _ _ H H2)) as Hnext.
  rewrite <- (read_key_tty_reading e input t) in Hr, Hnext. destruct (read_key_tty _ _ _ _ _ _) as [[text| |e' input'] t']; cbn [fst] in Hr, Hnext.
  - destruct Hk as (-> & Ha & Hrow & Hcol). destruct Ht as [[n Hn] _]. exists (e_buf e), n. split_and!; [apply (eo_buf _ _ _ He)| |by rewrite Ha, Hn|done|done].
    unfold push_char. destruct (_ <? _); auto.
  - by subst.
  - destruct Hk as [Hs Ha]. destruct Hr as [He' Hl]. specialize (IH e' input' t' He' Hs ltac:(lia) (Hnext _ _ eq_refl)). unfold left_behind in *. by rewrite Ha in IH.
Qed.
End Screen.

(** Lines that are shown on the way are no longer than an entry of the history and all that is typed. *)
Section Lengths.
Context (history : list cstr) (buf_size total bound : nat)
  (Htotal : total <= bound) (Hlong : forall h, h ∈ history -> length h + total <= bound).

Definition within (e : line_editor) (left : nat) : Prop :=
  left <= total /\ length (e_buf e) + left <= bound /\ forall s, e_scratch e = Some s -> length s + left <= bound.

Lemma entry_within i left : left <= total -> length (load_history_entry history buf_size i) + left <= bound.
Proof using Htotal Hlong.
  intros Hl. unfold load_history_entry. destruct (history !! i) as [h|] eqn:E; [|cbn; lia].
  specialize (Hlong h (list_elem_of_lookup_2 _ _ _ E)). pose proof (length_take h (buf_size - 1)). unfold snprintf_s. lia.
Qed.

Lemma read_key_within e input e' input' :
  read_key history buf_size e input = Editing e' input' -> within e (length (concat input)) -> within e' (length (concat input')).
Proof using Htotal Hlong.
  intros Hk (H1 & H2 & H3). pose proof (read_key_shrinks history buf_size _ _ _ _ Hk) as Hs. unfold read_key in Hk.
  assert (forall d, within d (length (concat input)) -> within d (length (concat input'))) as Hless.
  { intros d (D1 & D2 & D3). split_and!; [lia|lia|]. intros s Es. specialize (D3 s Es). lia. }
  assert (within e (length (concat input))) as He by done.
  destruct (read_bytes 1 input) as [[|ch b] rest]; [done|].
  destruct (_ || _); [done|]. destruct (bool_decide _); [destruct (e_buf e); [done|injection Hk as <- <-; auto]|].
  destruct (_ || _).
  { injection Hk as <- <-. apply Hless. split_and!; [done| |exact H3]. cbn [e_buf with_buf]. rewrite length_take. lia. }
  destruct (bool_decide _).
  { destruct (read_bytes 2 rest) as [[|x [|y [|]]] rest2]; try (injection Hk as <- <-; by apply Hless).
    destruct (negb _); [injection Hk as <- <-; by apply Hless|]. destruct (bool_decide _); [|destruct (bool_decide _)]; injection Hk as <- <-; [| |by apply Hless].
    - apply Hless. unfold key_up. destruct (e_index e) as [|i]; [done|]. split_and!; cbn [e_buf e_scratch]; [done|by apply entry_within|].
      intros s. destruct (e_scratch e) as [z|] eqn:Ez; intros [= <-]; auto.
    - apply Hless. unfold key_down. destruct (_ <? _); [|done]. split_and!; cbn [e_buf e_scratch]; [done| |exact H3].
      destruct (_ =? _); [|by apply entry_within]. destruct (e_scratch e) as [z|] eqn:Ez; cbn; [by apply H3|lia]. }
  destruct (isprint ch); injection Hk as <- <-; [|by apply Hless]. split_and!; [lia| |intros s Es; specialize (H3 s Es); cbn in *; lia].
  cbn [e_buf with_buf]. unfold push_char. destruct (_ <? _); [rewrite length_app; cbn [length]; lia|lia].
Qed.

Lemma edits_within e input e' input' :
  edits history buf_size e input e' input' -> within e (length (concat input)) -> within e' (length (concat input')).
Proof using Htotal Hlong. induction 1 as [|e1 i1 e2 i2 e3 i3 Hk _ IH]; [done|]. intros H. by eapply IH, read_key_within. Qed.
End Lengths.

Lemma short_lines_fit `{Terminal T} prompt history buf_size input e input' :
  length prompt + length (concat input) < width T ->
  (forall h, h ∈ history -> length prompt + length h + length (concat input) < width T) ->
  edits history buf_size (editor_start history) input e input' -> fits prompt (e_buf e).
Proof.
  intros H1 H2 He. unfold fits. rewrite length_app. set (n := width T) in *. clearbody n.
  destruct (edits_within history buf_size (length (concat input)) (n - length prompt - 1) ltac:(lia)
    ltac:(intros h Hh; specialize (H2 h Hh); lia) _ _ _ _ He) as (_ & Hb & _); [split_and!; cbn; [done|lia|done]|lia].
Qed.

(** C37: What is on the screen is what is handed over, as long as it fits in a row.  On a terminal whose
    cursor stands at the start of an empty row, and when at no time the prompt and the line being
    edited reach the right margin ([short_lines_fit] says when that is sure; the program does not
    ask for the width, see [long_line_stays]): whatever printable keys, controls and arrows arrive
    in whatever bursts, reading a line ends; it fails only when the terminal refuses its raw mode,
    and then nothing has changed.  The line is printable, fits its buffer with its NUL, and is the
    one the user sees: the row left behind is the prompt and the line, followed by nothing but
    blanks, after any typing, erasing and moving through the history, and the cursor is at the
    start of an empty row.  At the end of the input no row is added.  In both cases the mode of the
    terminal has been put back, unless the call that does so failed. *)
Theorem readline_on_screen {T} `{TerminalLaws T} prompt history buf_size input (k : console T)
  (Hsize : 0 < buf_size) (Hprompt : printable prompt) (Hhist : Forall printable history)
  (Hfits : forall e input', edits history buf_size (editor_start history) input e input' -> length (prompt ++ e_buf e) < width T)
  (Htty : k_tty k = true) (Hsaved : k_saved k = true) (Hrow : row (k_screen k) = []) (Hcol : column (k_screen k) = 0) :
  let '(r, k') := readline prompt history buf_size input k in
  let restored := k_raw k' = negb (default true (k_calls k !! 1)) in
  match r with
  | ReadFailed => head (k_calls k) = Some false /\ k_raw k' = k_raw k /\ k_screen k' = k_screen k
  | ReadEnd => restored /\ above (k_screen k') = above (k_screen k)
  | ReadLine text => restored /\ length text < buf_size /\ left_behind prompt text (k_screen k) (k_screen k')
  end.
Proof.
  unfold readline. destruct (Nat.eqb_spec buf_size 0) as [|_]; [lia|]. rewrite Htty. cbn [negb]. unfold enable_raw_mode. rewrite Htty, Hsaved.
  cbn [negb orb]. destruct k as [tty saved raw calls t]. cbn [k_tty k_saved k_raw k_calls k_screen] in *. subst tty saved. cbn [tcsetattr k_calls k_screen].
  destruct (default true (head calls)) eqn:Ec; [|by destruct calls as [|[] calls]]. cbn [k_screen].
  assert (shown prompt [] (write prompt t) /\ above (write prompt t) = above t) as [Hs Ha].
  { pose proof (Hfits _ _ (ed_done _ _ _ _)) as Hp. cbn in Hp. rewrite app_nil_r in Hp.
    destruct (write_text prompt t Hprompt) as (A1 & A2 & A3); [by rewrite Hcol|]. rewrite Hrow, Hcol in A1. rewrite Hcol in A2. split; [|done]. split.
    - exists 0. by rewrite A1, take_nil, drop_nil.
    - by rewrite A2, app_nil_r. }
  assert (editor_ok history buf_size (editor_start history)) as He by (split; cbn; [by apply held_nil|done|lia]).
  pose proof (readline_loop_shown prompt history buf_size Hprompt Hsize Hhist (S (length (concat input))) _ input _ He Hs ltac:(lia) Hfits) as Hl.
  pose proof (readline_loop_ok history buf_size Hsize Hhist (S (length (concat input))) _ input He ltac:(lia)) as Hok.
  rewrite <- (readline_loop_tty_reading prompt history buf_size _ _ input (write prompt t)) in Hok.
  destruct (readline_loop_tty _ _ _ _ _ _ _) as [[text| |e' i'] t']; cbn [fst] in Hok; [| |done].
  - cbn. split; [by destruct calls as [|? [|[] ?]]|]. split; [apply Hok|]. unfold left_behind in *. by rewrite Ha in Hl.
  - cbn. split; [by destruct calls as [|? [|[] ?]]|]. by rewrite Hl, Ha.
Qed.

(** ** A terminal *)

Record screen := mk_screen { s_row : cstr; s_column : nat; s_above : list cstr }.

Definition columns : nat := 80.

(** Control characters move the cursor within its row; [ESC \[ K] clears to the end of the row.  A
    character after the last column goes to the next row; in column 80 the cursor waits for it on
    the last character. *)
Fixpoint display (s : cstr) (t : screen) : screen :=
  match s with
  | [] => t
  | x :: s =>
      if bool_decide (x = creturn) then display s (mk_screen (s_row t) 0 (s_above t))
      else if bool_decide (x = newline) then display s (mk_screen [] (s_column t) (s_above t ++ [s_row t]))
      else if bool_decide (x = backspace) then display s (mk_screen (s_row t) (Nat.min (s_column t) (columns - 1) - 1) (s_above t))
      else if bool_decide (x = esc_key) then
        match s with
        | _ :: _ :: s => display s (mk_screen (take (s_column t) (s_row t)) (s_column t) (s_above t))
        | _ => t
        end
      else if s_column t <? columns then
        display s (mk_screen (take (s_column t) (s_row t) ++ [x] ++ drop (S (s_column t)) (s_row t)) (S (s_column t)) (s_above t))
      else display s (mk_screen [x] 1 (s_above t ++ [s_row t]))
  end.

#[export] Instance screen_terminal : Terminal screen :=
  {| row := s_row; column := s_column; above := s_above; write := display; width := columns |}.

Lemma display_char x s t :
  isprint x = true -> s_column t < columns ->
  display (x :: s) t = display s (mk_screen (take (s_column t) (s_row t) ++ [x] ++ drop (S (s_column t)) (s_row t)) (S (s_column t)) (s_above t)).
Proof.
  intros Hx Hc. assert (forall y, isprint y = false -> x <> y) as Hne by (intros y Hy ->; congruence). cbn [display].
  rewrite !bool_decide_false; [by rewrite (proj2 (Nat.ltb_lt _ _) Hc)|apply Hne; vm_compute; reflexivity..].
Qed.

Lemma take_drop_over (r : cstr) c x n :
  take (S c) (take c r ++ [x] ++ drop (S c) r) = take c r ++ [x] /\
  drop (S c + n) (take c r ++ [x] ++ drop (S c) r) = drop (S c + n) r.
Proof.
  destruct (decide (c <= length r)) as [Hc|Hc].
  - assert (length (take c r ++ [x]) = S c) as L by (rewrite length_app, length_take; cbn [length]; lia).
    rewrite app_assoc. split; [by apply take_app_length'|]. rewrite drop_app_ge, L by lia.
    rewrite drop_drop. f_equal. lia.
  - rewrite (take_ge r), (drop_ge r (S c)), (drop_ge r (S c + n)), app_nil_r by lia.
    split; [apply take_ge|apply drop_ge]; rewrite length_app; cbn [length]; lia.
Qed.

Lemma display_text s t : printable s -> s_column t + length s < columns ->
  s_row (display s t) = take (s_column t) (s_row t) ++ s ++ drop (s_column t + length s) (s_row t) /\
  s_column (display s t) = s_column t + length s /\ s_above (display s t) = s_above t.
Proof.
  intros Hs. revert t. induction Hs as [|x s Hx _ IH]; intros t Hc; [|cbn [length] in Hc].
  - cbn. by rewrite Nat.add_0_r, take_drop.
  - rewrite display_char by (done || lia). destruct (IH (mk_screen (take (s_column t) (s_row t) ++ [x] ++ drop (S (s_column t)) (s_row t)) (S (s_column t)) (s_above t)))
      as (H1 & H2 & H3); [cbn; lia|]. cbn [s_row s_column s_above] in *.
    destruct (take_drop_over (s_row t) (s_column t) x (length s)) as [E1 E2].
    rewrite H1, H2, H3, E1, E2, <- app_assoc. cbn [length app]. rewrite Nat.add_succ_r. by split_and!.
Qed.

#[export] Instance screen_laws : TerminalLaws screen.
Proof.
  split; cbn [row column above write screen_terminal].
  - intros s t Hs Hc. by apply display_text.
  - done.
  - done.
  - intros t H1 H2 H3. change (width screen) with columns in H3. change (display erase_last t) with
      (display [" "%char; backspace] (mk_screen (s_row t) (Nat.min (s_column t) (columns - 1) - 1) (s_above t))).
    assert (Nat.min (s_column t) (columns - 1) = s_column t) as E by lia.
    rewrite E, display_char by (done || cbn [s_column]; lia). cbn [s_row s_column s_above].
    replace (S (s_column t - 1)) with (s_column t) by lia.
    change (display [backspace] ?u) with (mk_screen (s_row u) (Nat.min (s_column u) (columns - 1) - 1) (s_above u)).
    cbn [s_row s_column s_above]. by rewrite E.
  - done.
Qed.

Lemma demo_history_short h :
  h ∈ demo_history -> length (cs "docs> ") + length h + length (concat [cs "list"; [del]; up; cs "!"; enter]) < width screen.
Proof.
  assert (Forall (fun h => length (cs "docs> ") + length h + length (concat [cs "list"; [del]; up; cs "!"; enter]) < width screen) demo_history) as Hd
    by (repeat constructor).
  rewrite Forall_forall in Hd. apply Hd.
Qed.
Lemma demo_fits e input :
  edits demo_history 512 (editor_start demo_history) [cs "list"; [del]; up; cs "!"; enter] e input ->
  length (cs "docs> " ++ e_buf e) < width screen.
Proof. apply short_lines_fit; [|apply demo_history_short]. apply (bool_decide_unpack _). by vm_compute. Qed.

(** A line is typed, a key of it erased, and another line taken from the history. *)
Lemma readline_on_screen_witness :
  let k := cli_input_init true true (mk_console false false false [] (mk_screen [] 0 [])) in
  let input := [cs "list"; [del]; up; cs "!"; enter] in
  let '(r, k') := readline (cs "docs> ") demo_history 512 input k in
  k_raw k' = false /\ r = ReadLine (cs "WRITE plan 0!" ++ [newline]) /\ above (k_screen k') = [cs "docs> WRITE plan 0!"].
Proof.
  cbv zeta.
  pose proof (readline_on_screen (cs "docs> ") demo_history 512 [cs "list"; [del]; up; cs "!"; enter]
    (cli_input_init true true (mk_console false false false [] (mk_screen [] 0 []))) ltac:(lia) (demo_printable (cs "docs> ") eq_refl)
    demo_history_printable demo_fits eq_refl eq_refl eq_refl eq_refl) as Hread.
  assert (readline (cs "docs> ") demo_history 512 [cs "list"; [del]; up; cs "!"; enter]
            (cli_input_init true true (mk_console false false false [] (mk_screen [] 0 []))) =
          (ReadLine (cs "WRITE plan 0!" ++ [newline]), mk_console true true false [] (mk_screen [] 0 [cs "docs> WRITE plan 0!"]))) as E
    by (vm_compute; reflexivity).
  rewrite E in *. split; [exact (proj1 Hread)|]. split; reflexivity.
Defined.

(** A line that reaches the second row cannot be erased from the screen: the cursor does not go back
    to the row above.  Here 100 characters are typed and erased again; the empty line is handed
    over, and 74 of them stay on the screen behind the prompt. *)
Lemma long_line_stays :
  let k := cli_input_init true true (mk_console false false false [] (mk_screen [] 0 [])) in
  let '(r, k') := readline (cs "docs> ") demo_history 512 [repeat "a"%char 100; repeat del 100; enter] k in
  r = ReadLine [newline] /\ above (k_screen k') = [cs "docs> " ++ repeat "a"%char 74; repeat " "%char 26].
Proof. vm_compute. split; reflexivity. Qed.
