(* ===== verification/CliState.v ===== *)
(** * [client/cli_main.c]: the client's state and its building blocks

    The client is a single thread.  Its state is the user's name, what is still to be read
    from the keyboard, the history, and what it wrote to the terminal; the network is a
    queue of outcomes for each of [net_connect], [net_send_json] and [net_recv_json]
    together with the record of what was sent.  An operation is a computation in the state
    monad of this state. *)

From S2P Require Import Prelude Cstr Json Proto Fs.

(** ** State *)

(** The connection a message goes to: the name manager, or a storage server. *)
Inductive conn := NmConn | SsConn (host port : cstr).

Record client := mk_client {
  g_username : cstr;
  (** the messages sent *)
  k_sent : list (conn * cstr);
  (** for each call of [net_connect] the message of its failure, if it fails *)
  k_connects : list (option cstr);
  (** whether a send succeeds; they do when nothing is said *)
  k_sends : list bool;
  (** what arrives, [None] when the connection is lost instead *)
  k_arrivals : list (option cstr);
  k_stdin : cstr;
  k_history : list cstr;
  k_out : cstr;
  k_err : cstr;
}.

Definition M (A : Type) : Type := client -> A * client.
#[export] Instance M_ret : MRet M := fun A x k => (x, k).
#[export] Instance M_bind : MBind M := fun A B f m k => let '(x, k) := m k in f x k.

(** ** Terminal *)

Definition print (s : cstr) : M unit := fun k =>
  (tt, mk_client (g_username k) (k_sent k) (k_connects k) (k_sends k) (k_arrivals k) (k_stdin k) (k_history k)
         (k_out k ++ s) (k_err k)).
Definition eprint (s : cstr) : M unit := fun k =>
  (tt, mk_client (g_username k) (k_sent k) (k_connects k) (k_sends k) (k_arrivals k) (k_stdin k) (k_history k)
         (k_out k) (k_err k ++ s)).
Definition line (s : cstr) : cstr := s ++ [newline].

(** [fgets(buf, size, stdin)] *)
Definition read_stdin (size : nat) : M (option cstr) := fun k =>
  match k_stdin k with
  | [] => (None, k)
  | s => let '(l, rest) := fgets_line (size - 1) s in
         (Some l, mk_client (g_username k) (k_sent k) (k_connects k) (k_sends k) (k_arrivals k) rest (k_history k)
                    (k_out k) (k_err k))
  end.

(** ** Network *)

(** Whether the connection was made; [perror] says why not. *)
Definition net_connect : M bool := fun k =>
  let k' := mk_client (g_username k) (k_sent k) (tail (k_connects k)) (k_sends k) (k_arrivals k) (k_stdin k)
              (k_history k) (k_out k) (k_err k) in
  match head (k_connects k) with
  | Some (Some reason) => (false, snd (eprint (line (cs "connect storage: " ++ reason)) k'))
  | _ => (true, k')
  end.

Definition net_send_json (c : conn) (payload : cstr) : M bool := fun k =>
  let ok := default true (head (k_sends k)) in
  (ok, mk_client (g_username k) (if ok then k_sent k ++ [(c, payload)] else k_sent k) (k_connects k) (tail (k_sends k))
         (k_arrivals k) (k_stdin k) (k_history k) (k_out k) (k_err k)).

Definition net_recv_json : M (option cstr) := fun k =>
  (default None (head (k_arrivals k)),
   mk_client (g_username k) (k_sent k) (k_connects k) (k_sends k) (tail (k_arrivals k)) (k_stdin k) (k_history k)
     (k_out k) (k_err k)).

Definition send_request (c : conn) (payload : cstr) : M (option cstr) :=
  ok ← net_send_json c payload; if ok : bool then net_recv_json else mret None.

(** ** Lines and names *)

(** [trim_newline]: from the end. *)
Definition trim_newline (s : cstr) : cstr :=
  rev (drop_while (fun x => bool_decide (x = newline) || bool_decide (x = creturn)) (rev s)).

Definition skip_spaces (s : cstr) : cstr := drop_while is_space s.

(** [trim_spaces] *)
Definition cli_trim_spaces (s : cstr) : cstr := rev (drop_while is_space (rev (skip_spaces s))).

(** [valid_checkpoint_tag]: the same loop as [valid_filename]. *)
Definition cli_valid_checkpoint_tag (tag : cstr) : bool := valid_filename tag.

(** ** Requests *)

(** The text of a request, [None] when it does not fit; [body] is [None] when there is no
    format for it. *)
Definition nm_payload (type : cstr) (body : option cstr) : option cstr :=
  match body with
  | Some body =>
      body ← fit MAX_JSON body;
      fit MAX_JSON (js "{'type':'" ++ type ++ js "'," ++ body ++ cs "}")
  | None => fit MAX_JSON (js "{'type':'" ++ type ++ js "'}")
  end.

Definition nm_call (type : cstr) (body : option cstr) : M (option cstr) :=
  match nm_payload type body with
  | None => mret None
  | Some payload => send_request NmConn payload
  end.

Definition print_error_response (response : cstr) : M unit :=
  match parse_status response 16 256 with
  | None => eprint (line (cs "Error: unexpected response " ++ response))
  | Some (status, message) =>
      match default [] (json_get_string response (cs "code") 32) with
      | [] => eprint (line (status ++ cs ": " ++ message))
      | code_buf => eprint (line (status ++ cs " (" ++ code_buf ++ cs "): " ++ message))
      end
  end.

(** A request to the name manager; [ok] handles a positive answer.  Every command of the
    client that talks to the name manager alone starts like this. *)
Definition nm_request (type : cstr) (body : option cstr) (ok : cstr -> M Z) : M Z :=
  response ← nm_call type body;
  match response with
  | None => eprint (line (cs "Failed to contact NM")) ;; mret (-1)%Z
  | Some response =>
      if status_is_ok response then ok response
      else print_error_response response ;; mret (-1)%Z
  end.
