(* ===== verification/CliListing.v ===== *)
(** * [client/cli_main.c]: how the client shows what the name manager answers

    The listings are not parsed with the field scanners alone: the client cuts the elements
    of an array out of the answer with scanners of its own and reads the fields of each
    element. *)

From S2P Require Import Prelude Cstr Calendar Json Proto CliState.

(** ** Times *)

Definition format_timestamp (raw_value : Z) (buf_len : nat) : cstr :=
  if (raw_value <=? 0)%Z then snprintf_s buf_len (cs "unknown")
  else
    let ts := (raw_value + IST_OFFSET_SECONDS)%Z in
    let '(y, m, d) := civil_date (ts `div` 86400) in
    let s := (ts `mod` 86400)%Z in
    let text := pad_zero 2 d ++ "-"%char :: pad_zero 2 m ++ "-"%char :: pad_zero 1 y ++ " "%char ::
                pad_zero 2 (s `div` 3600) ++ ":"%char :: pad_zero 2 (s `div` 60 `mod` 60) ++ ":"%char :: pad_zero 2 (s `mod` 60) in
    if buf_len <=? length text then snprintf_s buf_len (cs "unknown") else text.

(** ** Servers and access lists *)

Definition describe_server_status (buf_len : nat) (id status : cstr) : cstr :=
  let text :=
    if streq status (cs "offline") then
      match id with [] => cs "offline" | _ => cs "offline (last: " ++ id ++ cs ")" end
    else if streq status (cs "none") then cs "none"
    else if streq status (cs "online") then match id with [] => cs "unknown" | _ => id end
    else match id, status with
         | [], [] => cs "unknown"
         | [], _ => status
         | _, _ => id
         end in
  snprintf_s buf_len text.

(** A quoted name in a buffer of 128 bytes, from behind the opening quote: the name and
    what follows the closing quote. *)
Definition name_push (x : ascii) (name_buf : cstr) : cstr := if length name_buf + 1 <? 128 then name_buf ++ [x] else name_buf.
Fixpoint access_name (pos name_buf : cstr) : cstr * cstr :=
  match pos with
  | [] => (name_buf, [])
  | x :: pos =>
      if bool_decide (x = bslash) then
        match pos with
        | [] => (name_push x name_buf, [])
        | y :: pos => access_name pos (name_push y name_buf)
        end
      else if bool_decide (x = dquote) then (name_buf, pos)
      else access_name pos (name_push x name_buf)
  end.

(** Every round takes a character at least. *)
Fixpoint access_names (fuel : nat) (pos : cstr) : list cstr :=
  match fuel, pos with
  | S fuel, x :: pos =>
      if bool_decide (x = "]"%char) then []
      else if bool_decide (x = dquote) then
        let '(name, pos) := access_name pos [] in
        match name with [] => cs "(unknown)" | _ => name end :: access_names fuel pos
      else access_names fuel pos
  | _, _ => []
  end.

Fixpoint comma_separated (names : list cstr) : cstr :=
  match names with
  | [] => []
  | [name] => name
  | name :: names => name ++ cs ", " ++ comma_separated names
  end.

(** What [print_access_list] prints. *)
Definition access_list_text (json_block key label : cstr) : cstr :=
  let unknown := line (cs "  " ++ label ++ cs ": unknown") in
  match fit 64 (dquote :: key ++ js "':[") with
  | None => unknown
  | Some pattern =>
      match strstr json_block pattern with
      | None => unknown
      | Some pos =>
          let pos := drop (length pattern) pos in
          line (cs "  " ++ label ++ cs ": " ++
                match access_names (length pos) pos with [] => cs "none" | names => comma_separated names end)
      end
  end.

(** The text behind the first occurrence of a pattern. *)
Definition after (pattern s : cstr) : option cstr := drop (length pattern) <$> strstr s pattern.

(** The text up to and with a character, and the rest. *)
Definition upto (x : ascii) (s : cstr) : option (cstr * cstr) :=
  match cut s x with
  | (a, Some rest) => Some (a ++ [x], rest)
  | (_, None) => None
  end.

(** ** VIEW *)

(** The lines for one element. *)
Definition view_lines (chunk : cstr) : cstr :=
  match json_get_string chunk (cs "name") 128 with
  | None => []
  | Some name =>
      match json_get_string chunk (cs "owner") 128, json_get_int chunk (cs "words"), json_get_int chunk (cs "chars"),
            json_get_string chunk (cs "lastAccessUser") 128 with
      | Some owner, Some words, Some chars, Some last_user =>
          let primary := json_string_written chunk (cs "primaryServer") 128 in
          let backup := json_string_written chunk (cs "backupServer") 128 in
          let primary_status := json_string_written chunk (cs "primaryStatus") 32 in
          let backup_status := json_string_written chunk (cs "backupStatus") 32 in
          line (cs "  " ++ name ++ cs " (owner: " ++ owner ++ cs ", words: " ++ show_Z words ++ cs ", chars: " ++
                show_Z chars ++ cs ", last user: " ++ last_user ++ cs ")") ++
          line (cs "    primary: " ++ describe_server_status 192 primary primary_status ++
                cs ", backup: " ++ describe_server_status 192 backup backup_status)
      | _, _, _, _ => line (cs "  " ++ name)
      end
  end.

(** The elements of the array, cut off at 511 bytes each; every round takes a character. *)
Fixpoint view_chunks (fuel : nat) (pos : cstr) : list cstr :=
  match fuel, pos with
  | S fuel, x :: rest =>
      if bool_decide (x = "{"%char) then
        match upto "}" pos with
        | None => []
        | Some (object, pos) => take 511 object :: view_chunks fuel pos
        end
      else if bool_decide (x = "]"%char) then []
      else view_chunks fuel rest
  | _, _ => []
  end.

Definition view_text (response : cstr) : cstr :=
  match after (js "'files':[") response with
  | None => line (cs "(no files)")
  | Some pos =>
      if bool_decide (head pos = Some "]"%char) then line (cs "(no files)")
      else line (cs "Files:") ++ concat (view_lines <$> view_chunks (length pos) pos)
  end.

Definition handle_view (flags : cstr) : M Z :=
  nm_request (cs "VIEW") (match flags with [] => None | _ => Some (js "'flags':'" ++ flags ++ js "'") end)
    (fun response => print (view_text response) ;; mret 0%Z).

(** ** LIST *)

Fixpoint user_lines (fuel : nat) (pos : cstr) : list cstr :=
  match fuel, pos with
  | S fuel, x :: pos =>
      if bool_decide (x = "]"%char) then []
      else if bool_decide (x = dquote) then
        match cut pos dquote with
        | (_, None) => []
        | (name, Some pos) => line (cs "  " ++ name) :: user_lines fuel pos
        end
      else user_lines fuel pos
  | _, _ => []
  end.

Definition users_text (response : cstr) : cstr :=
  match after (js "'users':[") response with
  | None => line (cs "No users.")
  | Some pos =>
      if bool_decide (head pos = Some "]"%char) then line (cs "No users.")
      else line (cs "Users:") ++ concat (user_lines (length pos) pos)
  end.

Definition handle_list_users : M Z :=
  nm_request (cs "LIST") None (fun response => print (users_text response) ;; mret 0%Z).

(** ** INFO *)

(** What is printed for the object [chunk] of the answer; [file] is what the user typed. *)
Definition info_lines (file chunk : cstr) : cstr :=
  let str key size := json_string_written chunk (cs key) size in
  let int key (init : Z) := default init (json_get_int chunk (cs key)) in
  let name := str "name"%string 128 in
  let last_user := str "lastAccessUser"%string 128 in
  line (cs "File: " ++ match name with [] => file | _ => name end) ++
  line (cs "  Owner: " ++ str "owner"%string 128) ++
  line (cs "  Words: " ++ show_Z (int "words"%string (-1)%Z)) ++
  line (cs "  Chars: " ++ show_Z (int "chars"%string (-1)%Z)) ++
  line (cs "  Created: " ++ format_timestamp (int "created"%string 0%Z) 32) ++
  line (cs "  Modified: " ++ format_timestamp (int "modified"%string 0%Z) 32) ++
  line (cs "  Last Access: " ++ format_timestamp (int "lastAccess"%string 0%Z) 32 ++ cs " by " ++
        match last_user with [] => cs "unknown" | _ => last_user end) ++
  line (cs "  Primary Server: " ++ describe_server_status 192 (str "primaryServer"%string 128) (str "primaryStatus"%string 32)) ++
  line (cs "  Backup Server: " ++ describe_server_status 192 (str "backupServer"%string 128) (str "backupStatus"%string 32)) ++
  access_list_text chunk (cs "readAccess") (cs "Read Access") ++
  access_list_text chunk (cs "writeAccess") (cs "Write Access").

Definition info_response_text (file response : cstr) : cstr :=
  match after (js "'file':{") response with
  | None => line (cs "No metadata available.")
  | Some pos => match upto "}" pos with None => [] | Some (chunk, _) => info_lines file chunk end
  end.

Definition file_body (file_esc : cstr) : cstr := js "'file':'" ++ file_esc ++ js "'".

Definition out_of_memory : M Z := eprint (line (cs "Out of memory")) ;; mret (-1)%Z.

Definition handle_info_cmd (file : cstr) : M Z :=
  match json_escape_dup file with
  | None => out_of_memory
  | Some file_esc =>
      nm_request (cs "INFO") (Some (file_body file_esc))
        (fun response => print (info_response_text file response) ;; mret 0%Z)
  end.

(** ** VIEWREQS *)

(** From the opening brace to the brace that closes it, braces in strings apart: the object,
    in reverse, and the rest. *)
Fixpoint object_scan (scan : cstr) (braces : Z) (in_string escape : bool) (acc : cstr) : option (cstr * cstr) :=
  match scan with
  | [] => None
  | ch :: scan =>
      let acc := ch :: acc in
      if in_string then
        if escape then object_scan scan braces true false acc
        else if bool_decide (ch = bslash) then object_scan scan braces true true acc
        else if bool_decide (ch = dquote) then object_scan scan braces false false acc
        else object_scan scan braces true false acc
      else if bool_decide (ch = dquote) then object_scan scan braces true false acc
      else if bool_decide (ch = "{"%char) then object_scan scan (braces + 1) false false acc
      else if bool_decide (ch = "}"%char) then
        if (braces - 1 =? 0)%Z then Some (rev acc, scan) else object_scan scan (braces - 1) false false acc
      else object_scan scan braces false false acc
  end.

Definition comma_or_space (x : ascii) : bool := is_space x || bool_decide (x = ","%char).

Fixpoint request_objects (fuel : nat) (ptr : cstr) : list cstr :=
  match fuel with
  | O => []
  | S fuel =>
      match drop_while comma_or_space ptr with
      | [] => []
      | x :: rest =>
          if bool_decide (x = "]"%char) then []
          else if negb (bool_decide (x = "{"%char)) then request_objects fuel rest
          else
            match object_scan (x :: rest) 0 false false [] with
            | None => []
            | Some (object, ptr) => object :: request_objects fuel ptr
            end
      end
  end.

Definition request_line (sent : bool) (object : cstr) : cstr :=
  let str key size := json_get_string_into object (cs key) size (cs "unknown") in
  line (cs "  " ++ str "file"%string 256 ++ cs " | " ++ str "access"%string 64 ++ cs " | " ++
        if sent then str "status"%string 64 else str "user"%string 128).

Definition requests_text (sent : bool) (response : cstr) : cstr :=
  line (cs (if sent then "Sent" else "Received") ++ cs " requests:") ++
  match strstr response (js "'requests':") with
  | None => line (cs "  none")
  | Some block =>
      match strchr block "[" with
      | None => line (cs "  none")
      | Some array =>
          match request_objects (length array) (drop 1 array) with
          | [] => line (cs "  none")
          | objects => concat (request_line sent <$> objects)
          end
      end
  end.

Definition handle_viewreqs_cmd (sent : bool) : M Z :=
  nm_request (cs "VIEWREQS") (Some (js "'direction':'" ++ cs (if sent then "SENT" else "RECEIVED") ++ js "'"))
    (fun response => print (requests_text sent response) ;; mret 0%Z).

(** ** LISTCHECKPOINTS *)

Fixpoint checkpoint_objects (fuel : nat) (p : cstr) : list cstr :=
  match fuel with
  | O => []
  | S fuel =>
      if bool_decide (head p = Some "]"%char) then []
      else
        let p := drop_while comma_or_space p in
        if bool_decide (head p = Some "{"%char) then
          match upto "}" p with
          | None => []
          | Some (obj, p) => obj :: checkpoint_objects fuel p
          end
        else []
  end.

(** [%-24s] *)
Definition pad_right (width : nat) (s : cstr) : cstr := s ++ replicate (width - length s) " "%char.

Definition checkpoint_line (obj : cstr) : cstr :=
  let str key size := json_string_written obj (cs key) size in
  let or_unknown s := match s with [] => cs "(unknown)" | _ => s end in
  let timestamp := str "timestamp"%string 32 in
  let ts_val := match timestamp with [] => 0%Z | _ => atol timestamp end in
  line (cs "  " ++ pad_right 24 (or_unknown (str "tag"%string 128)) ++ cs " " ++ pad_right 16 (or_unknown (str "user"%string 128)) ++
        cs " " ++ format_timestamp (to_int ts_val) 32).

(** What [print_checkpoint_list] prints. *)
Definition checkpoint_list_text (file response : cstr) : cstr :=
  let none := line (cs "No checkpoints for " ++ file ++ cs ".") in
  match strstr response (js "'checkpoints':") with
  | None => none
  | Some marker =>
      match strchr marker "[" with
      | None => none
      | Some array_start =>
          match checkpoint_objects (length array_start) (drop 1 array_start) with
          | [] => none
          | objects => line (cs "Checkpoints for " ++ file ++ cs ":") ++ concat (checkpoint_line <$> objects)
          end
      end
  end.

Definition encoding_error : M Z := eprint (line (cs "Encoding error")) ;; mret (-1)%Z.

Definition handle_listcheckpoints_cmd (file : cstr) : M Z :=
  match json_escape_string 256 file with
  | None => encoding_error
  | Some file_esc =>
      nm_request (cs "LISTCHECKPOINTS") (Some (file_body file_esc))
        (fun response => print (checkpoint_list_text file response) ;; mret 0%Z)
  end.
