(* ===== verification/CliCommand.v ===== *)
(** * [client/cli_main.c]: the client's commands

    Reading, streaming and writing go to a storage server with the ticket the name manager
    hands out; the other commands are one request to the name manager. *)

From S2P Require Import Prelude Cstr Json Proto CliInput CliState CliListing.

Definition INPUT_BUF : nat := 512.

(** A computation that prints a message to the error stream and fails. *)
Definition fail_with (message : string) : M Z := eprint (line (cs message)) ;; mret (-1)%Z.
Arguments fail_with message%_string_scope.

(** ** Reading from a storage server *)

(** The first message to a storage server; [extra] is what follows the ticket. *)
Definition ss_payload (type file user ticket extra : cstr) : option (option cstr) :=
  file_esc ← json_escape_dup file;
  user_esc ← json_escape_dup user;
  ticket_esc ← json_escape_dup ticket;
  Some (fit MAX_JSON (js "{'type':'" ++ type ++ js "','file':'" ++ file_esc ++ js "','user':'" ++ user_esc ++
                      js "','ticket':'" ++ ticket_esc ++ js "'" ++ extra ++ cs "}")).

Definition ss_read (host port file user ticket : cstr) : M Z :=
  connected ← net_connect;
  if negb connected then mret (-1)%Z
  else
    match ss_payload (cs "READ") file user ticket [] with
    | None => fail_with "Out of memory"
    | Some None => fail_with "Payload too large"
    | Some (Some payload) =>
        response ← send_request (SsConn host port) payload;
        match response with
        | None => fail_with "READ failed"
        | Some response =>
            if negb (status_is_ok response) then print_error_response response ;; mret (-1)%Z
            else
              match json_get_string_alloc response (cs "content") with
              | None => fail_with "Missing content"
              | Some content =>
                  print (line (cs "--- " ++ file ++ cs " ---") ++ line content ++ line (cs "-----------")) ;; mret 0%Z
              end
        end
    end.

(** The loop over the words; every round takes an arrival. *)
Fixpoint stream_loop (fuel : nat) : M Z :=
  match fuel with
  | O => mret (-1)%Z
  | S fuel =>
      chunk ← net_recv_json;
      match chunk with
      | None => fail_with "Stream interrupted"
      | Some chunk =>
          match json_get_string chunk (cs "status") 16 with
          | None => stream_loop fuel
          | Some chunk_status =>
              if streq chunk_status (cs "DATA") then
                match json_get_string chunk (cs "word") 256 with
                | Some word => print (word ++ cs " ") ;; stream_loop fuel
                | None => stream_loop fuel
                end
              else if streq chunk_status (cs "DONE") then print (line []) ;; mret 0%Z
              else print_error_response chunk ;; print (line []) ;; mret 0%Z
          end
      end
  end.

(** As many rounds as there are arrivals, and one for the end of the connection. *)
Definition stream_chunks : M Z := fun k => stream_loop (S (length (k_arrivals k))) k.

Definition ss_stream (host port file user ticket : cstr) : M Z :=
  connected ← net_connect;
  if negb connected then mret (-1)%Z
  else
    match ss_payload (cs "STREAM") file user ticket [] with
    | None => fail_with "Out of memory"
    | Some None => fail_with "Payload too large"
    | Some (Some payload) =>
        sent ← net_send_json (SsConn host port) payload;
        if negb sent then fail_with "STREAM start failed"
        else
          response ← net_recv_json;
          match response with
          | None => fail_with "STREAM handshake failed"
          | Some response =>
              if negb (status_is_ok response) then print_error_response response ;; mret (-1)%Z
              else print (line (cs "Streaming " ++ file ++ cs "...")) ;; stream_chunks
          end
    end.

(** ** Writing *)

(** What a line typed during a write session means. *)
Inductive edit_line :=
| EditNothing
| EditCommit
| EditUsage
| EditInvalid (token : cstr)
| EditNegative
| EditInsert (index : Z) (content : cstr).

Definition parse_edit (typed : cstr) : edit_line :=
  match skip_spaces (trim_newline typed) with
  | [] => EditNothing
  | ptr =>
      if streq_nocase ptr (cs "ETIRW") then EditCommit
      else
        match strtok_r [" "%char; tab] ptr with
        | (None, _) => EditNothing
        | (Some idx_token, save_ptr) =>
            match skip_spaces save_ptr with
            | [] => EditUsage
            | content =>
                let '(user_index, stop) := strtol idx_token in
                if bool_decide (stop <> []) || strtol_erange idx_token then EditInvalid idx_token
                else if (user_index <? 0)%Z then EditNegative
                else EditInsert (to_int user_index) content
            end
        end
  end.

Definition insert_payload (server_index : Z) (content : cstr) : option (option cstr) :=
  escaped ← json_escape_dup content;
  Some (fit MAX_JSON (js "{'type':'WRITE_INSERT','index':" ++ show_Z server_index ++ js ",'content':'" ++ escaped ++ js "'}")).

(** The loop over the typed lines: whether a commit was requested.  Every round reads a
    character at least. *)
Fixpoint edit_loop (fuel : nat) (c : conn) : M bool :=
  match fuel with
  | O => mret false
  | S fuel =>
      print (cs "write> ") ;;
      typed ← read_stdin INPUT_BUF;
      match typed with
      | None => print (line []) ;; mret false
      | Some typed =>
          match parse_edit typed with
          | EditNothing => edit_loop fuel c
          | EditCommit => mret true
          | EditUsage => print (line (cs "Usage: <word_index> <content>")) ;; edit_loop fuel c
          | EditInvalid token => print (line (cs "Invalid index: " ++ token)) ;; edit_loop fuel c
          | EditNegative => print (line (cs "Index must be non-negative")) ;; edit_loop fuel c
          | EditInsert server_index content =>
              match insert_payload server_index content with
              | None => eprint (line (cs "Out of memory")) ;; mret false
              | Some None => eprint (line (cs "Command too large")) ;; edit_loop fuel c
              | Some (Some cmd) =>
                  insert_resp ← send_request c cmd;
                  match insert_resp with
                  | None => eprint (line (cs "WRITE_INSERT failed")) ;; mret false
                  | Some insert_resp =>
                      (if status_is_ok insert_resp then mret tt else print_error_response insert_resp) ;; edit_loop fuel c
                  end
              end
          end
      end
  end.

Definition edit_lines (c : conn) : M bool := fun k => edit_loop (S (length (k_stdin k))) c k.

(** The end of the session: whether it was committed. *)
Definition finish_write (c : conn) (commit_requested : bool) : M bool :=
  committed ←
    (if commit_requested then
       commit_resp ← send_request c (js "{'type':'WRITE_COMMIT'}");
       match commit_resp with
       | Some commit_resp =>
           if status_is_ok commit_resp then print (line (cs "Write committed.")) ;; mret true
           else print_error_response commit_resp ;; mret false
       | None => print_error_response (cs "WRITE_COMMIT failed") ;; mret false
       end
     else mret false);
  (if committed : bool then mret tt else _ ← send_request c (js "{'type':'WRITE_ABORT'}"); mret tt) ;;
  mret committed.

Definition ss_write_session (host port file user ticket : cstr) (sentence : Z) : M Z :=
  connected ← net_connect;
  if negb connected then mret (-1)%Z
  else
    let c := SsConn host port in
    match ss_payload (cs "WRITE_BEGIN") file user ticket (js ",'sentence':" ++ show_Z sentence) with
    | None => fail_with "Out of memory"
    | Some None => fail_with "Payload too large"
    | Some (Some payload) =>
        response ← send_request c payload;
        match response with
        | None => fail_with "WRITE_BEGIN failed"
        | Some response =>
            if negb (status_is_ok response) then print_error_response response ;; mret (-1)%Z
            else
              let current := default [] (json_get_string_alloc response (cs "current")) in
              print (line (cs "Current sentence (" ++ show_Z sentence ++ cs "): " ++ current) ++
                     line (cs "Enter edits as '<word_index> <content>' (use 0 for beginning). Finish with ETIRW.")) ;;
              commit_requested ← edit_lines c;
              commit_success ← finish_write c commit_requested;
              mret (if commit_success : bool then 0%Z else (-1)%Z)
        end
    end.

(** ** Requests to the name manager *)

(** [parse_nm_endpoint]: host, port and ticket. *)
Definition parse_nm_endpoint (response : cstr) : option (cstr * cstr * cstr) :=
  host ← json_get_string response (cs "host") 128;
  port ← json_get_string response (cs "port") 32;
  ticket ← json_get_string response (cs "ticket") 128;
  Some (host, port, ticket).

(** The user's name at the time of the call. *)
Definition get_username : M cstr := fun k => (g_username k, k).

(** A request for a document whose answer names a storage server; [body] is built from the
    escaped name. *)
Definition endpoint_cmd (type file : cstr) (body : cstr -> cstr) (session : cstr -> cstr -> cstr -> cstr -> cstr -> M Z) : M Z :=
  match json_escape_dup file with
  | None => out_of_memory
  | Some file_esc =>
      nm_request type (Some (body file_esc)) (fun response =>
        match parse_nm_endpoint response with
        | None => fail_with "Malformed response"
        | Some (host, port, ticket) => user ← get_username; session response host port user ticket
        end)
  end.

Definition handle_read_cmd (file : cstr) : M Z :=
  endpoint_cmd (cs "READ") file file_body (fun _ host port user ticket => ss_read host port file user ticket).
Definition handle_stream_cmd (file : cstr) : M Z :=
  endpoint_cmd (cs "STREAM") file file_body (fun _ host port user ticket => ss_stream host port file user ticket).
Definition handle_write_cmd (file : cstr) (sentence : Z) : M Z :=
  endpoint_cmd (cs "WRITE") file (fun file_esc => file_body file_esc ++ js ",'sentence':" ++ show_Z sentence)
    (fun response host port user ticket =>
       ss_write_session host port file user ticket (default 0%Z (json_get_int response (cs "sentence")))).

(** A request answered by one line. *)
Definition line_cmd (type body text : cstr) : M Z :=
  nm_request type (Some body) (fun _ => print (line text) ;; mret 0%Z).

Definition handle_create_cmd (file : cstr) : M Z :=
  match json_escape_dup file with
  | None => out_of_memory
  | Some file_esc => line_cmd (cs "CREATE") (file_body file_esc) (cs "Created " ++ file)
  end.

Definition handle_delete_cmd (file : cstr) : M Z :=
  match json_escape_dup file with
  | None => out_of_memory
  | Some file_esc => line_cmd (cs "DELETE") (file_body file_esc) (cs "Deleted " ++ file ++ cs ".")
  end.

Definition handle_undo_cmd (file : cstr) : M Z :=
  match json_escape_dup file with
  | None => out_of_memory
  | Some file_esc => line_cmd (cs "UNDO") (file_body file_esc) (cs "Undo successful.")
  end.

Definition user_body (file_esc user_esc : cstr) : cstr := file_body file_esc ++ js ",'user':'" ++ user_esc ++ js "'".

Definition handle_addaccess_cmd (file user : cstr) (write_perm : bool) : M Z :=
  match json_escape_dup file, json_escape_dup user with
  | Some file_esc, Some user_esc =>
      line_cmd (cs "ADDACCESS") (user_body file_esc user_esc ++ js ",'mode':'" ++ cs (if write_perm then "RW" else "R") ++ js "'")
        (cs "Access granted.")
  | _, _ => out_of_memory
  end.

Definition handle_remaccess_cmd (file user : cstr) : M Z :=
  match json_escape_dup file, json_escape_dup user with
  | Some file_esc, Some user_esc => line_cmd (cs "REMACCESS") (user_body file_esc user_esc) (cs "Access removed.")
  | _, _ => out_of_memory
  end.

Definition handle_reqaccess_cmd (file : cstr) (write_perm : bool) : M Z :=
  match json_escape_dup file with
  | None => out_of_memory
  | Some file_esc =>
      line_cmd (cs "REQACCESS") (file_body file_esc ++ js ",'mode':'" ++ cs (if write_perm then "W" else "R") ++ js "'")
        (cs "Access request submitted.")
  end.

Definition handle_handlereq_cmd (file user action : cstr) : M Z :=
  match json_escape_dup file, json_escape_dup user, json_escape_dup action with
  | Some file_esc, Some user_esc, Some action_esc =>
      line_cmd (cs "HANDLEREQ") (user_body file_esc user_esc ++ js ",'action':'" ++ action_esc ++ js "'")
        (cs "Request handled.")
  | _, _, _ => out_of_memory
  end.

Definition handle_exec_cmd (file : cstr) : M Z :=
  match json_escape_dup file with
  | None => out_of_memory
  | Some file_esc =>
      nm_request (cs "EXEC") (Some (file_body file_esc)) (fun response =>
        match json_get_string_alloc response (cs "output") with
        | Some output => print (line output)
        | None => print (line (cs "EXEC succeeded."))
        end ;; mret 0%Z)
  end.

Definition tag_body (file_esc tag_esc : cstr) : cstr := file_body file_esc ++ js ",'tag':'" ++ tag_esc ++ js "'".

Definition handle_checkpoint_cmd (file tag : cstr) : M Z :=
  match json_escape_string 256 file, json_escape_string 256 tag with
  | Some file_esc, Some tag_esc =>
      line_cmd (cs "CHECKPOINT") (tag_body file_esc tag_esc) (cs "Checkpoint '" ++ tag ++ cs "' saved for " ++ file ++ cs ".")
  | _, _ => encoding_error
  end.

Definition handle_viewcheckpoint_cmd (file tag : cstr) : M Z :=
  user ← get_username;
  match json_escape_string 256 file, json_escape_string 256 tag, json_escape_string 256 user with
  | Some file_esc, Some tag_esc, Some user_esc =>
      nm_request (cs "VIEWCHECKPOINT") (Some (tag_body file_esc tag_esc ++ js ",'user':'" ++ user_esc ++ js "'")) (fun response =>
        match json_get_string_alloc response (cs "content") with
        | None => fail_with "Missing checkpoint content"
        | Some content =>
            print (line (cs "--- checkpoint " ++ file ++ cs "/" ++ tag ++ cs " ---") ++ line content ++
                   line (cs "-----------------------")) ;; mret 0%Z
        end)
  | _, _, _ => encoding_error
  end.

Definition handle_revert_cmd (file tag : cstr) : M Z :=
  user ← get_username;
  match json_escape_string 256 file, json_escape_string 256 tag, json_escape_string 256 user with
  | Some file_esc, Some tag_esc, Some user_esc =>
      line_cmd (cs "REVERT") (tag_body file_esc tag_esc ++ js ",'user':'" ++ user_esc ++ js "'")
        (cs "Reverted " ++ file ++ cs " to checkpoint '" ++ tag ++ cs "'.")
  | _, _, _ => encoding_error
  end.

Definition handle_exit_cmd : M Z := nm_request (cs "CLIENT_EXIT") None (fun _ => mret 0%Z).
