(* ===== verification/CliMain.v ===== *)
(** * [client/cli_main.c]: the command loop

    [parse_command] reads a line as the loop of [main] does, [run_command] is the dispatch,
    [docs_loop] the loop and [client_main] the handshake before it.  Lines come from a
    standard input that is not a terminal; [CliInput] models the editor on a terminal. *)

From S2P Require Import Prelude Cstr Json Proto CliInput CliState CliListing CliCommand.

(** ** Command lines *)

Inductive command :=
| Help
| View (flags : cstr)
| ListUsers
| Info (file : cstr)
| Create (file : cstr)
| Delete (file : cstr)
| Read (file : cstr)
| Stream (file : cstr)
| Checkpoint (file tag : cstr)
| ViewCheckpoint (file tag : cstr)
| Revert (file tag : cstr)
| ListCheckpoints (file : cstr)
| Write (file : cstr) (sentence : Z)
| AddAccess (file user : cstr) (write_perm : bool)
| RemAccess (file user : cstr)
| ReqAccess (file : cstr) (write_perm : bool)
| ViewReqs (sent : bool)
| HandleReq (file user action : cstr)
| Undo (file : cstr)
| Exec (file : cstr)
| Quit.

Inductive parsed :=
| NoCommand
| Unknown
| Message (text : cstr)
| Run (c : command).

Definition usage (s : string) : parsed := Message (line (cs "usage: " ++ cs s)).
Arguments usage s%_string_scope.

(** [strtok_r(NULL, " ", &save)] and [strtok_r(NULL, "", &save)] *)
Definition next_token (save : cstr) : option cstr * cstr := strtok_r [" "%char] save.
Definition rest_of_line (save : cstr) : option cstr := fst (strtok_r [] save).

Definition add_flag (x : ascii) (flags : cstr) : cstr :=
  if bool_decide (x = "a"%char) && negb (has_char "a" flags) then flags ++ ["a"%char]
  else if bool_decide (x = "l"%char) && negb (has_char "l" flags) then flags ++ ["l"%char]
  else flags.
Definition token_flags (token flags : cstr) : cstr :=
  match token with
  | x :: token => if bool_decide (x = "-"%char) then foldl (fun flags x => add_flag (to_lower x) flags) flags token else flags
  | [] => flags
  end.
(** A token takes a character at least. *)
Fixpoint view_flags (fuel : nat) (save flags : cstr) : cstr :=
  match fuel with
  | O => flags
  | S fuel =>
      match next_token save with
      | (Some token, save) => view_flags fuel save (token_flags token flags)
      | (None, _) => flags
      end
  end.

(** A command whose argument is the rest of the line. *)
Definition parse_file (make : cstr -> command) (text : string) (save : cstr) : parsed :=
  match rest_of_line save with
  | None => usage text
  | Some file => Run (make (skip_spaces file))
  end.

Definition parse_tag (make : cstr -> cstr -> command) (text : string) (save : cstr) : parsed :=
  let '(file, save) := next_token save in
  let '(tag, _) := next_token save in
  match cli_trim_spaces <$> file, cli_trim_spaces <$> tag with
  | Some ((_ :: _) as file), Some ((_ :: _) as tag) =>
      if cli_valid_checkpoint_tag tag then Run (make file tag) else usage text
  | _, _ => usage text
  end.

Definition parse_write (save : cstr) : parsed :=
  match next_token save with
  | (None, _) => usage "WRITE <file> [sentence]"
  | (Some file, save) =>
      match skip_spaces (default [] (rest_of_line save)) with
      | [] => Run (Write file 0)
      | sentence_tok =>
          let '(val, stop) := strtol sentence_tok in
          if bool_decide (stop <> []) then Message (line (cs "Invalid sentence index"))
          else Run (Write file (to_int val))
      end
  end.

(** [-R], [-r], [-W] and [-w]: whether it asks for write access. *)
Definition access_flag (arg : cstr) : option bool :=
  match arg with
  | [dash; x] =>
      if negb (bool_decide (dash = "-"%char)) then None
      else if bool_decide (x = "W"%char) || bool_decide (x = "w"%char) then Some true
      else if bool_decide (x = "R"%char) || bool_decide (x = "r"%char) then Some false
      else None
  | _ => None
  end.

(** The mode of the older form. *)
Definition legacy_mode (mode : cstr) : bool :=
  match mode with
  | [] => false
  | x :: _ =>
      if bool_decide (x = "r"%char) || bool_decide (x = "R"%char) then has_char "w" mode || has_char "W" mode
      else bool_decide (x = "w"%char) || bool_decide (x = "W"%char)
  end.

Definition parse_addaccess (save : cstr) : parsed :=
  let text := "ADDACCESS [-R|-W] <file> <user>"%string in
  let '(arg1, save) := next_token save in
  let '(arg2, save) := next_token save in
  let arg3 := rest_of_line save in
  match arg1, arg2 with
  | Some arg1, Some arg2 =>
      let '(file, user, write_perm) :=
        match access_flag arg1 with
        | Some write_perm => (arg2, cli_trim_spaces <$> arg3, write_perm)
        | None => (arg1, Some arg2, match arg3 with Some mode => legacy_mode (cli_trim_spaces mode) | None => false end)
        end in
      match cli_trim_spaces <$> user with
      | Some ((_ :: _) as user) => Run (AddAccess file user write_perm)
      | _ => usage text
      end
  | _, _ => usage text
  end.

Definition parse_remaccess (save : cstr) : parsed :=
  let '(file, save) := next_token save in
  match file, rest_of_line save with
  | Some file, Some user => Run (RemAccess file (skip_spaces user))
  | _, _ => usage "REMACCESS <file> <user>"
  end.

Definition parse_reqaccess (save : cstr) : parsed :=
  let text := "REQACCESS <file> <-R|-W>"%string in
  let '(file, save) := next_token save in
  let '(mode, _) := next_token save in
  match cli_trim_spaces <$> file, cli_trim_spaces <$> mode with
  | Some ((_ :: _) as file), Some mode_trim =>
      match access_flag mode_trim with
      | Some write_perm => Run (ReqAccess file write_perm)
      | None => usage text
      end
  | _, _ => usage text
  end.

Definition parse_viewreqs (save : cstr) : parsed :=
  let text := "VIEWREQS <SENT/RECEIVED>"%string in
  match cli_trim_spaces <$> fst (next_token save) with
  | Some ((_ :: _) as direction) =>
      if streq_nocase direction (cs "SENT") then Run (ViewReqs true)
      else if streq_nocase direction (cs "RECEIVED") then Run (ViewReqs false)
      else usage text
  | _ => usage text
  end.

Definition parse_handlereq (save : cstr) : parsed :=
  let text := "HANDLEREQ <file> <user> <APPROVE/DENY>"%string in
  let '(file, save) := next_token save in
  let '(user, save) := next_token save in
  let '(action, _) := next_token save in
  match cli_trim_spaces <$> file, cli_trim_spaces <$> user, cli_trim_spaces <$> action with
  | Some ((_ :: _) as file), Some ((_ :: _) as user), Some ((_ :: _) as action) =>
      if negb (streq_nocase action (cs "APPROVE")) && negb (streq_nocase action (cs "DENY")) then usage text
      else Run (HandleReq file user (to_upper <$> take 15 action))
  | _, _, _ => usage text
  end.

(** The dispatch on the name. *)
Definition parse_arguments (cmd save : cstr) : parsed :=
  let named name := streq (to_upper <$> cmd) (cs name) in
  if named "HELP"%string then Run Help
  else if named "VIEW"%string then Run (View (view_flags (S (length save)) save []))
  else if named "LIST"%string then Run ListUsers
  else if named "INFO"%string then parse_file Info "INFO <file>" save
  else if named "CREATE"%string then parse_file Create "CREATE <file>" save
  else if named "DELETE"%string then parse_file Delete "DELETE <file>" save
  else if named "READ"%string then parse_file Read "READ <file>" save
  else if named "STREAM"%string then parse_file Stream "STREAM <file>" save
  else if named "CHECKPOINT"%string then parse_tag Checkpoint "CHECKPOINT <file> <tag>" save
  else if named "VIEWCHECKPOINT"%string then parse_tag ViewCheckpoint "VIEWCHECKPOINT <file> <tag>" save
  else if named "REVERT"%string then parse_tag Revert "REVERT <file> <tag>" save
  else if named "LISTCHECKPOINTS"%string then
    match cli_trim_spaces <$> rest_of_line save with
    | Some ((_ :: _) as file) => Run (ListCheckpoints file)
    | _ => usage "LISTCHECKPOINTS <file>"
    end
  else if named "WRITE"%string then parse_write save
  else if named "ADDACCESS"%string then parse_addaccess save
  else if named "REMACCESS"%string then parse_remaccess save
  else if named "REQACCESS"%string then parse_reqaccess save
  else if named "VIEWREQS"%string then parse_viewreqs save
  else if named "HANDLEREQ"%string then parse_handlereq save
  else if named "UNDO"%string then parse_file Undo "UNDO <file>" save
  else if named "EXEC"%string then parse_file Exec "EXEC <file>" save
  else if named "QUIT"%string || named "EXIT"%string then Run Quit
  else Unknown.

(** A line without its newline. *)
Definition parse_command (input : cstr) : parsed :=
  match next_token input with
  | (None, _) => NoCommand
  | (Some cmd, save) => parse_arguments cmd save
  end.

(** ** The loop *)

Definition print_help : M unit :=
  print (concat (map (fun s => line (cs s))
    ["Commands:"; "  VIEW [-a] [-l]"; "  LIST"; "  INFO <file>"; "  CREATE <file>"; "  DELETE <file>"; "  READ <file>";
     "  WRITE <file> [sentence]"; "    After WRITE, enter '<word_index> <content>' lines and finish with ETIRW.";
     "  STREAM <file>"; "  CHECKPOINT <file> <tag>"; "  VIEWCHECKPOINT <file> <tag>"; "  REVERT <file> <tag>";
     "  LISTCHECKPOINTS <file>"; "  ADDACCESS -R|-W <file> <user>"; "    legacy: ADDACCESS <file> <user> [rw]";
     "  REMACCESS <file> <user>"; "  REQACCESS <file> <-R|-W>"; "  VIEWREQS <SENT/RECEIVED>";
     "  HANDLEREQ <file> <user> <APPROVE/DENY>"; "  UNDO <file>"; "  EXEC <file>"; "  HELP";
     "  QUIT / EXIT  (disconnect client)"]%string)).

(** The result of a command is not looked at. *)
Definition run_command (c : command) : M Z :=
  match c with
  | Help => print_help ;; mret 0%Z
  | View flags => handle_view flags
  | ListUsers => handle_list_users
  | Info file => handle_info_cmd file
  | Create file => handle_create_cmd file
  | Delete file => handle_delete_cmd file
  | Read file => handle_read_cmd file
  | Stream file => handle_stream_cmd file
  | Checkpoint file tag => handle_checkpoint_cmd file tag
  | ViewCheckpoint file tag => handle_viewcheckpoint_cmd file tag
  | Revert file tag => handle_revert_cmd file tag
  | ListCheckpoints file => handle_listcheckpoints_cmd file
  | Write file sentence => handle_write_cmd file sentence
  | AddAccess file user write_perm => handle_addaccess_cmd file user write_perm
  | RemAccess file user => handle_remaccess_cmd file user
  | ReqAccess file write_perm => handle_reqaccess_cmd file write_perm
  | ViewReqs sent => handle_viewreqs_cmd sent
  | HandleReq file user action => handle_handlereq_cmd file user action
  | Undo file => handle_undo_cmd file
  | Exec file => handle_exec_cmd file
  | Quit => handle_exit_cmd
  end.

Definition remember (input : cstr) : M unit := fun k =>
  (tt, mk_client (g_username k) (k_sent k) (k_connects k) (k_sends k) (k_arrivals k) (k_stdin k)
         (cli_input_remember input (k_history k)) (k_out k) (k_err k)).

(** Every round reads a character at least. *)
Fixpoint docs_loop (fuel : nat) : M unit :=
  match fuel with
  | O => mret tt
  | S fuel =>
      print (cs "docs> ") ;;
      typed ← read_stdin INPUT_BUF;
      match typed with
      | None => print (line [])
      | Some typed =>
          match trim_newline typed with
          | [] => docs_loop fuel
          | input =>
              remember input ;;
              match parse_command input with
              | NoCommand => docs_loop fuel
              | Unknown => print (line (cs "Unknown command. Type 'help'.")) ;; docs_loop fuel
              | Message text => print text ;; docs_loop fuel
              | Run Quit => _ ← run_command Quit; mret tt
              | Run c => _ ← run_command c; docs_loop fuel
              end
          end
      end
  end.

Definition hello_payload (user client_ip nm_port ss_port : cstr) : option (option cstr) :=
  user_esc ← json_escape_dup user;
  ip_esc ← json_escape_dup client_ip;
  nm_port_esc ← json_escape_dup nm_port;
  ss_port_esc ← json_escape_dup ss_port;
  Some (fit MAX_JSON (js "{'type':'CLIENT_HELLO','user':'" ++ user_esc ++ js "','clientIp':'" ++ ip_esc ++
                      js "','nmPort':'" ++ nm_port_esc ++ js "','ssPort':'" ++ ss_port_esc ++ js "'}")).

Definition set_username (user : cstr) : M unit := fun k =>
  (tt, mk_client user (k_sent k) (k_connects k) (k_sends k) (k_arrivals k) (k_stdin k) (k_history k) (k_out k) (k_err k)).

Definition docs : M unit := fun k => docs_loop (S (length (k_stdin k))) k.

(** [main] once it is connected: the exit status.  [client_ip] is the local address of the
    connection, or [unknown]. *)
Definition client_main (client_ip nm_port preferred_ss_port : cstr) : M Z :=
  print (cs "Username: ") ;;
  typed ← read_stdin 64;
  match typed with
  | None => eprint (line (cs "Failed to read username")) ;; mret 1%Z
  | Some typed =>
      let user := trim_newline typed in
      set_username user ;;
      match hello_payload user client_ip nm_port preferred_ss_port with
      | None => eprint (line (cs "Out of memory")) ;; mret 1%Z
      | Some None => eprint (line (cs "Handshake payload too large")) ;; mret 1%Z
      | Some (Some payload) =>
          response ← send_request NmConn payload;
          match response with
          | None => eprint (line (cs "Handshake failed")) ;; mret 1%Z
          | Some response =>
              if negb (status_is_ok response) then print_error_response response ;; mret 1%Z
              else
                print (line (cs "Connected as " ++ user ++ cs ". Type 'help' for commands.")) ;;
                docs ;; print (line (cs "Bye.")) ;; mret 0%Z
          end
      end
  end.

(** ** Reading back what is spelled out *)

(** A word without blanks, and a text that does not start with one. *)
Definition cli_word (w : cstr) : Prop := w <> [] /\ Forall (fun x => is_space x = false) w.
Definition starts_dense (s : cstr) : Prop := match s with [] => False | x :: _ => is_space x = false end.

Definition blank_char : ascii := " "%char.

(** The spelling of a command. *)
Definition command_line (c : command) : cstr :=
  let words := fold_right (fun w s => w ++ blank_char :: s) [] in
  match c with
  | Help => cs "HELP"
  | View [] => cs "VIEW"
  | View flags => cs "VIEW -" ++ flags
  | ListUsers => cs "LIST"
  | Info f => cs "INFO " ++ f
  | Create f => cs "CREATE " ++ f
  | Delete f => cs "DELETE " ++ f
  | Read f => cs "READ " ++ f
  | Stream f => cs "STREAM " ++ f
  | Checkpoint f t => cs "CHECKPOINT " ++ f ++ blank_char :: t
  | ViewCheckpoint f t => cs "VIEWCHECKPOINT " ++ f ++ blank_char :: t
  | Revert f t => cs "REVERT " ++ f ++ blank_char :: t
  | ListCheckpoints f => cs "LISTCHECKPOINTS " ++ f
  | Write f n => cs "WRITE " ++ f ++ blank_char :: show_Z n
  | AddAccess f u w => cs "ADDACCESS " ++ cs (if w then "-W" else "-R") ++ blank_char :: f ++ blank_char :: u
  | RemAccess f u => cs "REMACCESS " ++ f ++ blank_char :: u
  | ReqAccess f w => cs "REQACCESS " ++ f ++ blank_char :: cs (if w then "-W" else "-R")
  | ViewReqs b => cs "VIEWREQS " ++ cs (if b then "SENT" else "RECEIVED")
  | HandleReq f u a => cs "HANDLEREQ " ++ f ++ blank_char :: u ++ blank_char :: a
  | Undo f => cs "UNDO " ++ f
  | Exec f => cs "EXEC " ++ f
  | Quit => cs "QUIT"
  end.

(** What can be spelled out: names with blanks only where the name ends the line. *)
Definition typable (c : command) : Prop :=
  match c with
  | View flags => flags ∈ [[]; cs "a"; cs "l"; cs "al"; cs "la"]
  | Info f | Create f | Delete f | Read f | Stream f | Undo f | Exec f => starts_dense f
  | Checkpoint f t | ViewCheckpoint f t | Revert f t => cli_word f /\ cli_word t /\ cli_valid_checkpoint_tag t = true
  | ListCheckpoints f => cli_word f
  | Write f n => cli_word f /\ (INT_MIN <= n <= INT_MAX)%Z
  | AddAccess f u _ => cli_word f /\ cli_word u
  | RemAccess f u => cli_word f /\ starts_dense u
  | ReqAccess f _ => cli_word f
  | HandleReq f u a => cli_word f /\ cli_word u /\ a ∈ [cs "APPROVE"; cs "DENY"]
  | _ => True
  end.

Lemma word_not_blank w : cli_word w -> Forall (fun x => bool_decide (x ∈ [" "%char]) = false) w.
Proof.
  intros [_ H]. eapply Forall_impl; [exact H|]. cbn. intros x Hx. apply bool_decide_eq_false. intros ->%list_elem_of_singleton. done.
Qed.

Lemma next_token_stop w rest :
  cli_word w -> match rest with [] => True | x :: _ => x = blank_char end -> next_token (w ++ rest) = (Some w, drop 1 rest).
Proof.
  intros Hw Hr. pose proof (word_not_blank w Hw) as Hb. unfold next_token, strtok_r. cbv zeta.
  set (p := fun x => bool_decide (x ∈ [" "%char])). change (Forall (fun x => p x = false) w) in Hb.
  assert (drop_while p (w ++ rest) = w ++ rest) as ->.
  { destruct w as [|x w]; [by destruct Hw|]. apply Forall_cons in Hb as [Hx _]. cbn [app drop_while]. by rewrite Hx. }
  assert (Forall (fun x => negb (p x) = true) w) as Hn by (eapply Forall_impl; [exact Hb|]; cbn; intros x ->; done).
  assert (forall x k', rest = x :: k' -> negb (p x) = false) as Hstop by (intros x k' ->; by subst x).
  pose proof (take_while_app_stop _ w rest Hn Hstop) as E1. pose proof (drop_while_app_stop _ w rest Hn Hstop) as E2.
  destruct w as [|x w]; [by destruct Hw|]. cbn [app] in *.
  change ((Some (take_while (fun x => negb (p x)) (x :: w ++ rest)), drop 1 (drop_while (fun x => negb (p x)) (x :: w ++ rest))) =
          (Some (x :: w), drop 1 rest)).
  by rewrite E1, E2.
Qed.

Lemma next_token_word w rest : cli_word w -> next_token (w ++ blank_char :: rest) = (Some w, rest).
Proof. intros Hw. by rewrite next_token_stop. Qed.

Lemma next_token_last w : cli_word w -> next_token w = (Some w, []).
Proof. intros Hw. rewrite <- (app_nil_r w) at 1. by rewrite next_token_stop. Qed.

Lemma skip_dense s : starts_dense s -> skip_spaces s = s.
Proof. destruct s as [|x s]; [done|]. unfold skip_spaces. cbn. by intros ->. Qed.

Lemma word_dense w : cli_word w -> starts_dense w.
Proof. intros [Hne Hw]. destruct w; [done|]. by apply Forall_cons in Hw as [Hx _]. Qed.

Lemma trim_word w : cli_word w -> cli_trim_spaces w = w.
Proof.
  intros Hw. unfold cli_trim_spaces. rewrite (skip_dense w) by by apply word_dense.
  assert (cli_word (rev w)) as Hr.
  { destruct Hw as [Hne Hw]. split; [intros E; apply Hne; by rewrite <- (rev_involutive w), E|].
    rewrite rev_alt. by apply Forall_reverse. }
  change (rev (skip_spaces (rev w)) = w). rewrite skip_dense by by apply word_dense. apply rev_involutive.
Qed.

Lemma take_while_true (p : ascii -> bool) (l : cstr) : (forall x, p x = true) -> take_while p l = l.
Proof. intros H. induction l as [|x l IH]; [done|]. cbn. by rewrite H, IH. Qed.

Lemma rest_of_line_dense s : starts_dense s -> rest_of_line s = Some s.
Proof.
  destruct s as [|x s]; [done|]. intros _. unfold rest_of_line, strtok_r. cbv zeta.
  change (drop_while _ (x :: s)) with (x :: s). cbn [fst]. by rewrite take_while_true.
Qed.

Lemma cli_word_literal (s : string) :
  forallb (fun x => negb (is_space x)) (cs s) = true -> cs s <> [] -> cli_word (cs s).
Proof.
  intros H Hne. split; [done|]. apply Forall_forall. intros x Hx.
  apply list_elem_of_In, (proj1 (forallb_forall _ _) H), negb_true_iff in Hx. done.
Qed.

(** The name of the command. *)
Lemma next_token_literal (s : string) rest :
  forallb (fun x => negb (is_space x)) (cs s) = true -> cs s <> [] -> next_token (cs s ++ blank_char :: rest) = (Some (cs s), rest).
Proof.
  intros H Hne. by apply next_token_word, cli_word_literal.
Qed.

Lemma parse_file_dense make text f : starts_dense f -> parse_file make text f = Run (make f).
Proof. intros Hf. unfold parse_file. by rewrite rest_of_line_dense, skip_dense. Qed.

Lemma parse_tag_words make text f t :
  cli_word f -> cli_word t -> cli_valid_checkpoint_tag t = true ->
  parse_tag make text (f ++ blank_char :: t) = Run (make f t).
Proof.
  intros Hf Ht Hv. unfold parse_tag. rewrite next_token_word, next_token_last by done. cbn [fmap option_fmap option_map].
  rewrite !trim_word by done. destruct f; [by destruct Hf|]. destruct t; [by destruct Ht|]. by rewrite Hv.
Qed.

Lemma show_Z_dense n : starts_dense (show_Z n).
Proof. destruct (show_Z_head n) as (x & s & -> & _ & Hx). exact Hx. Qed.

Lemma parse_write_long f n :
  cli_word f -> (LONG_MIN <= n <= LONG_MAX)%Z -> parse_write (f ++ blank_char :: show_Z n) = Run (Write f (to_int n)).
Proof.
  intros Hf Hn. unfold parse_write. rewrite next_token_word by done. rewrite rest_of_line_dense by apply show_Z_dense.
  cbn [default from_option id]. rewrite skip_dense by apply show_Z_dense.
  destruct (show_Z n) as [|x s] eqn:E; [by pose proof (show_Z_dense n) as H; rewrite E in H|]. rewrite <- E.
  rewrite <- (app_nil_r (show_Z n)) at 1. by rewrite strtol_show_Z.
Qed.

Lemma parse_write_words f n :
  cli_word f -> (INT_MIN <= n <= INT_MAX)%Z -> parse_write (f ++ blank_char :: show_Z n) = Run (Write f n).
Proof.
  intros Hf Hn. rewrite parse_write_long; [by rewrite to_int_id|done|]. unfold INT_MIN, INT_MAX, LONG_MIN, LONG_MAX in *. lia.
Qed.

(** The index of a sentence is narrowed: [WRITE plan 4294967297] opens sentence 1. *)
Lemma write_index_wraps f n :
  cli_word f -> (0 <= n <= INT_MAX)%Z -> parse_write (f ++ blank_char :: show_Z (n + 2 ^ 32)) = Run (Write f n).
Proof.
  intros Hf Hn. unfold INT_MAX in Hn. rewrite parse_write_long; [|done|unfold LONG_MIN, LONG_MAX; lia].
  do 2 f_equal. unfold to_int. replace (n + 2 ^ 32 + 2147483648)%Z with (n + 2147483648 + 1 * 4294967296)%Z by lia.
  rewrite Z_mod_plus_full, Z.mod_small; lia.
Qed.

Lemma parse_addaccess_words f u (w : bool) :
  cli_word f -> cli_word u ->
  parse_addaccess (cs (if w then "-W" else "-R") ++ blank_char :: f ++ blank_char :: u) = Run (AddAccess f u w).
Proof.
  intros Hf Hu. unfold parse_addaccess. rewrite next_token_word by by (destruct w; apply cli_word_literal).
  rewrite next_token_word by done. rewrite rest_of_line_dense by by apply word_dense.
  assert (access_flag (cs (if w then "-W" else "-R")) = Some w) as -> by by destruct w.
  cbn [fmap option_fmap option_map]. rewrite 2!(trim_word u) by done. destruct u; [by destruct Hu|done].
Qed.

Lemma parse_remaccess_words f u :
  cli_word f -> starts_dense u -> parse_remaccess (f ++ blank_char :: u) = Run (RemAccess f u).
Proof. intros Hf Hu. unfold parse_remaccess. by rewrite next_token_word, rest_of_line_dense, skip_dense. Qed.

Lemma parse_reqaccess_words f (w : bool) :
  cli_word f -> parse_reqaccess (f ++ blank_char :: cs (if w then "-W" else "-R")) = Run (ReqAccess f w).
Proof.
  intros Hf. assert (cli_word (cs (if w then "-W" else "-R"))) as Hw by by (destruct w; apply cli_word_literal).
  unfold parse_reqaccess. rewrite next_token_word, next_token_last by done. cbn [fmap option_fmap option_map].
  rewrite !trim_word by done. destruct f; [by destruct Hf|]. by destruct w.
Qed.

Lemma parse_handlereq_words f u a :
  cli_word f -> cli_word u -> a ∈ [cs "APPROVE"; cs "DENY"] ->
  parse_handlereq (f ++ blank_char :: u ++ blank_char :: a) = Run (HandleReq f u a).
Proof.
  intros Hf Hu Ha. assert (cli_word a /\ (streq_nocase a (cs "APPROVE") || streq_nocase a (cs "DENY")) = true /\ to_upper <$> take 15 a = a)
    as (Hw & Hn & Ht).
  { set_unfold in Ha. destruct Ha as [->|[->|[]]]; (split; [by apply cli_word_literal|done]). }
  unfold parse_handlereq. rewrite 2!next_token_word, next_token_last by done. cbn [fmap option_fmap option_map].
  rewrite !trim_word by done. destruct f; [by destruct Hf|]. destruct u; [by destruct Hu|]. destruct a as [|x a]; [by destruct Hw|].
  rewrite <- negb_orb, Hn. cbn [negb]. change (option_map to_upper) with (option_map to_upper). by rewrite Ht.
Qed.

Lemma parse_spelled (name : string) rest p :
  forallb (fun x => negb (is_space x)) (cs name) = true -> cs name <> [] -> parse_arguments (cs name) rest = p ->
  parse_command (cs name ++ blank_char :: rest) = p.
Proof. intros H1 H2 <-. unfold parse_command. by rewrite next_token_literal. Qed.

(** The name of the command, then its arguments. *)
Ltac spelled name := apply (parse_spelled name); [reflexivity|discriminate|].

(** C36: Every command can be typed: a line with its spelling (without blanks before it, and without
    the bound of the 511 characters [main] reads at a time) is read back as that command, with its
    names, numbers and options, where the names of documents and users contain no blanks (the last
    name of a line may, for most commands, but not at its start) and a tag is one the client
    accepts. *)
Theorem command_line_parses c (Hc : typable c) : parse_command (command_line c) = Run c.
Proof.
  destruct c; cbn [typable command_line] in *; try destruct_and!.
  - reflexivity.
  - by set_unfold in Hc; destruct Hc as [->|[->|[->|[->|[->|]]]]].
  - reflexivity.
  - spelled "INFO"%string. by apply (parse_file_dense Info).
  - spelled "CREATE"%string. by apply (parse_file_dense Create).
  - spelled "DELETE"%string. by apply (parse_file_dense Delete).
  - spelled "READ"%string. by apply (parse_file_dense Read).
  - spelled "STREAM"%string. by apply (parse_file_dense Stream).
  - spelled "CHECKPOINT"%string. by apply (parse_tag_words Checkpoint).
  - spelled "VIEWCHECKPOINT"%string. by apply (parse_tag_words ViewCheckpoint).
  - spelled "REVERT"%string. by apply (parse_tag_words Revert).
  - spelled "LISTCHECKPOINTS"%string.
    change (match cli_trim_spaces <$> rest_of_line file with
            | Some ((_ :: _) as file) => Run (ListCheckpoints file)
            | _ => usage "LISTCHECKPOINTS <file>"
            end = Run (ListCheckpoints file)).
    rewrite rest_of_line_dense by by apply word_dense. cbn [fmap option_fmap option_map]. rewrite trim_word by done.
    destruct file; [by destruct Hc|done].
  - spelled "WRITE"%string. by apply parse_write_words.
  - spelled "ADDACCESS"%string. by apply parse_addaccess_words.
  - spelled "REMACCESS"%string. by apply parse_remaccess_words.
  - spelled "REQACCESS"%string. by apply parse_reqaccess_words.
  - by destruct sent.
  - spelled "HANDLEREQ"%string. by apply parse_handlereq_words.
  - spelled "UNDO"%string. by apply (parse_file_dense Undo).
  - spelled "EXEC"%string. by apply (parse_file_dense Exec).
  - reflexivity.
Qed.

Lemma command_line_parses_witness :
  parse_command (cs "ADDACCESS -W plan bob") = Run (AddAccess (cs "plan") (cs "bob") true) /\
  parse_command (cs "INFO my plan") = Run (Info (cs "my plan")).
Proof.
  split.
  - apply (command_line_parses (AddAccess (cs "plan") (cs "bob") true)). split; by apply cli_word_literal.
  - by apply (command_line_parses (Info (cs "my plan"))).
Defined.

(** A name with a blank can be created and read, but no line writes to it. *)
Lemma written_names_have_no_blank save f n : parse_write save = Run (Write f n) -> Forall (fun x => x <> " "%char) f.
Proof.
  unfold parse_write, next_token, strtok_r. cbv zeta. destruct (drop_while _ save) as [|x s] eqn:E; [done|].
  pose proof (take_while_all (fun x => negb (bool_decide (x ∈ [" "%char]))) (x :: s)) as H. intros Hw.
  assert (f = take_while (fun x => negb (bool_decide (x ∈ [" "%char]))) (x :: s)) as ->.
  { destruct (skip_spaces _); [by injection Hw|]. destruct (strtol _) as [v stop]. destruct (bool_decide _); [done|]. by injection Hw. }
  eapply Forall_impl; [exact H|]. cbn. intros y Hy ->. by rewrite bool_decide_true in Hy by by apply list_elem_of_singleton.
Qed.

(** A line that does not fit the buffer goes on as the next command: a user name of 63
    characters or more leaves the rest of its line to the command loop, and a long line of a
    write session is taken for two edits. *)
Lemma long_line_splits (k : client) s rest n :
  k_stdin k = s ++ rest -> length s = n - 1 -> 1 < n -> plain s -> fst (read_stdin n k) = Some s /\ k_stdin (snd (read_stdin n k)) = rest.
Proof.
  intros Hk Hl Hn Hs. unfold read_stdin. rewrite Hk. destruct (s ++ rest) as [|x t] eqn:E; [by destruct s; cbn in Hl; [lia|]|].
  assert (fgets_line (n - 1) (s ++ rest) = (s, rest)) as Hf; [|rewrite <- E, Hf; done]. rewrite <- Hl. clear -Hs.
  induction Hs as [|y s [Hy _] Hs IH]; [done|]. cbn [length app fgets_line]. rewrite bool_decide_false by done. by rewrite IH.
Qed.
