(* ===== verification/CliRequests.v ===== *)
(** * [client/cli_main.c]: what the client sends

    The request the name manager gets for a typed command, and the ends of the client's
    loops. *)

From S2P Require Import Prelude Cstr Json Proto CliInput CliState CliListing CliCommand CliMain.

(** ** What computations keep *)

Definition keeps {A} (R : relation client) (m : M A) : Prop := forall k, R k (snd (m k)).

(** A relation that holds between the states before and after each operation of a session
    with a storage server, hence before and after the session. *)
Class Framed (R : relation client) : Prop := {
  framed_order :: PreOrder R;
  framed_print s : keeps R (print s);
  framed_eprint s : keeps R (eprint s);
  framed_recv : keeps R net_recv_json;
  framed_stdin n : keeps R (read_stdin n);
  framed_connect : keeps R net_connect;
  framed_send host port payload : keeps R (net_send_json (SsConn host port) payload);
}.

#[export] Hint Resolve framed_print framed_eprint framed_recv framed_stdin framed_connect framed_send : cowrite.

Lemma keeps_ret {R : relation client} `{!Framed R} {A} (x : A) : keeps R (mret x).
Proof. intros k. by unfold mret, M_ret. Qed.

Lemma keeps_username {R : relation client} `{!Framed R} : keeps R get_username.
Proof. intros k. by unfold get_username. Qed.

Lemma keeps_bind {R : relation client} `{!Framed R} {A B} (m : M A) (f : A -> M B) : keeps R m -> (forall x, keeps R (f x)) -> keeps R (m ≫= f).
Proof.
  intros Hm Hf k. unfold mbind, M_bind. specialize (Hm k). destruct (m k) as [x k1]. etrans; [exact Hm|apply Hf].
Qed.

#[export] Hint Resolve keeps_ret keeps_username : cowrite.

(** A computation put together from others by case analysis. *)
Ltac frame :=
  repeat match goal with
  | |- keeps _ (mbind _ _) => apply keeps_bind; [|intros ?]
  | |- keeps _ (match ?x with _ => _ end) => destruct x
  | |- keeps _ (let _ := _ in _) => cbv zeta
  | |- keeps _ _ => solve [auto with cowrite typeclass_instances]
  end.

Section Framed.
Context {R : relation client} `{!Framed R}.

Lemma keeps_request host port payload : keeps R (send_request (SsConn host port) payload).
Proof using Type*. unfold send_request. frame. Qed.

Lemma keeps_error response : keeps R (print_error_response response).
Proof using Type*. unfold print_error_response. frame. Qed.

Lemma keeps_fail s : keeps R (fail_with s).
Proof using Type*. unfold fail_with. frame. Qed.

#[local] Hint Resolve keeps_request keeps_error keeps_fail : cowrite.

Lemma keeps_ss_read host port file user ticket : keeps R (ss_read host port file user ticket).
Proof using Type*. unfold ss_read. frame. Qed.

Lemma keeps_stream_loop n : keeps R (stream_loop n).
Proof using Type*. induction n as [|n IH]; cbn [stream_loop]; frame; done. Qed.

Lemma keeps_ss_stream host port file user ticket : keeps R (ss_stream host port file user ticket).
Proof using Type*. unfold ss_stream. frame. intros k. apply keeps_stream_loop. Qed.

Lemma keeps_edit_loop n host port : keeps R (edit_loop n (SsConn host port)).
Proof using Type*. induction n as [|n IH]; cbn [edit_loop]; frame; done. Qed.

Lemma keeps_edit_lines host port : keeps R (edit_lines (SsConn host port)).
Proof using Type*. intros k. apply keeps_edit_loop. Qed.

Lemma keeps_finish host port b : keeps R (finish_write (SsConn host port) b).
Proof using Type*. unfold finish_write. frame. Qed.

#[local] Hint Resolve keeps_edit_lines keeps_finish : cowrite.

Lemma keeps_ss_write host port file user ticket n : keeps R (ss_write_session host port file user ticket n).
Proof using Type*. unfold ss_write_session. frame. Qed.
End Framed.

#[export] Hint Resolve keeps_request keeps_error keeps_fail keeps_ss_read keeps_ss_stream
  keeps_ss_write : cowrite.

(** *** Messages for storage servers only *)

Definition servers_only (k k' : client) : Prop :=
  exists later, k_sent k' = k_sent k ++ later /\ Forall (fun x => fst x <> NmConn) later.

Lemma servers_only_same k k' : k_sent k' = k_sent k -> servers_only k k'.
Proof. intros H. exists []. by rewrite app_nil_r. Qed.

#[export] Instance servers_only_framed : Framed servers_only.
Proof.
  split.
  - split; [intros k; by apply servers_only_same|]. intros k1 k2 k3 (l1 & E1 & F1) (l2 & E2 & F2). exists (l1 ++ l2).
    by rewrite E2, E1, app_assoc, Forall_app.
  - intros s k. by apply servers_only_same.
  - intros s k. by apply servers_only_same.
  - intros k. by apply servers_only_same.
  - intros n k. apply servers_only_same. unfold read_stdin. destruct (k_stdin k); [done|]. by destruct (fgets_line _ _).
  - intros k. apply servers_only_same. unfold net_connect. by destruct (head (k_connects k)) as [[]|].
  - intros host port payload k. unfold net_send_json. cbn [snd]. destruct (default true _); [|by apply servers_only_same].
    exists [(SsConn host port, payload)]. split; [done|]. by repeat constructor.
Qed.

(** ** One request per command *)

(** What a command is meant to ask for: the fields of its request, [None] when it sends
    none. *)
Definition command_fields (user : cstr) (c : command) : option (list (cstr * jval)) :=
  let type s := (cs "type", JStr (cs s)) in
  let file s := (cs "file", JStr s) in
  match c with
  | Help => None
  | View [] => Some [type "VIEW"%string]
  | View flags => Some [type "VIEW"%string; (cs "flags", JStr flags)]
  | ListUsers => Some [type "LIST"%string]
  | Info f => Some [type "INFO"%string; file f]
  | Create f => Some [type "CREATE"%string; file f]
  | Delete f => Some [type "DELETE"%string; file f]
  | Read f => Some [type "READ"%string; file f]
  | Stream f => Some [type "STREAM"%string; file f]
  | Checkpoint f t => Some [type "CHECKPOINT"%string; file f; (cs "tag", JStr t)]
  | ViewCheckpoint f t => Some [type "VIEWCHECKPOINT"%string; file f; (cs "tag", JStr t); (cs "user", JStr user)]
  | Revert f t => Some [type "REVERT"%string; file f; (cs "tag", JStr t); (cs "user", JStr user)]
  | ListCheckpoints f => Some [type "LISTCHECKPOINTS"%string; file f]
  | Write f n => Some [type "WRITE"%string; file f; (cs "sentence", JInt n)]
  | AddAccess f u w => Some [type "ADDACCESS"%string; file f; (cs "user", JStr u); (cs "mode", JStr (cs (if w then "RW" else "R")))]
  | RemAccess f u => Some [type "REMACCESS"%string; file f; (cs "user", JStr u)]
  | ReqAccess f w => Some [type "REQACCESS"%string; file f; (cs "mode", JStr (cs (if w then "W" else "R")))]
  | ViewReqs b => Some [type "VIEWREQS"%string; (cs "direction", JStr (cs (if b then "SENT" else "RECEIVED")))]
  | HandleReq f u a => Some [type "HANDLEREQ"%string; file f; (cs "user", JStr u); (cs "action", JStr a)]
  | Undo f => Some [type "UNDO"%string; file f]
  | Exec f => Some [type "EXEC"%string; file f]
  | Quit => Some [type "CLIENT_EXIT"%string]
  end.

(** The buffers of 256 bytes of the checkpoint commands. *)
Definition short (s : cstr) : bool := length (escape s) <? 256.
Definition names_short (user : cstr) (c : command) : bool :=
  match c with
  | Checkpoint f t => short f && short t
  | ViewCheckpoint f t | Revert f t => short f && short t && short user
  | ListCheckpoints f => short f
  | _ => true
  end.

Definition request_text (user : cstr) (c : command) (fs : list (cstr * jval)) : option cstr :=
  if names_short user c then fit MAX_JSON (render_obj fs) else None.

(** The computation sends the text to the name manager, if there is one and the connection
    takes it, and nothing more to the name manager. *)
Definition sends (m : M Z) (payload : cstr -> option cstr) : Prop := forall k, exists later,
  k_sent (snd (m k)) =
    k_sent k ++ match payload (g_username k) with
                | Some p => if default true (head (k_sends k)) : bool then (NmConn, p) :: later else []
                | None => []
                end /\
  Forall (fun x => fst x <> NmConn) later.

Lemma sends_nothing (m : M Z) payload :
  (forall k, k_sent (snd (m k)) = k_sent k) -> (forall user, payload user = None) -> sends m payload.
Proof. intros Hm Hp k. exists []. by rewrite Hp, Hm, app_nil_r. Qed.

Lemma nm_request_sends type body (ok : cstr -> M Z) :
  (forall r, keeps servers_only (ok r)) -> sends (nm_request type body ok) (fun _ => nm_payload type body).
Proof.
  intros Hok k. unfold nm_request, nm_call, mbind, M_bind. destruct (nm_payload type body) as [p|].
  2: { exists []. by rewrite app_nil_r. }
  unfold send_request, mbind, M_bind, net_send_json. destruct (default true (head (k_sends k))).
  2: { exists []. by rewrite app_nil_r. }
  unfold net_recv_json. cbn [fst snd k_arrivals k_sent k_sends k_connects k_stdin k_history k_out k_err g_username].
  set (k2 := mk_client _ _ _ _ (tail _) _ _ _ _). set (r := default None _).
  assert (k_sent k2 = k_sent k ++ [(NmConn, p)]) as Ek by done.
  assert (keeps servers_only match r with
          | None => eprint (line (cs "Failed to contact NM")) ;; mret (-1)%Z
          | Some response => if status_is_ok response then ok response else print_error_response response ;; mret (-1)%Z
          end) as H by frame.
  destruct (H k2) as (later & E & F). exists later. split; [|done].
  rewrite Ek, <- app_assoc in E. destruct r as [response|]; [|exact E]. by destruct (status_is_ok response).
Qed.

(** The two bounds of [nm_call] are one. *)
Lemma nm_payload_fit type body :
  nm_payload type (Some body) = fit MAX_JSON (js "{'type':'" ++ type ++ js "'," ++ body ++ cs "}").
Proof.
  unfold nm_payload, fit. destruct (Nat.leb_spec MAX_JSON (length body)); [|done]. cbn [mbind option_bind].
  destruct (Nat.leb_spec MAX_JSON (length (js "{'type':'" ++ type ++ js "'," ++ body ++ cs "}"))) as [|Hl]; [done|].
  rewrite !length_app in Hl. unfold MAX_JSON in *. lia.
Qed.

Lemma sends_text type body ok payload :
  (forall r, keeps servers_only (ok r)) -> (forall user, payload user = nm_payload type body) ->
  sends (nm_request type body ok) payload.
Proof. intros Hok Hp k. rewrite Hp. by apply nm_request_sends. Qed.

(** Flags as the command line gives them. *)
Definition plain_flags (c : command) : Prop :=
  match c with View flags => Forall (fun x => x = "a"%char \/ x = "l"%char) flags | _ => True end.

Lemma escape_flags flags : Forall (fun x => x = "a"%char \/ x = "l"%char) flags -> escape flags = flags.
Proof. induction 1 as [|x l [->| ->] _ IH]; [done|..]; by rewrite escape_cons, IH. Qed.

(** Texts built from literals, escaped strings and numbers as rendered objects. *)
Ltac solve_render :=
  unfold render_obj, file_body, user_body, tag_body; cbn [render_fields]; unfold render_field; cbn [fst snd render_val];
  repeat match goal with
  | |- context [escape (?x :: ?l)] => generalize (escape (x :: l)); intros ?
  | |- context [escape ?s] => is_var s; generalize (escape s); intros ?
  | |- context [show_Z ?n] => generalize (show_Z n); intros ?
  end; solve_text.

(** A request to the name manager with the given text. *)
Ltac one_request :=
  apply sends_text; [intros ?; solve [frame]|intros ?];
  rewrite nm_payload_fit; unfold request_text, names_short; cbn [mbind option_bind]; f_equal; solve_render.

Lemma sends_username (m : cstr -> M Z) payload :
  (forall user, sends (m user) (fun _ => payload user)) -> sends (user ← get_username; m user) payload.
Proof. intros H k. exact (H (g_username k) k). Qed.

(** The names in the buffers of the checkpoint commands. *)
Ltac short_names :=
  cbn [mbind option_bind]; unfold json_escape_string, request_text, names_short, short; rewrite !escape_value_spec;
  repeat match goal with |- context [length (escape ?x) <? 256] => destruct (length (escape x) <? 256) end;
  cbn [andb]; first [apply sends_nothing; intros ?; reflexivity | one_request].

Lemma command_sends c :
  plain_flags c ->
  sends (run_command c) (fun user => fs ← command_fields user c; request_text user c fs).
Proof.
  intros Hc. destruct c; cbn [run_command command_fields].
  - by apply sends_nothing.
  - destruct flags as [|x flags]; [apply sends_text; [intros ?; frame|done]|].
    apply escape_flags in Hc. unfold handle_view. rewrite <- Hc at 1. one_request.
  - apply sends_text; [intros ?; frame|done].
  - unfold handle_info_cmd. rewrite json_escape_dup_spec. one_request.
  - unfold handle_create_cmd, line_cmd. rewrite json_escape_dup_spec. one_request.
  - unfold handle_delete_cmd, line_cmd. rewrite json_escape_dup_spec. one_request.
  - unfold handle_read_cmd, endpoint_cmd. rewrite json_escape_dup_spec. one_request.
  - unfold handle_stream_cmd, endpoint_cmd. rewrite json_escape_dup_spec. one_request.
  - unfold handle_checkpoint_cmd, line_cmd. short_names.
  - unfold handle_viewcheckpoint_cmd. apply sends_username. intros user. short_names.
  - unfold handle_revert_cmd, line_cmd. apply sends_username. intros user. short_names.
  - unfold handle_listcheckpoints_cmd. short_names.
  - unfold handle_write_cmd, endpoint_cmd. rewrite json_escape_dup_spec. one_request.
  - unfold handle_addaccess_cmd, line_cmd. rewrite !json_escape_dup_spec. destruct write_perm; one_request.
  - unfold handle_remaccess_cmd, line_cmd. rewrite !json_escape_dup_spec. one_request.
  - unfold handle_reqaccess_cmd, line_cmd. rewrite !json_escape_dup_spec. destruct write_perm; one_request.
  - unfold handle_viewreqs_cmd. destruct sent; one_request.
  - unfold handle_handlereq_cmd, line_cmd. rewrite !json_escape_dup_spec. one_request.
  - unfold handle_undo_cmd, line_cmd. rewrite !json_escape_dup_spec. one_request.
  - unfold handle_exec_cmd. rewrite !json_escape_dup_spec. one_request.
  - apply sends_text; [intros ?; frame|done].
Qed.

(** ** What a line can ask for *)

(** The flags are letters the name manager knows, and the numbers are [int]s. *)
Definition typed (c : command) : Prop :=
  plain_flags c /\ match c with Write _ n => (INT_MIN <= n <= INT_MAX)%Z | _ => True end.

Lemma add_flag_plain x flags :
  Forall (fun x => x = "a"%char \/ x = "l"%char) flags -> Forall (fun x => x = "a"%char \/ x = "l"%char) (add_flag x flags).
Proof.
  intros H. unfold add_flag. destruct (_ && _); [apply Forall_app; split; [done|]; apply Forall_singleton; by left|].
  destruct (_ && _); [apply Forall_app; split; [done|]; apply Forall_singleton; by right|done].
Qed.

Lemma view_flags_plain fuel save flags :
  Forall (fun x => x = "a"%char \/ x = "l"%char) flags ->
  Forall (fun x => x = "a"%char \/ x = "l"%char) (view_flags fuel save flags).
Proof.
  revert save flags. induction fuel as [|fuel IH]; intros save flags H; cbn [view_flags]; [done|].
  destruct (next_token save) as [[token|] save']; [|done]. apply IH. unfold token_flags.
  destruct token as [|x token]; [done|]. destruct (bool_decide _); [|done]. revert flags H.
  induction token as [|y token IHt]; intros flags H; cbn [foldl]; [done|]. apply IHt. by apply add_flag_plain.
Qed.

Lemma parse_file_typed make text save c :
  parse_file make text save = Run c -> (forall f, typed (make f)) -> typed c.
Proof. unfold parse_file, usage. intros H Hm. destruct (rest_of_line save); [|done]. by injection H as <-. Qed.

Lemma parse_tag_typed make text save c :
  parse_tag make text save = Run c -> (forall f t, typed (make f t)) -> typed c.
Proof.
  unfold parse_tag, usage. intros H Hm. destruct (next_token save) as [file save1]. destruct (next_token save1) as [tag save2].
  destruct (cli_trim_spaces <$> file) as [[|]|], (cli_trim_spaces <$> tag) as [[|]|]; try done.
  destruct (cli_valid_checkpoint_tag _); [|done]. by injection H as <-.
Qed.

Lemma view_typed fuel save c : Run (View (view_flags fuel save [])) = Run c -> typed c.
Proof. intros [= <-]. split; [|done]. apply view_flags_plain. constructor. Qed.

Lemma parse_typed input c : parse_command input = Run c -> typed c.
Proof.
  unfold parse_command. destruct (next_token input) as [[cmd|] save]; [|done]. unfold parse_arguments. cbv zeta.
  repeat match goal with |- context [if streq ?a ?b then _ else _] => destruct (streq a b) end;
    try (intros H; first [by eapply parse_file_typed; [exact H|] | by eapply parse_tag_typed; [exact H|]]);
    try (by intros [= <-]).
  - apply view_typed.
  - destruct (cli_trim_spaces <$> rest_of_line save) as [[|]|]; [done| |done]. by intros [= <-].
  - unfold parse_write, usage. destruct (next_token save) as [[file|] save1]; [|done].
    destruct (skip_spaces _) as [|x tok]; [intros [= <-]; by split|]. destruct (strtol (x :: tok)) as [val stop].
    destruct (bool_decide _); [done|]. intros [= <-]. split; [done|]. apply to_int_range.
  - unfold parse_addaccess, usage. repeat case_match; try done; intros [= <-]; done.
  - unfold parse_remaccess, usage. repeat case_match; try done; intros [= <-]; done.
  - unfold parse_reqaccess, usage. repeat case_match; try done; intros [= <-]; done.
  - unfold parse_viewreqs, usage. repeat case_match; try done; intros [= <-]; done.
  - unfold parse_handlereq, usage. repeat case_match; try done; intros [= <-]; done.
  - destruct (_ || _); [by intros [= <-]|done].
Qed.

Lemma command_keys user c fs :
  command_fields user c = Some fs -> Forall (fun f => good_key (fst f) = true) fs.
Proof. destruct c as [|[|]| | | | | | | | | | | | | | | | | | |]; cbn; intros [= <-]; repeat constructor. Qed.

Lemma command_long user c fs : typed c -> command_fields user c = Some fs -> long_fields fs = true.
Proof.
  intros [_ Hc]. destruct c as [|[|]| | | | | | | | | | | | | | | | | | |]; cbn; intros [= <-]; try done.
  unfold long_fields. cbn [forallb snd]. unfold INT_MIN, INT_MAX, LONG_MIN, LONG_MAX in *. rewrite !andb_true_l, !andb_true_r.
  apply andb_true_iff. split; apply Z.leb_le; lia.
Qed.

(** C25: The name manager gets what the user asked for.  A typed command sends one request, and
    further messages only to storage servers; it sends none when the text does not fit or the
    connection is gone.  Whatever characters the names contain, each field the name manager
    reads from the request is the one of the command, and no other field can be read. *)
Theorem typed_requests_read input c k fs key n
  (Hp : parse_command input = Run c) (Hf : command_fields (g_username k) c = Some fs)
  (Hkey : good_key key = true) (Hlen : length key + 4 < 128) :
  (exists later, Forall (fun x => fst x <> NmConn) later /\
     k_sent (snd (run_command c k)) =
       k_sent k ++ if names_short (g_username k) c && (length (render_obj fs) <? MAX_JSON) && default true (head (k_sends k))
                   then (NmConn, render_obj fs) :: later else []) /\
  json_get_string (render_obj fs) key n =
    match field_str fs key with Some v => if length v <? n then Some v else None | None => None end /\
  json_get_int (render_obj fs) key = to_int <$> field_int fs key.
Proof.
  apply parse_typed in Hp as Ht. pose proof (command_keys _ _ _ Hf) as Hk. split_and!.
  - destruct (command_sends c (proj1 Ht) k) as (later & E & F). exists later. split; [done|]. rewrite E, Hf. cbn [mbind option_bind].
    unfold request_text, fit. destruct (names_short _ _); [|done]. cbn [andb].
    destruct (Nat.leb_spec MAX_JSON (length (render_obj fs))), (Nat.ltb_spec (length (render_obj fs)) MAX_JSON); try lia; done.
  - by apply json_get_string_lookup.
  - apply json_get_int_field; [done|done|lia|]. by eapply command_long.
Qed.

(** ** The loops end *)

(** The keyboard input is only read. *)
Definition input_shrinks (k k' : client) : Prop := length (k_stdin k') <= length (k_stdin k).

Lemma read_stdin_shrinks n typed k k' :
  1 < n -> read_stdin n k = (Some typed, k') -> length (k_stdin k') < length (k_stdin k).
Proof.
  intros Hn. unfold read_stdin. destruct (k_stdin k) as [|x s] eqn:E; [done|]. destruct n as [|[|n]]; [lia..|].
  replace (S (S n) - 1) with (S n) by lia. pose proof (fgets_line_shrinks n x s) as H. destruct (fgets_line (S n) (x :: s)) as [l rest].
  intros [= <- <-]. cbn [k_stdin snd length] in *. lia.
Qed.

#[export] Instance input_shrinks_framed : Framed input_shrinks.
Proof.
  unfold input_shrinks. split; try (intros; intros k; cbn; lia).
  - split; [intros k; done|]. intros k1 k2 k3. cbn. lia.
  - intros n k. unfold read_stdin. destruct (k_stdin k) as [|x s] eqn:E; [cbn [snd]; rewrite E; done|].
    pose proof (fgets_line_length (n - 1) (x :: s)). destruct (fgets_line (n - 1) (x :: s)). cbn [snd k_stdin] in *. lia.
  - intros k. unfold net_connect. destruct (head (k_connects k)) as [[]|]; cbn; lia.
Qed.

Lemma request_shrinks type body (ok : cstr -> M Z) :
  (forall r, keeps input_shrinks (ok r)) -> keeps input_shrinks (nm_request type body ok).
Proof.
  intros Hok. unfold nm_request, nm_call. apply keeps_bind; [|intros [r|]; frame].
  destruct (nm_payload type body) as [p|]; [|frame]. unfold send_request. apply keeps_bind; [|intros []; frame].
  intros k. by unfold net_send_json, input_shrinks.
Qed.

#[local] Hint Resolve request_shrinks : cowrite.

Lemma command_shrinks c : keeps input_shrinks (run_command c).
Proof.
  destruct c; cbn [run_command]; [unfold print_help; frame|..];
    unfold handle_view, handle_list_users, handle_info_cmd, handle_create_cmd, handle_delete_cmd, handle_read_cmd, handle_stream_cmd,
      handle_checkpoint_cmd, handle_viewcheckpoint_cmd, handle_revert_cmd, handle_listcheckpoints_cmd, handle_write_cmd,
      handle_addaccess_cmd, handle_remaccess_cmd, handle_reqaccess_cmd, handle_viewreqs_cmd, handle_handlereq_cmd,
      handle_undo_cmd, handle_exec_cmd, handle_exit_cmd, line_cmd, endpoint_cmd, out_of_memory, encoding_error;
    repeat (frame; match goal with |- keeps _ (nm_request _ _ _) => apply request_shrinks; intros ? end); frame.
Qed.

(** Equal runs up to a point give equal runs. *)
Lemma bind_ext {A B} (m : M A) (f g : A -> M B) k :
  (forall x k', m k = (x, k') -> f x k' = g x k') -> (m ≫= f) k = (m ≫= g) k.
Proof. intros H. unfold mbind, M_bind. destruct (m k) as [x k']. by apply H. Qed.

Lemma keeps_run {A} (R : relation client) (m : M A) k x k' : keeps R m -> m k = (x, k') -> R k k'.
Proof. intros H E. specialize (H k). by rewrite E in H. Qed.

(** After a computation that reads at most, the loop has its fuel. *)
Lemma loop_after {A B} (m : M A) (loop1 loop2 : M B) f1 f2 k :
  keeps input_shrinks m -> length (k_stdin k) < f1 -> length (k_stdin k) < f2 ->
  (forall k', length (k_stdin k') < f1 -> length (k_stdin k') < f2 -> loop1 k' = loop2 k') ->
  (_ ← m; loop1) k = (_ ← m; loop2) k.
Proof. intros Hm H1 H2 IH. apply bind_ext. intros x k' E. apply (keeps_run _ _ _ _ _ Hm) in E. unfold input_shrinks in E. apply IH; lia. Qed.

Lemma docs_loop_fuel f1 f2 k :
  length (k_stdin k) < f1 -> length (k_stdin k) < f2 -> docs_loop f1 k = docs_loop f2 k.
Proof.
  revert f2 k. induction f1 as [|f1 IH]; intros [|f2] k H1 H2; [lia..|]. cbn [docs_loop].
  apply bind_ext. intros u1 k1 E1. apply (f_equal snd) in E1. cbn in E1. subst k1. apply bind_ext. intros [typed|] k2 E2; [|done].
  apply read_stdin_shrinks in E2; [|unfold INPUT_BUF; lia]. cbn [k_stdin] in E2.
  assert (forall k', length (k_stdin k') < f1 -> length (k_stdin k') < f2 -> docs_loop f1 k' = docs_loop f2 k') as IH' by auto.
  destruct (trim_newline typed) as [|x input]; [apply IH'; lia|].
  apply bind_ext. intros u3 k3 E3. apply (f_equal snd) in E3. cbn in E3. subst k3. assert (forall {A} (m : M A), keeps input_shrinks m -> forall k', length (k_stdin k') = length (k_stdin k2) ->
    (_ ← m; docs_loop f1) k' = (_ ← m; docs_loop f2) k') as Hgo by (intros A m Hm k' Ek; apply (loop_after m _ _ f1 f2); [done|lia|lia|done]).
  destruct (parse_command (x :: input)) as [| |text|c]; [apply IH'; cbn; lia|apply Hgo; [frame|done]..|].
  destruct c; first [apply Hgo; [apply command_shrinks|done] | done].
Qed.

Lemma edit_loop_fuel f1 f2 c k :
  (forall payload, keeps input_shrinks (send_request c payload)) ->
  length (k_stdin k) < f1 -> length (k_stdin k) < f2 -> edit_loop f1 c k = edit_loop f2 c k.
Proof.
  intros Hc. revert f2 k. induction f1 as [|f1 IH]; intros [|f2] k H1 H2; [lia..|]. cbn [edit_loop].
  apply bind_ext. intros u1 k1 E1. apply (f_equal snd) in E1. cbn in E1. subst k1. apply bind_ext. intros [typed|] k2 E2; [|done].
  apply read_stdin_shrinks in E2; [|unfold INPUT_BUF; lia]. cbn [k_stdin] in E2.
  assert (forall k', length (k_stdin k') < f1 -> length (k_stdin k') < f2 -> edit_loop f1 c k' = edit_loop f2 c k') as IH' by auto.
  assert (forall (m : M unit), keeps input_shrinks m -> (_ ← m; edit_loop f1 c) k2 = (_ ← m; edit_loop f2 c) k2) as Hgo
    by (intros m Hm; apply (loop_after m _ _ f1 f2); [done|lia|lia|done]).
  destruct (parse_edit typed) as [| | |token| |index content]; [apply IH'; lia|done|apply Hgo; frame..|].
  destruct (insert_payload index content) as [[cmd|]|]; [|apply Hgo; frame|done].
  apply bind_ext. intros [resp|] k3 E3; [|done]. apply (keeps_run _ _ _ _ _ (Hc cmd)) in E3. unfold input_shrinks in E3.
  apply (loop_after _ _ _ f1 f2); [frame|lia|lia|done].
Qed.

Lemma stream_loop_fuel f1 f2 k :
  length (k_arrivals k) < f1 -> length (k_arrivals k) < f2 -> stream_loop f1 k = stream_loop f2 k.
Proof.
  revert f2 k. induction f1 as [|f1 IH]; intros [|f2] k H1 H2; [lia..|]. cbn [stream_loop].
  apply bind_ext. intros [chunk|] k' E; [|done]. unfold net_recv_json in E. destruct (k_arrivals k) as [|a l] eqn:Ea; [done|].
  apply (f_equal snd) in E. cbn in E. subst k'. cbn [length] in H1, H2.
  match goal with |- _ ?k' = _ => assert (stream_loop f1 k' = stream_loop f2 k') as IH' by (apply IH; cbn; lia) end.
  destruct (json_get_string chunk (cs "status") 16) as [status|]; [|exact IH'].
  destruct (streq status (cs "DATA")); [|done]. destruct (json_get_string chunk (cs "word") 256) as [word|]; [|exact IH'].
  apply bind_ext. intros u k2 E2. apply (f_equal snd) in E2. cbn in E2. subst k2. apply IH; cbn; lia.
Qed.

(** C38: The client's loops end.  The command loop and the loop of a write session come to an
    end after at most one round per character of the keyboard input, whatever the name manager
    and the storage servers answer or fail to answer, and the loop over a streamed document
    after at most one round per message that arrives: more rounds than that make no
    difference. *)
Theorem client_loops_end k fuel host port :
  (length (k_stdin k) < fuel -> docs_loop fuel k = docs k /\ edit_loop fuel (SsConn host port) k = edit_lines (SsConn host port) k) /\
  (length (k_arrivals k) < fuel -> stream_loop fuel k = stream_chunks k).
Proof.
  split.
  - intros H. split; [apply docs_loop_fuel; lia|]. apply edit_loop_fuel; [intros payload; frame|lia|lia].
  - intros H. apply stream_loop_fuel; lia.
Qed.

(** ** A session *)

Definition demo_line (s : string) : cstr := line (cs s).
Definition demo_client : client :=
  mk_client (cs "ann") [] [] [] [Some (js "{'status':'OK','host':'10.0.0.7','port':'9001','ticket':'t0'}");
                                 Some (js "{'status':'OK','current':'One. '}");
                                 Some (js "{'status':'OK','step':'INSERT'}"); Some (js "{'status':'OK','step':'COMMIT'}")]
    (concat (demo_line <$> ["write plan 1"; "0 Two."; "etirw"; "quit"]%string)) [] [] [].

Lemma typed_requests_read_witness :
  let c := ViewCheckpoint (cs "plan") (js "v'1") in
  parse_command (js "viewcheckpoint plan v'1") = Run c /\
  json_get_string (default [] (head (snd <$> k_sent (snd (run_command c demo_client))))) (cs "tag") 64 = Some (js "v'1").
Proof.
  split; [reflexivity|].
  pose proof (typed_requests_read (js "viewcheckpoint plan v'1") (ViewCheckpoint (cs "plan") (js "v'1")) demo_client _ (cs "tag") 64
    eq_refl eq_refl eq_refl ltac:(cbn; lia)) as (H1 & H2 & _).
  destruct H1 as (later & _ & ->). exact H2.
Defined.

Lemma client_loops_end_witness :
  docs_loop 50 demo_client = docs demo_client /\ k_stdin (snd (docs demo_client)) = [] /\
  stream_loop 9 demo_client = stream_chunks demo_client.
Proof.
  destruct (client_loops_end demo_client 50 [] []) as [H1 _]. destruct (client_loops_end demo_client 9 [] []) as [_ H2].
  split; [apply H1; cbn; lia|]. split; [vm_compute; reflexivity|]. apply H2. cbn. lia.
Defined.
