(* ===== verification/CliViews.v ===== *)
(** * The listings of the name manager as the client shows them

    The client's scanners against the texts the name manager's handlers build: what is
    printed for VIEW and VIEWREQS is the listing of the tables, and where it is not. *)

From S2P Require Import Prelude Cstr Json Proto Fs NmState NmServer NmRequests CliState CliListing CliCommand CliMain CliRequests.

(** ** One question to the name manager *)

(** The client after a message was sent and its answer has arrived. *)
Definition asked (c : conn) (payload : cstr) (k : client) : client :=
  mk_client (g_username k) (k_sent k ++ [(c, payload)]) (k_connects k) (tail (k_sends k)) (tail (k_arrivals k)) (k_stdin k)
    (k_history k) (k_out k) (k_err k).

Lemma send_request_answer c payload k r l :
  k_sends k = [] -> k_arrivals k = Some r :: l -> send_request c payload k = (Some r, asked c payload k).
Proof. intros Hs Ha. unfold send_request, net_send_json, net_recv_json, mbind, M_bind, asked. rewrite Hs. cbn. by rewrite Ha. Qed.

Lemma send_request_lost c payload k l :
  k_sends k = [] -> k_arrivals k = None :: l -> send_request c payload k = (None, asked c payload k).
Proof. intros Hs Ha. unfold send_request, net_send_json, net_recv_json, mbind, M_bind, asked. rewrite Hs. cbn. by rewrite Ha. Qed.

Lemma nm_request_answer type body (ok : cstr -> M Z) k r l payload :
  k_sends k = [] -> k_arrivals k = Some r :: l -> nm_payload type body = Some payload -> status_is_ok r = true ->
  nm_request type body ok k = ok r (asked NmConn payload k).
Proof.
  intros Hs Ha Hp Hok. unfold nm_request, nm_call. rewrite Hp. unfold mbind at 1, M_bind.
  by rewrite (send_request_answer _ _ _ r l), Hok.
Qed.

Lemma ok_status extra : extra <> [] -> forall response, send_ok extra = Some response ->
  response = js "{'status':'OK'," ++ extra ++ cs "}" /\ status_is_ok response = true.
Proof.
  intros Hne response. unfold send_ok. destruct extra as [|x extra]; [done|]. unfold fit. destruct (_ <=? _); [done|].
  intros [= <-]. split; [done|]. reflexivity.
Qed.

(** ** Objects in a listing *)

(** The elements of an array, a comma before each but the first. *)
Fixpoint commas (first : bool) (objs : list cstr) : cstr :=
  match objs with
  | [] => []
  | o :: objs => (if first then o else ","%char :: o) ++ commas false objs
  end.

(** [object_scan] passes a string, whatever it holds. *)
Lemma scan_string v rest b acc :
  object_scan (escape v ++ dquote :: rest) b true false acc =
  object_scan rest b false false (dquote :: rev (escape v) ++ acc).
Proof.
  revert acc. induction v as [|x v IH]; intros acc; [done|]. rewrite escape_cons, <- app_assoc, rev_app_distr, <- app_assoc.
  unfold esc1. destruct (unescape_esc1 x) as [(E & Hb & Hq)|(d & E & _)]; rewrite E; cbn [default from_option id app rev object_scan].
  - rewrite !bool_decide_false by done. apply IH.
  - apply IH.
Qed.

(** Characters outside of strings that are neither quotes nor braces. *)
Definition flat (s : cstr) : Prop := Forall (fun x => x <> dquote /\ x <> "{"%char /\ x <> "}"%char) s.

Lemma scan_flat s rest b acc :
  flat s -> object_scan (s ++ rest) b false false acc = object_scan rest b false false (rev s ++ acc).
Proof.
  intros Hs. revert acc. induction Hs as [|x s (H1 & H2 & H3) Hs IH]; intros acc; [done|]. cbn [app rev object_scan].
  rewrite !bool_decide_false by done. by rewrite IH, <- app_assoc.
Qed.

Lemma flat_alpha k : forallb is_alpha k = true -> flat k.
Proof.
  intros H. apply Forall_forall. intros x Hx%list_elem_of_In. apply (proj1 (forallb_forall _ _) H) in Hx.
  split_and!; intros ->; done.
Qed.

Lemma flat_digits s : Forall (fun x => is_digit x = true) s -> flat s.
Proof. intros H. eapply Forall_impl; [exact H|]. cbn. intros x Hx. split_and!; intros ->; done. Qed.

Lemma flat_show_Z z : flat (show_Z z).
Proof.
  unfold show_Z. destruct (Z.ltb_spec z 0).
  - apply Forall_cons. split; [done|]. apply flat_digits, show_nonneg_spec. lia.
  - apply flat_digits, show_nonneg_spec. lia.
Qed.

Lemma escape_alpha k : forallb is_alpha k = true -> escape k = k.
Proof.
  induction k as [|x k IH]; [done|]. cbn [forallb]. intros [Hx Hk]%andb_true_iff. rewrite escape_cons, IH by done.
  unfold esc1, esc_replacement. repeat (case_decide; [by subst|]). done.
Qed.

Lemma scan_quoted v rest b acc :
  object_scan (dquote :: escape v ++ dquote :: rest) b false false acc =
  object_scan rest b false false (rev (dquote :: escape v ++ [dquote]) ++ acc).
Proof.
  cbn [object_scan]. rewrite bool_decide_true by done. rewrite scan_string. cbn [rev]. rewrite rev_app_distr.
  by rewrite <- !app_assoc.
Qed.

Lemma scan_field f rest b acc :
  good_key (fst f) = true ->
  object_scan (render_field f ++ rest) b false false acc = object_scan rest b false false (rev (render_field f) ++ acc).
Proof.
  destruct f as [k v]. cbn [fst]. unfold good_key. rewrite andb_true_iff. intros [_ Hk]. apply escape_alpha in Hk.
  assert (render_field (k, v) = (dquote :: escape k ++ [dquote]) ++ ":"%char :: render_val v) as ->.
  { rewrite Hk. unfold render_field, int_pattern. cbn [fst snd]. cbn [app]. by rewrite <- !app_assoc. }
  rewrite rev_app_distr, <- !app_assoc. cbn [app]. rewrite <- !app_assoc. cbn [app]. rewrite scan_quoted.
  change (":"%char :: render_val v ++ rest) with ([":"%char] ++ render_val v ++ rest).
  rewrite scan_flat by by apply Forall_singleton. destruct v as [v|z]; cbn [render_val rev app].
  - rewrite <- app_assoc. cbn [app]. rewrite scan_quoted. cbn [rev app]. by rewrite <- !app_assoc.
  - rewrite scan_flat by apply flat_show_Z. by rewrite <- !app_assoc.
Qed.

Lemma scan_fields fs rest b acc :
  Forall (fun f => good_key (fst f) = true) fs ->
  object_scan (render_fields fs ++ rest) b false false acc = object_scan rest b false false (rev (render_fields fs) ++ acc).
Proof.
  intros Hfs. revert acc. induction Hfs as [|f fs Hf Hfs IH]; intros acc; [done|]. destruct fs as [|g fs].
  - by apply scan_field.
  - change (render_fields (f :: g :: fs)) with (render_field f ++ [","%char] ++ render_fields (g :: fs)).
    rewrite <- !app_assoc, scan_field by done. rewrite scan_flat by by apply Forall_singleton. rewrite IH.
    by rewrite !rev_app_distr, <- !app_assoc.
Qed.

(** The object is found whatever its strings hold. *)
Lemma scan_object fs rest :
  Forall (fun f => good_key (fst f) = true) fs ->
  object_scan (render_obj fs ++ rest) 0 false false [] = Some (render_obj fs, rest).
Proof.
  intros Hfs. unfold render_obj. cbn [app object_scan]. rewrite bool_decide_false, bool_decide_true by done.
  rewrite <- app_assoc, scan_fields by done. cbn [app object_scan Z.add]. rewrite 2!bool_decide_false, bool_decide_true by done.
  cbn [Z.sub Z.eqb]. change (rev ("}"%char :: rev (render_fields fs) ++ ["{"%char])) with (rev (rev (render_fields fs) ++ ["{"%char]) ++ ["}"%char]).
  by rewrite rev_app_distr, rev_involutive.
Qed.

(** Cutting the elements out of a rendered array. *)
Lemma request_objects_array fuel first objs rest :
  Forall (Forall (fun f => good_key (fst f) = true)) objs -> length objs < fuel ->
  request_objects fuel (commas first (render_obj <$> objs) ++ "]"%char :: rest) = render_obj <$> objs.
Proof.
  intros Hobjs. revert fuel first. induction Hobjs as [|fs objs Hfs Hobjs IH]; intros [|fuel] first Hf; cbn [length] in Hf; try lia.
  - done.
  - cbn [fmap list_fmap commas].
    assert (request_objects (S fuel) (render_obj fs ++ commas false (render_obj <$> objs) ++ "]"%char :: rest) = render_obj fs :: (render_obj <$> objs)) as E.
    { pose proof (scan_object fs (commas false (render_obj <$> objs) ++ "]"%char :: rest) Hfs) as Hs.
      change (render_obj fs) with ("{"%char :: render_fields fs ++ ["}"%char]) in Hs |- * at 1. cbn [app] in Hs |- *. cbn [request_objects].
      replace (drop_while comma_or_space ("{"%char :: (render_fields fs ++ ["}"%char]) ++ commas false (render_obj <$> objs) ++ "]"%char :: rest))
        with ("{"%char :: (render_fields fs ++ ["}"%char]) ++ commas false (render_obj <$> objs) ++ "]"%char :: rest) by done.
      rewrite bool_decide_false, bool_decide_true by done. cbn [negb]. rewrite Hs. f_equal. apply IH. lia. }
    destruct first; rewrite <- app_assoc; [exact E|]. exact E.
Qed.

(** ** VIEWREQS *)

(** The requests a user is shown. *)
Definition request_shown (user : cstr) (sent : bool) (r : access_request) : bool :=
  if sent then streq (r_requester r) user else streq (r_owner r) user && (r_status r =? NM_REQUEST_PENDING)%Z.

Definition request_fields (sent : bool) (r : access_request) : list (cstr * jval) :=
  [(cs "file", JStr (r_file r)); (cs "access", JStr (access_request_type_label (r_perm r)));
   if sent then (cs "status", JStr (access_request_status_label (r_status r))) else (cs "user", JStr (r_requester r))].

Lemma request_fields_keys sent r : Forall (fun f => good_key (fst f) = true) (request_fields sent r).
Proof. destruct sent; repeat constructor. Qed.

Lemma access_label_plain perm : escape (access_request_type_label perm) = access_request_type_label perm.
Proof. unfold access_request_type_label. by destruct (_ =? _)%Z. Qed.
Lemma status_label_plain s : escape (access_request_status_label s) = access_request_status_label s.
Proof. unfold access_request_status_label. repeat (destruct (_ =? _)%Z; [done|]). done. Qed.

Lemma json_append_Some buf t b : json_append buf t = Some b -> exists b0, buf = Some b0 /\ b = b0 ++ t.
Proof.
  unfold json_append. destruct buf as [b0|]; [|done]. cbn [mbind option_bind]. destruct (_ <=? _); [done|].
  intros [= <-]. by exists b0.
Qed.

Lemma json_escape_string_Some n s e : json_escape_string n s = Some e -> e = escape s /\ length s < n.
Proof.
  unfold json_escape_string. rewrite escape_value_spec. destruct (Nat.ltb_spec (length (escape s)) n) as [Hl|]; [|done].
  intros [= <-]. split; [done|]. pose proof (length_escape_ge s). lia.
Qed.

(** What the loop adds to its buffer. *)
Lemma requests_loop_text rs user sent first buf b :
  requests_loop rs user sent first buf = Some (Some b) ->
  exists b0, buf = Some b0 /\
    b = b0 ++ commas first (render_obj <$> (request_fields sent <$> filter (fun r => request_shown user sent r) rs)) /\
    Forall (fun r => request_shown user sent r -> length (r_file r) < 256) rs.
Proof.
  revert first buf. induction rs as [|r rs IH]; intros first buf H.
  { injection H as ->. exists b. cbn. by rewrite app_nil_r. }
  cbn [requests_loop] in H.
  assert ((if sent then negb (streq (r_requester r) user)
           else negb (streq (r_owner r) user) || negb (r_status r =? NM_REQUEST_PENDING)%Z) = negb (request_shown user sent r)) as E
    by (unfold request_shown; destruct sent; [done|by rewrite negb_andb]).
  rewrite E in H. rewrite filter_cons. destruct (request_shown user sent r) eqn:Es; cbn [negb] in H.
  2: { rewrite decide_False by (by intros []). destruct (IH _ _ H) as (b0 & ? & ? & ?). exists b0. split_and!; [done|done|].
       constructor; [by rewrite Es|done]. }
  rewrite decide_True by done. cbn [fmap list_fmap commas].
  destruct (json_escape_string 256 (r_file r)) as [file_esc|] eqn:Ef; [|done].
  apply json_escape_string_Some in Ef as [-> Hl].
  assert (forall t, json_append (if first then buf else json_append buf (cs ",")) t <> None ->
    requests_loop rs user sent false (json_append (if first then buf else json_append buf (cs ",")) t) = Some (Some b) ->
    t = render_obj (request_fields sent r) ->
    exists b0, buf = Some b0 /\
      b = b0 ++ (if first then render_obj (request_fields sent r) else ","%char :: render_obj (request_fields sent r)) ++
          commas false (render_obj <$> (request_fields sent <$> filter (fun r => request_shown user sent r) rs)) /\
      Forall (fun r => request_shown user sent r -> length (r_file r) < 256) (r :: rs)) as Hstep.
  { intros t _ Ht ->. destruct (IH _ _ Ht) as (b1 & Eb & -> & Hrs). apply json_append_Some in Eb as (b2 & Eb & ->).
    destruct first; [|apply json_append_Some in Eb as (b3 & -> & ->)].
    - exists b2. rewrite <- app_assoc. split_and!; [done|done|by constructor].
    - exists b3. rewrite <- !app_assoc. split_and!; [done|done|by constructor]. }
  destruct sent.
  - destruct (json_append _ _) as [b1|] eqn:Eb in H; [|done]. apply (Hstep _ ltac:(by rewrite Eb) ltac:(by rewrite Eb)).
    unfold request_fields. rewrite <- (access_label_plain (r_perm r)), <- (status_label_plain (r_status r)) at 1. solve_render.
  - destruct (json_escape_string 256 (r_requester r)) as [user_esc|] eqn:Eu; [|done]. apply json_escape_string_Some in Eu as [-> _].
    destruct (json_append _ _) as [b1|] eqn:Eb in H; [|done]. apply (Hstep _ ltac:(by rewrite Eb) ltac:(by rewrite Eb)).
    unfold request_fields. rewrite <- (access_label_plain (r_perm r)) at 1. solve_render.
Qed.

Definition request_display (sent : bool) (r : access_request) : cstr :=
  line (cs "  " ++ r_file r ++ cs " | " ++ access_request_type_label (r_perm r) ++ cs " | " ++
        if sent then access_request_status_label (r_status r) else r_requester r).

Definition requests_display (user : cstr) (sent : bool) (rs : list access_request) : cstr :=
  line (cs (if sent then "Sent" else "Received") ++ cs " requests:") ++
  match filter (fun r => request_shown user sent r) rs with
  | [] => line (cs "  none")
  | shown => concat (request_display sent <$> shown)
  end.

Lemma json_into_field fs key n init v :
  good_key key = true -> Forall (fun f => good_key (fst f) = true) fs -> length key + 4 < 128 ->
  field_str fs key = Some v -> length v < n -> json_get_string_into (render_obj fs) key n init = v.
Proof.
  intros Hk Hfs Hl Hf Hn. unfold json_get_string_into. rewrite json_get_string_lookup, Hf by done.
  by destruct (Nat.ltb_spec (length v) n); [|lia].
Qed.

Lemma request_line_display sent r :
  length (r_file r) < 256 -> length (r_requester r) < 128 ->
  request_line sent (render_obj (request_fields sent r)) = request_display sent r.
Proof.
  intros Hf Hu. unfold request_line, request_display. pose proof (request_fields_keys sent r) as Hk.
  rewrite (json_into_field _ (cs "file") 256 _ (r_file r)) by (done || cbn; lia).
  rewrite (json_into_field _ (cs "access") 64 _ (access_request_type_label (r_perm r)));
    [|done|done|cbn; lia|done|unfold access_request_type_label; destruct (_ =? _)%Z; cbn; lia].
  destruct sent.
  - rewrite (json_into_field _ (cs "status") 64 _ (access_request_status_label (r_status r)));
      [done|done|done|cbn; lia|done|unfold access_request_status_label; repeat (destruct (_ =? _)%Z; [cbn; lia|]); cbn; lia].
  - by rewrite (json_into_field _ (cs "user") 128 _ (r_requester r)) by (done || cbn; lia).
Qed.


Lemma commas_length first objs : length objs <= length (commas first (render_obj <$> objs)).
Proof.
  revert first. induction objs as [|fs objs IH]; intros first; [cbn; lia|].
  change (render_obj <$> fs :: objs) with (render_obj fs :: (render_obj <$> objs)). cbn [commas length]. rewrite length_app.
  specialize (IH false). assert (1 <= length (if first then render_obj fs else ","%char :: render_obj fs)) by (destruct first; cbn; lia).
  lia.
Qed.

(** What the client makes of the answer. *)
Lemma requests_text_display sent objs :
  Forall (Forall (fun f => good_key (fst f) = true)) objs ->
  requests_text sent (js "{'status':'OK'," ++ (js "'requests':[" ++ commas true (render_obj <$> objs) ++ cs "]") ++ cs "}") =
  line (cs (if sent then "Sent" else "Received") ++ cs " requests:") ++
  match objs with [] => line (cs "  none") | _ => concat (request_line sent <$> (render_obj <$> objs)) end.
Proof.
  intros Hobjs. unfold requests_text. f_equal.
  set (tail := commas true (render_obj <$> objs) ++ cs "]" ++ cs "}").
  assert (strstr (js "{'status':'OK'," ++ (js "'requests':[" ++ commas true (render_obj <$> objs) ++ cs "]") ++ cs "}") (js "'requests':") =
          Some (js "'requests':[" ++ tail)) as ->.
  { rewrite <- !app_assoc. fold tail. reflexivity. }
  assert (strchr (js "'requests':[" ++ tail) "[" = Some ("["%char :: tail)) as -> by reflexivity.
  cbn [drop length]. rewrite drop_0.
  assert (length objs < S (length tail)) as Hl.
  { unfold tail. rewrite length_app. pose proof (commas_length true objs). lia. }
  unfold tail at 2. cbn [app cs String.list_ascii_of_string]. rewrite request_objects_array by done. by destruct objs.
Qed.

(** The text of a client's request, and the client once it has asked and an answer is there. *)
Definition request_json (user : cstr) (c : command) : cstr := default [] (fs ← command_fields user c; Some (render_obj fs)).

Definition awaiting (response : cstr) (k : client) : Prop := k_sends k = [] /\ exists l, k_arrivals k = Some response :: l.

(** The name manager's dispatch on the requests for listings. *)
Lemma dispatch_viewreqs ask shell p now json c :
  json_get_string json (cs "type") 64 = Some (cs "VIEWREQS") ->
  handle_client_message ask shell p json now c =
  (fst (handle_client_viewreqs p json c), true, snd (handle_client_viewreqs p json c)).
Proof. intros H. unfold handle_client_message. rewrite H. reflexivity. Qed.

Lemma viewreqs_extra p json c sent extra c' :
  json_get_string json (cs "direction") 16 = Some (cs (if sent : bool then "SENT" else "RECEIVED")) ->
  handle_client_viewreqs p json c = (ROk extra, c') ->
  let shown := filter (fun r => request_shown (p_user p) sent r) (requests (x_state c)) in
  extra = js "'requests':[" ++ commas true (render_obj <$> (request_fields sent <$> shown)) ++ cs "]" /\
  Forall (fun r => length (r_file r) < 256) shown.
Proof.
  intros Hd. unfold handle_client_viewreqs. rewrite Hd.
  assert (streq_nocase (cs (if sent then "SENT" else "RECEIVED")) (cs "SENT") = sent) as -> by by destruct sent.
  assert (streq_nocase (cs (if sent then "SENT" else "RECEIVED")) (cs "RECEIVED") = negb sent) as -> by by destruct sent.
  cbv zeta. replace (negb sent && negb (negb sent)) with false by by destruct sent.
  destruct (requests_loop _ _ _ _ _) as [[b|]|] eqn:El; [|done..].
  apply requests_loop_text in El as (b0 & Eb & -> & Hl). apply json_append_Some in Eb as (b1 & [= <-] & ->).
  destruct (json_append _ _) as [b2|] eqn:E2; [|done]. apply json_append_Some in E2 as (b3 & [= <-] & ->).
  intros [= <- _]. split; [solve_text|]. rewrite Forall_forall in Hl |- *.
  intros r [Hs Hr]%list_elem_of_filter. by apply Hl.
Qed.

(** C26: What the user sees is what the tables hold.  VIEWREQS sends its request, and prints one
    line for each access request of the user in the name manager's table, in the order of the
    table, with the document, the access asked for, and its state or the user who asks,
    whatever characters the names contain. *)
Theorem requests_shown ask shell p now c c' sent k extra response
  (Hn : handle_client_message ask shell p (request_json (g_username k) (ViewReqs sent)) now c = (ROk extra, true, c'))
  (Hr : reply_json (ROk extra) = Some response) (Hk : awaiting response k)
  (Hu : Forall (fun r => length (r_requester r) < 128) (requests (x_state c))) :
  k_out (snd (run_command (ViewReqs sent) k)) = k_out k ++ requests_display (p_user p) sent (requests (x_state c)) /\
  k_sent (snd (run_command (ViewReqs sent) k)) = k_sent k ++ [(NmConn, request_json (g_username k) (ViewReqs sent))].
Proof.
  set (json := request_json _ _) in *. destruct Hk as (Hs & l & Ha).
  assert (json_get_string json (cs "type") 64 = Some (cs "VIEWREQS") /\
          json_get_string json (cs "direction") 16 = Some (cs (if sent then "SENT" else "RECEIVED"))) as [Ht Hd]
    by (unfold json; destruct sent; by vm_compute).
  rewrite dispatch_viewreqs in Hn by done. destruct (handle_client_viewreqs p json c) as [r c1] eqn:Ev. injection Hn as -> ->.
  destruct (viewreqs_extra _ _ _ _ _ _ Hd Ev) as [-> Hl].
  set (shown := filter _ _) in *. apply ok_status in Hr as [-> Hok]; [|done].
  assert (nm_payload (cs "VIEWREQS") (Some (js "'direction':'" ++ cs (if sent then "SENT" else "RECEIVED") ++ js "'")) = Some json) as Hp
    by (unfold json; by destruct sent).
  cbn [run_command]. unfold handle_viewreqs_cmd. rewrite (nm_request_answer _ _ _ _ _ _ _ Hs Ha Hp Hok).
  unfold mbind, M_bind, print, mret, M_ret. cbn [snd k_out k_sent]. split; [|done]. unfold asked. cbn [k_out]. f_equal.
  rewrite requests_text_display by (apply Forall_fmap, Forall_true; intros r; apply request_fields_keys).
  unfold requests_display. fold shown. f_equal.
  assert (request_line sent <$> (render_obj <$> (request_fields sent <$> shown)) = request_display sent <$> shown) as E.
  { rewrite <- !list_fmap_compose. apply list_fmap_ext. intros i r Hi. cbn. apply request_line_display.
    - rewrite Forall_lookup in Hl. by eapply Hl.
    - rewrite Forall_forall in Hu. apply Hu. apply list_elem_of_lookup_2, list_elem_of_filter in Hi. by destruct Hi. }
  rewrite E. by destruct shown.
Qed.

(** ** VIEW *)

Definition replica_id (s : nm_state) (index : Z) : cstr :=
  match nm_get_server s index with Some x => if short (ss_id x) then ss_id x else [] | None => [] end.

Definition view_fields (s : nm_state) (long_format : bool) (f : file_entry) : list (cstr * jval) :=
  if long_format then
    [(cs "name", JStr (f_name f)); (cs "owner", JStr (f_owner f)); (cs "words", JInt (f_word_count f));
     (cs "chars", JInt (f_char_count f)); (cs "lastAccess", JInt (f_last_access f));
     (cs "lastAccessUser", JStr (f_last_access_user f));
     (cs "primaryServer", JStr (replica_id s (f_ss_index f))); (cs "primaryStatus", JStr (snd (replica_texts s (f_ss_index f))));
     (cs "backupServer", JStr (replica_id s (f_backup_index f))); (cs "backupStatus", JStr (snd (replica_texts s (f_backup_index f))))]
  else [(cs "name", JStr (f_name f))].

Lemma view_fields_keys s b f : Forall (fun f => good_key (fst f) = true) (view_fields s b f).
Proof. destruct b; repeat constructor. Qed.

Lemma replica_texts_id s index : fst (replica_texts s index) = escape (replica_id s index).
Proof.
  unfold replica_texts, replica_id, short. destruct (nm_get_server s index) as [x|]; [|done]. cbn [fst].
  unfold json_escape_string. rewrite escape_value_spec. by destruct (length (escape (ss_id x)) <? 256).
Qed.

Lemma replica_status_plain s index : escape (snd (replica_texts s index)) = snd (replica_texts s index).
Proof. unfold replica_texts. destruct (nm_get_server s index) as [x|]; [by destruct (is_online x)|by destruct (0 <=? index)%Z]. Qed.

Lemma show_size_Z z : (0 <= z)%Z -> show_size z = show_Z z.
Proof. intros H. unfold show_size, show_Z. by destruct (Z.ltb_spec z 0); [lia|]. Qed.

(** An element of the listing is the object of its fields. *)
Lemma view_entry_text s f long_format buf b :
  (0 <= f_word_count f)%Z -> (0 <= f_char_count f)%Z ->
  view_entry s f long_format buf = Some (Some b) ->
  exists b0, buf = Some b0 /\ b = b0 ++ render_obj (view_fields s long_format f).
Proof.
  intros Hw Hc. unfold view_entry.
  destruct (json_escape_string 256 (f_name f)) as [e1|] eqn:E1; [|done]. destruct (json_escape_string 256 (f_owner f)) as [e2|] eqn:E2; [|done].
  destruct (json_escape_string 256 (f_last_access_user f)) as [e3|] eqn:E3; [|done]. cbn [mbind option_bind].
  apply json_escape_string_Some in E1 as [-> _], E2 as [-> _], E3 as [-> _].
  pose proof (replica_texts_id s (f_ss_index f)) as P1. pose proof (replica_status_plain s (f_ss_index f)) as P2.
  pose proof (replica_texts_id s (f_backup_index f)) as B1. pose proof (replica_status_plain s (f_backup_index f)) as B2.
  unfold view_fields. destruct (replica_texts s (f_ss_index f)) as [pid pst]. destruct (replica_texts s (f_backup_index f)) as [bid bst].
  cbn [fst snd] in *. subst pid bid. rewrite !show_size_Z by done. destruct long_format; intros [= E].
  - apply json_append_Some in E as (b1 & E & ->). apply json_append_Some in E as (b2 & E & ->).
    apply json_append_Some in E as (b0 & -> & ->). exists b0. split; [done|]. rewrite <- P2, <- B2 at 1.
    rewrite <- !app_assoc. f_equal. generalize (replica_id s (f_ss_index f)), (replica_id s (f_backup_index f)), (f_name f), (f_owner f),
      (f_last_access_user f), (f_word_count f), (f_char_count f), (f_last_access f). clear. intros. solve_render.
  - apply json_append_Some in E as (b0 & -> & ->). exists b0. split; [done|]. f_equal. generalize (f_name f). intros. solve_render.
Qed.

Lemma view_loop_text fs s user show_all long_format first buf b :
  Forall (fun f => show_all || file_has_access f user NM_PERM_READ -> 0 <= f_word_count f /\ 0 <= f_char_count f)%Z fs ->
  view_loop fs s user show_all long_format first buf = Some (Some b) ->
  exists b0, buf = Some b0 /\
    b = b0 ++ commas first (render_obj <$> (view_fields s long_format <$>
                              filter (fun f => show_all || file_has_access f user NM_PERM_READ) fs)) ++ cs "]".
Proof.
  intros Hfs. revert first buf. induction Hfs as [|f fs Hf Hfs IH]; intros first buf H.
  { injection H as H. apply json_append_Some in H as (b0 & -> & ->). by exists b0. }
  cbn [view_loop] in H. rewrite filter_cons. destruct (show_all || _) eqn:Es; cbn [negb] in H.
  2: { rewrite decide_False by (by intros []). by apply IH. }
  rewrite decide_True by done. destruct Hf as [Hw Hc]; [done|]. destruct (view_entry _ _ _ _) as [[b1|]|] eqn:Ee; [| |done].
  - apply IH in H as (b2 & [= <-] & ->). apply view_entry_text in Ee as (b3 & Eb & ->); [|done..].
    cbn [fmap list_fmap commas]. destruct first; [|apply json_append_Some in Eb as (b4 & -> & ->)].
    + exists b3. split; [done|]. by rewrite <- !app_assoc.
    + exists b4. split; [done|]. by rewrite <- !app_assoc.
  - apply IH in H as (b2 & [=] & _).
Qed.

(** The client cuts an element at its first closing brace. *)
Definition no_brace (s : cstr) : Prop := Forall (fun x => x <> "}"%char) s.

Lemma no_brace_escape v : no_brace v -> no_brace (escape v).
Proof.
  induction 1 as [|x v Hx Hv IH]; [constructor|]. rewrite escape_cons. apply Forall_app. split; [|done].
  unfold esc1, esc_replacement. repeat (case_decide; [repeat constructor; done|]). by repeat constructor.
Qed.

Lemma no_brace_flat s : flat s -> no_brace s.
Proof. intros H. eapply Forall_impl; [exact H|]. by intros x (_ & _ & ?). Qed.

Definition field_no_brace (f : cstr * jval) : Prop :=
  good_key (fst f) = true /\ match snd f with JStr v => no_brace v | JInt _ => True end.

Lemma no_brace_field f : field_no_brace f -> no_brace (render_field f).
Proof.
  destruct f as [k v]. unfold field_no_brace, good_key. cbn [fst snd]. rewrite andb_true_iff. intros [[_ Hk] Hv].
  apply flat_alpha, no_brace_flat in Hk. unfold render_field, int_pattern. cbn [fst snd].
  apply Forall_app. split; [apply Forall_cons; split; [done|]; apply Forall_app; split; [done|repeat constructor; done]|].
  destruct v as [v|z]; cbn [render_val].
  - apply Forall_cons. split; [done|]. apply Forall_app. split; [by apply no_brace_escape|by repeat constructor].
  - apply no_brace_flat, flat_show_Z.
Qed.

Lemma no_brace_fields fs : Forall field_no_brace fs -> no_brace (render_fields fs).
Proof.
  induction 1 as [|f fs Hf Hfs IH]; [constructor|]. destruct fs as [|g fs]; [by apply no_brace_field|].
  change (render_fields (f :: g :: fs)) with (render_field f ++ ","%char :: render_fields (g :: fs)).
  apply Forall_app. split; [by apply no_brace_field|]. apply Forall_cons. split; [done|exact IH].
Qed.

Lemma upto_object fs rest : Forall field_no_brace fs -> upto "}" (render_obj fs ++ rest) = Some (render_obj fs, rest).
Proof.
  intros H. unfold upto, render_obj. cbn [app]. rewrite <- app_assoc. cbn [app].
  change ("{"%char :: render_fields fs ++ "}"%char :: rest) with (("{"%char :: render_fields fs) ++ "}"%char :: rest).
  rewrite cut_at; [done|]. apply Forall_cons. split; [done|]. by apply no_brace_fields.
Qed.

Lemma view_chunks_object n fs rest :
  view_chunks (S n) (render_obj fs ++ rest) =
  match upto "}" (render_obj fs ++ rest) with
  | None => []
  | Some (object, pos) => take 511 object :: view_chunks n pos
  end.
Proof. done. Qed.

Lemma view_chunks_array fuel first objs rest :
  Forall (fun fs => Forall field_no_brace fs /\ length (render_obj fs) <= 511) objs ->
  length (commas first (render_obj <$> objs)) < fuel ->
  view_chunks fuel (commas first (render_obj <$> objs) ++ "]"%char :: rest) = render_obj <$> objs.
Proof.
  intros Hobjs. revert fuel first. induction Hobjs as [|fs objs [Hfs Hl] Hobjs IH]; intros [|fuel] first Hf; try (cbn in Hf; lia).
  - done.
  - change (render_obj <$> fs :: objs) with (render_obj fs :: (render_obj <$> objs)) in *. cbn [commas] in *.
    rewrite length_app in Hf.
    assert (forall n, length (commas false (render_obj <$> objs)) < n ->
      view_chunks (S n) (render_obj fs ++ commas false (render_obj <$> objs) ++ "]"%char :: rest) = render_obj fs :: (render_obj <$> objs)) as E.
    { intros n Hn. rewrite view_chunks_object, upto_object by done. rewrite take_ge by done. f_equal. by apply IH. }
    destruct first; rewrite <- app_assoc.
    + apply E. assert (1 <= length (render_obj fs)) by (cbn; lia). lia.
    + cbn [app view_chunks]. rewrite 2!bool_decide_false by done. cbn [length] in Hf.
      destruct fuel as [|fuel]; [cbn in Hf; lia|]. apply E. assert (1 <= length (render_obj fs)) by (cbn; lia). lia.
Qed.

(** What is shown of a replica. *)
Definition replica_display (s : nm_state) (index : Z) : cstr :=
  match nm_get_server s index with
  | Some x =>
      if is_online x then match ss_id x with [] => cs "unknown" | id => id end
      else match ss_id x with [] => cs "offline" | id => cs "offline (last: " ++ id ++ cs ")" end
  | None => cs (if (0 <=? index)%Z then "unknown" else "none")
  end.

Definition view_display (s : nm_state) (long_format : bool) (f : file_entry) : cstr :=
  if long_format then
    line (cs "  " ++ f_name f ++ cs " (owner: " ++ f_owner f ++ cs ", words: " ++ show_Z (f_word_count f) ++ cs ", chars: " ++
          show_Z (f_char_count f) ++ cs ", last user: " ++ f_last_access_user f ++ cs ")") ++
    line (cs "    primary: " ++ replica_display s (f_ss_index f) ++ cs ", backup: " ++ replica_display s (f_backup_index f))
  else line (cs "  " ++ f_name f).

(** A text the client's buffers of 128 bytes hold and its scanner does not cut. *)
Definition cli_name (s : cstr) : Prop := length s < 128 /\ no_brace s.

Record viewable (s : nm_state) (long_format : bool) (f : file_entry) : Prop := {
  vw_name : cli_name (f_name f);
  vw_owner : cli_name (f_owner f);
  vw_user : cli_name (f_last_access_user f);
  vw_words : (0 <= f_word_count f <= INT_MAX)%Z;
  vw_chars : (0 <= f_char_count f <= INT_MAX)%Z;
  vw_access : (LONG_MIN <= f_last_access f <= LONG_MAX)%Z;
  vw_servers index x : nm_get_server s index = Some x -> cli_name (ss_id x) /\ short (ss_id x) = true;
  vw_length : length (render_obj (view_fields s long_format f)) <= 511;
}.

Lemma json_written_field fs key n v :
  good_key key = true -> Forall (fun f => good_key (fst f) = true) fs -> length key + 4 < 128 ->
  field_str fs key = Some v -> length v < n -> json_string_written (render_obj fs) key n = v.
Proof.
  intros Hk Hfs Hl Hf Hn. unfold json_string_written.
  pose proof (find_pattern_string key fs Hk Hfs Hl) as Hp. rewrite Hf in Hp. destruct Hp as (rest & ->).
  assert (forall out, length out + length v < n -> get_string_written n (escape v ++ dquote :: rest) out = out ++ v) as H.
  { clear. induction v as [|x v IH]; intros out Ho; cbn [length] in Ho.
    - cbn. by rewrite app_nil_r.
    - rewrite escape_cons, <- app_assoc. unfold esc1.
      assert (forall c, n <=? length out + 1 = false /\ get_string_written n (escape v ++ dquote :: rest) (out ++ [c]) = out ++ c :: v) as Hs.
      { intros c. split; [apply Nat.leb_gt; lia|]. rewrite IH by (rewrite length_app; cbn; lia). by rewrite <- app_assoc. }
      destruct (Hs x) as [Hn Hx].
      destruct (unescape_esc1 x) as [(E & Hb & Hq)|(d & E & Hd)]; rewrite E; cbn [default from_option id app get_string_written].
      + rewrite !decide_False by done. by rewrite Hn.
      + rewrite decide_True by done. rewrite Hn. subst x. done. }
  apply (H []). done.
Qed.

Lemma replica_described s index :
  (forall x, nm_get_server s index = Some x -> cli_name (ss_id x) /\ short (ss_id x) = true) ->
  describe_server_status 192 (replica_id s index) (snd (replica_texts s index)) = replica_display s index /\
  length (replica_id s index) < 128 /\ length (snd (replica_texts s index)) < 32.
Proof.
  intros Hx. unfold replica_id, replica_texts, replica_display. destruct (nm_get_server s index) as [x|] eqn:E.
  - destruct (Hx x eq_refl) as [[Hl _] ->]. cbn [snd]. split_and!; [|done|destruct (is_online x); cbn; lia].
    unfold describe_server_status. destruct (is_online x), (ss_id x) as [|a id]; cbn [length] in Hl; try done.
    + change (snprintf_s 192 (a :: id) = a :: id). apply snprintf_s_id. cbn [length]. lia.
    + change (snprintf_s 192 (cs "offline (last: " ++ (a :: id) ++ cs ")") = cs "offline (last: " ++ (a :: id) ++ cs ")").
      apply snprintf_s_id. rewrite !length_app. cbn [length cs String.list_ascii_of_string] in *. lia.
  - cbn [snd]. destruct (0 <=? index)%Z; (split_and!; [reflexivity|cbn; lia..]).
Qed.

Lemma view_lines_display s b f : viewable s b f -> view_lines (render_obj (view_fields s b f)) = view_display s b f.
Proof.
  intros H. pose proof (view_fields_keys s b f) as Hk. unfold view_lines, view_display.
  assert (forall key n v, good_key key = true -> length key + 4 < 128 -> field_str (view_fields s b f) key = Some v -> length v < n ->
    json_get_string (render_obj (view_fields s b f)) key n = Some v) as Hget.
  { intros key n v Hg Hl Hf Hn. rewrite json_get_string_lookup, Hf by done. by destruct (Nat.ltb_spec (length v) n); [|lia]. }
  destruct (vw_name _ _ _ H) as [Hn _], (vw_owner _ _ _ H) as [Ho _], (vw_user _ _ _ H) as [Hu _].
  rewrite (Hget (cs "name") 128 (f_name f)); [|done|cbn; lia|by destruct b|done].
  destruct b.
  2: { rewrite (json_get_string_lookup _ (cs "owner") 128) by (done || cbn; lia). done. }
  rewrite (Hget (cs "owner") 128 (f_owner f)) by (done || cbn; lia).
  rewrite (Hget (cs "lastAccessUser") 128 (f_last_access_user f)) by (done || cbn; lia).
  assert (long_fields (view_fields s true f) = true) as Hlong.
  { pose proof (vw_words _ _ _ H). pose proof (vw_chars _ _ _ H). pose proof (vw_access _ _ _ H).
    unfold long_fields. cbn [forallb snd view_fields]. unfold INT_MAX, LONG_MIN, LONG_MAX in *.
    repeat match goal with |- context [(?a <=? ?b)%Z] => destruct (Z.leb_spec a b); [|lia] end. done. }
  rewrite (json_get_int_field _ (cs "words")) by (done || cbn; lia). rewrite (json_get_int_field _ (cs "chars")) by (done || cbn; lia).
  change (field_int (view_fields s true f) (cs "words")) with (Some (f_word_count f)).
  change (field_int (view_fields s true f) (cs "chars")) with (Some (f_char_count f)). cbn [fmap option_fmap option_map].
  rewrite (to_int_id (f_word_count f)) by (pose proof (vw_words _ _ _ H); unfold INT_MIN; lia).
  rewrite (to_int_id (f_char_count f)) by (pose proof (vw_chars _ _ _ H); unfold INT_MIN; lia).
  destruct (replica_described s (f_ss_index f) (vw_servers _ _ _ H _)) as (P1 & P2 & P3).
  destruct (replica_described s (f_backup_index f) (vw_servers _ _ _ H _)) as (B1 & B2 & B3). cbv zeta.
  rewrite (json_written_field _ (cs "primaryServer") 128 (replica_id s (f_ss_index f))) by (done || cbn; lia).
  rewrite (json_written_field _ (cs "backupServer") 128 (replica_id s (f_backup_index f))) by (done || cbn; lia).
  rewrite (json_written_field _ (cs "primaryStatus") 32 (snd (replica_texts s (f_ss_index f)))) by (done || cbn; lia).
  rewrite (json_written_field _ (cs "backupStatus") 32 (snd (replica_texts s (f_backup_index f)))) by (done || cbn; lia).
  by rewrite P1, B1.
Qed.

Lemma no_brace_replica s b f index :
  viewable s b f -> no_brace (replica_id s index) /\ no_brace (snd (replica_texts s index)).
Proof.
  intros H. unfold replica_id, replica_texts. destruct (nm_get_server s index) as [x|] eqn:E.
  - destruct (vw_servers _ _ _ H index x E) as [[_ Hb] ->]. split; [done|]. destruct (is_online x); by repeat constructor.
  - split; [constructor|]. destruct (0 <=? index)%Z; by repeat constructor.
Qed.

Lemma view_fields_no_brace s b f : viewable s b f -> Forall field_no_brace (view_fields s b f).
Proof.
  intros H. destruct (vw_name _ _ _ H), (vw_owner _ _ _ H), (vw_user _ _ _ H).
  destruct (no_brace_replica s b f (f_ss_index f) H), (no_brace_replica s b f (f_backup_index f) H).
  destruct b; repeat (apply Forall_cons; split); try apply Forall_nil; by split.
Qed.

(** What the client makes of the answer. *)
Lemma view_text_display objs :
  Forall (fun fs => Forall field_no_brace fs /\ length (render_obj fs) <= 511) objs ->
  view_text (js "{'status':'OK'," ++ (js "'files':[" ++ commas true (render_obj <$> objs) ++ cs "]") ++ cs "}") =
  match objs with
  | [] => line (cs "(no files)")
  | _ => line (cs "Files:") ++ concat (view_lines <$> (render_obj <$> objs))
  end.
Proof.
  intros Hobjs. unfold view_text. set (tail := commas true (render_obj <$> objs) ++ "]"%char :: cs "}").
  assert (after (js "'files':[") (js "{'status':'OK'," ++ (js "'files':[" ++ commas true (render_obj <$> objs) ++ cs "]") ++ cs "}") = Some tail) as ->.
  { unfold after, tail. rewrite <- !app_assoc. reflexivity. }
  destruct objs as [|fs objs]; [reflexivity|].
  assert (bool_decide (head tail = Some "]"%char) = false) as -> by done.
  f_equal. unfold tail at 2. rewrite view_chunks_array; [done|done|]. unfold tail. rewrite length_app. cbn [length cs String.list_ascii_of_string]. lia.
Qed.

Lemma dispatch_view ask shell p now json c :
  json_get_string json (cs "type") 64 = Some (cs "VIEW") ->
  handle_client_message ask shell p json now c = (fst (handle_client_view p json c), true, snd (handle_client_view p json c)).
Proof. intros H. unfold handle_client_message. rewrite H. reflexivity. Qed.

Definition files_shown (user flags : cstr) (fs : list file_entry) : list file_entry :=
  filter (fun f => has_char "a" flags || file_has_access f user NM_PERM_READ) fs.

(** What VIEW is to print. *)
Definition files_display (s : nm_state) (user flags : cstr) : cstr :=
  match files_shown user flags (nm_files s) with
  | [] => line (cs "(no files)")
  | shown => line (cs "Files:") ++ concat (view_display s (has_char "l" flags) <$> shown)
  end.

Lemma view_request flags user :
  typable (View flags) ->
  json_get_string (request_json user (View flags)) (cs "type") 64 = Some (cs "VIEW") /\
  json_string_written (request_json user (View flags)) (cs "flags") 8 = flags /\
  nm_payload (cs "VIEW") (match flags with [] => None | _ => Some (js "'flags':'" ++ flags ++ js "'") end) =
    Some (request_json user (View flags)).
Proof. intros H. cbn [typable] in H. set_unfold in H. by destruct H as [->|[->|[->|[->|[->|[]]]]]]. Qed.

(** C27: VIEW shows the documents.  It prints the documents the user may read (with [-a] all), in
    the order of the table, with [-l] each with its owner, counters, last user and replicas, as
    long as no name or server identifier contains a closing brace and the text of an element
    fits the 511 bytes the client looks at. *)
Theorem files_listed ask shell p now c c' flags k extra response
  (Hn : handle_client_message ask shell p (request_json (g_username k) (View flags)) now c = (ROk extra, true, c'))
  (Hr : reply_json (ROk extra) = Some response) (Hk : awaiting response k) (Hf : typable (View flags))
  (Hv : Forall (viewable (x_state c) (has_char "l" flags)) (files_shown (p_user p) flags (nm_files (x_state c)))) :
  k_out (snd (run_command (View flags) k)) = k_out k ++ files_display (x_state c) (p_user p) flags.
Proof.
  destruct (view_request flags (g_username k) Hf) as (Ht & Hw & Hp). set (json := request_json _ _) in *.
  destruct Hk as (Hs & l & Ha). rewrite dispatch_view in Hn by done.
  destruct (handle_client_view p json c) as [r c1] eqn:Ev. injection Hn as -> ->. unfold handle_client_view in Ev. rewrite Hw in Ev.
  destruct (view_loop _ _ _ _ _ _ _) as [[extra'|]|] eqn:El; [|done..]. injection Ev as -> <-.
  apply view_loop_text in El as (b0 & Eb & ->).
  2: { apply Forall_forall. intros f Hfile Hread. rewrite Forall_forall in Hv.
       assert (f ∈ files_shown (p_user p) flags (nm_files (x_state c))) as Hin by by apply list_elem_of_filter.
       apply Hv in Hin as H. split; [apply (vw_words _ _ _ H)|apply (vw_chars _ _ _ H)]. }
  apply json_append_Some in Eb as (b1 & [= <-] & ->). cbn [app] in Hr. apply ok_status in Hr as [-> Hok]; [|done].
  cbn [run_command]. unfold handle_view. rewrite (nm_request_answer _ _ _ _ _ _ _ Hs Ha Hp Hok).
  unfold mbind, M_bind, print, mret, M_ret. cbn [snd k_out]. unfold asked. cbn [k_out]. f_equal.
  fold (files_shown (p_user p) flags (nm_files (x_state c))). set (shown := files_shown _ _ _) in *.
  rewrite view_text_display.
  2: { apply Forall_fmap. eapply Forall_impl; [exact Hv|]. intros f H. split; [by apply view_fields_no_brace|apply (vw_length _ _ _ H)]. }
  unfold files_display. fold shown.
  assert (view_lines <$> (render_obj <$> (view_fields (x_state c) (has_char "l" flags) <$> shown)) =
          view_display (x_state c) (has_char "l" flags) <$> shown) as E.
  { rewrite <- !list_fmap_compose. apply list_fmap_ext. intros i f Hi. cbn. apply view_lines_display.
    rewrite Forall_lookup in Hv. by eapply Hv. }
  rewrite E. by destruct shown.
Qed.

(** A document whose name has a closing brace is not listed, although the name is valid. *)
Lemma brace_hides_document :
  valid_filename (cs "a}b") = true /\
  view_text (js "{'status':'OK','files':[{'name':'a}b'},{'name':'c'}]}") = line (cs "Files:") ++ line (cs "  c").
Proof. by vm_compute. Qed.

(** ** Examples *)

Definition demo_listing : nm_context :=
  with_state (set_requests [mk_request (cs "plan") (cs "ann") (js "e}v'e") 2 NM_REQUEST_PENDING;
                            mk_request (cs "notes") (cs "bob") (cs "ann") 1 NM_REQUEST_DENIED;
                            mk_request (cs "plan") (cs "ann") (cs "bob") 1 NM_REQUEST_APPROVED] (x_state (demo_ctx [] []))) (demo_ctx [] []).

(** The answer of the name manager to a client. *)
Definition demo_answer (c : command) : reply :=
  fst (fst (handle_client_message (fun _ _ => None) (fun _ => None) demo_ann (request_json (cs "ann") c) 100 demo_listing)).
Definition demo_asking (c : command) : client :=
  mk_client (cs "ann") [] [] [] [reply_json (demo_answer c)] [] [] [] [].

Lemma demo_awaiting c response : reply_json (demo_answer c) = Some response -> awaiting response (demo_asking c).
Proof. intros H. split; [done|]. exists []. cbn [k_arrivals demo_asking]. by rewrite H. Qed.

Lemma demo_message c extra :
  demo_answer c = ROk extra ->
  snd (fst (handle_client_message (fun _ _ => None) (fun _ => None) demo_ann (request_json (cs "ann") c) 100 demo_listing)) = true ->
  handle_client_message (fun _ _ => None) (fun _ => None) demo_ann (request_json (g_username (demo_asking c)) c) 100 demo_listing =
  (ROk extra, true, snd (handle_client_message (fun _ _ => None) (fun _ => None) demo_ann (request_json (cs "ann") c) 100 demo_listing)).
Proof.
  unfold demo_answer. change (g_username (demo_asking c)) with (cs "ann").
  destruct (handle_client_message _ _ _ _ _ _) as [[r b] c']. cbn [fst snd]. by intros -> ->.
Qed.

Lemma requests_shown_witness :
  k_out (snd (run_command (ViewReqs false) (demo_asking (ViewReqs false)))) =
    line (cs "Received requests:") ++ line (js "  plan | WRITE | e}v'e") /\
  k_out (snd (run_command (ViewReqs true) (demo_asking (ViewReqs true)))) =
    line (cs "Sent requests:") ++ line (cs "  notes | READ | DENIED").
Proof.
  assert (Forall (fun r => length (r_requester r) < 128) (requests (x_state demo_listing))) as Hu
    by (repeat (apply List.Forall_cons; [cbn; lia|]); constructor).
  split.
  - assert (demo_answer (ViewReqs false) = ROk (js "'requests':[{'file':'plan','access':'WRITE','user':'e}v\'e'}]")) as E
      by (vm_compute; reflexivity).
    pose proof (requests_shown _ _ _ _ _ _ false (demo_asking (ViewReqs false)) _ _
      (demo_message _ _ E ltac:(vm_compute; reflexivity)) eq_refl (demo_awaiting _ _ ltac:(rewrite E; reflexivity)) Hu) as [H _].
    rewrite H. vm_compute. reflexivity.
  - assert (demo_answer (ViewReqs true) = ROk (js "'requests':[{'file':'notes','access':'READ','status':'DENIED'}]")) as E
      by (vm_compute; reflexivity).
    pose proof (requests_shown _ _ _ _ _ _ true (demo_asking (ViewReqs true)) _ _
      (demo_message _ _ E ltac:(vm_compute; reflexivity)) eq_refl (demo_awaiting _ _ ltac:(rewrite E; reflexivity)) Hu) as [H _].
    rewrite H. vm_compute. reflexivity.
Defined.

(** Viewable documents by computation. *)
Definition cli_name_b (s : cstr) : bool := (length s <? 128) && forallb (fun x => negb (bool_decide (x = "}"%char))) s.
Definition viewable_b (s : nm_state) (long_format : bool) (f : file_entry) : bool :=
  cli_name_b (f_name f) && cli_name_b (f_owner f) && cli_name_b (f_last_access_user f) &&
  ((0 <=? f_word_count f) && (f_word_count f <=? INT_MAX) && (0 <=? f_char_count f) && (f_char_count f <=? INT_MAX) &&
   (LONG_MIN <=? f_last_access f) && (f_last_access f <=? LONG_MAX))%Z &&
  forallb (fun x => cli_name_b (ss_id x) && short (ss_id x)) (servers s) &&
  (length (render_obj (view_fields s long_format f)) <=? 511).

Lemma cli_name_check s : cli_name_b s = true -> cli_name s.
Proof.
  unfold cli_name_b. intros H. bool_to_prop. split; [done|]. apply Forall_forall. intros x Hx%list_elem_of_In ->.
  rewrite forallb_forall in *. match goal with H : forall _, _ |- _ => by specialize (H _ Hx) end.
Qed.

Lemma viewable_check s b f : viewable_b s b f = true -> viewable s b f.
Proof.
  unfold viewable_b. rewrite !andb_true_iff, !Z.leb_le, Nat.leb_le, forallb_forall.
  intros Hb. destruct_and!. split; try by apply cli_name_check.
  all: try done. intros index x Hx. unfold nm_get_server in Hx. destruct (index <? 0)%Z; [done|].
  apply list_elem_of_lookup_2, list_elem_of_In in Hx.
  match goal with H : forall _, _ |- _ => specialize (H _ Hx); apply andb_true_iff in H as [??] end.
  split; [by apply cli_name_check|done].
Qed.

Lemma files_listed_witness :
  k_out (snd (run_command (View (cs "al")) (demo_asking (View (cs "al"))))) =
    line (cs "Files:") ++
    line (cs "  plan (owner: ann, words: 0, chars: 0, last user: ann)") ++ line (cs "    primary: ss1, backup: ss2") ++
    line (cs "  notes (owner: bob, words: 0, chars: 0, last user: bob)") ++ line (cs "    primary: ss2, backup: ss1").
Proof.
  assert (exists extra response, demo_answer (View (cs "al")) = ROk extra /\ reply_json (ROk extra) = Some response) as (extra & response & E & Er)
    by (vm_compute; eauto).
  assert (typable (View (cs "al"))) as Ht by (do 3 apply list_elem_of_further; apply list_elem_of_here).
  pose proof (files_listed _ _ _ _ _ _ (cs "al") (demo_asking (View (cs "al"))) _ _
    (demo_message _ _ E ltac:(vm_compute; reflexivity)) Er (demo_awaiting _ _ ltac:(by rewrite E)) Ht) as H.
  rewrite H; [vm_compute; reflexivity|].
  assert (forallb (viewable_b (x_state demo_listing) (has_char "l" (cs "al"))) (files_shown (cs "ann") (cs "al") (nm_files (x_state demo_listing))) = true) as Hb
    by (vm_compute; reflexivity).
  apply Forall_forall. intros f Hf%list_elem_of_In. apply viewable_check. by apply (proj1 (forallb_forall _ _) Hb).
Defined.
