(* ===== verification/EndToEnd.v ===== *)
(** * A request through the three programs

    The client asks the name manager, the name manager announces a ticket to the storage
    server and answers with the server's address, and the client goes there.  The messages
    each program sends are the ones the next one receives. *)

From S2P Require Import NmPersist NmRequests.
From S2P Require Import Prelude Cstr Json Proto Fs SsText SsState SsSession SsTables SsServer.
From S2P Require Import NmState NmServer CliInput CliState CliListing CliCommand CliMain CliRequests CliViews.

(** A string that needs no escaping. *)
Definition plain_text (s : cstr) : Prop := escape s = s.

Lemma length_escape_le s : length (escape s) <= 2 * length s.
Proof.
  induction s as [|x s IH]; [cbn; lia|]. rewrite escape_cons, length_app. pose proof (length_esc1 x). cbn [length]. lia.
Qed.

Lemma json_escape_fits n s : 2 * length s < n -> json_escape_string n s = Some (escape s).
Proof.
  intros H. unfold json_escape_string. rewrite escape_value_spec. pose proof (length_escape_le s).
  by destruct (Nat.ltb_spec (length (escape s)) n); [|lia].
Qed.

Lemma json_append_fits b t : length b + length t < MAX_JSON -> json_append (Some b) t = Some (b ++ t).
Proof.
  intros H. unfold json_append. cbn [mbind option_bind]. by destruct (Nat.leb_spec (MAX_JSON - length b) (length t)); [lia|].
Qed.

(** ** The name manager announces and hands out a ticket *)

(** What the storage server answers to an announcement. *)
Definition ticket_answer : cstr := js "{'status':'OK','op':'TICKET'}".

(** A user may perform an operation on a document whose primary is online, and the next
    random token is [tok]. *)
Record granted (p : peer) (file : cstr) (perm : Z) (tok : cstr) (i : nat) (f : file_entry) (ss : storage_server) (c : nm_context) : Prop := {
  gr_index : find_file_index (x_state c) file = Some i;
  gr_file : nm_files (x_state c) !! i = Some f;
  gr_access : file_has_access f (p_user p) perm = true;
  gr_server : nm_get_server (x_state c) (f_ss_index f) = Some ss;
  gr_online : is_online ss = true;
  gr_token : head (x_tokens c) = Some tok;
  gr_answer : head (x_answers c) = Some (Some ticket_answer);
}.

(** Lengths the buffers of the three programs hold. *)
Record names_fit (file user tok : cstr) (ss : storage_server) : Prop := {
  nf_file : plain_text file /\ length file < 128;
  nf_user : plain_text user /\ length user < 64;
  nf_token : plain_text tok /\ length tok < 64;
  nf_host : length (ss_host ss) < 128;
  nf_port : length (ss_data_port ss) < 32;
  nf_id : length (ss_id ss) < 128;
}.

Definition ticket_fields (file user tok op : cstr) (expiry : Z) : list (cstr * jval) :=
  [(cs "type", JStr (cs "NM_TICKET")); (cs "token", JStr tok); (cs "file", JStr file); (cs "user", JStr user);
   (cs "op", JStr op); (cs "expiry", JInt expiry)].

(** The operations tickets are issued for. *)
Definition operation (op : cstr) : Prop := op = cs "READ" \/ op = cs "STREAM" \/ op = cs "WRITE".

Lemma operation_plain op : operation op -> plain_text op /\ length op < 16.
Proof. intros [->|[->| ->]]; (split; [done|cbn; lia]). Qed.

Lemma ticket_payload_render file user tok op expiry ix :
  plain_text file -> plain_text user -> plain_text tok -> plain_text op ->
  length file < 128 -> length user < 64 -> length tok < 64 -> length op < 16 -> (LONG_MIN <= expiry <= LONG_MAX)%Z ->
  ticket_payload (mk_ticket tok file user op expiry ix) = Some (render_obj (ticket_fields file user tok op expiry)).
Proof.
  intros Hf Hu Ht Ho Lf Lu Lt Lo He. unfold ticket_payload. cbn [n_token n_file n_user n_op n_expiry].
  assert (js "{'type':'NM_TICKET','token':'" ++ tok ++ js "','file':'" ++ file ++ js "','user':'" ++ user ++ js "','op':'" ++ op ++
          js "','expiry':" ++ show_Z expiry ++ js "}" = render_obj (ticket_fields file user tok op expiry)) as E.
  { unfold ticket_fields, plain_text in *. rewrite <- Hf, <- Hu, <- Ht, <- Ho at 1. clear. solve_render. }
  rewrite <- E. apply fit_id. rewrite !length_app. pose proof (show_Z_length expiry He). cbn [length js map cs String.list_ascii_of_string]. lia.
Qed.

Lemma ticket_answer_ok : status_is_ok ticket_answer = true.
Proof. reflexivity. Qed.

Section Grant.
Context (p : peer) (file op : cstr) (perm : Z) (tok : cstr) (i : nat) (f : file_entry) (ss : storage_server) (now : Z).
Context (Hop : operation op) (Hfit : names_fit file (p_user p) tok ss) (Hnow : (0 <= now <= INT_MAX - TICKET_TTL)%Z).

(** The announcement. *)
Definition announcement : cstr := render_obj (ticket_fields file (p_user p) tok op (now + TICKET_TTL)).

Lemma issue_granted ix c :
  head (x_tokens c) = Some tok -> head (x_answers c) = Some (Some ticket_answer) ->
  exists c', issue_ticket ss ix file (p_user p) op now c = (Some tok, c') /\
    x_forwarded c' = x_forwarded c ++ [(ss_ctrl_fd ss, announcement)] /\ x_state c' = x_state c.
Proof using Hop Hfit Hnow.
  intros Ht Ha. destruct Hfit as [[F1 F2] [U1 U2] [T1 T2] _ _ _]. destruct (operation_plain op Hop) as [O1 O2].
  unfold issue_ticket, randutil_token, ticket_prune. cbn [x_tokens with_tickets]. rewrite Ht. cbn [default from_option id].
  rewrite !snprintf_s_id by (unfold NM_MAX_NAME, NM_MAX_USER; lia).
  rewrite ticket_payload_render by (done || unfold TICKET_TTL, INT_MAX, LONG_MIN, LONG_MAX in *; lia). fold announcement.
  unfold forward_command. cbn [x_answers with_tickets]. rewrite Ha. cbn [default from_option id]. rewrite ticket_answer_ok.
  eexists. split; [reflexivity|]. by split.
Qed.

Lemma obtain_granted n c :
  granted p file perm tok i f ss c ->
  exists c', obtain_loop (S n) file (p_user p) perm op now c = (inl (tok, ss), c') /\
    x_forwarded c' = x_forwarded c ++ [(ss_ctrl_fd ss, announcement)].
Proof using Hop Hfit Hnow.
  intros [Gi Gf Ga Gs Go Gt Gw]. cbn [obtain_loop]. rewrite Gi, Gf, Ga. cbn [negb].
  unfold select_storage_server. rewrite Gf, Gs, Go.
  destruct (issue_granted (f_ss_index f) c Gt Gw) as (c1 & -> & Ef & _). eexists. split; [reflexivity|]. exact Ef.
Qed.

(** The fields of the answer to the client; the sentence only for a writer. *)
Definition endpoint_fields (sentence : option Z) : list (cstr * jval) :=
  [(cs "status", JStr (cs "OK")); (cs "op", JStr op); (cs "file", JStr file); (cs "host", JStr (ss_host ss));
   (cs "port", JStr (ss_data_port ss)); (cs "server", JStr (ss_id ss)); (cs "ticket", JStr tok)] ++
  match sentence with Some n => [(cs "sentence", JInt n)] | None => [] end.

Lemma endpoint_reply sentence :
  match sentence with Some n => (0 <= n <= INT_MAX)%Z | None => True end ->
  exists extra, respond_with_endpoint file ss op tok (default (-1)%Z sentence) = ROk extra /\
    reply_json (ROk extra) = Some (render_obj (endpoint_fields sentence)).
Proof using Hop Hfit.
  intros Hs. destruct Hfit as [[F1 F2] [U1 U2] [T1 T2] H1 H2 H3]. destruct (operation_plain op Hop) as [O1 O2].
  unfold respond_with_endpoint. rewrite !json_escape_fits by lia.
  pose proof (length_escape_le (ss_host ss)). pose proof (length_escape_le (ss_data_port ss)). pose proof (length_escape_le (ss_id ss)).
  pose proof (length_escape_le file). pose proof (length_escape_le tok).
  cbv zeta. rewrite json_append_fits by (rewrite !length_app; unfold MAX_JSON; cbn [length js map cs String.list_ascii_of_string]; lia).
  rewrite json_append_fits by (rewrite !length_app; unfold MAX_JSON; cbn [length js map cs String.list_ascii_of_string]; lia).
  unfold plain_text in O1. destruct sentence as [n|]; cbn [default from_option id].
  - pose proof (show_Z_length n ltac:(unfold INT_MAX, LONG_MIN, LONG_MAX in *; lia)).
    destruct (Z.leb_spec 0 n); [|lia].
    rewrite json_append_fits by (rewrite !length_app; unfold MAX_JSON; cbn [length js map cs String.list_ascii_of_string]; lia).
    eexists. split; [reflexivity|]. unfold reply_json, send_ok. cbn [app js map cs String.list_ascii_of_string].
    match goal with |- fit _ ?t = Some ?r => assert (t = r) as <- end.
    { unfold endpoint_fields. rewrite <- O1 at 1. clear. cbn [app]. solve_render. }
    apply fit_id. repeat (rewrite length_app || cbn [length app]). unfold MAX_JSON. lia.
  - destruct (Z.leb_spec 0 (-1)); [lia|]. eexists. split; [reflexivity|]. unfold reply_json, send_ok. cbn [app js map cs String.list_ascii_of_string].
    match goal with |- fit _ ?t = Some ?r => assert (t = r) as <- end.
    { unfold endpoint_fields. rewrite <- O1 at 1. clear. cbn [app]. solve_render. }
    apply fit_id. repeat (rewrite length_app || cbn [length app]). unfold MAX_JSON. lia.
Qed.
End Grant.

(** The request of the client and the answer, for the three operations with a ticket. *)
Definition ticket_command (op file : cstr) (sentence : Z) : command :=
  if streq op (cs "READ") then Read file else if streq op (cs "STREAM") then Stream file else Write file sentence.

Definition op_perm (op : cstr) : Z := if streq op (cs "WRITE") then NM_PERM_WRITE else NM_PERM_READ.
Definition op_sentence (op : cstr) (sentence : Z) : option Z := if streq op (cs "WRITE") then Some sentence else None.

Lemma handle_lookup ask shell p json op file now c :
  operation op ->
  json_get_string json (cs "type") 64 = Some op -> json_get_string json (cs "file") NM_MAX_NAME = Some file ->
  handle_client_message ask shell p json now c =
  match obtain_loop 2 file (p_user p) (op_perm op) op now c with
  | (inr rc, c) => (ticket_error rc (cs "access denied"), true, c)
  | (inl (token, ss), c) =>
      (respond_with_endpoint file ss op token
         (if streq op (cs "WRITE") then default 0%Z (json_get_int json (cs "sentence")) else (-1)%Z), true, c)
  end.
Proof.
  intros Hop Ht Hf. unfold handle_client_message. rewrite Ht.
  assert (forall b, match handle_lookup_common p json op (op_perm op) b now c with
          | r => (fst r, true, snd r) end =
    match obtain_loop 2 file (p_user p) (op_perm op) op now c with
    | (inr rc, c) => (ticket_error rc (cs "access denied"), true, c)
    | (inl (token, ss), c) =>
        (respond_with_endpoint file ss op token (if b : bool then default 0%Z (json_get_int json (cs "sentence")) else (-1)%Z), true, c)
    end) as H.
  { intros b. unfold handle_lookup_common. rewrite Hf. unfold obtain_ticket_for_file.
    by destruct (obtain_loop _ _ _ _ _ _ _) as [[[token ss]|rc] c1]. }
  destruct Hop as [->|[->| ->]]; [apply (H false)|apply (H false)|apply (H true)].
Qed.

Definition request_fields_of (op file : cstr) (sentence : Z) : list (cstr * jval) :=
  [(cs "type", JStr op); (cs "file", JStr file)] ++
  match op_sentence op sentence with Some n => [(cs "sentence", JInt n)] | None => [] end.

Lemma request_json_fields op file sentence user :
  operation op -> request_json user (ticket_command op file sentence) = render_obj (request_fields_of op file sentence).
Proof. by intros [->|[->| ->]]. Qed.

Lemma request_fields_of_keys op file sentence : Forall (fun f => good_key (fst f) = true) (request_fields_of op file sentence).
Proof. unfold request_fields_of. destruct (op_sentence op sentence); by repeat constructor. Qed.

Lemma long_int n : (INT_MIN <= n <= INT_MAX)%Z -> ((LONG_MIN <=? n) && (n <=? LONG_MAX))%Z = true.
Proof. unfold INT_MIN, INT_MAX, LONG_MIN, LONG_MAX. intros H. by destruct (Z.leb_spec (-9223372036854775808) n), (Z.leb_spec n 9223372036854775807); lia. Qed.

(** Reading a string field of a rendered object. *)
Lemma get_field fs key n v :
  good_key key = true -> Forall (fun f => good_key (fst f) = true) fs -> length key + 4 < 128 ->
  field_str fs key = Some v -> length v < n -> json_get_string (render_obj fs) key n = Some v.
Proof.
  intros Hk Hfs Hl Hf Hn. rewrite json_get_string_lookup, Hf by done. by destruct (Nat.ltb_spec (length v) n); [|lia].
Qed.

Lemma request_json_lookup op file sentence user :
  operation op -> length file < 128 -> (INT_MIN <= sentence <= INT_MAX)%Z ->
  let json := request_json user (ticket_command op file sentence) in
  json_get_string json (cs "type") 64 = Some op /\ json_get_string json (cs "file") NM_MAX_NAME = Some file /\
  (streq op (cs "WRITE") = true -> json_get_int json (cs "sentence") = Some sentence).
Proof.
  intros Hop Hl Hs json. unfold json. rewrite request_json_fields by done. pose proof (request_fields_of_keys op file sentence) as Hk.
  destruct (operation_plain op Hop) as [_ Ho]. split_and!.
  - apply get_field; [done|done|cbn; lia|done|lia].
  - apply get_field; [done|done|cbn; lia|done|exact Hl].
  - intros Hw. unfold request_fields_of, op_sentence in *. rewrite Hw in *.
    rewrite json_get_int_field; [|done|done|cbn; lia|].
    + cbn [app field_int]. rewrite bool_decide_false, bool_decide_false, bool_decide_true by done. cbn. by rewrite to_int_id.
    + unfold long_fields. cbn [app forallb snd andb]. by rewrite long_int.
Qed.

(** The name manager's part of a granted request. *)
Lemma nm_grants ask shell p op file sentence tok i f ss now c :
  operation op -> names_fit file (p_user p) tok ss -> (0 <= now <= INT_MAX - TICKET_TTL)%Z -> (0 <= sentence <= INT_MAX)%Z ->
  granted p file (op_perm op) tok i f ss c ->
  exists extra c',
    handle_client_message ask shell p (request_json (p_user p) (ticket_command op file sentence)) now c = (ROk extra, true, c') /\
    x_forwarded c' = x_forwarded c ++ [(ss_ctrl_fd ss, announcement p file op tok now)] /\
    reply_json (ROk extra) = Some (render_obj (endpoint_fields file op tok ss (op_sentence op sentence))).
Proof.
  intros Hop Hfit Hnow Hs Hg.
  destruct (request_json_lookup op file sentence (p_user p) Hop (proj2 (nf_file _ _ _ _ Hfit)) ltac:(unfold INT_MIN, INT_MAX in *; lia))
    as (H1 & H2 & H3).
  rewrite (handle_lookup _ _ _ _ op file) by done.
  destruct (obtain_granted p file op (op_perm op) tok i f ss now Hop Hfit Hnow 1 c Hg) as (c' & E & Ef). rewrite E.
  destruct (endpoint_reply p file op tok ss Hop Hfit (op_sentence op sentence)) as (extra & Ex & Er).
  { unfold op_sentence. by destruct (streq op (cs "WRITE")). }
  exists extra, c'. split_and!; [|exact Ef|exact Er]. rewrite <- Ex. unfold op_sentence in *.
  destruct (streq op (cs "WRITE")) eqn:Ew; [|done]. by rewrite H3.
Qed.

(** ** The storage server takes the ticket and serves the request *)

Definition announced (file user tok op : cstr) (now : Z) : auth_ticket :=
  SsTables.mk_ticket tok file user op (now + TICKET_TTL).

Lemma ss_announced rpc strerror p file op tok ss now now' w :
  operation op -> names_fit file (p_user p) tok ss -> (0 <= now <= INT_MAX - TICKET_TTL)%Z ->
  process_nm_command rpc strerror (announcement p file op tok now) now' w =
  mk_world (w_state w) (w_disk w) (w_tickets w ++ [announced file (p_user p) tok op now]) (w_locks w)
    (w_nm w ++ [ticket_answer]) (w_peer w).
Proof.
  intros Hop [[F1 F2] [U1 U2] [T1 T2] _ _ _] Hnow. destruct (operation_plain op Hop) as [_ Ho]. unfold announcement.
  set (fs := ticket_fields _ _ _ _ _). assert (Forall (fun f => good_key (fst f) = true) fs) as Hk by by repeat constructor.
  unfold process_nm_command. rewrite (get_field fs (cs "type") 64 (cs "NM_TICKET")) by (done || cbn; lia).
  change (handle_nm_ticket_command (render_obj fs) w = mk_world (w_state w) (w_disk w) (w_tickets w ++ [announced file (p_user p) tok op now])
    (w_locks w) (w_nm w ++ [ticket_answer]) (w_peer w)).
  unfold handle_nm_ticket_command. rewrite (get_field fs (cs "token") 64 tok) by (done || cbn; lia).
  rewrite (get_field fs (cs "file") SS_NAME_MAX file) by (done || unfold SS_NAME_MAX; cbn; lia).
  rewrite (get_field fs (cs "user") SS_USER_MAX (p_user p)) by (done || unfold SS_USER_MAX; cbn; lia).
  rewrite (get_field fs (cs "op") 16 op) by (done || cbn; lia).
  rewrite json_get_int_field; [|done|done|cbn; lia|].
  - change (field_int fs (cs "expiry")) with (Some (now + TICKET_TTL)%Z). cbn [fmap option_fmap option_map].
    rewrite to_int_id by (unfold INT_MIN, TICKET_TTL in *; lia). unfold ticket_table_add.
    rewrite !snprintf_s_id by (unfold SS_NAME_MAX, SS_USER_MAX; lia). reflexivity.
  - unfold long_fields, fs, ticket_fields. cbn [forallb snd andb]. rewrite long_int; [done|]. unfold INT_MIN, INT_MAX, TICKET_TTL in *. lia.
Qed.

Lemma take_announced now now' ts file user tok op :
  (now' <= now + TICKET_TTL)%Z ->
  exists t, fst (ticket_table_take now' (ts ++ [announced file user tok op now]) tok user file op) = Some t.
Proof.
  intros He. unfold ticket_table_take. rewrite ticket_table_prune_spec, List.filter_app. cbn [List.filter].
  assert (negb (expired now' (announced file user tok op now)) = true) as ->.
  { unfold expired. cbn [expiry announced]. destruct (Z.ltb_spec (now + TICKET_TTL) now'); [lia|]. by rewrite andb_false_r. }
  destruct (find_first _ _) as [[j t]|] eqn:E; [by exists t|]. exfalso.
  apply find_first_None, Forall_app in E as [_ E]. apply Forall_cons in E as [E _].
  unfold ticket_matches, streq in E. cbn in E. rewrite !bool_decide_true in E by done. done.
Qed.

(** The client's first message to the storage server. *)
Definition visit_fields (type file user tok : cstr) (sentence : option Z) : list (cstr * jval) :=
  [(cs "type", JStr type); (cs "file", JStr file); (cs "user", JStr user); (cs "ticket", JStr tok)] ++
  match sentence with Some n => [(cs "sentence", JInt n)] | None => [] end.

Lemma visit_fields_keys type file user tok sentence : Forall (fun f => good_key (fst f) = true) (visit_fields type file user tok sentence).
Proof. unfold visit_fields. destruct sentence; by repeat constructor. Qed.

(** The four fields of the message as the storage server reads them. *)
Lemma visit_lookup type file user tok sentence :
  length type < 64 -> length file < 128 -> length user < 64 -> length tok < 64 ->
  let json := render_obj (visit_fields type file user tok sentence) in
  json_get_string json (cs "type") 64 = Some type /\ json_get_string json (cs "file") SS_NAME_MAX = Some file /\
  json_get_string json (cs "user") SS_USER_MAX = Some user /\ json_get_string json (cs "ticket") 64 = Some tok.
Proof.
  intros Ht Hf Hu Hk json. pose proof (visit_fields_keys type file user tok sentence) as Hkeys.
  split_and!; apply get_field; done || (cbn; lia) || (unfold SS_NAME_MAX, SS_USER_MAX; lia).
Qed.

(** A storage server that has the document, and whose disk works. *)
Record serves (file text : cstr) (v : ss_file) (w : world) : Prop := {
  sv_docs : docs_ok w;
  sv_quiet : quiet (w_disk w);
  sv_file : snapshot_file file w = Some v;
  sv_text : text_of w v = text;
  sv_words : (0 <= word_count v < SIZE_MOD)%Z;
  sv_chars : (0 <= char_count v < SIZE_MOD)%Z;
}.

Lemma serves_name file text v w : serves file text v w -> name v = file.
Proof.
  intros [[Hs _] _ Hf _ _ _]. unfold snapshot_file in Hf. destruct (ss_state_find (w_state w) file) as [o idx] eqn:E.
  cbn [fst] in Hf. subst o. by destruct (ss_state_find_spec _ _ _ _ Hs E).
Qed.

Definition content_fields (file text : cstr) (v : ss_file) : list (cstr * jval) :=
  [(cs "status", JStr (cs "OK")); (cs "file", JStr file); (cs "content", JStr text); (cs "words", JInt (word_count v));
   (cs "chars", JInt (char_count v))].

Lemma notify_peer f w : w_peer (notify_nm_file_update f w) = w_peer w.
Proof. unfold notify_nm_file_update. by destruct (notify_payload f). Qed.

Lemma update_and_save_peer f upd w : w_peer (snd (update_and_save f upd w)) = w_peer w.
Proof. unfold update_and_save, update_record. by destruct (ss_state_find _ _) as [[]]. Qed.

(** What [send_peer] of a positive answer adds, when the text fits. *)
Lemma answer_peer_ok fs extra w :
  js "{'status':'OK'," ++ extra ++ cs "}" = render_obj fs -> extra <> [] -> length (render_obj fs) < MAX_JSON ->
  w_peer (answer_peer (ROk extra) w) = w_peer w ++ [render_obj fs].
Proof.
  intros E Hne Hl. unfold answer_peer, reply_json, send_ok. destruct extra as [|x extra]; [done|].
  rewrite E, fit_id by done. done.
Qed.

(** What [handle_read] puts after the status. *)
Definition read_extra (file text : cstr) (v : ss_file) : cstr :=
  js "'file':'" ++ file ++ js "','content':'" ++ escape text ++ js "','words':" ++ show_nonneg (word_count v) ++
  js ",'chars':" ++ show_nonneg (char_count v).

Lemma read_extra_render file text v :
  plain_text file -> (0 <= word_count v)%Z -> (0 <= char_count v)%Z ->
  js "{'status':'OK'," ++ read_extra file text v ++ cs "}" = render_obj (content_fields file text v).
Proof.
  intros Hp Hw Hc. unfold read_extra, content_fields, plain_text in *. rewrite <- Hp at 1. unfold render_obj. cbn [render_fields].
  unfold render_field. cbn [fst snd render_val].
  assert (forall z, (0 <= z)%Z -> show_Z z = show_nonneg z) as Hz by (intros z Hz; unfold show_Z; by destruct (Z.ltb_spec z 0); [lia|]).
  rewrite !Hz by lia. generalize (escape file), (escape text), (show_nonneg (word_count v)), (show_nonneg (char_count v)). clear. intros. solve_text.
Qed.

(** The answer to a reader.  A text whose answer does not fit the server's buffers is not
    sent: where the part after the status does not fit, the server says so; where only the
    whole does not, [send_ok] fails and the connection is closed without an answer. *)
Definition too_large : cstr :=
  render_obj [(cs "status", JStr (cs "ERR")); (cs "code", JStr (cs "ERR_INTERNAL")); (cs "message", JStr (cs "response too large"))].

Definition read_reply (file text : cstr) (v : ss_file) : option cstr :=
  if MAX_JSON <=? length (read_extra file text v) then Some too_large
  else fit MAX_JSON (render_obj (content_fields file text v)).

Lemma handle_read_serves file text v user now w :
  serves file text v w -> plain_text file ->
  w_peer (handle_read file user now w) = w_peer w ++ option_list (read_reply file text v).
Proof.
  intros Hw Hp. pose proof (serves_name _ _ _ _ Hw) as Hn. destruct Hw as [Hd Hq Hs Htext Hwc Hcc].
  unfold handle_read. rewrite Hs, load_quiet by done.
  assert (default [] (c_str <$> files (w_disk w) !! data_path v) = text) as -> by exact Htext. rewrite json_escape_dup_spec.
  destruct (update_and_save_quiet file (touch user now) w v Hd (fun _ => eq_refl) Hs Hq) as (w' & E & _).
  pose proof (update_and_save_peer file (touch user now) w) as Hpeer. rewrite E in Hpeer |- *. cbn [snd default from_option id] in *.
  change (word_count (touch user now v)) with (word_count v). change (char_count (touch user now v)) with (char_count v). rewrite Hn.
  fold (read_extra file text v). unfold read_reply, fit at 1.
  destruct (MAX_JSON <=? length (read_extra file text v)); unfold answer_peer.
  - unfold reply_json, send_peer. change (send_error_response _ _) with (Some too_large). cbn [snd w_peer]. by rewrite notify_peer, Hpeer.
  - unfold reply_json, send_ok. rewrite <- read_extra_render by (done || lia). destruct (read_extra file text v) eqn:Ee; [done|]. rewrite <- Ee.
    destruct (fit MAX_JSON _); cbn [send_peer snd w_peer option_list]; rewrite notify_peer, Hpeer; [done|by rewrite app_nil_r].
Qed.

(** A visit with the announced ticket. *)
Lemma visit_read file text v user tok now now' ts w :
  serves file text v w -> plain_text file -> length file < 128 -> length user < 64 -> length tok < 64 ->
  (now' <= now + TICKET_TTL)%Z -> w_tickets w = ts ++ [announced file user tok (cs "READ") now] ->
  w_peer (handle_data_client (render_obj (visit_fields (cs "READ") file user tok None)) [] now' w) =
  w_peer w ++ option_list (read_reply file text v).
Proof.
  intros Hw Hp Hf Hu Hk He Hts. destruct (visit_lookup (cs "READ") file user tok None) as (H1 & H2 & H3 & H4); [cbn; lia|done..|].
  unfold handle_data_client. rewrite H1, H2, H3, H4. change (streq (cs "READ") (cs "READ")) with true. cbv iota.
  unfold validate_ticket. rewrite Hts. destruct (take_announced now now' ts file user tok (cs "READ") He) as (t & Etk).
  destruct (ticket_table_take _ _ _ _ _ _) as [o ts']. cbn [fst] in Etk. subst o.
  rewrite (handle_read_serves file text v user now'); [done| |done..]. by destruct Hw.
Qed.

(** ** The client's side *)

(** What the client has still to hear, with working connections; [None] is a connection
    closed instead of an answer. *)
Definition hearing (user : cstr) (answers : list (option cstr)) (k : client) : Prop :=
  g_username k = user /\ k_sends k = [] /\ k_connects k = [] /\ k_arrivals k = answers.

Lemma endpoint_fields_keys file op tok ss sentence : Forall (fun f => good_key (fst f) = true) (endpoint_fields file op tok ss sentence).
Proof. unfold endpoint_fields. destruct sentence; by repeat constructor. Qed.

Lemma rendered_ok fs : Forall (fun f => good_key (fst f) = true) fs -> field_str fs (cs "status") = Some (cs "OK") -> status_is_ok (render_obj fs) = true.
Proof. intros Hk Hf. unfold status_is_ok. rewrite (get_field fs (cs "status") 16 (cs "OK")); [done|done|done|cbn; lia|done|cbn; lia]. Qed.

Lemma parse_endpoint file user op tok ss sentence :
  names_fit file user tok ss -> parse_nm_endpoint (render_obj (endpoint_fields file op tok ss sentence)) = Some (ss_host ss, ss_data_port ss, tok).
Proof.
  intros [_ _ [_ T] H1 H2 _]. pose proof (endpoint_fields_keys file op tok ss sentence) as Hk. unfold parse_nm_endpoint.
  rewrite (get_field _ (cs "host") 128 (ss_host ss)) by (done || cbn; lia). cbn [mbind option_bind].
  rewrite (get_field _ (cs "port") 32 (ss_data_port ss)) by (done || cbn; lia). cbn [mbind option_bind].
  by rewrite (get_field _ (cs "ticket") 128 tok) by (done || cbn; lia).
Qed.

Lemma ss_payload_render type file user tok sentence :
  plain_text type -> length type < 64 -> length file < 128 -> length user < 64 -> length tok < 64 ->
  match sentence with Some n => (INT_MIN <= n <= INT_MAX)%Z | None => True end ->
  ss_payload type file user tok match sentence with Some n => js ",'sentence':" ++ show_Z n | None => [] end =
  Some (Some (render_obj (visit_fields type file user tok sentence))).
Proof.
  intros Hp Ht Hf Hu Hk Hs. unfold ss_payload. rewrite !json_escape_dup_spec. cbn [mbind option_bind]. f_equal.
  match goal with |- fit _ ?t = Some ?r => assert (t = r) as <- end.
  { unfold visit_fields, plain_text in *. rewrite <- Hp at 1. clear. destruct sentence; cbn [app]; solve_render. }
  pose proof (length_escape_le file). pose proof (length_escape_le user). pose proof (length_escape_le tok).
  apply fit_id. rewrite !length_app. unfold MAX_JSON. destruct sentence as [n|]; cbn [length js map cs String.list_ascii_of_string].
  - rewrite length_app. pose proof (show_Z_length n ltac:(unfold INT_MIN, INT_MAX, LONG_MIN, LONG_MAX in *; lia)). cbn [length]. lia.
  - lia.
Qed.

Definition read_display (file text : cstr) : cstr :=
  line (cs "--- " ++ file ++ cs " ---") ++ line text ++ line (cs "-----------").

(** The commands with a ticket ask the name manager with this request. *)
Lemma endpoint_payload op file sentence user :
  operation op -> length file < 128 -> (INT_MIN <= sentence <= INT_MAX)%Z ->
  nm_payload op (Some (file_body (escape file) ++ match op_sentence op sentence with Some n => js ",'sentence':" ++ show_Z n | None => [] end)) =
  Some (request_json user (ticket_command op file sentence)).
Proof.
  intros Hop Hf Hs. rewrite request_json_fields, nm_payload_fit by done.
  match goal with |- fit _ ?t = Some ?r => assert (t = r) as <- end.
  { destruct (operation_plain op Hop) as [Ho _]. unfold request_fields_of, plain_text in *. generalize (op_sentence op sentence). intros o.
    rewrite <- Ho at 1. clear. destruct o; cbn [app]; solve_render. }
  pose proof (length_escape_le file). pose proof (show_Z_length sentence ltac:(unfold INT_MIN, INT_MAX, LONG_MIN, LONG_MAX in *; lia)).
  destruct (operation_plain op Hop) as [_ Ho]. apply fit_id. unfold file_body, MAX_JSON, op_sentence.
  destruct (streq op (cs "WRITE")); rewrite !length_app; cbn [length js map cs String.list_ascii_of_string]; lia.
Qed.

(** The first half of the three commands: the client is at the storage server's door. *)
Lemma endpoint_cmd_run op file sentence user tok ss body (session : cstr -> cstr -> cstr -> cstr -> cstr -> M Z) more k :
  operation op -> names_fit file user tok ss -> (0 <= sentence <= INT_MAX)%Z ->
  hearing user (Some (render_obj (endpoint_fields file op tok ss (op_sentence op sentence))) :: more) k ->
  body (escape file) = file_body (escape file) ++ match op_sentence op sentence with Some n => js ",'sentence':" ++ show_Z n | None => [] end ->
  exists k1, k1 = asked NmConn (request_json user (ticket_command op file sentence)) k /\ hearing user more k1 /\
  endpoint_cmd op file body session k =
    session (render_obj (endpoint_fields file op tok ss (op_sentence op sentence))) (ss_host ss) (ss_data_port ss) user tok k1.
Proof.
  intros Hop Hfit Hs (Hu & Hsend & Hcon & Harr) Hbody. pose proof (endpoint_fields_keys file op tok ss (op_sentence op sentence)) as Hk.
  eexists. split; [done|]. split; [split_and!; cbn; [done|by rewrite Hsend|done|by rewrite Harr]|].
  unfold endpoint_cmd. rewrite json_escape_dup_spec, Hbody.
  erewrite nm_request_answer; [|done|by rewrite Harr|apply endpoint_payload; [done|apply (nf_file _ _ _ _ Hfit)|unfold INT_MIN, INT_MAX in *; lia]|by apply rendered_ok].
  rewrite (parse_endpoint file user) by done. unfold mbind, M_bind, get_username. cbn [g_username asked]. by rewrite Hu.
Qed.

Lemma content_fields_keys file text v : Forall (fun f => good_key (fst f) = true) (content_fields file text v).
Proof. by repeat constructor. Qed.

(** A working connection. *)
Lemma net_connect_works k : k_connects k = [] -> exists k', net_connect k = (true, k') /\
  k_sent k' = k_sent k /\ k_sends k' = k_sends k /\ k_arrivals k' = k_arrivals k /\ k_stdin k' = k_stdin k /\ k_out k' = k_out k /\
  k_err k' = k_err k.
Proof. intros H. unfold net_connect. rewrite H. by eexists. Qed.

(** What the client shows on its output and on its error output. *)
Definition read_shown (file text : cstr) (v : ss_file) : cstr * cstr :=
  if MAX_JSON <=? length (read_extra file text v) then ([], line (cs "ERR (ERR_INTERNAL): response too large"))
  else if MAX_JSON <=? length (render_obj (content_fields file text v)) then ([], line (cs "READ failed"))
  else (read_display file text, []).

Lemma too_large_reported :
  status_is_ok too_large = false /\
  print_error_response too_large = eprint (line (cs "ERR (ERR_INTERNAL): response too large")).
Proof. split; vm_compute; reflexivity. Qed.

Lemma ss_read_run host port file user tok text v k :
  length file < 128 -> length user < 64 -> length tok < 64 -> hearing user [read_reply file text v] k ->
  exists r k', ss_read host port file user tok k = (r, k') /\
  k_out k' = k_out k ++ fst (read_shown file text v) /\ k_err k' = k_err k ++ snd (read_shown file text v) /\
  k_sent k' = k_sent k ++ [(SsConn host port, render_obj (visit_fields (cs "READ") file user tok None))].
Proof.
  intros F2 U2 T2 (Hu & Hsend & Hcon & Harr). unfold ss_read. unfold mbind at 1, M_bind at 1.
  destruct (net_connect_works k Hcon) as (k1 & -> & E1 & E2 & E3 & E4 & E5 & E6). cbn [negb].
  rewrite (ss_payload_render (cs "READ") file user tok None) by (done || cbn; lia).
  unfold mbind at 1, M_bind at 1. rewrite <- E2 in Hsend. rewrite <- E3 in Harr. unfold read_reply, read_shown, fit in *.
  rewrite <- E1, <- E5, <- E6. clear E1 E2 E3 E4 E5 E6.
  destruct (MAX_JSON <=? length (read_extra file text v)).
  { rewrite (send_request_answer _ _ k1 too_large []) by done. destruct too_large_reported as [-> ->]. cbn [negb].
    do 2 eexists. split; [reflexivity|]. cbn. by rewrite app_nil_r. }
  destruct (MAX_JSON <=? length (render_obj (content_fields file text v))).
  { rewrite (send_request_lost _ _ k1 []) by done. do 2 eexists. split; [reflexivity|]. cbn. by rewrite app_nil_r. }
  rewrite (send_request_answer _ _ k1 (render_obj (content_fields file text v)) []) by done.
  rewrite rendered_ok by (done || apply content_fields_keys). cbn [negb].
  rewrite json_get_string_alloc_lookup by (apply content_fields_keys || done || cbn; lia).
  change (field_str (content_fields file text v) (cs "content")) with (Some text). cbn iota beta.
  do 2 eexists. split; [reflexivity|]. cbn [k_out k_err k_sent asked fst snd]. by rewrite app_nil_r.
Qed.

Lemma client_reads file user tok ss text v k :
  names_fit file user tok ss ->
  hearing user [Some (render_obj (endpoint_fields file (cs "READ") tok ss None)); read_reply file text v] k ->
  let k' := snd (run_command (Read file) k) in
  k_out k' = k_out k ++ fst (read_shown file text v) /\ k_err k' = k_err k ++ snd (read_shown file text v) /\
  k_sent k' = k_sent k ++ [(NmConn, request_json user (Read file));
                 (SsConn (ss_host ss) (ss_data_port ss), render_obj (visit_fields (cs "READ") file user tok None))].
Proof.
  intros Hfit Hk. assert (operation (cs "READ")) as Hop by by left.
  cbn [run_command]. unfold handle_read_cmd.
  destruct (endpoint_cmd_run (cs "READ") file 0 user tok ss file_body (fun _ host port user ticket => ss_read host port file user ticket) _ k Hop Hfit
    ltac:(unfold INT_MAX; lia) Hk) as (k1 & -> & Hk1 & ->); [by rewrite app_nil_r|].
  destruct Hfit as [[F1 F2] [U1 U2] [T1 T2] _ _ _].
  destruct (ss_read_run (ss_host ss) (ss_data_port ss) file user tok text v _ F2 U2 T2 Hk1) as (r & k' & -> & E1 & E2 & E3).
  cbn [snd]. cbv zeta. rewrite E1, E2, E3. split_and!; [done|done|]. cbn [k_sent asked]. by rewrite <- app_assoc.
Qed.

(** C5: A reader gets the document's text, through all three programs, or is told that it does
    not fit.  Suppose a user with read access reads a document whose primary server is online,
    the names and addresses fit the programs' buffers and need no escaping, the clock in
    seconds still fits an [int], and no system call or message fails.  The name manager announces a ticket to that server and sends the client
    there; the server takes the announcement for what it is, with the answer the name manager
    waits for, and answers the client's request with the announced ticket, if it comes before
    the ticket expires; and the client sends exactly the messages the servers received.  If the
    server's answer with the escaped text is shorter than [MAX_JSON] bytes, the client prints
    the text the server's file holds and nothing else.  Otherwise it prints no text: it
    reports the server's "response too large", or a failure where the answer's fields alone
    still fit, since the server then closes the connection without an answer. *)
Theorem reader_gets_text ask shell rpc strerror p file tok i f ss now c now1 now2 w text v
  (Hfit : names_fit file (p_user p) tok ss) (Hnow : (0 <= now <= INT_MAX - TICKET_TTL)%Z) (Hlate : (now2 <= now + TICKET_TTL)%Z)
  (Hg : granted p file NM_PERM_READ tok i f ss c) (Hw : serves file text v w) :
  exists extra endpoint command c' request,
    handle_client_message ask shell p (request_json (p_user p) (Read file)) now c = (ROk extra, true, c') /\
    reply_json (ROk extra) = Some endpoint /\
    x_forwarded c' = x_forwarded c ++ [(ss_ctrl_fd ss, command)] /\
    (let w1 := process_nm_command rpc strerror command now1 w in
     w_nm w1 = w_nm w ++ [ticket_answer] /\
     w_peer (handle_data_client request [] now2 w1) = w_peer w ++ option_list (read_reply file text v)) /\
    (forall k, hearing (p_user p) [Some endpoint; read_reply file text v] k ->
     let k' := snd (run_command (Read file) k) in
     k_sent k' = k_sent k ++ [(NmConn, request_json (p_user p) (Read file)); (SsConn (ss_host ss) (ss_data_port ss), request)] /\
     (k_out k', k_err k') =
       if MAX_JSON <=? length (read_extra file text v) then (k_out k, k_err k ++ line (cs "ERR (ERR_INTERNAL): response too large"))
       else if MAX_JSON <=? length (render_obj (content_fields file text v)) then (k_out k, k_err k ++ line (cs "READ failed"))
       else (k_out k ++ read_display file text, k_err k)).
Proof.
  assert (operation (cs "READ")) as Hop by by left.
  destruct (nm_grants ask shell p (cs "READ") file 0 tok i f ss now c Hop Hfit Hnow ltac:(unfold INT_MAX; lia) Hg) as (extra & c' & E1 & E2 & E3).
  exists extra. do 3 eexists. exists (render_obj (visit_fields (cs "READ") file (p_user p) tok None)).
  split_and!; [exact E1|exact E3|exact E2| |].
  - cbv zeta. rewrite (ss_announced _ _ _ _ _ _ ss) by done. split; [done|].
    destruct Hfit as [[F1 F2] [U1 U2] [T1 T2] _ _ _].
    rewrite (visit_read file text v (p_user p) tok now now2 (w_tickets w)); try done. by destruct Hw.
  - intros k Hk. destruct (client_reads file (p_user p) tok ss text v k Hfit Hk) as (H1 & H2 & H3). cbv zeta. rewrite H1, H2, H3.
    split; [done|]. unfold read_shown. repeat case_match; by rewrite ?app_nil_r.
Qed.

(** A name manager with one document and its server online; Ann owns the document. *)
Definition demo_nm : nm_context :=
  mk_ctx (set_servers [demo_server (cs "ss1")] (snd (nm_add_file (cs "a") (cs "ann") 0 1 7 clear_state)))
    (cs "nm.db") demo_empty_disk [] [cs "ann"] [] [] [Some ticket_answer] [cs "t1"].

Lemma demo_nm_granted perm :
  perm = NM_PERM_READ \/ perm = NM_PERM_WRITE ->
  exists f, granted demo_ann (cs "a") perm (cs "t1") 0 f (demo_server (cs "ss1")) demo_nm.
Proof. intros [->| ->]; (eexists; split; vm_compute; reflexivity). Qed.

Lemma demo_names_fit : names_fit (cs "a") (cs "ann") (cs "t1") (demo_server (cs "ss1")).
Proof. split; try (split; [reflexivity|]); cbn; lia. Qed.

Definition demo_ss (text : cstr) : world := set_disk (mk_disk (<[data_path demo_file := text]> ∅) [] []) (SsServer.demo_world []).

Lemma demo_serves text : no_nul text -> serves (cs "a") text demo_file (demo_ss text).
Proof.
  intros Ht. split; [apply (demo_world_ok [])|reflexivity|reflexivity| |split; [done|reflexivity]..].
  unfold text_of. cbn [w_disk demo_ss set_disk files]. rewrite lookup_insert_eq. by apply c_str_id.
Qed.

Definition demo_client (answers : list (option cstr)) (stdin : cstr) : client :=
  mk_client (cs "ann") [] [] [] answers stdin [] [] [].

(** A text that does not fit an answer. *)
Definition demo_long : cstr := repeat "x"%char 5000.

Lemma reader_gets_text_witness :
  names_fit (cs "a") (cs "ann") (cs "t1") (demo_server (cs "ss1")) /\ serves (cs "a") (cs "Hi there.") demo_file (demo_ss (cs "Hi there.")) /\
  (exists endpoint request reply command,
    x_forwarded (snd (handle_client_message (fun _ _ => None) (fun _ => None) demo_ann (request_json (cs "ann") (Read (cs "a"))) 100 demo_nm)) =
      [(5%Z, command)] /\
    w_peer (handle_data_client request [] 101 (process_nm_command (fun _ _ _ => None) (fun _ => []) command 100 (demo_ss (cs "Hi there.")))) = [reply] /\
    k_out (snd (run_command (Read (cs "a")) (demo_client [Some endpoint; Some reply] []))) =
      line (cs "--- a ---") ++ line (cs "Hi there.") ++ line (cs "-----------")) /\
  exists endpoint reply,
    k_err (snd (run_command (Read (cs "a")) (demo_client [Some endpoint; Some reply] []))) = line (cs "ERR (ERR_INTERNAL): response too large").
Proof.
  assert (forall text, no_nul text -> serves (cs "a") text demo_file (demo_ss text)) as Hs by (intros; by apply demo_serves).
  assert (no_nul (cs "Hi there.") /\ no_nul demo_long) as [N1 N2] by (split; apply (bool_decide_unpack _); vm_compute; exact I).
  split; [apply demo_names_fit|]. split; [by apply Hs|].
  destruct (demo_nm_granted NM_PERM_READ ltac:(by left)) as [f Hg].
  pose proof (fun text Ht => reader_gets_text (fun _ _ => None) (fun _ => None) (fun _ _ _ => None) (fun _ => []) demo_ann (cs "a") (cs "t1") 0 f
    (demo_server (cs "ss1")) 100 demo_nm 100 101 (demo_ss text) text demo_file
    demo_names_fit ltac:(vm_compute; split; discriminate) ltac:(vm_compute; discriminate) Hg (Hs text Ht)) as K.
  change (p_user demo_ann) with (cs "ann") in *. split.
  - destruct (K (cs "Hi there.") N1) as (extra & endpoint & command & c' & request & H1 & _ & H3 & [_ H4] & H5).
    destruct (H5 (demo_client [Some endpoint; read_reply (cs "a") (cs "Hi there.") demo_file] [])) as [_ H6]; [by split_and!|].
    assert (read_reply (cs "a") (cs "Hi there.") demo_file =
      Some (render_obj (content_fields (cs "a") (cs "Hi there.") demo_file))) as E by reflexivity. rewrite E in *.
    do 4 eexists. split; [rewrite H1; exact H3|]. split; [exact H4|]. exact (f_equal fst H6).
  - destruct (K demo_long N2) as (extra & endpoint & command & c' & request & _ & _ & _ & _ & H5).
    destruct (H5 (demo_client [Some endpoint; read_reply (cs "a") demo_long demo_file] [])) as [_ H6]; [by split_and!|].
    assert (read_reply (cs "a") demo_long demo_file = Some too_large) as E by (vm_compute; reflexivity). rewrite E in *.
    assert (MAX_JSON <=? length (read_extra (cs "a") demo_long demo_file) = true) as El by (vm_compute; reflexivity). rewrite El in H6.
    do 2 eexists. exact (f_equal snd H6).
Defined.
