(* ===== verification/EndToEndWrite.v ===== *)
(** * A write through the three programs

    [WRITE] from the typed command to the document on the storage server's disk: the name
    manager's ticket, the session of the storage server, the edits typed one by one and the
    commit. *)

From S2P Require Import NmPersist NmRequests.
From S2P Require Import Prelude Cstr Json Proto Fs SsText SsState SsSession SsTables SsServer.
From S2P Require Import NmState NmServer CliInput CliState CliListing CliCommand CliMain CliRequests CliViews EndToEnd.

Definition commit_json : cstr := js "{'type':'WRITE_COMMIT'}".

Definition insert_fields (index : Z) (content : cstr) : list (cstr * jval) :=
  [(cs "type", JStr (cs "WRITE_INSERT")); (cs "index", JInt index); (cs "content", JStr content)].

(** The edits in the lines typed. *)
Definition typed_edit (l : cstr) : option (Z * cstr) :=
  match parse_edit (line l) with EditInsert index content => Some (index, content) | _ => None end.
Definition insert_json (e : Z * cstr) : cstr := render_obj (insert_fields (fst e) (snd e)).

Definition apply_edits (session : write_session) (edits : list (Z * cstr)) : write_session :=
  foldl (fun s e => snd (write_session_apply_insert s (fst e) (snd e))) session edits.

(** *** The storage server takes the edits one by one *)

Lemma write_message_insert file user view now index content session w :
  (INT_MIN <= index <= INT_MAX)%Z ->
  write_message file user view now (insert_json (index, content)) session w =
  (Some (snd (write_session_apply_insert session index content)),
   answer_peer (edit_reply (fst (write_session_apply_insert session index content)) (cs "insert failed") (js "'step':'INSERT'")) w).
Proof.
  intros Hi. set (fs := insert_fields index content). assert (Forall (fun f => good_key (fst f) = true) fs) as Hk by by repeat constructor.
  unfold write_message, insert_json. cbn [fst snd]. fold fs. rewrite (get_field fs (cs "type") 64 (cs "WRITE_INSERT")) by (done || cbn; lia).
  change (streq (cs "WRITE_INSERT") (cs "WRITE_INSERT")) with true. cbv iota.
  rewrite json_get_int_field; [|done|done|cbn; lia|].
  2: { unfold long_fields, fs, insert_fields. cbn [forallb snd andb]. by rewrite long_int. }
  change (field_int fs (cs "index")) with (Some index). cbn [fmap option_fmap option_map]. rewrite to_int_id by done.
  rewrite json_get_string_alloc_lookup by (done || cbn; lia). change (field_str fs (cs "content")) with (Some content). cbv iota.
  by destruct (write_session_apply_insert session index content).
Qed.

Lemma answer_peer_disk r w : w_disk (answer_peer r w) = w_disk w /\ w_state (answer_peer r w) = w_state w /\ w_locks (answer_peer r w) = w_locks w.
Proof. unfold answer_peer. by destruct (reply_json r). Qed.

(** Every edit is answered. *)
Lemma edit_answered r w :
  exists a, w_peer (answer_peer (edit_reply r (cs "insert failed") (js "'step':'INSERT'")) w) = w_peer w ++ [a].
Proof. destruct r as [[]|e]; cbn [edit_reply]; [by eexists|]. case_decide; by eexists. Qed.

Lemma write_loop_inserts file user view now edits more session w :
  Forall (fun e => INT_MIN <= fst e <= INT_MAX)%Z edits ->
  exists w' answers, w_disk w' = w_disk w /\ w_state w' = w_state w /\ w_peer w' = w_peer w ++ answers /\ length answers = length edits /\
    write_loop file user view now ((insert_json <$> edits) ++ more) session w = write_loop file user view now more (apply_edits session edits) w'.
Proof.
  intros He. revert session w. induction He as [|[index content] edits Hi He IH]; intros session w.
  { exists w, []. by rewrite app_nil_r. }
  cbn [fmap list_fmap app write_loop]. rewrite write_message_insert by done.
  set (r := fst (write_session_apply_insert session index content)). set (w1 := answer_peer _ w).
  destruct (IH (snd (write_session_apply_insert session index content)) w1) as (w' & answers & E1 & E2 & E3 & E4 & E5).
  destruct (edit_answered r w) as (a & Ea). fold w1 in Ea.
  destruct (answer_peer_disk (edit_reply r (cs "insert failed") (js "'step':'INSERT'")) w) as (A1 & A2 & _). fold w1 in A1, A2.
  exists w', (a :: answers). rewrite E3, Ea, <- app_assoc. split_and!; [congruence..|done|by cbn; rewrite E4|exact E5].
Qed.

(** *** The client sends the edits one by one *)

Lemma parse_edit_insert typed index content :
  parse_edit typed = EditInsert index content -> (INT_MIN <= index <= INT_MAX)%Z /\ length content <= length typed.
Proof.
  unfold parse_edit. assert (length (skip_spaces (trim_newline typed)) <= length typed) as Hl.
  { unfold skip_spaces, trim_newline. etrans; [apply length_drop_while|]. rewrite length_rev. etrans; [apply length_drop_while|]. by rewrite length_rev. }
  destruct (skip_spaces (trim_newline typed)) as [|x ptr]; [done|]. destruct (streq_nocase _ _); [done|].
  unfold strtok_r. cbv zeta. set (d := fun x => bool_decide (x ∈ [" "%char; tab])).
  pose proof (length_drop_while d (x :: ptr)) as H1. destruct (drop_while d (x :: ptr)) as [|y s]; [done|].
  pose proof (length_drop_while (fun x => negb (d x)) (y :: s)) as H2.
  set (rest := drop 1 (drop_while (fun x => negb (d x)) (y :: s))).
  assert (length rest <= length (y :: s)) as H3 by (unfold rest; rewrite length_drop; lia).
  pose proof (length_drop_while is_space rest) as H4. fold (skip_spaces rest) in H4.
  change (skip_spaces (drop 1 (drop_while (fun x => negb (bool_decide (x ∈ [" "%char; tab]))) (y :: s)))) with (skip_spaces rest).
  destruct (skip_spaces rest) as [|z c]; [done|]. destruct (strtol _) as [v stop]. destruct (_ || _); [done|]. destruct (v <? 0)%Z; [done|].
  intros [= <- <-]. split; [apply to_int_range|]. lia.
Qed.

Lemma insert_payload_fits index content :
  (INT_MIN <= index <= INT_MAX)%Z -> length content <= 512 -> insert_payload index content = Some (Some (insert_json (index, content))).
Proof.
  intros Hi Hl. unfold insert_payload. rewrite json_escape_dup_spec. cbn [mbind option_bind]. f_equal.
  match goal with |- fit _ ?t = Some ?r => assert (t = r) as <- end.
  { unfold insert_json, insert_fields. cbn [fst snd]. clear. solve_render. }
  pose proof (length_escape_le content). pose proof (show_Z_length index ltac:(unfold INT_MIN, INT_MAX, LONG_MIN, LONG_MAX in *; lia)).
  apply fit_id. rewrite !length_app. unfold MAX_JSON. cbn [length js map cs String.list_ascii_of_string]. lia.
Qed.

(** A line of the keyboard that fits the buffer. *)
Definition typed_line (l : cstr) : Prop := plain l /\ length l < 511.

Lemma read_typed_line l rest k :
  typed_line l -> k_stdin k = line l ++ rest ->
  exists k', read_stdin INPUT_BUF k = (Some (line l), k') /\ k_stdin k' = rest /\ k_sent k' = k_sent k /\
    k_sends k' = k_sends k /\ k_arrivals k' = k_arrivals k.
Proof.
  intros [Hp Hl] Hk. unfold read_stdin. rewrite Hk. unfold line. rewrite <- app_assoc. cbn [app].
  pose proof (fgets_line_plain 511 l rest Hp Hl) as E. destruct (l ++ newline :: rest) eqn:El; [by destruct l|].
  change (INPUT_BUF - 1) with 511. rewrite E. eexists. by split_and!.
Qed.

Section Typing.
Context (c : conn).

(** What the client has done between two lines. *)
Record typed_so_far (edits : list (Z * cstr)) (stdin : cstr) (more : list (option cstr)) (k k' : client) : Prop := {
  ts_sent : k_sent k' = k_sent k ++ ((fun e => (c, insert_json e)) <$> edits);
  ts_stdin : k_stdin k' = stdin;
  ts_sends : k_sends k' = [];
  ts_arrivals : k_arrivals k' = more;
}.

(** Reporting an answer touches nothing but the terminal. *)
Lemma report_same a k :
  exists k', (if status_is_ok a then mret tt else print_error_response a) k = (tt, k') /\ k_sent k' = k_sent k /\ k_stdin k' = k_stdin k /\
    k_sends k' = k_sends k /\ k_arrivals k' = k_arrivals k.
Proof using.
  destruct (status_is_ok a); [by eexists|]. unfold print_error_response. destruct (parse_status a 16 256) as [[status message]|]; [|by eexists].
  destruct (default [] _); by eexists.
Qed.

Lemma edit_loop_typed fuel lines stop rest answers more k :
  Forall (fun l => typed_line l /\ parse_edit (line l) <> EditCommit) lines ->
  typed_line stop -> parse_edit (line stop) = EditCommit ->
  length lines < fuel -> k_stdin k = concat (line <$> lines) ++ line stop ++ rest -> k_sends k = [] ->
  k_arrivals k = (Some <$> answers) ++ more -> length answers = length (omap typed_edit lines) ->
  exists k', edit_loop fuel c k = (true, k') /\ typed_so_far (omap typed_edit lines) rest more k k'.
Proof using.
  intros Hl Hstop Hcommit. revert fuel answers k. induction Hl as [|l lines [Ht Hne] Hl IH]; intros [|fuel] answers k Hf Hin Hs Ha Hn; cbn [length] in Hf; try lia.
  - cbn [fmap list_fmap concat app] in Hin. cbn [edit_loop]. unfold mbind, M_bind. set (k1 := snd (print (cs "write> ") k)).
    change (print (cs "write> ") k) with (tt, k1). cbv iota beta.
    destruct (read_typed_line stop rest k1 Hstop Hin) as (k2 & -> & E1 & E2 & E3 & E4). rewrite Hcommit.
    eexists. split; [reflexivity|]. destruct answers; [|done]. cbn [fmap list_fmap app] in Ha.
    split; [by rewrite E2; cbn; rewrite app_nil_r|done|by rewrite E3|by rewrite E4].
  - cbn [fmap list_fmap concat] in Hin. rewrite <- app_assoc in Hin. cbn [edit_loop]. unfold mbind at 1, M_bind at 1. set (k1 := snd (print (cs "write> ") k)).
    change (print (cs "write> ") k) with (tt, k1). cbv iota beta. unfold mbind at 1, M_bind at 1.
    destruct (read_typed_line l (concat (line <$> lines) ++ line stop ++ rest) k1 Ht Hin) as (k2 & -> & E1 & E2 & E3 & E4).
    assert (forall k3 a2, omap typed_edit (l :: lines) = omap typed_edit lines -> k_sent k3 = k_sent k -> k_stdin k3 = k_stdin k2 -> k_sends k3 = [] -> k_arrivals k3 = k_arrivals k2 -> a2 = answers ->
      exists k', edit_loop fuel c k3 = (true, k') /\ typed_so_far (omap typed_edit (l :: lines)) rest more k k') as Hskip.
    { intros k3 a2 Eo F1 F2 F3 F4 ->. destruct (IH fuel answers k3) as (k' & Ek & [G1 G2 G3 G4]); [lia|by rewrite F2|done|by rewrite F4, E4|by rewrite Hn, Eo|].
      exists k'. split; [exact Ek|]. rewrite Eo. split; [by rewrite G1, F1|done..]. }
    destruct (parse_edit (line l)) as [| | |token| |index content] eqn:Ep; [| done| | | |].
    1-4: (assert (typed_edit l = None) as Et by (unfold typed_edit; by rewrite Ep)); (assert (omap typed_edit (l :: lines) = omap typed_edit lines) as Eo by (cbn; by rewrite Et)).
    + apply (Hskip k2 answers); [done|by rewrite E2|done|by rewrite E3|done|done].
    + unfold mbind, M_bind. cbn [print]. apply (Hskip _ answers); [done|by cbn; rewrite E2|done|by cbn; rewrite E3|done|done].
    + unfold mbind, M_bind. cbn [print]. apply (Hskip _ answers); [done|by cbn; rewrite E2|done|by cbn; rewrite E3|done|done].
    + unfold mbind, M_bind. cbn [print]. apply (Hskip _ answers); [done|by cbn; rewrite E2|done|by cbn; rewrite E3|done|done].
    + destruct (parse_edit_insert _ _ _ Ep) as [Hi Hc]. unfold line in Hc. rewrite length_app in Hc. cbn [length] in Hc. destruct Ht as [_ Ht].
      rewrite insert_payload_fits by (done || lia). assert (typed_edit l = Some (index, content)) as Et by (unfold typed_edit; by rewrite Ep).
      assert (omap typed_edit (l :: lines) = (index, content) :: omap typed_edit lines) as Eo by (cbn; by rewrite Et). rewrite Eo in *.
      destruct answers as [|a answers]; [done|]. cbn [length] in Hn. cbn [fmap list_fmap app] in Ha.
      unfold mbind at 1, M_bind at 1. rewrite (send_request_answer c _ k2 a ((Some <$> answers) ++ more)); [|by rewrite E3|by rewrite E4].
      destruct (report_same a (asked c (insert_json (index, content)) k2)) as (k4 & F1 & F2 & F3 & F4 & F5).
      unfold mbind, M_bind. unfold mbind, M_bind in F1. rewrite F1.
      destruct (IH fuel answers k4) as (k' & Ek & [G1 G2 G3 G4]);
        [lia|by rewrite F3; cbn [k_stdin asked]; rewrite E1
        |rewrite F4; cbn [k_sends asked]; rewrite E3; change (k_sends k1) with (k_sends k); by rewrite Hs
        |rewrite F5; cbn [k_arrivals asked]; rewrite E4; change (k_arrivals k1) with (k_arrivals k); by rewrite Ha|lia|].
      exists k'. split; [exact Ek|]. split; [|done..]. rewrite G1, F2. cbn [k_sent asked fmap list_fmap]. rewrite E2, <- app_assoc. done.
Qed.
End Typing.

(** *** The session of the storage server *)

(** The session [WRITE_BEGIN] opens on a text, and the sentences a commit leaves in its
    place. *)
Definition opened (user : cstr) (n : nat) (text : cstr) : write_session :=
  mk_session true (Z.of_nat n) (snprintf_s SS_USER_MAX user) (Some text) (default [] (split_sentences text !! n))
    (split_sentences text !! n) (split_sentences text).

Definition rewritten (user : cstr) (n : nat) (text : cstr) (edits : list (Z * cstr)) : list cstr :=
  take n (split_sentences text) ++ split_sentences (sentence_text (apply_edits (opened user n text) edits)) ++
  drop (S n) (split_sentences text).

Section Session.
Context (user text : cstr) (n : nat).
Context (Hsmall : small (split_sentences text)) (Hn : n <= length (split_sentences text)).

Lemma opened_ok : session_ok (opened user n text).
Proof using Hsmall Hn.
  split; [done|cbn; lia|done| |apply split_sentences_wf]. unfold opened. cbn [baseline_sentence sentence_index sentences]. by rewrite Nat2Z.id.
Qed.

Lemma begin_quiet v d raw :
  quiet d -> files d !! data_path v = Some raw -> c_str raw = text ->
  write_session_begin v user (Z.of_nat n) d = (Ok tt, opened user n text, d).
Proof using Hsmall Hn.
  intros Hq Hd <-. unfold write_session_begin. rewrite load_text_quiet, Hd by done. cbn [option_map]. cbv zeta.
  rewrite int_len_small by done. destruct (Z.ltb_spec (Z.of_nat n) 0); [lia|]. cbn [orb].
  destruct (Z.ltb_spec (Z.of_nat (length (split_sentences (c_str raw)))) (Z.of_nat n)); [lia|]. rewrite Nat2Z.id. unfold opened.
  destruct (Z.ltb_spec (Z.of_nat n) (Z.of_nat (length (split_sentences (c_str raw))))) as [|Hge].
  - by destruct (split_sentences (c_str raw) !! n).
  - by rewrite (proj2 (lookup_ge_None (split_sentences (c_str raw)) n)) by lia.
Qed.

Lemma insert_sets_text s index content : exists t, snd (write_session_apply_insert s index content) = set_text t s.
Proof using.
  assert (s = set_text (sentence_text s) s) as Hs by by destruct s.
  unfold write_session_apply_insert. cbv zeta. repeat case_match; eauto.
Qed.

Lemma edits_set_text edits s : exists t, apply_edits s edits = set_text t s.
Proof using.
  revert s. induction edits as [|[index content] edits IH]; intros s; cbn [apply_edits foldl fst snd]; [exists (sentence_text s); by destruct s|].
  destruct (insert_sets_text s index content) as [t ->]. destruct (IH (set_text t s)) as [t' E]. exists t'. exact E.
Qed.

(** The edits change the text of the session only, so on an unchanged document the commit
    replaces the sentence the session was opened on. *)
Lemma commit_doc_edits edits :
  commit_doc (apply_edits (opened user n text) edits) (split_sentences text) = Some (rewritten user n text edits).
Proof using Hsmall Hn.
  unfold rewritten. destruct (edits_set_text edits (opened user n text)) as [t ->]. set (s := set_text t (opened user n text)).
  assert (session_ok s) as Hs by (destruct opened_ok; by split).
  pose proof (commit_index_unchanged s Hs) as Hi. change (sentences s) with (split_sentences text) in Hi.
  unfold commit_doc. rewrite Hi. cbn [fmap option_fmap option_map]. change (sentence_index s) with (Z.of_nat n).
  change (replacing_existing s) with (replacing_existing (opened user n text)). f_equal.
  unfold replacing_existing, opened. cbn [baseline_sentence].
  destruct (split_sentences text !! n) as [b|] eqn:Hb.
  - pose proof (lookup_lt_Some _ _ _ Hb). assert (b <> []) as Hne.
    { apply (session_baseline s); [done|]. exact Hb. }
    destruct b as [|x b]; [done|]. by rewrite merge_loop_spec.
  - apply lookup_ge_None in Hb. rewrite merge_loop_spec by (done || lia). by rewrite !drop_ge by lia.
Qed.
End Session.

(** *** The storage server opens the session, takes the edits and commits *)

Definition begin_fields (n : nat) (text : cstr) : list (cstr * jval) :=
  [(cs "status", JStr (cs "OK")); (cs "mode", JStr (cs "WRITE")); (cs "current", JStr (default [] (split_sentences text !! n)));
   (cs "sentence", JInt (Z.of_nat n))].

Definition commit_fields (text : cstr) : list (cstr * jval) :=
  [(cs "status", JStr (cs "OK")); (cs "step", JStr (cs "COMMIT")); (cs "words", JInt (Z.of_nat (count_words_in_text text)));
   (cs "chars", JInt (Z.of_nat (length text))); (cs "content", JStr text)].

(** A storage server that has the document, on which sentence [n] is free and small enough to
    be answered. *)
Record writable (file user text : cstr) (n : nat) (v : ss_file) (w : world) : Prop := {
  wr_serves : serves file text v w;
  wr_data : is_Some (files (w_disk w) !! data_path v);
  wr_paths : good_paths v /\ meta_apart v;
  wr_small : small (split_sentences text);
  wr_index : n <= length (split_sentences text);
  wr_lock : is_Some (sentence_lock_acquire (w_locks w) file (Z.of_nat n) user);
  wr_current : length (escape (default [] (split_sentences text !! n))) <= 3500;
}.

Lemma lock_state_same f a n u w : w_disk (set_file_lock_state f a n u w) = w_disk w /\ w_peer (set_file_lock_state f a n u w) = w_peer w.
Proof. unfold set_file_lock_state, update_record. by destruct (ss_state_find (w_state w) f) as [[]]. Qed.

Lemma small_int n {A} (l : list A) : small l -> n <= length l -> (0 <= Z.of_nat n <= INT_MAX)%Z.
Proof. unfold small, INT_MAX. lia. Qed.

Lemma show_Z_nat n : show_Z (Z.of_nat n) = SsServer.show_size n.
Proof. unfold show_Z, SsServer.show_size. by destruct (Z.ltb_spec (Z.of_nat n) 0); [lia|]. Qed.

(** What a session in progress finds in the world. *)
Record in_session (file : cstr) (v : ss_file) (d : disk) (w : world) : Prop := {
  is_docs : docs_ok w;
  is_disk : w_disk w = d;
  is_record : exists a u n, snapshot_file file w = Some (with_lock a u n v);
}.

Lemma open_answer text n :
  (0 <= Z.of_nat n <= INT_MAX)%Z -> length (escape (default [] (split_sentences text !! n))) <= 3500 ->
  let extra := js "'mode':'WRITE','current':'" ++ escape (default [] (split_sentences text !! n)) ++ js "','sentence':" ++ show_Z (Z.of_nat n) in
  fit MAX_JSON extra = Some extra /\ send_ok extra = Some (render_obj (begin_fields n text)).
Proof.
  intros Hn Hc extra. pose proof (show_Z_length (Z.of_nat n) ltac:(unfold INT_MAX, LONG_MIN, LONG_MAX in *; lia)) as Hl.
  assert (length extra < 3700) as Hx.
  { unfold extra. rewrite !length_app. cbn [length js map cs String.list_ascii_of_string]. lia. }
  split; [apply fit_id; unfold MAX_JSON; lia|].
  assert (js "{'status':'OK'," ++ extra ++ cs "}" = render_obj (begin_fields n text)) as <-.
  { unfold extra, begin_fields. clear. generalize (default [] (split_sentences text !! n)). intros current. solve_render. }
  unfold send_ok. assert (extra <> []) as Hne by done. clearbody extra. destruct extra; [done|]. apply fit_id. rewrite !length_app. unfold MAX_JSON.
  cbn [length js map cs String.list_ascii_of_string] in *. lia.
Qed.

Lemma write_open_ok file user text n v w :
  writable file user text n v w ->
  exists w1, write_open file user (Z.of_nat n) w = (Some (opened user n text, v), w1) /\
    in_session file v (w_disk w) w1 /\ w_peer w1 = w_peer w ++ [render_obj (begin_fields n text)].
Proof.
  intros [[Hd Hq Hv Ht _ _] [raw Hraw] _ Hsm Hn [ls Hls] Hc]. unfold write_open. rewrite Hv, Hls.
  set (w0 := set_locks ls w).
  destruct (update_record_found file (with_lock true (snprintf_s SS_USER_MAX user) (Z.of_nat n)) w0 v) as (w1 & E1 & Hv1 & Hd1 & Hok & _ & _); [done..|].
  pose proof (lock_state_same file true (Z.of_nat n) (Some user) w0) as [_ Hp1].
  unfold set_file_lock_state in *. cbn [default from_option] in *. rewrite E1 in Hp1 |- *. cbn [snd] in *. cbv zeta. rewrite Hd1.
  change (w_disk w0) with (w_disk w).
  rewrite (begin_quiet user text n Hsm Hn v (w_disk w) raw Hq Hraw) by (by rewrite <- Ht; unfold text_of; rewrite Hraw).
  rewrite json_escape_dup_spec. change (sentence_text (opened user n text)) with (default [] (split_sentences text !! n)).
  destruct (open_answer text n (small_int n _ Hsm Hn) Hc) as [-> ->]. cbn [send_peer].
  eexists. split; [done|]. split; [|cbn; by rewrite Hp1].
  split; [exact Hok|done|]. exists true, (snprintf_s SS_USER_MAX user), (Z.of_nat n). exact Hv1.
Qed.

Lemma split_words_count t : length (split_words t) <= length t.
Proof.
  enough (forall fuel p, length (split_words_loop fuel p) <= fuel) as H by apply H.
  intros fuel. induction fuel as [|fuel IH]; intros p; cbn [split_words_loop]; [done|].
  destruct (drop_while blank p) as [|x l]; cbn [length]; [lia|]. specialize (IH (drop_while nonblank (x :: l))). lia.
Qed.

Lemma commit_answer text :
  length (escape text) <= 3500 -> reply_json (commit_reply text (count_words_in_text text) (length text)) = Some (render_obj (commit_fields text)).
Proof.
  intros Hl. pose proof (length_escape_ge text) as Hge.
  assert (count_words_in_text text <= length text) as Hw by (rewrite count_words_spec; apply split_words_count).
  unfold commit_reply. rewrite json_escape_dup_spec. set (extra := _ ++ _ ++ _ ++ _ ++ _ ++ _ ++ _).
  assert (forall m, m <= length text -> length (SsServer.show_size m) <= 64) as Hs.
  { intros m Hm. apply show_nonneg_length. unfold SIZE_MOD. lia. }
  pose proof (Hs _ Hw) as H1. pose proof (Hs _ (le_n _)) as H2.
  assert (length extra < 3700) as Hx.
  { unfold extra. rewrite !length_app. cbn [length js map cs String.list_ascii_of_string]. lia. }
  rewrite fit_id by (unfold MAX_JSON; lia). unfold reply_json.
  assert (js "{'status':'OK'," ++ extra ++ cs "}" = render_obj (commit_fields text)) as <-.
  { unfold extra, commit_fields. unfold render_obj. cbn [render_fields]. unfold render_field. cbn [fst snd render_val]. rewrite !show_Z_nat.
    generalize (SsServer.show_size (count_words_in_text text)) (SsServer.show_size (length text)) (escape text). clear. intros. solve_text. }
  unfold send_ok. assert (extra <> []) as Hne by done. clearbody extra. destruct extra; [done|]. apply fit_id. rewrite !length_app. unfold MAX_JSON.
  cbn [length js map cs String.list_ascii_of_string] in *. lia.
Qed.

(** The commit, at the end of the edits. *)
Lemma write_message_commit file user text n v now edits raw w :
  small (split_sentences text) -> n <= length (split_sentences text) -> good_paths v -> meta_apart v ->
  in_session file v (w_disk w) w -> quiet (w_disk w) -> files (w_disk w) !! data_path v = Some raw -> c_str raw = text ->
  let doc := join_sentences (rewritten user n text edits) in
  length (escape doc) <= 3500 ->
  exists w', write_message file user v now commit_json (apply_edits (opened user n text) edits) w = (None, w') /\
    files (w_disk w') !! data_path v = Some doc /\ w_peer w' = w_peer w ++ [render_obj (commit_fields doc)].
Proof.
  intros Hsm Hn Hg [Hm _] [Hd _ (a & u & m & Hv)] Hq Hraw Htext doc Hl.
  destruct (commit_quiet 0 (apply_edits (opened user n text) edits) v (w_disk w) raw (rewritten user n text edits) Hg Hq Hraw) as (s' & d' & Ec & Hq' & Hf).
  { rewrite Htext. by apply commit_doc_edits. }
  unfold write_message. change (json_get_string commit_json (cs "type") 64) with (Some (cs "WRITE_COMMIT")).
  change (streq (cs "WRITE_COMMIT") (cs "WRITE_INSERT")) with false. change (streq (cs "WRITE_COMMIT") (cs "WRITE_REPLACE")) with false.
  change (streq (cs "WRITE_COMMIT") (cs "WRITE_DELETE")) with false. change (streq (cs "WRITE_COMMIT") (cs "WRITE_COMMIT")) with true. cbv iota.
  rewrite Ec. fold doc. fold doc in Hf. set (w1 := answer_peer _ (set_disk d' w)).
  assert (w_disk w1 = d' /\ w_state w1 = w_state w /\ w_peer w1 = w_peer w ++ [render_obj (commit_fields doc)]) as (W1 & W2 & W3).
  { unfold w1, answer_peer. rewrite commit_answer by done. by split_and!. }
  set (upd := fun f => with_lock _ _ _ _).
  destruct (update_and_save_quiet file upd w1 (with_lock a u m v)) as (w2 & E2 & _ & F2 & _ & _).
  { by apply (docs_ok_state w). }
  { done. }
  { unfold snapshot_file. rewrite W2. exact Hv. }
  { by rewrite W1. }
  pose proof (update_and_save_peer file upd w1) as P2. rewrite E2 in *. cbn [snd] in P2.
  eexists. split; [reflexivity|]. split.
  - rewrite (proj1 (notify_same _ _)), F2, lookup_insert_ne by (intros E; apply Hm; exact E). by rewrite W1.
  - by rewrite notify_peer, P2.
Qed.

(** The whole visit of a writer. *)
Lemma visit_write file user text n v tok edits now now' ts w :
  writable file user text n v w -> length file < 128 -> length user < 64 -> length tok < 64 ->
  Forall (fun e => INT_MIN <= fst e <= INT_MAX)%Z edits -> (now' <= now + TICKET_TTL)%Z ->
  w_tickets w = ts ++ [announced file user tok (cs "WRITE") now] ->
  let doc := join_sentences (rewritten user n text edits) in
  length (escape doc) <= 3500 ->
  exists answers,
    let w' := handle_data_client (render_obj (visit_fields (cs "WRITE_BEGIN") file user tok (Some (Z.of_nat n))))
      ((insert_json <$> edits) ++ [commit_json]) now' w in
    files (w_disk w') !! data_path v = Some doc /\ length answers = length edits /\
    w_peer w' = w_peer w ++ render_obj (begin_fields n text) :: answers ++ [render_obj (commit_fields doc)].
Proof.
  intros Hw Hf Hu Hk Hedits He Hts doc Hl. pose proof (small_int n _ (wr_small _ _ _ _ _ _ Hw) (wr_index _ _ _ _ _ _ Hw)) as Hint.
  destruct (visit_lookup (cs "WRITE_BEGIN") file user tok (Some (Z.of_nat n))) as (H1 & H2 & H3 & H4); [cbn; lia|done..|].
  unfold handle_data_client. rewrite H1, H2, H3, H4. change (streq (cs "WRITE_BEGIN") (cs "READ")) with false.
  change (streq (cs "WRITE_BEGIN") (cs "STREAM")) with false. change (streq (cs "WRITE_BEGIN") (cs "WRITE_BEGIN")) with true. cbv iota.
  rewrite json_get_int_field; [|apply visit_fields_keys || done..|cbn; lia|].
  2: { unfold long_fields. cbn [visit_fields app forallb snd andb]. by rewrite long_int by (unfold INT_MIN, INT_MAX in *; lia). }
  change (field_int (visit_fields (cs "WRITE_BEGIN") file user tok (Some (Z.of_nat n))) (cs "sentence")) with (Some (Z.of_nat n)).
  cbn [fmap option_fmap option_map]. rewrite to_int_id by (unfold INT_MIN, INT_MAX in *; lia).
  unfold validate_ticket. rewrite Hts. destruct (take_announced now now' ts file user tok (cs "WRITE") He) as (t & Etk).
  destruct (ticket_table_take _ _ _ _ _ _) as [o ts']. cbn [fst] in Etk. subst o. set (w0 := set_tickets ts' w).
  unfold handle_write. destruct (write_open_ok file user text n v w0) as (w1 & -> & Hin & P1).
  { destruct Hw as [Hs ? ? ? ? ? ?]. destruct Hs. split; [by split|done..]. }
  destruct (write_loop_inserts file user v now' edits [commit_json] (opened user n text) w1 Hedits) as (w2 & answers & D2 & S2 & P2 & L2 & ->).
  destruct Hw as [[Hd Hq Hv Ht _ _] [raw Hraw] [Hg Hm] Hsm Hn _ _]. destruct Hin as [I1 I2 (a & u & m & I3)].
  destruct (write_message_commit file user text n v now' edits raw w2) as (w3 & E3 & F3 & P3); [done..| | | | |done|].
  { split; [by apply (docs_ok_state w1)|done|]. exists a, u, m. unfold snapshot_file. by rewrite S2. }
  { by rewrite D2, I2. }
  { by rewrite D2, I2. }
  { rewrite <- Ht. unfold text_of. by rewrite Hraw. }
  cbn [write_loop]. rewrite E3. exists answers. cbv zeta. unfold write_close.
  destruct (lock_state_same file false (-1) None (set_locks (sentence_lock_release (w_locks w3) file (Z.of_nat n)) w3)) as [-> ->].
  cbn [w_disk w_peer set_locks]. split; [exact F3|]. split; [exact L2|]. rewrite P3, P2, P1. by rewrite <- !app_assoc.
Qed.

(** *** The client's session *)

Lemma begin_fields_keys n text : Forall (fun f => good_key (fst f) = true) (begin_fields n text).
Proof. by repeat constructor. Qed.
Lemma commit_fields_keys text : Forall (fun f => good_key (fst f) = true) (commit_fields text).
Proof. by repeat constructor. Qed.

(** The lines typed until the commit. *)
Record typing (lines : list cstr) (stop : cstr) : Prop := {
  ty_lines : Forall (fun l => typed_line l /\ parse_edit (line l) <> EditCommit) lines;
  ty_stop : typed_line stop;
  ty_commit : parse_edit (line stop) = EditCommit;
}.

Lemma length_lines lines : length lines <= length (concat (line <$> lines)).
Proof. induction lines as [|l lines IH]; [done|]. cbn [fmap list_fmap concat length]. unfold line at 1. rewrite !length_app. cbn [length]. lia. Qed.

Lemma finish_write_commits c answer k :
  k_sends k = [] -> k_arrivals k = [Some answer] -> status_is_ok answer = true ->
  exists k', finish_write c true k = (true, k') /\ k_sent k' = k_sent k ++ [(c, commit_json)].
Proof.
  intros Hs Ha Hok. unfold finish_write. cbv iota. unfold mbind at 1, M_bind at 1. unfold mbind at 1, M_bind at 1. fold commit_json.
  rewrite (send_request_answer c commit_json k answer []) by done. rewrite Hok. by eexists.
Qed.

Lemma ss_write_run host port file user tok n text lines stop rest answers k last_text :
  length file < 128 -> length user < 64 -> length tok < 64 -> (0 <= Z.of_nat n <= INT_MAX)%Z -> typing lines stop ->
  hearing user (Some <$> render_obj (begin_fields n text) :: answers ++ [render_obj (commit_fields last_text)]) k ->
  length answers = length (omap typed_edit lines) -> k_stdin k = concat (line <$> lines) ++ line stop ++ rest ->
  exists k', ss_write_session host port file user tok (Z.of_nat n) k = (0%Z, k') /\
    k_sent k' = k_sent k ++ ((fun m => (SsConn host port, m)) <$>
      render_obj (visit_fields (cs "WRITE_BEGIN") file user tok (Some (Z.of_nat n))) :: (insert_json <$> omap typed_edit lines) ++ [commit_json]).
Proof.
  intros F2 U2 T2 Hn [Hl Hstop Hcommit] (Hu & Hsend & Hcon & Harr) Ha Hin. unfold ss_write_session. unfold mbind at 1, M_bind at 1.
  destruct (net_connect_works k Hcon) as (k1 & -> & E1 & E2 & E3 & E4 & E5). cbn [negb].
  rewrite (ss_payload_render (cs "WRITE_BEGIN") file user tok (Some (Z.of_nat n)))
    by (done || (cbn; lia) || (unfold INT_MIN, INT_MAX in *; lia)).
  unfold mbind at 1, M_bind at 1. rewrite fmap_cons, fmap_app in Harr.
  rewrite (send_request_answer _ _ k1 (render_obj (begin_fields n text)) ((Some <$> answers) ++ [Some (render_obj (commit_fields last_text))]))
    by (rewrite ?E2, ?E3; done).
  rewrite rendered_ok by (done || apply begin_fields_keys). cbn [negb]. cbv zeta.
  set (c := SsConn host port). set (k2 := asked c _ k1). unfold mbind at 1, M_bind at 1.
  destruct (print _ k2) as [u k3] eqn:E6. unfold mbind at 1, M_bind at 1.
  assert (k_sent k3 = k_sent k2 /\ k_sends k3 = [] /\ k_arrivals k3 = (Some <$> answers) ++ [Some (render_obj (commit_fields last_text))] /\
    k_stdin k3 = concat (line <$> lines) ++ line stop ++ rest) as (G1 & G2 & G3 & G4).
  { unfold print in E6. injection E6 as _ <-. cbn. rewrite E2, E3, E4, Hsend, Harr. by split_and!. }
  unfold edit_lines.
  destruct (edit_loop_typed c (S (length (k_stdin k3))) lines stop rest answers [Some (render_obj (commit_fields last_text))] k3) as (k4 & -> & [T1 T3 T4 T5]); try done.
  { rewrite G4, length_app. pose proof (length_lines lines). lia. }
  unfold mbind at 1, M_bind at 1.
  destruct (finish_write_commits c (render_obj (commit_fields last_text)) k4) as (k5 & -> & Ek); [done|done|by apply rendered_ok; [apply commit_fields_keys|]|].
  eexists. split; [reflexivity|]. rewrite Ek, T1, G1. unfold k2. cbn [k_sent asked]. 
  rewrite E1, fmap_cons, fmap_app, <- list_fmap_compose, <- !app_assoc. done.
Qed.

Lemma client_writes file user tok ss n text lines stop rest answers k last_text :
  names_fit file user tok ss -> (0 <= Z.of_nat n <= INT_MAX)%Z -> typing lines stop ->
  hearing user (Some <$> render_obj (endpoint_fields file (cs "WRITE") tok ss (Some (Z.of_nat n))) ::
                render_obj (begin_fields n text) :: answers ++ [render_obj (commit_fields last_text)]) k ->
  length answers = length (omap typed_edit lines) -> k_stdin k = concat (line <$> lines) ++ line stop ++ rest ->
  fst (run_command (Write file (Z.of_nat n)) k) = 0%Z /\
  k_sent (snd (run_command (Write file (Z.of_nat n)) k)) =
    k_sent k ++ (NmConn, request_json user (Write file (Z.of_nat n))) ::
      ((fun m => (SsConn (ss_host ss) (ss_data_port ss), m)) <$>
        render_obj (visit_fields (cs "WRITE_BEGIN") file user tok (Some (Z.of_nat n))) :: (insert_json <$> omap typed_edit lines) ++ [commit_json]).
Proof.
  intros Hfit Hn Hty Hk Ha Hin. assert (operation (cs "WRITE")) as Hop by (right; by right).
  cbn [run_command]. unfold handle_write_cmd.
  match goal with |- context [endpoint_cmd _ _ ?body ?session] =>
    destruct (endpoint_cmd_run (cs "WRITE") file (Z.of_nat n) user tok ss body session _ k Hop Hfit Hn Hk) as (k1 & -> & Hk1 & ->); [done|] end.
  pose proof (endpoint_fields_keys file (cs "WRITE") tok ss (Some (Z.of_nat n))) as Hkeys.
  change (op_sentence (cs "WRITE") (Z.of_nat n)) with (Some (Z.of_nat n)).
  rewrite json_get_int_field; [|done|done|cbn; lia|].
  2: { unfold long_fields, endpoint_fields. cbn [app forallb snd andb]. by rewrite long_int by (unfold INT_MIN, INT_MAX in *; lia). }
  change (field_int (endpoint_fields file (cs "WRITE") tok ss (Some (Z.of_nat n))) (cs "sentence")) with (Some (Z.of_nat n)).
  cbn [fmap option_fmap option_map default from_option id]. rewrite to_int_id by (unfold INT_MIN, INT_MAX in *; lia).
  destruct Hfit as [[F1 F2] [U1 U2] [T1 T2] _ _ _].
  destruct (ss_write_run (ss_host ss) (ss_data_port ss) file user tok n text lines stop rest answers
    (asked NmConn (request_json user (ticket_command (cs "WRITE") file (Z.of_nat n))) k) last_text) as (k' & -> & Es); try done.
  cbn [fst snd]. split; [done|]. rewrite Es. cbn [k_sent asked]. by rewrite <- app_assoc.
Qed.

(** The edits typed are numbers the storage server reads back. *)
Lemma typed_edits_fit lines : Forall (fun e => INT_MIN <= fst e <= INT_MAX)%Z (omap typed_edit lines).
Proof.
  induction lines as [|l lines IH]; [done|]. cbn. unfold typed_edit at 1. destruct (parse_edit (line l)) eqn:E; try done.
  constructor; [|done]. by destruct (parse_edit_insert _ _ _ E).
Qed.

(** C4: What a writer types is what the storage server commits, through all three programs.
    Suppose a user with write access opens a sentence of a document whose primary server is
    online and on which nobody else writes; the names and addresses fit the programs' buffers
    and need no escaping; the sentence, and the document the edits lead to, are at most 3,500
    bytes long when escaped, so that the server's answers fit; every line typed is shorter than
    511 characters (a longer one is read in pieces, see [long_line_splits]); the clock
    in seconds still fits an [int]; and no system call or message fails.  The name manager announces a ticket and sends the client to that server;
    the client, whatever such lines are typed until the commit, sends the messages of its
    session, one for each edit among the lines, and the last for the commit; and on these
    messages, the first within the ticket's time, the server leaves the document on disk in
    which the sentence is replaced by what the edits, one after the other, make of it, the
    other sentences as they were.  The answers the client needs to go on are those the servers
    give, and it reports success. *)
Theorem typed_edits_committed ask shell rpc strerror p file tok i f ss now c now1 now2 w text n v lines stop
  (Hfit : names_fit file (p_user p) tok ss) (Hnow : (0 <= now <= INT_MAX - TICKET_TTL)%Z) (Hlate : (now2 <= now + TICKET_TTL)%Z)
  (Hg : granted p file NM_PERM_WRITE tok i f ss c) (Hw : writable file (p_user p) text n v w) (Hty : typing lines stop) :
  let request := request_json (p_user p) (Write file (Z.of_nat n)) in
  let doc := join_sentences (rewritten (p_user p) n text (omap typed_edit lines)) in
  length (escape doc) <= 3500 ->
  exists extra endpoint command c' begin edits answers,
    handle_client_message ask shell p request now c = (ROk extra, true, c') /\
    reply_json (ROk extra) = Some endpoint /\
    x_forwarded c' = x_forwarded c ++ [(ss_ctrl_fd ss, command)] /\
    (let w1 := process_nm_command rpc strerror command now1 w in
     let w2 := handle_data_client begin edits now2 w1 in
     w_nm w1 = w_nm w ++ [ticket_answer] /\
     files (w_disk w2) !! data_path v = Some doc /\
     w_peer w2 = w_peer w ++ answers) /\
    (forall k rest, hearing (p_user p) (Some <$> endpoint :: answers) k -> k_stdin k = concat (line <$> lines) ++ line stop ++ rest ->
     fst (run_command (Write file (Z.of_nat n)) k) = 0%Z /\
     k_sent (snd (run_command (Write file (Z.of_nat n)) k)) =
       k_sent k ++ (NmConn, request) :: ((fun m => (SsConn (ss_host ss) (ss_data_port ss), m)) <$> begin :: edits)).
Proof.
  intros request doc Hdoc. assert (operation (cs "WRITE")) as Hop by (right; by right).
  pose proof (small_int n _ (wr_small _ _ _ _ _ _ Hw) (wr_index _ _ _ _ _ _ Hw)) as Hn.
  destruct (nm_grants ask shell p (cs "WRITE") file (Z.of_nat n) tok i f ss now c Hop Hfit Hnow Hn Hg) as (extra & c' & E1 & E2 & E3).
  pose proof Hfit as [[F1 F2] [U1 U2] [T1 T2] _ _ _].
  pose proof (ss_announced rpc strerror p file (cs "WRITE") tok ss now now1 w Hop Hfit Hnow) as Ea. set (w1 := process_nm_command _ _ _ _ _) in Ea.
  destruct (visit_write file (p_user p) text n v tok (omap typed_edit lines) now now2 (w_tickets w) w1) as (answers & D & L & P); try done.
  { rewrite Ea. destruct Hw as [Hs ? ? ? ? ? ?]. destruct Hs. split; [by split|done..]. }
  { apply typed_edits_fit. }
  { by rewrite Ea. }
  do 4 eexists. exists (render_obj (visit_fields (cs "WRITE_BEGIN") file (p_user p) tok (Some (Z.of_nat n)))),
    ((insert_json <$> omap typed_edit lines) ++ [commit_json]),
    (render_obj (begin_fields n text) :: answers ++ [render_obj (commit_fields doc)]).
  split_and!; [exact E1|exact E3|exact E2| |].
  - cbv zeta. fold w1. split; [by rewrite Ea|]. split; [exact D|]. rewrite P. by rewrite Ea.
  - intros k rest Hk Hin. exact (client_writes file (p_user p) tok ss n text lines stop rest answers k doc Hfit Hn Hty Hk L Hin).
Qed.

Lemma demo_writable : writable (cs "a") (cs "ann") (cs "Hi there. Bye.") 1 demo_file (demo_ss (cs "Hi there. Bye.")).
Proof.
  split; [apply demo_serves; repeat constructor; discriminate|by eexists|split; [apply demo_good_paths|split; vm_compute; discriminate]
         |reflexivity|vm_compute; lia|by eexists|vm_compute; lia].
Qed.

Definition demo_lines : list cstr := [cs "0 Good"; cs "what"; cs "1 old"].

Lemma demo_typing : typing demo_lines (cs "ETIRW").
Proof.
  assert (forall l, plain l -> length l < 511 -> typed_line l) as H by (intros l Hp Hl; by split).
  split; [repeat apply Forall_cons_2; [split; [apply H; [repeat constructor; discriminate|cbn; lia]|vm_compute; discriminate]..|constructor]
         |apply H; [repeat constructor; discriminate|cbn; lia]|reflexivity].
Qed.

Lemma typed_edits_committed_witness :
  writable (cs "a") (cs "ann") (cs "Hi there. Bye.") 1 demo_file (demo_ss (cs "Hi there. Bye.")) /\ typing demo_lines (cs "ETIRW") /\
  exists endpoint command begin edits answers,
    x_forwarded (snd (handle_client_message (fun _ _ => None) (fun _ => None) demo_ann (request_json (cs "ann") (Write (cs "a") 1)) 100 demo_nm)) =
      [(5%Z, command)] /\
    files (w_disk (handle_data_client begin edits 101
      (process_nm_command (fun _ _ _ => None) (fun _ => []) command 100 (demo_ss (cs "Hi there. Bye."))))) !! data_path demo_file =
      Some (line (cs "Hi there.") ++ cs "Good old Bye.") /\
    fst (run_command (Write (cs "a") 1) (demo_client (Some <$> endpoint :: answers) (concat (line <$> demo_lines) ++ line (cs "ETIRW") ++ []))) = 0%Z.
Proof.
  split; [apply demo_writable|]. split; [apply demo_typing|]. destruct (demo_nm_granted NM_PERM_WRITE ltac:(by right)) as [f Hg].
  destruct (typed_edits_committed (fun _ _ => None) (fun _ => None) (fun _ _ _ => None) (fun _ => []) demo_ann (cs "a") (cs "t1") 0 f
    (demo_server (cs "ss1")) 100 demo_nm 100 101 (demo_ss (cs "Hi there. Bye.")) (cs "Hi there. Bye.") 1 demo_file demo_lines (cs "ETIRW")
    demo_names_fit ltac:(vm_compute; split; discriminate) ltac:(vm_compute; discriminate) Hg demo_writable demo_typing ltac:(vm_compute; lia))
    as (extra & endpoint & command & c' & begin & edits & answers & H1 & _ & H3 & (_ & H4 & _) & H5).
  change (p_user demo_ann) with (cs "ann") in *. change (Z.of_nat 1) with 1%Z in *.
  exists endpoint, command, begin, edits, answers. split; [|split].
  - rewrite H1. exact H3.
  - rewrite H4. vm_compute. reflexivity.
  - apply (H5 _ []); [by split_and!|reflexivity].
Defined.
