(* ===== verification/EndToEndStart.v ===== *)
(** * A storage server registers with the name manager

    The message a storage server sends when it starts is the one the name manager enters in
    its table, and the answer of the name manager is the one the storage server waits for. *)

From S2P Require Import NmState NmPersist NmServer NmRequests NmReplica NmSystem.
From S2P Require Import Prelude Keyed Cstr Json Proto Fs SsText SsState SsSession SsTables SsServer SsConcurrent SsStart.
From S2P Require Import CliRequests EndToEnd.

Definition register_fields (id host port files : cstr) : list (cstr * jval) :=
  [(cs "type", JStr (cs "SS_REGISTER")); (cs "ssId", JStr id); (cs "host", JStr host); (cs "ctrlPort", JStr (cs "0"));
   (cs "dataPort", JStr port); (cs "files", JStr files)].

(** What fits the buffers of both programs. *)
Record registrable (id host port files : cstr) : Prop := {
  rg_id : length id < 64;
  rg_host : length host < 64;
  rg_port : plain_text port /\ length port < 16;
  rg_files : 2 * length files < 1024;
}.

Lemma register_payload_render id host port files :
  registrable id host port files ->
  register_payload id host (cs "0") port files = Some (render_obj (register_fields id host port files)).
Proof.
  intros [H1 H2 [P H3] H4]. unfold register_payload. rewrite !json_escape_fits by lia. cbn [mbind option_bind].
  assert (js "{'type':'SS_REGISTER','ssId':'" ++ escape id ++ js "','host':'" ++ escape host ++ js "','ctrlPort':'" ++ cs "0" ++
          js "','dataPort':'" ++ port ++ js "','files':'" ++ escape files ++ js "'}" = render_obj (register_fields id host port files)) as E.
  { unfold register_fields, plain_text in *. rewrite <- P at 1. clear. solve_render. }
  rewrite <- E. apply fit_id. rewrite !length_app. pose proof (length_escape_le id). pose proof (length_escape_le host). pose proof (length_escape_le files).
  cbn [length js map cs String.list_ascii_of_string]. unfold MAX_JSON. lia.
Qed.

Lemma assign_missing_state c : x_state (assign_missing c) = x_state c.
Proof.
  unfold assign_missing. generalize (nm_files (x_state c)). intros l. revert c. induction l as [|f l IH]; intros c; cbn [foldl]; [done|].
  rewrite IH. case_match; [|done]. by destruct (try_assign_queues (f_name f) c).
Qed.

(** ** The name manager's side *)

(** The answer. *)
Definition role_answer : cstr := js "{'status':'OK','role':'SS'}".

(** There is room for the server, or it is known. *)
Definition has_room (id : cstr) (s : nm_state) : Prop :=
  length (servers s) < NM_MAX_SERVERS \/ exists x, x ∈ servers s /\ ss_id x = id.

(** The entry of a server that registers, wherever it ends up. *)
Lemma nm_register_server_spec id host port fd s :
  length id < 64 -> length host < 64 -> length port < 16 -> has_room id s ->
  exists idx s', nm_register_server id host (cs "0") port fd s = (Some idx, s') /\
    servers s' !! idx = Some (mk_server id host (cs "0") port fd 1) /\
    (forall j, j <> idx -> j < length (servers s) -> servers s' !! j = servers s !! j) /\ nm_files s' = nm_files s.
Proof.
  intros Hid Hh Hp Hroom. unfold nm_register_server. rewrite !(snprintf_s_id NM_MAX_NAME) by (unfold NM_MAX_NAME; lia).
  rewrite (snprintf_s_id 16 port), (snprintf_s_id 16 (cs "0")) by (done || cbn; lia).
  destruct (find_first (key_is ss_id id) (servers s)) as [[i x]|] eqn:E.
  - apply find_first_Some in E as (Hi & Hx & _). apply bool_decide_eq_true in Hx. eexists _, _. split; [done|]. rewrite Hx.
    cbn [servers set_servers]. split_and!; [apply list_lookup_insert_eq; by eapply lookup_lt_Some|intros j Hj _; by apply list_lookup_insert_ne|done].
  - destruct Hroom as [Hr|(x & Hx & Hxi)].
    + destruct (Nat.leb_spec NM_MAX_SERVERS (length (servers s))); [lia|]. eexists _, _. split; [done|]. cbn [servers set_servers].
      split_and!; [by rewrite lookup_app_r, Nat.sub_diag by done|intros j _ Hj; by rewrite lookup_app_l|done].
    + exfalso. apply find_first_None in E. rewrite Forall_forall in E. specialize (E x Hx). by apply bool_decide_eq_false in E.
Qed.

(** ** The two together *)

Lemma role_answer_status : reply_json (ROk (js "'role':'SS'")) = Some role_answer /\ json_get_string role_answer (cs "status") 16 = Some (cs "OK").
Proof. split; vm_compute; reflexivity. Qed.

Lemma ticket_command_sent m w : exists more, w_nm (handle_nm_ticket_command m w) = w_nm w ++ more.
Proof.
  assert (forall r w, exists more, w_nm (answer_nm r w) = w_nm w ++ more) as Ha.
  { intros r w'. unfold answer_nm. destruct (reply_json r) as [j|]; [by exists [j]|exists []; by rewrite app_nil_r]. }
  unfold handle_nm_ticket_command. repeat case_match; try apply Ha.
  match goal with |- context [answer_nm ?r ?x] => destruct (Ha r x) as [more E] end. by exists more.
Qed.

Lemma register_loop_sent msgs w : exists more, w_nm (snd (register_loop msgs w)) = w_nm w ++ more.
Proof.
  revert w. induction msgs as [|m msgs IH]; intros w; cbn [register_loop]; [exists []; by rewrite app_nil_r|].
  destruct (json_get_string m (cs "status") 16); [exists []; by rewrite app_nil_r|].
  destruct (json_get_string m (cs "type") 64) as [type|]; [|apply IH]. destruct (streq type _); [|apply IH].
  destruct (IH (handle_nm_ticket_command m w)) as [more E]. destruct (ticket_command_sent m w) as [more' E']. exists (more' ++ more).
  by rewrite E, E', app_assoc.
Qed.

Lemma register_loop_prefix before m rest status w :
  Forall (fun m => json_get_string m (cs "status") 16 = None) before -> json_get_string m (cs "status") 16 = Some status ->
  fst (register_loop (before ++ m :: rest) w) = Some (status, rest).
Proof.
  intros Hb Hm. revert w. induction Hb as [|b before Hb _ IH]; intros w; cbn [app register_loop]; [by rewrite Hm|].
  rewrite Hb. destruct (json_get_string b (cs "type") 64); apply IH.
Qed.

(** The name manager on the message of a storage server. *)
Lemma payload_registers id host port files p now c :
  registrable id host port files -> p_type p = PeerUnknown -> has_room id (x_state c) ->
  exists idx,
    let '(answer, go, p', c') :=
      dispatch_message (fun _ _ => None) (fun _ => None) [] p (render_obj (register_fields id host port files)) now c in
    (answer ≫= reply_json) = Some role_answer /\ go = true /\ p_type p' = PeerServer /\ p_server_index p' = Z.of_nat idx /\
    nm_get_server (x_state c') (p_server_index p') = Some (mk_server id host (cs "0") port (p_fd p) 1) /\
    (forall j, j <> idx -> j < length (servers (x_state c)) -> servers (x_state c') !! j = servers (x_state c) !! j) /\
    nm_files (x_state c') = nm_files (x_state c).
Proof.
  intros [F1 F2 [F3 F4] F5] Hpeer Hroom. set (fs := register_fields id host port files).
  destruct (nm_register_server_spec id host port (p_fd p) (x_state c)) as (idx & s' & Er & Hi & Hj & Hf); [done..|]. exists idx.
  assert (forall key n, good_key key = true -> length key + 4 < 128 -> json_get_string (render_obj fs) key n =
    match field_str fs key with Some v => if length v <? n then Some v else None | None => None end) as Hget.
  { intros key n Hk Hl. apply json_get_string_lookup; [done| |done]. repeat constructor. }
  unfold dispatch_message. rewrite Hpeer. unfold handle_handshake. rewrite Hget by (done || cbn; lia).
  change (field_str fs (cs "type")) with (Some (cs "SS_REGISTER")). cbv iota beta. change (length (cs "SS_REGISTER") <? 64) with true. cbv iota.
  change (streq (cs "SS_REGISTER") (cs "SS_REGISTER")) with true. cbv iota. unfold handle_ss_register.
  rewrite !Hget by (done || cbn; lia).
  change (field_str fs (cs "ssId")) with (Some id). change (field_str fs (cs "host")) with (Some host).
  change (field_str fs (cs "ctrlPort")) with (Some (cs "0")). change (field_str fs (cs "dataPort")) with (Some port).
  cbv iota beta. rewrite (proj2 (Nat.ltb_lt _ _) F1), (proj2 (Nat.ltb_lt _ _) F2), (proj2 (Nat.ltb_lt _ _) F4).
  change (length (cs "0") <? 16) with true. cbv iota. unfold in_state. rewrite Er. cbv beta iota zeta.
  rewrite assign_missing_state. cbn [x_state with_state p_type p_server_index with_role]. split_and!; try done.
  unfold nm_get_server. destruct (Z.ltb_spec (Z.of_nat idx) 0); [lia|]. by rewrite Nat2Z.id.
Qed.

(** The storage server's side of it. *)
Lemma register_sends env q fd before rest :
  let fs := register_fields (s_id q) (s_host q) (s_data_port q) (file_list env (fst (s_system q))) in
  registrable (s_id q) (s_host q) (s_data_port q) (file_list env (fst (s_system q))) ->
  e_nm env = Some fd -> e_registering env = before ++ role_answer :: rest ->
  Forall (fun m => json_get_string m (cs "status") 16 = None) before ->
  fst (register env q) = Some rest /\
  exists more, w_nm (fst (s_system (snd (register env q)))) = w_nm (fst (s_system q)) ++ render_obj fs :: more.
Proof.
  intros fs Hfit Hconn Hmsgs Hbefore. unfold register. rewrite Hconn. cbv zeta. cbn [with_fds s_id s_host s_data_port s_system fst snd].
  rewrite (register_payload_render _ _ _ _ Hfit). fold fs. rewrite on_world_system. cbn [with_fds s_system fst].
  set (w0 := snd (send_nm (Some (render_obj fs)) (fst (s_system q)))).
  assert (w_nm w0 = w_nm (fst (s_system q)) ++ [render_obj fs]) as E0 by done.
  pose proof (register_loop_prefix before role_answer rest _ w0 Hbefore (proj2 role_answer_status)) as El.
  destruct (register_loop_sent (e_registering env) w0) as [more Em]. rewrite Hmsgs in *.
  destruct (register_loop (before ++ role_answer :: rest) w0) as [r w1]. cbn [fst snd] in El, Em. subst r.
  split; [done|]. exists more. cbn. by rewrite Em, E0, <- app_assoc.
Qed.

(** C28: A storage server and the name manager agree on a registration.  What the server sends
    first is read by the name manager as the server's identity, its host and its data port; when
    there is room the connection becomes that of a storage server, its entry in the table has
    exactly these and is online, every other server and document stays as it was, and the
    answer is the one that ends the server's waiting, whatever tickets and other messages
    without a status came before it. *)
Theorem registration_agreed env q fd before rest p now c
  (Hfit : registrable (s_id q) (s_host q) (s_data_port q) (file_list env (fst (s_system q))))
  (Hconn : e_nm env = Some fd)
  (Hmsgs : e_registering env = before ++ role_answer :: rest)
  (Hbefore : Forall (fun m => json_get_string m (cs "status") 16 = None) before)
  (Hpeer : p_type p = PeerUnknown)
  (Hroom : has_room (s_id q) (x_state c)) :
  exists payload idx more,
    w_nm (fst (s_system (snd (register env q)))) = w_nm (fst (s_system q)) ++ payload :: more /\
    fst (register env q) = Some rest /\
    let '(answer, go, p', c') := dispatch_message (fun _ _ => None) (fun _ => None) [] p payload now c in
    (answer ≫= reply_json) = Some role_answer /\ go = true /\ p_type p' = PeerServer /\ p_server_index p' = Z.of_nat idx /\
    nm_get_server (x_state c') (p_server_index p') = Some (mk_server (s_id q) (s_host q) (cs "0") (s_data_port q) (p_fd p) 1) /\
    (forall j, j <> idx -> j < length (servers (x_state c)) -> servers (x_state c') !! j = servers (x_state c) !! j) /\
    nm_files (x_state c') = nm_files (x_state c).
Proof.
  destruct (payload_registers (s_id q) (s_host q) (s_data_port q) (file_list env (fst (s_system q))) p now c Hfit Hpeer Hroom) as [idx Hnm].
  destruct (register_sends env q fd before rest Hfit Hconn Hmsgs Hbefore) as [H1 [more H2]].
  eexists _, idx, more. split; [exact H2|]. split; [exact H1|exact Hnm].
Qed.

(** The storage server of [demo_ss_env], and a name manager that knows another one. *)
Definition demo_unregistered : ss_process :=
  mk_ss_process (cs "ss1") (cs "localhost") (cs "9000") (-1) (-1) (demo_world [], ∅) (mk_dirs ∅ []) true [].

Lemma registration_agreed_witness :
  exists payload more,
    w_nm (fst (s_system (snd (register demo_ss_env demo_unregistered)))) = payload :: more /\
    fst (register demo_ss_env demo_unregistered) = Some [js "{'type':'PING'}"] /\
    let '(answer, go, p', c') := dispatch_message (fun _ _ => None) (fun _ => None) [] (mk_peer 7 PeerUnknown (-1) []) payload 100 demo_start in
    go = true /\ nm_get_server (x_state c') (p_server_index p') = Some (mk_server (cs "ss1") (cs "localhost") (cs "0") (cs "9000") 7 1).
Proof.
  destruct (registration_agreed demo_ss_env demo_unregistered 4
    [js "{'type':'NM_TICKET','token':'t1','file':'a','user':'ann','op':'READ','expiry':900}"; js "{'type':'PING'}"] [js "{'type':'PING'}"]
    (mk_peer 7 PeerUnknown (-1) []) 100 demo_start) as (payload & idx & more & H1 & H2 & H3).
  - split; [vm_compute; lia|vm_compute; lia|split; [reflexivity|vm_compute; lia]|vm_compute; lia].
  - reflexivity.
  - reflexivity.
  - repeat constructor.
  - reflexivity.
  - left. vm_compute. lia.
  - exists payload, more. split; [exact H1|]. split; [exact H2|].
    destruct (dispatch_message _ _ _ _ payload _ _) as [[[answer go] p'] c']. destruct H3 as (_ & G & _ & _ & S & _).
    split; [exact G|exact S].
Defined.
